(** * WeFlow: encrypted store access and media decryption engine

    A shallow embedding of the parts of [electron/services/imageDecryptService.ts]
    and of the chat service that the specification's testable properties talk
    about: the image container decryptor, the hardlink path resolver, the
    message cursor manager, the batch order normalizer, the voice lookup and
    the sharing of decryption and transcription work in flight.

    Conventions.
    - A Node [Buffer] is a [list byte]; a byte is read as its unsigned value
      with [u8] and stored with [to_u8], which keeps the low eight bits as a
      store into a [Buffer] does.
    - A JavaScript number that the code uses as an integer is a [Z]; the
      32-bit wrap-around of the bit operators is written out with [toInt32].
    - A function that throws returns [Err e]; [e] names the thrown message.
    - A JavaScript [Map] keyed by strings is a [gmap string _]; where the
      code relies on the insertion order it is an association list.
    - The database service, the file system walk, the block cipher and the
      built-ins of JavaScript and Node are parameters of the sections that
      use them; small stand-ins for them serve to run the definitions. *)

From Stdlib Require Import ZArith Lia Bool List.
From Stdlib Require Import Strings.Byte Strings.Ascii.
From stdpp Require Import base option list strings gmap pretty.
Import ListNotations.

Local Open Scope Z_scope.

(** ** Results of operations that may throw *)

Inductive error : Type :=
| EFileMissing      (* getDatVersion: the file does not exist *)
| ENoEnt            (* readFileSync on a missing file *)
| ETooSmall         (* the container is shorter than its header *)
| EAesLength        (* the AES region is longer than the body *)
| EXorLength        (* the XOR length is not legal *)
| ERawLength        (* the raw length is smaller than the XOR length *)
| ENeed4Bytes       (* bytesToInt32 on something else than 4 bytes *)
| EKeyTooShort      (* asciiKey16 on fewer than 16 characters *)
| EPadEmpty         (* the decrypted region is empty *)
| EPadLength        (* the PKCS7 padding length is not legal *)
| EPadContent       (* a PKCS7 padding byte is not the padding length *)
| EKeyConfig        (* no usable configured image key *)
| ECipherKey        (* createDecipheriv: invalid key length *)
| ECipherBlock.     (* decipher.final: wrong final block length *)

Inductive result (A : Type) : Type :=
| Ok (a : A)
| Err (e : error).
Arguments Ok {A} a.
Arguments Err {A} e.

Definition rbind {A B} (r : result A) (k : A -> result B) : result B :=
  match r with
  | Ok a => k a
  | Err e => Err e
  end.

Notation "'let!' x ':=' r 'in' k" := (rbind r (fun x => k))
  (at level 10, x name, r at level 100, k at level 200).

Definition is_err {A} (r : result A) : bool :=
  match r with Ok _ => false | Err _ => true end.

(** The errors the specification calls format errors: an undersized
    container, region lengths that do not fit and invalid padding. *)
Definition format_error (e : error) : bool :=
  match e with
  | ETooSmall | EAesLength | EXorLength | ERawLength
  | EPadEmpty | EPadLength | EPadContent => true
  | _ => false
  end.

(** ** Bytes and buffers *)

#[global] Instance byte_eq_decision : EqDecision byte := Byte.byte_eq_dec.

Module Buf.

Definition u8 (b : byte) : Z := Z.of_N (Byte.to_N b).

Definition to_u8 (z : Z) : byte :=
  match Byte.of_N (Z.to_N (z mod 256)) with
  | Some b => b
  | None => Byte.x00
  end.

(** ToInt32 of the ECMAScript specification, on integers. *)
Definition toInt32 (z : Z) : Z := (z + 2 ^ 31) mod 2 ^ 32 - 2 ^ 31.

(** [a ^ b] on numbers. *)
Definition js_xor (a b : Z) : Z := Z.lxor (toInt32 a) (toInt32 b).

(** [a | b] on numbers. *)
Definition js_or (a b : Z) : Z := Z.lor (toInt32 a) (toInt32 b).

(** [a << n] on numbers, for a shift count below 32. *)
Definition js_shl (a n : Z) : Z := toInt32 (Z.shiftl (toInt32 a) n).

Definition len (buf : list byte) : Z := Z.of_nat (length buf).

(** An index argument of [Buffer.prototype.subarray]: a negative index
    counts from the end, and every index is clamped to the buffer. *)
Definition relIndex (n i : Z) : Z :=
  if i <? 0 then Z.max (n + i) 0 else Z.min i n.

(** [buf.subarray(start, end)]. *)
Definition subarray (buf : list byte) (start end_ : Z) : list byte :=
  let s := relIndex (len buf) start in
  let e := relIndex (len buf) end_ in
  firstn (Z.to_nat (e - s)) (skipn (Z.to_nat s) buf).

(** [buf.subarray(start)]. *)
Definition subarray_from (buf : list byte) (start : Z) : list byte :=
  subarray buf start (len buf).

(** [buf[i]] for an index inside the buffer. *)
Definition get (buf : list byte) (i : nat) : Z := u8 (nth i buf Byte.x00).

(** [Buffer.from([...])] stores each number modulo 256. *)
Definition from (zs : list Z) : list byte := map to_u8 zs.

End Buf.

(** ** Strings *)

Module JsString.

(** ASCII lower case; the names handled here are ASCII. *)
Definition lowerAscii (c : Ascii.ascii) : Ascii.ascii :=
  let n := Ascii.nat_of_ascii c in
  if ((65 <=? n) && (n <=? 90))%nat then Ascii.ascii_of_nat (n + 32) else c.

Fixpoint toLowerCase (s : string) : string :=
  match s with
  | EmptyString => EmptyString
  | String c s' => String (lowerAscii c) (toLowerCase s')
  end.

Definition isHexDigit (c : Ascii.ascii) : bool :=
  let n := Ascii.nat_of_ascii c in
  (((48 <=? n) && (n <=? 57)) || ((65 <=? n) && (n <=? 70))
   || ((97 <=? n) && (n <=? 102)))%nat.

Definition isLowerLetter (c : Ascii.ascii) : bool :=
  let n := Ascii.nat_of_ascii c in ((97 <=? n) && (n <=? 122))%nat.

(** [hay.includes(needle)]. *)
Fixpoint includes (hay needle : string) : bool :=
  if String.prefix needle hay then true
  else
    match hay with
    | EmptyString => false
    | String _ hay' => includes hay' needle
    end.

(** [s.slice(0, -k)] for [k > 0]. *)
Definition dropLast (k : nat) (s : string) : string :=
  String.substring 0 (String.length s - k) s.

(** [s.endsWith(suffix)]. *)
Definition endsWith (s suffix : string) : bool :=
  (String.length suffix <=? String.length s)%nat
  && String.eqb
       (String.substring (String.length s - String.length suffix)
          (String.length suffix) s)
       suffix.

End JsString.

(** A file system as the decryptor sees it: [existsSync] and
    [readFileSync]. *)
Definition FS : Type := string -> option (list byte).

Definition existsSync (fs : FS) (p : string) : bool :=
  match fs p with Some _ => true | None => false end.

Definition readFileSync (fs : FS) (p : string) : result (list byte) :=
  match fs p with Some b => Ok b | None => Err ENoEnt end.

(** The file system that holds one file. *)
Definition singleFile (p : string) (content : list byte) : FS :=
  fun q => if String.eqb q p then Some content else None.

(** ** The image container decryptor *)

Module ImageDecryptService.
Import Buf.

(** [compareBytes]: same length and the same byte at every index. *)
Fixpoint compareBytes_from (a b : list byte) : bool :=
  match a, b with
  | [], _ => true
  | x :: a', y :: b' => if u8 x =? u8 y then compareBytes_from a' b' else false
  | _ :: _, [] => false
  end.

Definition compareBytes (a b : list byte) : bool :=
  if negb (len a =? len b) then false else compareBytes_from a b.

Definition sigV1 : list byte := from [0x07; 0x08; 0x56; 0x31; 0x08; 0x07].
Definition sigV2 : list byte := from [0x07; 0x08; 0x56; 0x32; 0x08; 0x07].

(** The version detector on the bytes of the container. *)
Definition getDatVersionOf (bytes : list byte) : Z :=
  if len bytes <? 6 then 0
  else
    let signature := subarray bytes 0 6 in
    if compareBytes signature sigV1 then 1
    else if compareBytes signature sigV2 then 2
    else 0.

Definition getDatVersion (fs : FS) (inputPath : string) : result Z :=
  if negb (existsSync fs inputPath) then Err EFileMissing
  else
    let! bytes := readFileSync fs inputPath in
    Ok (getDatVersionOf bytes).

(** [out[i] = data[i] ^ xorKey] for every index. *)
Definition xorBytes (data : list byte) (xorKey : Z) : list byte :=
  map (fun d => to_u8 (js_xor (u8 d) xorKey)) data.

Definition decryptDatV3 (fs : FS) (inputPath : string) (xorKey : Z)
  : result (list byte) :=
  let! data := readFileSync fs inputPath in
  Ok (xorBytes data xorKey).

(** The padding check loop of [strictRemovePadding], from index [i] on:
    [rest] holds the bytes at the indices [i], [i+1], ... *)
Fixpoint paddingOk (rest : list byte) (paddingLength : Z) : bool :=
  match rest with
  | [] => true
  | d :: rest' =>
      if negb (u8 d =? paddingLength) then false
      else paddingOk rest' paddingLength
  end.

Definition strictRemovePadding (data : list byte) : result (list byte) :=
  if len data =? 0 then Err EPadEmpty
  else
    let paddingLength := get data (Z.to_nat (len data - 1)) in
    if (paddingLength =? 0) || (paddingLength >? 16) || (paddingLength >? len data)
    then Err EPadLength
    else if negb (paddingOk (skipn (Z.to_nat (len data - paddingLength)) data)
                            paddingLength)
    then Err EPadContent
    else Ok (subarray data 0 (len data - paddingLength)).

(** [bytes[0] | (bytes[1] << 8) | (bytes[2] << 16) | (bytes[3] << 24)]:
    a little-endian signed 32-bit integer. *)
Definition bytesToInt32 (bytes : list byte) : result Z :=
  if negb (len bytes =? 4) then Err ENeed4Bytes
  else
    Ok (js_or (js_or (js_or (get bytes 0) (js_shl (get bytes 1) 8))
                     (js_shl (get bytes 2) 16))
              (js_shl (get bytes 3) 24)).

(** [Buffer.from(keyString, 'ascii')]: one byte for each character. *)
Definition bufferFromAscii (s : string) : list byte :=
  map Ascii.byte_of_ascii (String.list_ascii_of_string s).

Definition asciiKey16 (keyString : string) : result (list byte) :=
  if Z.of_nat (String.length keyString) <? 16 then Err EKeyTooShort
  else Ok (subarray (bufferFromAscii keyString) 0 16).

Definition defaultV1AesKey : string := "cfcd208495d565ef".

(** [resolveAesKey]: the configured key, trimmed; [trim] is
    [String.prototype.trim]. *)
Definition resolveAesKey (trim : string -> string) (aesKeyRaw : option string)
  : result (option (list byte)) :=
  let trimmed := match aesKeyRaw with Some raw => trim raw | None => "" end in
  if String.eqb trimmed "" then Ok None
  else
    let! key := asciiKey16 trimmed in
    Ok (Some key).

Section Cipher.

(** AES-128 in ECB mode on whole blocks, the primitive behind
    [crypto.createDecipheriv('aes-128-ecb', key, null)]; it is taken as
    given. *)
Variable aes128ecb : list byte -> list byte -> list byte.

(** [createDecipheriv], [setAutoPadding(false)], [update] and [final]:
    the key must have 16 bytes and, without automatic padding, the data a
    whole number of blocks. *)
Definition decipher (aesKey aesData : list byte) : result (list byte) :=
  if negb (len aesKey =? 16) then Err ECipherKey
  else if negb (len aesData mod 16 =? 0) then Err ECipherBlock
  else Ok (aes128ecb aesKey aesData).

(** The local values of [decryptDatV4], in the order the code computes
    them. *)
Definition v4_header (bytes : list byte) : list byte := subarray bytes 0 0x0f.
Definition v4_data (bytes : list byte) : list byte := subarray_from bytes 0x0f.

Definition v4_aesSize (bytes : list byte) : result Z :=
  bytesToInt32 (subarray (v4_header bytes) 6 10).
Definition v4_xorSize (bytes : list byte) : result Z :=
  bytesToInt32 (subarray (v4_header bytes) 10 14).

(** [aesSize + (16 - ((aesSize % 16) + 16) % 16)]; [%] is the truncating
    remainder. *)
Definition alignedAesSize (aesSize : Z) : Z :=
  let remainder := Z.rem (Z.rem aesSize 16 + 16) 16 in
  aesSize + (16 - remainder).

Definition v4_aesData (bytes : list byte) (aesSize : Z) : list byte :=
  subarray (v4_data bytes) 0 (alignedAesSize aesSize).

Definition v4_remaining (bytes : list byte) (aesSize : Z) : list byte :=
  subarray_from (v4_data bytes) (alignedAesSize aesSize).

(** [decryptDatV4] on the bytes of the container. The chat service has the
    same function on a buffer; the image service reads the file first. *)
Definition decryptDatV4Of (bytes : list byte) (xorKey : Z) (aesKey : list byte)
  : result (list byte) :=
  if len bytes <? 0x0f then Err ETooSmall
  else
    let! aesSize := v4_aesSize bytes in
    let! xorSize := v4_xorSize bytes in
    if alignedAesSize aesSize >? len (v4_data bytes) then Err EAesLength
    else
      let aesData := v4_aesData bytes aesSize in
      let! unpadded :=
        (if len aesData >? 0 then
           let! decrypted := decipher aesKey aesData in
           strictRemovePadding decrypted
         else Ok []) in
      let remaining := v4_remaining bytes aesSize in
      if (xorSize <? 0) || (xorSize >? len remaining) then Err EXorLength
      else
        let! parts :=
          (if xorSize >? 0 then
             let rawLength := len remaining - xorSize in
             if rawLength <? 0 then Err ERawLength
             else
               let rawData := subarray remaining 0 rawLength in
               let xorData := subarray_from remaining rawLength in
               Ok (rawData, xorBytes xorData xorKey)
           else Ok (remaining, [])) in
        Ok (unpadded ++ fst parts ++ snd parts).

Definition decryptDatV4 (fs : FS) (inputPath : string) (xorKey : Z)
  (aesKey : list byte) : result (list byte) :=
  let! bytes := readFileSync fs inputPath in
  decryptDatV4Of bytes xorKey aesKey.

(** [decryptDatAuto]; [aesKey] is [Buffer | null]. *)
Definition decryptDatAuto (fs : FS) (datPath : string) (xorKey : Z)
  (aesKey : option (list byte)) : result (list byte) :=
  let! version := getDatVersion fs datPath in
  if version =? 0 then decryptDatV3 fs datPath xorKey
  else if version =? 1 then
    let! key := asciiKey16 defaultV1AesKey in
    decryptDatV4 fs datPath xorKey key
  else
    match aesKey with
    | None => Err EKeyConfig
    | Some key =>
        if negb (len key =? 16) then Err EKeyConfig
        else decryptDatV4 fs datPath xorKey key
    end.

End Cipher.

End ImageDecryptService.

(** ** The path resolution of the image service *)

Module ImagePathResolver.
Import JsString.

(** A string that is set: [undefined], [null] and the empty string are
    falsy. *)
Definition given (o : option string) : option string :=
  match o with
  | Some v => if String.eqb v "" then None else Some v
  | None => None
  end.

(** [/^[a-fA-F0-9]{16,32}$/.test(value)]. *)
Definition looksLikeMd5 (value : string) : bool :=
  forallb isHexDigit (String.list_ascii_of_string value)
  && (16 <=? String.length value)%nat && (String.length value <=? 32)%nat.

Definition isThumbnailDat (fileName : string) : bool :=
  includes fileName ".t.dat" || includes fileName "_t.dat".

(** [/[._][a-z]$/.test(base)]. *)
Definition hasVariantSuffix (base : string) : bool :=
  match rev (String.list_ascii_of_string base) with
  | c :: sep :: _ =>
      isLowerLetter c
      && (Ascii.eqb sep "."%char || Ascii.eqb sep "_"%char)
  | _ => false
  end.

(** The loop of [normalizeDatBase]: strip a variant suffix as long as
    there is one; every round removes two characters. *)
Fixpoint stripVariants (rounds : nat) (base : string) : string :=
  match rounds with
  | O => base
  | S rounds' =>
      if hasVariantSuffix base then stripVariants rounds' (dropLast 2 base)
      else base
  end.

Definition normalizeDatBase (name : string) : string :=
  let base := toLowerCase name in
  let base :=
    if endsWith base ".dat" || endsWith base ".jpg" then dropLast 4 base
    else base in
  stripVariants (String.length base) base.

(** What the resolution does besides answering. *)
Inductive Effect : Type :=
| EHardlink (key : string) (answer : option string)   (* resolveHardlinkPath *)
| ESearch (datName : string)                          (* searchDatFile *)
| EWalk (root name : string).                         (* walkForDatInWorker *)

Definition isSearch (e : Effect) : bool :=
  match e with
  | EHardlink _ _ => false
  | _ => true
  end.

Section Resolver.

(** The collaborators: the lookup in the hardlink database, the directory
    walk in the worker, the file system and Node's [path]. *)
Context {World : Type}.
Variable resolveHardlinkPath :
  string -> string -> option string -> World -> option string * World.
Variable walkForDatInWorker :
  string -> string -> Z -> bool -> bool -> World -> option string * World.
Variable pathExists : string -> World -> bool.
Variable basename : string -> string.
Variable extname : string -> string.
Variable join : list string -> string.

Definition isThumbnailPath (filePath : string) : bool :=
  let lower := toLowerCase (basename filePath) in
  if isThumbnailDat lower then true
  else
    let ext := extname lower in
    let base :=
      if String.eqb ext "" then lower else dropLast (String.length ext) lower in
    endsWith base "_t" || endsWith base "_thumb".

Record ResolverState : Type := mkResolverState {
  resolvedCache : gmap string string;
  rworld : World;
  effects : list Effect
}.

Definition cacheSet (key value : string) (s : ResolverState) : ResolverState :=
  mkResolverState (<[key := value]> (resolvedCache s)) (rworld s) (effects s).

Definition note (e : Effect) (s : ResolverState) : ResolverState :=
  mkResolverState (resolvedCache s) (rworld s) (effects s ++ [e]).

Definition cacheDatPath (accountDir datName datPath : string)
  (s : ResolverState) : ResolverState :=
  let s1 := cacheSet (accountDir +:+ "|" +:+ datName) datPath s in
  let normalized := normalizeDatBase datName in
  if negb (String.eqb normalized "")
     && negb (String.eqb normalized (toLowerCase datName))
  then cacheSet (accountDir +:+ "|" +:+ normalized) datPath s1
  else s1.

Definition doHardlink (accountDir key : string) (sessionId : option string)
  (s : ResolverState) : option string * ResolverState :=
  let '(r, w) := resolveHardlinkPath accountDir key sessionId (rworld s) in
  (given r,
   mkResolverState (resolvedCache s) w (effects s ++ [EHardlink key (given r)])).

Definition searchDatFile (accountDir datName : string) (allowThumbnail : bool)
  (s0 : ResolverState) : option string * ResolverState :=
  let s := note (ESearch datName) s0 in
  let key := accountDir +:+ "|" +:+ datName in
  let cached := given (resolvedCache s !! key) in
  let hit :=
    match cached with
    | Some c =>
        if pathExists c (rworld s) && (allowThumbnail || negb (isThumbnailPath c))
        then Some c else None
    | None => None
    end in
  match hit with
  | Some c => (Some c, s)
  | None =>
      let root := join [accountDir; "msg"; "attach"] in
      if negb (pathExists root (rworld s)) then (None, s)
      else
        let s1 := note (EWalk root (toLowerCase datName)) s in
        let '(found, w) :=
          walkForDatInWorker root (toLowerCase datName) 8 allowThumbnail false
            (rworld s1) in
        let s2 := mkResolverState (resolvedCache s1) w (effects s1) in
        match given found with
        | Some f => (Some f, cacheSet key f s2)
        | None => (None, s2)
        end
  end.

(** A block of [resolveDatPath] either returns from the function or falls
    through to the next block. *)
Inductive Phase : Type :=
| Return (r : option string)
| Next.

(** [if (hardlinkPath) { ... }] after a hardlink lookup under [key];
    [alsoCache] is the second name the hit is cached under. *)
Definition afterHardlink (accountDir key : string) (alsoCache : option string)
  (allowThumbnail : bool) (hardlinkPath : option string) (s : ResolverState)
  : Phase * ResolverState :=
  match hardlinkPath with
  | Some p =>
      let isThumb := isThumbnailPath p in
      if allowThumbnail || negb isThumb then
        let s1 := cacheDatPath accountDir key p s in
        let s2 := match alsoCache with
                  | Some n => cacheDatPath accountDir n p s1
                  | None => s1
                  end in
        (Return (Some p), s2)
      else if negb allowThumbnail && isThumb then (Return None, s)
      else (Next, s)
  | None => (Next, s)
  end.

Definition resolveDatPath (accountDir : string)
  (imageMd5 imageDatName sessionId : option string)
  (allowThumbnail skipResolvedCache : bool) (s : ResolverState)
  : option string * ResolverState :=
  (* the lookups in the hardlink database *)
  let '(phase1, s1) :=
    match given imageMd5 with
    | Some md5 =>
        let '(hardlinkPath, sa) := doHardlink accountDir md5 sessionId s in
        match afterHardlink accountDir md5 (given imageDatName) allowThumbnail
                hardlinkPath sa with
        | (Return r, sb) => (Return r, sb)
        | (Next, sb) =>
            match given imageDatName with
            | Some datName =>
                if looksLikeMd5 datName && negb (String.eqb datName md5) then
                  let '(fallbackPath, sc) :=
                    doHardlink accountDir datName sessionId sb in
                  afterHardlink accountDir datName None allowThumbnail
                    fallbackPath sc
                else (Next, sb)
            | None => (Next, sb)
            end
        end
    | None =>
        match given imageDatName with
        | Some datName =>
            if looksLikeMd5 datName then
              let '(hardlinkPath, sa) := doHardlink accountDir datName sessionId s in
              afterHardlink accountDir datName None allowThumbnail hardlinkPath sa
            else (Next, s)
        | None => (Next, s)
        end
    end in
  match phase1 with
  | Return r => (r, s1)
  | Next =>
      if negb allowThumbnail then (None, s1)
      else
        match given imageDatName with
        | None => (None, s1)
        | Some datName =>
            let cachedHit :=
              if skipResolvedCache then None
              else
                match given (resolvedCache s1 !! datName) with
                | Some c =>
                    if pathExists c (rworld s1)
                       && (allowThumbnail || negb (isThumbnailPath c))
                    then Some c else None
                | None => None
                end in
            match cachedHit with
            | Some c => (Some c, s1)
            | None =>
                let '(datPath, s2) := searchDatFile accountDir datName allowThumbnail s1 in
                match datPath with
                | Some p =>
                    (Some p, cacheDatPath accountDir datName p (cacheSet datName p s2))
                | None =>
                    let normalized := normalizeDatBase datName in
                    if negb (String.eqb normalized (toLowerCase datName)) then
                      let '(normalizedPath, s3) :=
                        searchDatFile accountDir normalized allowThumbnail s2 in
                      match normalizedPath with
                      | Some p =>
                          (Some p,
                           cacheDatPath accountDir datName p (cacheSet datName p s3))
                      | None => (None, s3)
                      end
                    else (None, s2)
                end
            end
        end
  end.

End Resolver.

End ImagePathResolver.

(** ** Requests that share work in flight

    An [async] method runs from one [await] to the next without
    interruption. The two methods below are given by the stretch that
    consults the in-flight map, and by the later stretches that end the
    shared task; a promise is the number of the task it belongs to. *)

(** What a caller gets back: an answer made on the spot, or the promise of
    a task. *)
Inductive Reply (R : Type) : Type :=
| Now (r : R)
| Later (task : nat).
Arguments Now {R} r.
Arguments Later {R} task.

Module ImageFlight.
Import ImagePathResolver.

Record Payload : Type := mkPayload {
  imageMd5 : option string;
  imageDatName : option string;
  force : bool
}.

Record DecryptResult : Type := mkDecryptResult {
  d_success : bool;
  d_localPath : option string;
  d_error : option string;
  d_isThumb : option bool
}.

(** [payload.imageMd5 || payload.imageDatName]. *)
Definition cacheKeyOf (payload : Payload) : option string :=
  match given (imageMd5 payload) with
  | Some k => Some k
  | None => given (imageDatName payload)
  end.

Record ImageState : Type := mkImageState {
  resolvedCache : gmap string string;
  pending : gmap string nat;
  invoked : list (nat * string);   (* the calls of decryptImageInternal *)
  settled : list nat;              (* the tasks that have finished *)
  cleaned : list nat;              (* the tasks whose starter ran [finally] *)
  nextTask : nat
}.

Definition initial : ImageState := mkImageState ∅ ∅ [] [] [] 0.

Section Flight.

Variable existsSync : string -> bool.
Variable isImageFile : string -> bool.
(** [fileToDataUrl(cached) || filePathToUrl(cached)]. *)
Variable localUrl : string -> string.

(** The lookup in the resolved cache that a request without [force] makes:
    the usable cached path, and the cache after the removal of an entry
    that is no image file. *)
Definition cachedImage (cacheKey : string) (s : ImageState)
  : option string * ImageState :=
  match given (resolvedCache s !! cacheKey) with
  | Some cached =>
      if existsSync cached && isImageFile cached then (Some cached, s)
      else if negb (isImageFile cached) then
        (None, mkImageState (delete cacheKey (resolvedCache s)) (pending s)
                 (invoked s) (settled s) (cleaned s) (nextTask s))
      else (None, s)
  | None => (None, s)
  end.

(** [decryptImage] from the end of [await this.ensureCacheIndexed()] to
    its [return] or to [await task]. *)
Definition decryptImage (payload : Payload) (s : ImageState)
  : Reply DecryptResult * ImageState :=
  match cacheKeyOf payload with
  | None => (Now (mkDecryptResult false None (Some "缺少图片标识") None), s)
  | Some cacheKey =>
      let '(hit, s1) :=
        if force payload then (None, s) else cachedImage cacheKey s in
      match hit with
      | Some cached =>
          (Now (mkDecryptResult true (Some (localUrl cached)) None None), s1)
      | None =>
          match pending s1 !! cacheKey with
          | Some task => (Later task, s1)
          | None =>
              let task := nextTask s1 in
              (Later task,
               mkImageState (resolvedCache s1) (<[cacheKey := task]> (pending s1))
                 (invoked s1 ++ [(task, cacheKey)]) (settled s1) (cleaned s1)
                 (S task))
          end
      end
  end.

(** The end of [decryptImageInternal]: the task is settled; what it did to
    the resolved cache on its way is any change [cache']. *)
Definition settle (task : nat) (cache' : gmap string string) (s : ImageState)
  : ImageState :=
  mkImageState cache' (pending s) (invoked s) (settled s ++ [task]) (cleaned s)
    (nextTask s).

(** [finally { this.pending.delete(cacheKey) }] in the starter of [task]. *)
Definition finally_ (task : nat) (cacheKey : string) (s : ImageState)
  : ImageState :=
  mkImageState (resolvedCache s) (delete cacheKey (pending s)) (invoked s)
    (settled s) (cleaned s ++ [task]) (nextTask s).

(** [clearCache] up to its first [await]: the resolved cache and the
    in-flight map are emptied, whatever is in flight. *)
Definition clearCache (s : ImageState) : ImageState :=
  mkImageState ∅ ∅ (invoked s) (settled s) (cleaned s) (nextTask s).

(** What happens in one stretch of some caller or task. *)
Inductive Event : Type :=
| Requested (payload : Payload)
| Settled (task : nat) (cacheKey : string) (cache' : gmap string string)
| Cleaned (task : nat) (cacheKey : string)
| Cleared.

(** One stretch of some caller or task. *)
Inductive step : Event -> ImageState -> ImageState -> Prop :=
| step_request (payload : Payload) (s : ImageState) :
    step (Requested payload) s (decryptImage payload s).2
| step_settle (task : nat) (cacheKey : string) cache' (s : ImageState) :
    (task, cacheKey) ∈ invoked s -> task ∉ settled s ->
    step (Settled task cacheKey cache') s (settle task cache' s)
| step_finally (task : nat) (cacheKey : string) (s : ImageState) :
    (task, cacheKey) ∈ invoked s -> task ∈ settled s ->
    task ∉ cleaned s ->
    step (Cleaned task cacheKey) s (finally_ task cacheKey s)
| step_clear (s : ImageState) :
    step Cleared s (clearCache s).

Inductive reachable : ImageState -> Prop :=
| reach_initial : reachable initial
| reach_step (e : Event) (s s' : ImageState) :
    reachable s -> step e s s' -> reachable s'.

(** No task is in flight: every starter has run its [finally]. *)
Definition idle (s : ImageState) : Prop :=
  forall t k, (t, k) ∈ invoked s -> t ∈ cleaned s.

(** The states of the runs in which [clearCache] is called only while no
    task is in flight. *)
Inductive calm : ImageState -> Prop :=
| calm_initial : calm initial
| calm_step (e : Event) (s s' : ImageState) :
    calm s -> step e s s' -> (e = Cleared -> idle s) -> calm s'.

(** The tasks started for a key whose starter has not cleaned up yet. *)
Definition inFlight (cacheKey : string) (s : ImageState) : list nat :=
  fst <$> filter (fun p => p.2 = cacheKey /\ p.1 ∉ cleaned s) (invoked s).

(** What holds between the in-flight map and the calls made so far in
    every state, whatever was cleared: an entry of the map is a task that
    was started for its key and whose starter has not cleaned up. *)
Record Registered (s : ImageState) : Prop := mkRegistered {
  entry_invoked : forall k t,
    pending s !! k = Some t -> (t, k) ∈ invoked s /\ t ∉ cleaned s;
  task_below : forall k t, (t, k) ∈ invoked s -> (t < nextTask s)%nat;
  task_one_key : forall t k k',
    (t, k) ∈ invoked s -> (t, k') ∈ invoked s -> k = k';
  cleaned_known : forall t, t ∈ cleaned s -> exists k, (t, k) ∈ invoked s
}.

(** What holds besides as long as the map is not cleared while a task is
    in flight: every task in flight is the entry of its key. *)
Record Consistent (s : ImageState) : Prop := mkConsistent {
  pending_invoked : forall k t,
    pending s !! k = Some t -> (t, k) ∈ invoked s /\ t ∉ cleaned s;
  invoked_pending : forall k t,
    (t, k) ∈ invoked s -> t ∉ cleaned s -> pending s !! k = Some t;
  invoked_below : forall k t, (t, k) ∈ invoked s -> (t < nextTask s)%nat;
  invoked_one_key : forall t k k',
    (t, k) ∈ invoked s -> (t, k') ∈ invoked s -> k = k';
  cleaned_invoked : forall t, t ∈ cleaned s -> exists k, (t, k) ∈ invoked s
}.

(** A request consults the in-flight map when it is forced or finds no
    usable entry in the resolved cache. *)
Definition consultsMap (cacheKey : string) (s : ImageState) (payload : Payload)
  : Prop :=
  cacheKeyOf payload = Some cacheKey
  /\ (force payload = true \/ (cachedImage cacheKey s).1 = None).

(** Several requests, one after the other. *)
Fixpoint decryptImages (payloads : list Payload) (s : ImageState)
  : list (Reply DecryptResult) * ImageState :=
  match payloads with
  | [] => ([], s)
  | payload :: rest =>
      let '(reply, s1) := decryptImage payload s in
      let '(replies, s2) := decryptImages rest s1 in
      (reply :: replies, s2)
  end.

End Flight.

End ImageFlight.

Module TranscriptFlight.

Record TranscriptResult : Type := mkTranscriptResult {
  t_success : bool;
  t_transcript : option string;
  t_error : option string
}.

(** A request with its message time resolved; time 0 stands for a time
    that was not found. *)
Record Request : Type := mkRequest {
  sessionId : string;
  msgId : string;
  msgCreateTime : Z
}.

(** [getVoiceCacheKey]. *)
Definition getVoiceCacheKey (sessionId msgId : string) (createTime : Z) : string :=
  if createTime =? 0 then sessionId +:+ "_" +:+ msgId
  else sessionId +:+ "_" +:+ pretty createTime.

(** A [Map] with its insertion order. *)
Definition OrderedMap : Type := list (string * string).

Fixpoint mapGet (m : OrderedMap) (k : string) : option string :=
  match m with
  | [] => None
  | (k', v) :: m' => if String.eqb k' k then Some v else mapGet m' k
  end.

Fixpoint mapSet (m : OrderedMap) (k v : string) : OrderedMap :=
  match m with
  | [] => [(k, v)]
  | (k', v') :: m' =>
      if String.eqb k' k then (k', v) :: m' else (k', v') :: mapSet m' k v
  end.

Definition voiceCacheMaxEntries : nat := 50.

Definition cacheVoiceTranscript (m : OrderedMap) (cacheKey transcript : string)
  : OrderedMap :=
  let m1 := mapSet m cacheKey transcript in
  if (voiceCacheMaxEntries <? length m1)%nat then
    match m1 with
    | (oldestKey, _) :: rest => if String.eqb oldestKey "" then m1 else rest
    | [] => m1
    end
  else m1.

Record TranscriptState : Type := mkTranscriptState {
  voiceTranscriptCache : OrderedMap;
  voiceTranscriptPending : gmap string nat;
  started : list (nat * string);     (* the tasks created *)
  finished : list nat;               (* the tasks that ran their [finally] *)
  nextTask : nat
}.

Definition initial : TranscriptState := mkTranscriptState [] ∅ [] [] 0.

(** [getVoiceTranscript] from the point where the message time is known
    to its [return]. The body of a new task runs at once, up to its first
    [await], before the task is put into the in-flight map;
    [throwsAtOnce] says that it throws before it gets there, so that its
    [catch] and its [finally] (which finds no entry to take out) have run
    already when the task is put into the map. What the body starts with
    (the configuration service, the path of the cache directory, the call
    of the transcription service) is not part of this model, so both
    behaviours are kept. *)
Definition getVoiceTranscript (req : Request) (throwsAtOnce : bool)
  (s : TranscriptState) : Reply TranscriptResult * TranscriptState :=
  if msgCreateTime req =? 0 then
    (Now (mkTranscriptResult false None (Some "未找到消息时间戳")), s)
  else
    let cacheKey :=
      getVoiceCacheKey (sessionId req) (msgId req) (msgCreateTime req) in
    match ImagePathResolver.given (mapGet (voiceTranscriptCache s) cacheKey) with
    | Some cached => (Now (mkTranscriptResult true (Some cached) None), s)
    | None =>
        match voiceTranscriptPending s !! cacheKey with
        | Some task => (Later task, s)
        | None =>
            let task := nextTask s in
            (Later task,
             mkTranscriptState (voiceTranscriptCache s)
               (<[cacheKey := task]> (voiceTranscriptPending s))
               (started s ++ [(task, cacheKey)])
               (if throwsAtOnce then finished s ++ [task] else finished s)
               (S task))
        end
    end.

(** The last stretch of a task: a transcript is cached, and [finally]
    takes the entry out of the in-flight map. *)
Definition finish (task : nat) (cacheKey : string) (result : TranscriptResult)
  (s : TranscriptState) : TranscriptState :=
  let cache :=
    match t_success result, ImagePathResolver.given (t_transcript result) with
    | true, Some transcript =>
        cacheVoiceTranscript (voiceTranscriptCache s) cacheKey transcript
    | _, _ => voiceTranscriptCache s
    end in
  mkTranscriptState cache (delete cacheKey (voiceTranscriptPending s))
    (started s) (finished s ++ [task]) (nextTask s).

(** [clearCaches]: unless [includeMessages] is false, the transcript cache
    and the in-flight map are emptied, whatever is in flight. *)
Definition clearCaches (includeMessages : bool) (s : TranscriptState)
  : TranscriptState :=
  if includeMessages then
    mkTranscriptState [] ∅ (started s) (finished s) (nextTask s)
  else s.

(** What happens in one stretch of some caller or task. *)
Inductive Event : Type :=
| Requested (req : Request) (throwsAtOnce : bool)
| Finished (task : nat) (cacheKey : string) (result : TranscriptResult)
| Cleared (includeMessages : bool).

Inductive step : Event -> TranscriptState -> TranscriptState -> Prop :=
| step_request (req : Request) (throwsAtOnce : bool) (s : TranscriptState) :
    step (Requested req throwsAtOnce) s (getVoiceTranscript req throwsAtOnce s).2
| step_finish (task : nat) (cacheKey : string) (result : TranscriptResult)
    (s : TranscriptState) :
    (task, cacheKey) ∈ started s -> task ∉ finished s ->
    step (Finished task cacheKey result) s (finish task cacheKey result s)
| step_clear (includeMessages : bool) (s : TranscriptState) :
    step (Cleared includeMessages) s (clearCaches includeMessages s).

Inductive reachable : TranscriptState -> Prop :=
| reach_initial : reachable initial
| reach_step (e : Event) (s s' : TranscriptState) :
    reachable s -> step e s s' -> reachable s'.

(** No task is in flight: every task has run its [finally]. *)
Definition idle (s : TranscriptState) : Prop :=
  forall t k, (t, k) ∈ started s -> t ∈ finished s.

(** An event that leaves the in-flight map in step with the tasks: the
    body of a task reaches its first [await], and the map is cleared only
    while no task is in flight. *)
Definition orderly (e : Event) (s : TranscriptState) : Prop :=
  match e with
  | Requested _ throwsAtOnce => throwsAtOnce = false
  | Finished _ _ _ => True
  | Cleared includeMessages => includeMessages = true -> idle s
  end.

(** The states of the runs all of whose events are orderly. *)
Inductive calm : TranscriptState -> Prop :=
| calm_initial : calm initial
| calm_step (e : Event) (s s' : TranscriptState) :
    calm s -> step e s s' -> orderly e s -> calm s'.

Definition inFlight (cacheKey : string) (s : TranscriptState) : list nat :=
  fst <$> filter (fun p => p.2 = cacheKey /\ p.1 ∉ finished s) (started s).

Definition keyOf (req : Request) : string :=
  getVoiceCacheKey (sessionId req) (msgId req) (msgCreateTime req).

(** What holds between the in-flight map, the transcript cache and the
    tasks created so far in every state: an entry of the map is a task that
    was created for its key, and its key is not cached. *)
Record Registered (s : TranscriptState) : Prop := mkRegistered {
  entry_started : forall k t,
    voiceTranscriptPending s !! k = Some t -> (t, k) ∈ started s;
  task_below : forall k t, (t, k) ∈ started s -> (t < nextTask s)%nat;
  task_one_key : forall t k k',
    (t, k) ∈ started s -> (t, k') ∈ started s -> k = k';
  finished_known : forall t, t ∈ finished s -> exists k, (t, k) ∈ started s;
  entry_uncached : forall k t,
    voiceTranscriptPending s !! k = Some t -> mapGet (voiceTranscriptCache s) k = None;
  cached_values : Forall (fun p => p.2 <> "") (voiceTranscriptCache s)
}.

(** What holds besides in the states of the orderly runs: the entries of
    the map are the tasks in flight. *)
Record Consistent (s : TranscriptState) : Prop := mkConsistent {
  pending_started : forall k t,
    voiceTranscriptPending s !! k = Some t -> (t, k) ∈ started s /\ t ∉ finished s;
  started_pending : forall k t,
    (t, k) ∈ started s -> t ∉ finished s -> voiceTranscriptPending s !! k = Some t;
  started_below : forall k t, (t, k) ∈ started s -> (t < nextTask s)%nat;
  started_one_key : forall t k k',
    (t, k) ∈ started s -> (t, k') ∈ started s -> k = k';
  finished_started : forall t, t ∈ finished s -> exists k, (t, k) ∈ started s;
  pending_uncached : forall k t,
    voiceTranscriptPending s !! k = Some t -> mapGet (voiceTranscriptCache s) k = None;
  cached_nonempty : Forall (fun p => p.2 <> "") (voiceTranscriptCache s)
}.

(** A request that carries a message time and asks for [cacheKey]. *)
Definition asksFor (cacheKey : string) (req : Request) : Prop :=
  msgCreateTime req <> 0 /\ keyOf req = cacheKey.

(** Several requests, one after the other, each with what the body of
    the task does if the request creates one. *)
Fixpoint getVoiceTranscripts (reqs : list (Request * bool)) (s : TranscriptState)
  : list (Reply TranscriptResult) * TranscriptState :=
  match reqs with
  | [] => ([], s)
  | (req, throwsAtOnce) :: rest =>
      let '(reply, s1) := getVoiceTranscript req throwsAtOnce s in
      let '(replies, s2) := getVoiceTranscripts rest s1 in
      (reply :: replies, s2)
  end.

End TranscriptFlight.

(** ** The chat service: batches of messages *)

(** What an awaited call of the database service gives back: a value, or
    an exception with its message. *)
Inductive Outcome (A : Type) : Type :=
| Returned (a : A)
| Thrown (e : string).
Arguments Returned {A} a.
Arguments Thrown {A} e.

(** [value || fallback] on an optional string: an absent or empty string
    is falsy. *)
Definition orString (value : option string) (fallback : string) : string :=
  match value with
  | Some v => if decide (v = "") then fallback else v
  | None => fallback
  end.

(** [a || b] on numbers: 0 is falsy. *)
Definition orNumber (a b : Z) : Z := if a =? 0 then b else a.

Module ChatService.

Record Message : Type := mkMessage {
  localId : Z;
  serverId : Z;
  localType : Z;
  createTime : Z;
  sortSeq : Z;
  rawContent : string
}.

(** [m.sortSeq || m.createTime || m.localId || 0]. *)
Definition orderKey (m : Message) : Z :=
  orNumber (orNumber (orNumber (sortSeq m) (createTime m)) (localId m)) 0.

Definition normalizeMessageOrder (messages : list Message) : list Message :=
  if (length messages <? 2)%nat then messages
  else
    match messages with
    | [] => messages
    | first :: _ =>
        let last := List.last messages first in
        let firstKey := orderKey first in
        let lastKey := orderKey last in
        if firstKey >? lastKey then rev messages else messages
    end.

(** *** The message cursor manager *)

(** The state kept for a session in [messageCursors]. *)
Record CursorState : Type := mkCursorState {
  cursor : Z;
  fetched : Z;
  batchSize : Z;
  startTime : Z;
  endTime : Z;
  ascending : bool
}.

Definition addFetched (st : CursorState) (n : Z) : CursorState :=
  mkCursorState (cursor st) (fetched st + n) (batchSize st)
                (startTime st) (endTime st) (ascending st).

(** Results of the database service. *)
Record ConnectResult : Type := mkConnectResult {
  cn_success : bool;
  cn_error : option string
}.

Record CursorResult : Type := mkCursorResult {
  cr_success : bool;
  cr_cursor : option Z;
  cr_error : option string
}.

Record BatchResult (Row : Type) : Type := mkBatchResult {
  br_success : bool;
  br_rows : option (list Row);
  br_hasMore : bool;
  br_error : option string
}.
Arguments mkBatchResult {Row} _ _ _ _.
Arguments br_success {Row} _.
Arguments br_rows {Row} _.
Arguments br_hasMore {Row} _.
Arguments br_error {Row} _.

(** The result of [getMessages]. *)
Record MessagesResult : Type := mkMessagesResult {
  success : bool;
  messages : option (list Message);
  hasMore : option bool;
  error : option string
}.

Definition failure (msg : string) : MessagesResult :=
  mkMessagesResult false None None (Some msg).

(** The calls made to the cursor primitive, in the order they are made;
    a fetch is recorded with the number of rows it delivered. *)
Inductive Call : Type :=
| COpen (sessionId : string) (batchSize : Z) (ascending : bool)
        (beginTimestamp endTimestamp : Z)
| CClose (cursor : Z)
| CFetch (cursor : Z) (rows : nat).

Definition messageBatchDefault : Z := 50.

(** The number of rows delivered by a sequence of fetches. *)
Definition sumRows (ns : list nat) : Z := Z.of_nat (sum_list ns).

(** The answer given when the rows run out while skipping. *)
Definition noMoreMessages : MessagesResult :=
  mkMessagesResult true (Some []) (Some false) None.

Section CursorManager.

(** The database service and the row normalizer are collaborators of the
    cursor manager; [World] is the state of the service. *)
Context {World Row : Type}.
Variable ensureConnected : World -> Outcome ConnectResult * World.
Variable openMessageCursor :
  string -> Z -> bool -> Z -> Z -> World -> Outcome CursorResult * World.
Variable fetchMessageBatch : Z -> World -> Outcome (BatchResult Row) * World.
Variable closeMessageCursor : Z -> World -> Outcome unit * World.
Variable mapRowsToMessages : list Row -> list Message.
(** The repair of emoticon addresses that follows normalization. *)
Variable fallbackEmoticons : list Message -> World -> list Message * World.

Record ChatState : Type := mkChatState {
  messageCursors : gmap string CursorState;
  messageCache : gmap string (list Message);
  world : World;
  calls : list Call
}.

Definition setWorld (w : World) (s : ChatState) : ChatState :=
  mkChatState (messageCursors s) (messageCache s) w (calls s).

Definition setCursors (m : gmap string CursorState) (s : ChatState) : ChatState :=
  mkChatState m (messageCache s) (world s) (calls s).

Definition setCache (c : gmap string (list Message)) (s : ChatState) : ChatState :=
  mkChatState (messageCursors s) c (world s) (calls s).

Definition logCall (c : Call) (s : ChatState) : ChatState :=
  mkChatState (messageCursors s) (messageCache s) (world s) (calls s ++ [c]).

Definition rowCount (r : Outcome (BatchResult Row)) : nat :=
  match r with
  | Returned b => match br_rows b with Some rows => length rows | None => 0%nat end
  | Thrown _ => 0%nat
  end.

Definition doFetch (c : Z) (s : ChatState)
  : Outcome (BatchResult Row) * ChatState :=
  let '(r, w) := fetchMessageBatch c (world s) in
  (r, logCall (CFetch c (rowCount r)) (setWorld w s)).

Definition doClose (c : Z) (s : ChatState) : ChatState :=
  let '(_, w) := closeMessageCursor c (world s) in
  logCall (CClose c) (setWorld w s).

Definition doOpen (sessionId : string) (batch : Z) (asc : bool) (b e : Z)
  (s : ChatState) : Outcome CursorResult * ChatState :=
  let '(r, w) := openMessageCursor sessionId batch asc b e (world s) in
  (r, logCall (COpen sessionId batch asc b e) (setWorld w s)).

(** How the skip loop ends. *)
Inductive SkipEnd : Type :=
| SkipDone (skipped : Z)              (* the loop condition became false *)
| SkipReturn (r : MessagesResult)     (* a [return] inside the loop *)
| SkipThrown (e : string)             (* the fetch threw *)
| SkipFuel.                           (* the bound on iterations was reached *)

(** [while (skipped < offset) { ... }]; [st] is the cursor state of the
    session, which the loop updates in [messageCursors] as it goes. *)
Fixpoint skipLoop (fuel : nat) (sessionId : string) (offset skipped : Z)
  (st : CursorState) (s : ChatState) : SkipEnd * CursorState * ChatState :=
  if negb (skipped <? offset) then (SkipDone skipped, st, s)
  else
    match fuel with
    | O => (SkipFuel, st, s)
    | S fuel' =>
        let '(r, s1) := doFetch (cursor st) s in
        match r with
        | Thrown e => (SkipThrown e, st, s1)
        | Returned skipBatch =>
            if negb (br_success skipBatch) then
              (SkipReturn (failure (orString (br_error skipBatch) "跳过消息失败")), st, s1)
            else
              match br_rows skipBatch with
              | None => (SkipReturn noMoreMessages, st, s1)
              | Some rows =>
                  if (length rows =? 0)%nat then
                    (SkipReturn noMoreMessages, st, s1)
                  else
                    let n := Z.of_nat (length rows) in
                    let st' := addFetched st n in
                    let s2 := setCursors (<[sessionId := st']> (messageCursors s1)) s1 in
                    if negb (br_hasMore skipBatch) then
                      (SkipReturn noMoreMessages, st', s2)
                    else skipLoop fuel' sessionId offset (skipped + n) st' s2
              end
        end
    end.

(** The condition under which [getMessages] opens a new cursor. *)
Definition needNewCursor (state : option CursorState)
  (offset batch start end_ : Z) (asc : bool) : bool :=
  match state with
  | None => true
  | Some st =>
      (offset =? 0)
      || negb (batchSize st =? batch)
      || negb (startTime st =? start)
      || negb (endTime st =? end_)
      || negb (Bool.eqb (ascending st) asc)
  end.

(** The part of [getMessages] after the cursor state is settled: fetch
    the batch that is returned. *)
Definition fetchCurrentBatch (sessionId : string) (st : CursorState) (s : ChatState)
  : MessagesResult * ChatState :=
  let '(r, s1) := doFetch (cursor st) s in
  match r with
  | Thrown e => (failure e, s1)
  | Returned batch =>
      if negb (br_success batch) then
        (failure (orString (br_error batch) "获取消息失败"), s1)
      else
        match br_rows batch with
        | None => (failure "获取消息失败: 返回数据为空", s1)
        | Some rows =>
            let normalized := normalizeMessageOrder (mapRowsToMessages rows) in
            let '(fixed, w) := fallbackEmoticons normalized (world s1) in
            let s2 := setWorld w s1 in
            let st' := addFetched st (Z.of_nat (length rows)) in
            let s3 := setCursors (<[sessionId := st']> (messageCursors s2)) s2 in
            let s4 := setCache (<[sessionId := fixed]> (messageCache s3)) s3 in
            (mkMessagesResult true (Some fixed) (Some (br_hasMore batch)) None, s4)
        end
  end.

(** [getMessages]. The answer is [None] only if the skip loop reached its
    bound of [offset] iterations. *)
Definition getMessages (sessionId : string)
  (offset limit start end_ : Z) (asc : bool) (s0 : ChatState)
  : option MessagesResult * ChatState :=
  let '(conn, w) := ensureConnected (world s0) in
  let s := setWorld w s0 in
  match conn with
  | Thrown e => (Some (failure e), s)
  | Returned connectResult =>
      if negb (cn_success connectResult) then
        (Some (failure (orString (cn_error connectResult) "数据库未连接")), s)
      else
        let batch := Z.max 1 (orNumber limit messageBatchDefault) in
        let state := messageCursors s !! sessionId in
        if needNewCursor state offset batch start end_ asc then
          let s1 := match state with
                    | Some old => doClose (cursor old) s
                    | None => s
                    end in
          let beginTimestamp :=
            if start >? 10000000000 then start / 1000 else start in
          let endTimestamp :=
            if end_ >? 10000000000 then end_ / 1000 else end_ in
          let '(opened, s2) :=
            doOpen sessionId batch asc beginTimestamp endTimestamp s1 in
          match opened with
          | Thrown e => (Some (failure e), s2)
          | Returned cursorResult =>
              match cr_success cursorResult, cr_cursor cursorResult with
              | true, Some c =>
                  if c =? 0 then
                    (Some (failure (orString (cr_error cursorResult) "打开消息游标失败")), s2)
                  else
                    let st := mkCursorState c 0 batch start end_ asc in
                    let s3 := setCursors (<[sessionId := st]> (messageCursors s2)) s2 in
                    if offset >? 0 then
                      match skipLoop (Z.to_nat offset) sessionId offset 0 st s3 with
                      | (SkipDone _, st', s4) =>
                          let '(r, s5) := fetchCurrentBatch sessionId st' s4 in (Some r, s5)
                      | (SkipReturn r, _, s4) => (Some r, s4)
                      | (SkipThrown e, _, s4) => (Some (failure e), s4)
                      | (SkipFuel, _, s4) => (None, s4)
                      end
                    else
                      let '(r, s5) := fetchCurrentBatch sessionId st s3 in (Some r, s5)
              | _, _ =>
                  (Some (failure (orString (cr_error cursorResult) "打开消息游标失败")), s2)
              end
          end
        else
          match state with
          | Some st =>
              (* offset may differ from [fetched st]: the code only logs it *)
              let '(r, s5) := fetchCurrentBatch sessionId st s in (Some r, s5)
          | None => (Some (failure "游标状态未初始化"), s)
          end
  end.

(** *** The vocabulary of the properties of the cursor manager *)

(** The cursor that an open gives, if it gives one that the manager goes
    on with: the open returned, reported success and a cursor other than
    0. *)
Definition usableCursor (o : Outcome CursorResult) : option Z :=
  match o with
  | Returned r =>
      if cr_success r then
        match cr_cursor r with
        | Some c => if c =? 0 then None else Some c
        | None => None
        end
      else None
  | Thrown _ => None
  end.

(** The connection check passes: [ensureConnected] returned and reported
    success. *)
Definition connectedOk (o : Outcome ConnectResult) : bool :=
  match o with
  | Returned r => cn_success r
  | Thrown _ => false
  end.

(** The answer when the open gives no usable cursor. *)
Definition openFailure (o : Outcome CursorResult) : MessagesResult :=
  match o with
  | Returned r => failure (orString (cr_error r) "打开消息游标失败")
  | Thrown e => failure e
  end.

(** The outcomes of [n] fetches on cursor [c], one after the other, from
    the state [w] of the database service, and the state they leave. *)
Fixpoint fetchOutcomes (c : Z) (n : nat) (w : World)
  : list (Outcome (BatchResult Row)) * World :=
  match n with
  | O => ([], w)
  | S n' =>
      let '(o, w1) := fetchMessageBatch c w in
      let '(os, w2) := fetchOutcomes c n' w1 in
      (o :: os, w2)
  end.

(** The rows of a fetch that returned and reported success. *)
Definition pageRows (o : Outcome (BatchResult Row)) : option (list Row) :=
  match o with
  | Returned b => if br_success b then br_rows b else None
  | Thrown _ => None
  end.

(** The number of rows that a fetch adds to the [fetched] count. *)
Definition delivered (o : Outcome (BatchResult Row)) : Z :=
  match pageRows o with
  | Some rows => Z.of_nat (length rows)
  | None => 0
  end.

Definition sumDelivered (outs : list (Outcome (BatchResult Row))) : Z :=
  foldr (fun o acc => delivered o + acc) 0 outs.

(** A fetch after which the skip loop goes on: it returned, reported
    success, delivered at least one row and reported more rows. *)
Definition continuing (o : Outcome (BatchResult Row)) : bool :=
  match o with
  | Returned b =>
      br_success b
      && match br_rows b with
         | Some rows => negb (length rows =? 0)%nat
         | None => false
         end
      && br_hasMore b
  | Thrown _ => false
  end.

(** What is known of the fetches [goods] that the skip loop went on after,
    with [skipped] rows discarded before them: each of them delivered rows
    and reported more, and each was made while the rows discarded were
    fewer than [offset]. *)
Definition wentOn (offset skipped : Z)
  (goods : list (Outcome (BatchResult Row))) : Prop :=
  forallb continuing goods = true
  /\ forall init l rest, goods = init ++ l :: rest ->
                         skipped + sumDelivered init < offset.

(** The answer of [getMessages] when the skip loop ends on the fetch
    [o]. *)
Definition skipAnswer (o : Outcome (BatchResult Row)) : MessagesResult :=
  match o with
  | Thrown e => failure e
  | Returned b =>
      if br_success b then noMoreMessages
      else failure (orString (br_error b) "跳过消息失败")
  end.

(** The answer of [getMessages] on the fetch [o] of the batch that is
    returned; [w] is the state of the database service after the fetch. *)
Definition pageAnswer (o : Outcome (BatchResult Row)) (w : World)
  : MessagesResult :=
  match o with
  | Thrown e => failure e
  | Returned b =>
      if br_success b then
        match br_rows b with
        | Some rows =>
            mkMessagesResult true
              (Some (fallbackEmoticons
                       (normalizeMessageOrder (mapRowsToMessages rows)) w).1)
              (Some (br_hasMore b)) None
        | None => failure "获取消息失败: 返回数据为空"
        end
      else failure (orString (br_error b) "获取消息失败")
  end.

(** The state of the database service after the fetch [o] of a batch that
    is returned: the repair of emoticon addresses runs on the rows of a
    fetch that succeeded. *)
Definition worldAfterPage (o : Outcome (BatchResult Row)) (w : World) : World :=
  match pageRows o with
  | Some rows =>
      (fallbackEmoticons (normalizeMessageOrder (mapRowsToMessages rows)) w).2
  | None => w
  end.

End CursorManager.

End ChatService.

(** ** The voice lookup in the media databases *)

Module VoiceLookup.

(** A value as it comes out of a database row ([any] in the source). *)
Inductive Raw : Type :=
| RNull
| RUndefined
| RBool (b : bool)
| RNumber (z : Z)
| RString (s : string)
| RBuffer (b : list byte)
| RUint8Array (b : list byte)
| RArray (l : list Z)
| RObjectData (l : list Z)     (* an object whose [data] is an array *)
| RObject.                     (* any other object *)

(** [!raw] is false. *)
Definition truthy (raw : Raw) : bool :=
  match raw with
  | RNull | RUndefined => false
  | RBool b => b
  | RNumber z => negb (z =? 0)
  | RString s => negb (String.eqb s "")
  | _ => true
  end.

(** The fields the lookup reads from a row. *)
Record Row : Type := mkRow {
  r_name : Raw;
  r_rowid : Raw;
  r_data : Raw
}.

Record QueryResult : Type := mkQueryResult {
  q_success : bool;
  q_rows : option (list Row);
  q_error : option string
}.

(** [result.success && result.rows && result.rows.length > 0], with the
    first row. *)
Definition firstRow (r : QueryResult) : option Row :=
  if q_success r then
    match q_rows r with
    | Some (row :: _) => Some row
    | _ => None
    end
  else None.

(** The table layout discovered for a shard. *)
Record Schema : Type := mkSchema {
  voiceTable : Raw;
  dataColumn : string;
  chatNameIdColumn : option string;
  timeColumn : option string;
  name2IdTable : Raw
}.

(** The statements sent to a media database. *)
Inductive Query : Type :=
| QVoiceTables
    (* SELECT name FROM sqlite_master WHERE type='table' AND name LIKE 'VoiceInfo%' *)
| QTableInfo (table : Raw)
    (* PRAGMA table_info('table') *)
| QName2IdTables
    (* SELECT name FROM sqlite_master WHERE type='table' AND name LIKE 'Name2Id%' *)
| QName2Id (table : Raw) (candidates : list string)
    (* SELECT user_name, rowid FROM table WHERE user_name IN (candidates) *)
| QVoiceByIdsAndTime (table : Raw) (dataCol idCol timeCol : string)
    (ids : list Raw) (time : Z)
    (* SELECT dataCol AS data FROM table
       WHERE idCol IN (ids) AND timeCol = time LIMIT 1 *)
| QVoiceByTime (table : Raw) (dataCol timeCol : string) (time : Z)
    (* SELECT dataCol AS data FROM table WHERE timeCol = time LIMIT 1 *)
| QVoiceInWindow (table : Raw) (dataCol timeCol : string) (lo hi center : Z).
    (* SELECT dataCol AS data FROM table WHERE timeCol BETWEEN lo AND hi
       ORDER BY ABS(timeCol - center) LIMIT 1 *)

(** The lookup strategy a statement belongs to; the statements of the
    layout discovery belong to none. *)
Definition strategyOf (q : Query) : option nat :=
  match q with
  | QName2Id _ _ | QVoiceByIdsAndTime _ _ _ _ _ _ => Some 1%nat
  | QVoiceByTime _ _ _ _ => Some 2%nat
  | QVoiceInWindow _ _ _ _ _ _ => Some 3%nat
  | _ => None
  end.

(** The statements that ask for a voice payload. *)
Definition isPayloadQuery (q : Query) : bool :=
  match q with
  | QVoiceByIdsAndTime _ _ _ _ _ _ | QVoiceByTime _ _ _ _
  | QVoiceInWindow _ _ _ _ _ _ => true
  | _ => false
  end.

(** A statement that was run: the shard, the statement and its outcome. *)
Record Ran : Type := mkRan {
  ran_db : string;
  ran_query : Query;
  ran_outcome : Outcome QueryResult
}.

(** Statements that belong to no strategy. *)
Definition untagged (l : list Ran) : Prop :=
  Forall (fun e => strategyOf (ran_query e) = None) l.

(** [/^[a-fA-F0-9]+$/.test(s)]. *)
Definition isHexString (s : string) : bool :=
  negb (String.eqb s "")
  && forallb JsString.isHexDigit (String.list_ascii_of_string s).

(** [list.find(n => columnMap.has(n))] followed by [columnMap.get]. *)
Definition findColumn (columnMap : gmap string string) (names : list string)
  : option string :=
  match List.find (fun n => bool_decide (is_Some (columnMap !! n))) names with
  | Some n => columnMap !! n
  | None => None
  end.

(** A column name that is set: [undefined] and the empty string are
    falsy. *)
Definition setColumn (c : option string) : option string :=
  match c with
  | Some name => if String.eqb name "" then None else Some name
  | None => None
  end.

(** The candidate identities built by [getVoiceData]: the sender, the
    session and the own account, without repetition. *)
Definition lookupCandidates (senderWxid sessionId myWxid : string)
  : list string :=
  let c1 := if String.eqb senderWxid "" then [] else [senderWxid] in
  let c2 := if negb (String.eqb sessionId "")
               && negb (bool_decide (sessionId ∈ c1))
            then c1 ++ [sessionId] else c1 in
  if negb (String.eqb myWxid "") && negb (bool_decide (myWxid ∈ c2))
  then c2 ++ [myWxid] else c2.

(** What a block of the loop body does next: go on with a value, return
    the payload from the whole function, or leave this shard ([continue],
    or an exception caught by the [try] around the body). *)
Inductive Step (A : Type) : Type :=
| Go (a : A)
| Found (data : list byte)
| Leave.
Arguments Go {A} a.
Arguments Found {A} data.
Arguments Leave {A}.

Definition foundOf {A} (r : Step A) : option (list byte) :=
  match r with Found d => Some d | _ => None end.

Section Lookup.

(** The database service and the JavaScript built-ins used on the way. *)
Context {World : Type}.
Variable execQuery : string -> Query -> World -> Outcome QueryResult * World.
Variable listMediaDbs : World -> Outcome (bool * option (list string)) * World.
Variable findMediaDbsManually : World -> Outcome (list string) * World.
Variable toJsString : Raw -> string.           (* String(value) *)
Variable trim : string -> string.              (* String.prototype.trim *)
Variable fromHex : string -> list byte.        (* Buffer.from(s, 'hex') *)
Variable fromBase64 : string -> list byte.     (* Buffer.from(s, 'base64') *)

Definition decodeVoiceBlob (raw : Raw) : option (list byte) :=
  if negb (truthy raw) then None
  else
    match raw with
    | RBuffer b => Some b
    | RUint8Array b => Some b
    | RArray l => Some (Buf.from l)
    | RString s =>
        let trimmed := trim s in
        if isHexString trimmed && (String.length trimmed mod 2 =? 0)%nat
        then Some (fromHex trimmed)
        else Some (fromBase64 trimmed)
    | RObjectData l => Some (Buf.from l)
    | _ => None
    end.

(** The payload a statement that was run delivers: the decoded data of
    the first row of a payload statement that succeeded. *)
Definition payloadOf (e : Ran) : option (list byte) :=
  if isPayloadQuery (ran_query e) then
    match ran_outcome e with
    | Returned r =>
        match firstRow r with
        | Some row => decodeVoiceBlob (r_data row)
        | None => None
        end
    | Thrown _ => None
    end
  else None.

(** No statement of the list delivered a payload. *)
Definition noPayload (l : list Ran) : Prop :=
  Forall (fun e => payloadOf e = None) l.

(** [new] is the log of a run that answered [res]: an answer is the
    payload of the last statement, the first one that delivered any; no
    answer means that no statement delivered a payload. *)
Definition firstPayload (res : option (list byte)) (new : list Ran) : Prop :=
  match res with
  | Some d => exists l e, new = l ++ [e] /\ noPayload l /\ payloadOf e = Some d
  | None => noPayload new
  end.

Record VoiceState : Type := mkVoiceState {
  mediaDbsCache : option (list string);
  mediaDbSchemaCache : gmap string Schema;
  vworld : World;
  ran : list Ran
}.

Definition Block (A : Type) : Type := VoiceState -> Step A * VoiceState.

Definition bindBlock {A B} (m : Block A) (k : A -> Block B) : Block B :=
  fun s =>
    match m s with
    | (Go a, s') => k a s'
    | (Found d, s') => (Found d, s')
    | (Leave, s') => (Leave, s')
    end.

Definition go {A} (a : A) : Block A := fun s => (Go a, s).
Definition found {A} (d : list byte) : Block A := fun s => (Found d, s).
Definition leave {A} : Block A := fun s => (Leave, s).

(** [await wcdbService.execQuery('media', dbPath, sql)]. *)
Definition runQuery (dbPath : string) (q : Query) : Block QueryResult :=
  fun s =>
    let '(o, w) := execQuery dbPath q (vworld s) in
    let s' := mkVoiceState (mediaDbsCache s) (mediaDbSchemaCache s) w
                (ran s ++ [mkRan dbPath q o]) in
    match o with
    | Returned r => (Go r, s')
    | Thrown _ => (Leave, s')
    end.

Definition cacheSchema (dbPath : string) (schema : Schema) : Block unit :=
  fun s =>
    (Go tt, mkVoiceState (mediaDbsCache s)
              (<[dbPath := schema]> (mediaDbSchemaCache s)) (vworld s) (ran s)).

(** The column map built from the rows of [PRAGMA table_info]. *)
Definition buildColumnMap (rows : list Row) : gmap string string :=
  fold_left
    (fun m c =>
       let name := if truthy (r_name c) then toJsString (r_name c) else "" in
       if String.eqb name "" then m else <[JsString.toLowerCase name := name]> m)
    rows ∅.

(** The first visit of a shard: find the voice table and its columns. *)
Definition discoverSchema (dbPath : string) : Block Schema :=
  bindBlock (runQuery dbPath QVoiceTables) (fun tablesResult =>
  match firstRow tablesResult with
  | None => leave
  | Some tableRow =>
      let voiceTable := r_name tableRow in
      bindBlock (runQuery dbPath (QTableInfo voiceTable)) (fun columnsResult =>
      match q_success columnsResult, q_rows columnsResult with
      | true, Some columnRows =>
          let columnMap := buildColumnMap columnRows in
          match setColumn
                  (findColumn columnMap ["voice_data"; "buf"; "voicebuf"; "data"]) with
          | None => leave
          | Some dataColumn =>
              let chatNameIdColumn :=
                findColumn columnMap ["chat_name_id"; "chatnameid"; "chat_nameid"] in
              let timeColumn :=
                findColumn columnMap ["create_time"; "createtime"; "time"] in
              bindBlock (runQuery dbPath QName2IdTables) (fun name2IdTablesResult =>
              let name2IdTable :=
                match firstRow name2IdTablesResult with
                | Some row => r_name row
                | None => RUndefined
                end in
              let schema :=
                mkSchema voiceTable dataColumn chatNameIdColumn timeColumn
                         name2IdTable in
              bindBlock (cacheSchema dbPath schema) (fun _ => go schema))
          end
      | _, _ => leave
      end)
  end).

(** The common end of the three strategies: run the payload statement and
    return the decoded data of its first row, if there is one and it
    decodes. *)
Definition tryPayload (dbPath : string) (q : Query) : Block unit :=
  bindBlock (runQuery dbPath q) (fun voiceResult =>
  match firstRow voiceResult with
  | Some row =>
      match decodeVoiceBlob (r_data row) with
      | Some silkData => found silkData
      | None => go tt
      end
  | None => go tt
  end).

(** Strategy 1: the identities of the candidates, then the payload by
    identity and exact time. *)
Definition strategy1 (dbPath : string) (schema : Schema) (createTime : Z)
  (candidates : list string) : Block unit :=
  match setColumn (chatNameIdColumn schema), setColumn (timeColumn schema) with
  | Some idCol, Some timeCol =>
      if truthy (name2IdTable schema) then
        bindBlock (runQuery dbPath (QName2Id (name2IdTable schema) candidates))
          (fun name2IdResult =>
           match q_success name2IdResult, q_rows name2IdResult with
           | true, Some (row :: rows) =>
               let chatNameIds := map r_rowid (row :: rows) in
               tryPayload dbPath
                 (QVoiceByIdsAndTime (voiceTable schema) (dataColumn schema)
                    idCol timeCol chatNameIds createTime)
           | _, _ => go tt
           end)
      else go tt
  | _, _ => go tt
  end.

(** Strategy 2: the payload by exact time alone. *)
Definition strategy2 (dbPath : string) (schema : Schema) (createTime : Z)
  : Block unit :=
  match setColumn (timeColumn schema) with
  | Some timeCol =>
      tryPayload dbPath
        (QVoiceByTime (voiceTable schema) (dataColumn schema) timeCol createTime)
  | None => go tt
  end.

(** Strategy 3: the payload closest in time within five seconds. *)
Definition strategy3 (dbPath : string) (schema : Schema) (createTime : Z)
  : Block unit :=
  match setColumn (timeColumn schema) with
  | Some timeCol =>
      tryPayload dbPath
        (QVoiceInWindow (voiceTable schema) (dataColumn schema) timeCol
           (createTime - 5) (createTime + 5) createTime)
  | None => go tt
  end.

(** The body of the loop over the shards. *)
Definition lookupShard (dbPath : string) (createTime : Z)
  (candidates : list string) : Block unit :=
  fun s =>
    bindBlock
      (match mediaDbSchemaCache s !! dbPath with
       | Some schema => go schema
       | None => discoverSchema dbPath
       end)
      (fun schema =>
         bindBlock (strategy1 dbPath schema createTime candidates) (fun _ =>
         bindBlock (strategy2 dbPath schema createTime) (fun _ =>
         strategy3 dbPath schema createTime)))
      s.

(** [for (const dbPath of mediaDbFiles) { try { ... } catch { } }]. *)
Fixpoint lookupShards (mediaDbFiles : list string) (createTime : Z)
  (candidates : list string) (s : VoiceState)
  : option (list byte) * VoiceState :=
  match mediaDbFiles with
  | [] => (None, s)
  | dbPath :: rest =>
      match lookupShard dbPath createTime candidates s with
      | (Found silkData, s') => (Some silkData, s')
      | (_, s') => lookupShards rest createTime candidates s'
      end
  end.

Definition setVWorld (w : World) (s : VoiceState) : VoiceState :=
  mkVoiceState (mediaDbsCache s) (mediaDbSchemaCache s) w (ran s).

Definition getVoiceDataFromMediaDb (createTime : Z) (candidates : list string)
  (s : VoiceState) : option (list byte) * VoiceState :=
  match mediaDbsCache s with
  | Some mediaDbFiles => lookupShards mediaDbFiles createTime candidates s
  | None =>
      let '(listed, w) := listMediaDbs (vworld s) in
      let s1 := setVWorld w s in
      match listed with
      | Thrown _ => (None, s1)
      | Returned (ok, data) =>
          let files := match ok, data with
                       | true, Some d => d
                       | _, _ => []
                       end in
          let '(found_, s2) :=
            match files with
            | [] =>
                let '(manual, w2) := findMediaDbsManually (vworld s1) in
                (manual, setVWorld w2 s1)
            | _ => (Returned files, s1)
            end in
          match found_ with
          | Thrown _ => (None, s2)
          | Returned [] => (None, s2)
          | Returned mediaDbFiles =>
              let s3 := mkVoiceState (Some mediaDbFiles) (mediaDbSchemaCache s2)
                          (vworld s2) (ran s2) in
              lookupShards mediaDbFiles createTime candidates s3
          end
      end
  end.

(** *** The vocabulary of the properties of the lookup *)

(** [l] holds what [execQuery] answers to the statements of [l], asked one
    after the other from the state [w] of the database service, which they
    leave as [w']. *)
Fixpoint served (w : World) (l : list Ran) (w' : World) : Prop :=
  match l with
  | [] => w' = w
  | e :: l' =>
      ran_outcome e = (execQuery (ran_db e) (ran_query e) w).1
      /\ served (execQuery (ran_db e) (ran_query e) w).2 l' w'
  end.

(** The identities that the statement for the identities delivered: the
    row ids of a result that succeeded with at least one row. *)
Definition identitiesOf (o : Outcome QueryResult) : option (list Raw) :=
  match o with
  | Returned r =>
      if q_success r then
        match q_rows r with
        | Some (row :: rows) => Some (map r_rowid (row :: rows))
        | _ => None
        end
      else None
  | Thrown _ => None
  end.

(** A statement after which the lookup in a shard goes on: it returned and
    delivered no payload. *)
Definition goesOn (e : Ran) : bool :=
  match ran_outcome e with
  | Returned _ =>
      match payloadOf e with
      | Some _ => false
      | None => true
      end
  | Thrown _ => false
  end.

(** How the strategies end in a shard, by the statements they ran: with the
    payload of the last statement, by leaving the shard if the last
    statement threw, and else by going on. *)
Definition shardEnd (l : list Ran) : Step unit :=
  match last l with
  | Some e =>
      match ran_outcome e with
      | Thrown _ => Leave
      | Returned _ =>
          match payloadOf e with
          | Some d => Found d
          | None => Go tt
          end
      end
  | None => Go tt
  end.

(** The statements of strategy 1 in a shard with the layout [schema]: none
    unless the identity column, the time column and the identity table are
    known; else the statement for the identities of the candidates and, if
    it delivered any, the statement for the payload by these identities and
    the exact time. *)
Definition identityStatements (dbPath : string) (schema : Schema)
  (candidates : list string) (createTime : Z) (n1 : list Ran) : Prop :=
  match setColumn (chatNameIdColumn schema), setColumn (timeColumn schema),
        truthy (name2IdTable schema) with
  | Some idCol, Some timeCol, true =>
      exists o1,
        match identitiesOf o1 with
        | Some ids =>
            exists o2,
              n1 = [mkRan dbPath (QName2Id (name2IdTable schema) candidates) o1;
                    mkRan dbPath
                      (QVoiceByIdsAndTime (voiceTable schema) (dataColumn schema)
                         idCol timeCol ids createTime) o2]
        | None =>
            n1 = [mkRan dbPath (QName2Id (name2IdTable schema) candidates) o1]
        end
  | _, _, _ => n1 = []
  end.

(** The statement of strategy 2 after the statements [before] of the
    shard: the payload by exact time, if the time column is known and every
    statement before went on. *)
Definition exactTimeStatements (dbPath : string) (schema : Schema)
  (createTime : Z) (before n2 : list Ran) : Prop :=
  match setColumn (timeColumn schema) with
  | Some timeCol =>
      if forallb goesOn before then
        exists o,
          n2 = [mkRan dbPath
                  (QVoiceByTime (voiceTable schema) (dataColumn schema) timeCol
                     createTime) o]
      else n2 = []
  | None => n2 = []
  end.

(** The statement of strategy 3 after the statements [before] of the
    shard: the payload closest in time within five seconds, under the same
    conditions. *)
Definition windowStatements (dbPath : string) (schema : Schema)
  (createTime : Z) (before n3 : list Ran) : Prop :=
  match setColumn (timeColumn schema) with
  | Some timeCol =>
      if forallb goesOn before then
        exists o,
          n3 = [mkRan dbPath
                  (QVoiceInWindow (voiceTable schema) (dataColumn schema) timeCol
                     (createTime - 5) (createTime + 5) createTime) o]
      else n3 = []
  | None => n3 = []
  end.

(** The state after the lookup in the shards [files], one after the
    other. *)
Definition visit (files : list string) (createTime : Z)
  (candidates : list string) (s : VoiceState) : VoiceState :=
  fold_left
    (fun st dbPath =>
       (lookupShard dbPath createTime candidates st).2)
    files s.

(** None of the shards [files], looked up one after the other, delivered a
    payload. *)
Definition noneFound (files : list string) (createTime : Z)
  (candidates : list string) (s : VoiceState) : Prop :=
  forall before dbPath after,
    files = before ++ dbPath :: after ->
    foundOf (lookupShard dbPath createTime candidates
               (visit before createTime candidates s)).1 = None.

(** A statement and the state it leaves. *)
Definition asked (dbPath : string) (q : Query) (s : VoiceState) : Ran :=
  mkRan dbPath q (execQuery dbPath q (vworld s)).1.

Definition afterQuery (dbPath : string) (q : Query) (s : VoiceState)
  : VoiceState :=
  mkVoiceState (mediaDbsCache s) (mediaDbSchemaCache s)
    (execQuery dbPath q (vworld s)).2 (ran s ++ [asked dbPath q s]).

(** What a run of statements in a shard leaves: the log grows by the
    statements, which are what the database service answered, and the
    caches stay. *)
Definition ranFrom (s : VoiceState) (l : list Ran) (s' : VoiceState) : Prop :=
  ran s' = ran s ++ l
  /\ served (vworld s) l (vworld s')
  /\ mediaDbSchemaCache s' = mediaDbSchemaCache s
  /\ mediaDbsCache s' = mediaDbsCache s.

End Lookup.

End VoiceLookup.

(** ** A database service to run the chat service on

    A small stand-in for the database service: every session holds the
    rows 1 to 120, a cursor delivers them in batches and reports whether
    rows remain. *)

Module SimDb.
Import ChatService.

Record Db : Type := mkDb {
  openCursors : gmap Z (list Z * Z);
  nextCursor : Z
}.

Definition emptyDb : Db := mkDb ∅ 1.

Definition tableRows : list Z := seqZ 1 120.

Definition ensureConnected (db : Db) : Outcome ConnectResult * Db :=
  (Returned (mkConnectResult true None), db).

Definition openMessageCursor (sessionId : string) (batch : Z) (asc : bool)
  (b e : Z) (db : Db) : Outcome CursorResult * Db :=
  let rows := if asc then tableRows else rev tableRows in
  let c := nextCursor db in
  (Returned (mkCursorResult true (Some c) None),
   mkDb (<[c := (rows, batch)]> (openCursors db)) (c + 1)).

Definition fetchMessageBatch (c : Z) (db : Db)
  : Outcome (BatchResult Z) * Db :=
  match openCursors db !! c with
  | None => (Returned (mkBatchResult false None false (Some "no such cursor")), db)
  | Some (rows, batch) =>
      let out := take (Z.to_nat batch) rows in
      let rest := drop (Z.to_nat batch) rows in
      (Returned (mkBatchResult true (Some out) (negb (length rest =? 0)%nat) None),
       mkDb (<[c := (rest, batch)]> (openCursors db)) (nextCursor db))
  end.

Definition closeMessageCursor (c : Z) (db : Db) : Outcome unit * Db :=
  (Returned tt, mkDb (delete c (openCursors db)) (nextCursor db)).

Definition mapRowsToMessages (rows : list Z) : list Message :=
  map (fun z => mkMessage z z 1 z z "") rows.

Definition fallbackEmoticons (msgs : list Message) (db : Db)
  : list Message * Db := (msgs, db).

Definition initial : ChatState (World := Db) := mkChatState ∅ ∅ emptyDb [].

Definition getMessages :=
  ChatService.getMessages ensureConnected openMessageCursor fetchMessageBatch
    closeMessageCursor mapRowsToMessages fallbackEmoticons.

(** The keys of the messages of an answer. *)
Definition keysOf (r : option MessagesResult) : list Z :=
  match r with
  | Some (mkMessagesResult _ (Some msgs) _ _) => map orderKey msgs
  | _ => []
  end.

End SimDb.

(** ** A media database to run the voice lookup on

    A stand-in for one media shard: an identity table and a voice table,
    with the statements answered by their meaning. *)

Module SimMedia.
Import VoiceLookup.

Record VoiceRow : Type := mkVoiceRow {
  v_chat : Z;
  v_time : Z;
  v_data : Raw
}.

Record Media : Type := mkMedia {
  name2id : list (string * Z);
  voices : list VoiceRow
}.

Definition dataRow (v : VoiceRow) : Row := mkRow RUndefined RUndefined (v_data v).
Definition nameRow (n : string) : Row := mkRow (RString n) RUndefined RUndefined.

Definition rowsResult (rows : list Row) : QueryResult :=
  mkQueryResult true (Some rows) None.

Definition idOf (raw : Raw) : option Z :=
  match raw with RNumber z => Some z | _ => None end.

(** The row closest to [center], the earlier row winning a tie. *)
Fixpoint closest (center : Z) (rows : list VoiceRow) : option VoiceRow :=
  match rows with
  | [] => None
  | v :: rest =>
      match closest center rest with
      | Some v' =>
          if Z.abs (v_time v' - center) <? Z.abs (v_time v - center)
          then Some v' else Some v
      | None => Some v
      end
  end.

Definition answer (q : Query) (m : Media) : QueryResult :=
  match q with
  | QVoiceTables => rowsResult [nameRow "VoiceInfo"]
  | QTableInfo _ =>
      rowsResult [nameRow "chat_name_id"; nameRow "create_time"; nameRow "voice_data"]
  | QName2IdTables => rowsResult [nameRow "Name2Id"]
  | QName2Id _ candidates =>
      rowsResult
        (map (fun p => mkRow RUndefined (RNumber p.2) RUndefined)
             (filter (fun p => p.1 ∈ candidates) (name2id m)))
  | QVoiceByIdsAndTime _ _ _ _ ids time =>
      rowsResult
        (map dataRow
           (take 1 (filter (fun v => Some (v_chat v) ∈ map idOf ids
                                     /\ v_time v = time) (voices m))))
  | QVoiceByTime _ _ _ time =>
      rowsResult (map dataRow (take 1 (filter (fun v => v_time v = time) (voices m))))
  | QVoiceInWindow _ _ _ lo hi center =>
      rowsResult
        (map dataRow
           (option_list
              (closest center
                 (filter (fun v => lo <= v_time v <= hi) (voices m)))))
  end.

Definition execQuery (dbPath : string) (q : Query) (m : Media)
  : Outcome QueryResult * Media := (Returned (answer q m), m).

Definition listMediaDbs (m : Media)
  : Outcome (bool * option (list string)) * Media :=
  (Returned (true, Some ["media_0.db"]), m).

Definition findMediaDbsManually (m : Media) : Outcome (list string) * Media :=
  (Returned [], m).

Definition toJsString (raw : Raw) : string :=
  match raw with RString s => s | _ => "" end.

Definition trim (s : string) : string := s.
Definition fromHex (s : string) : list byte := [].
Definition fromBase64 (s : string) : list byte := [].

Definition start (m : Media) : VoiceState (World := Media) :=
  mkVoiceState None ∅ m [].

Definition getVoiceDataFromMediaDb :=
  VoiceLookup.getVoiceDataFromMediaDb execQuery listMediaDbs findMediaDbsManually
    toJsString trim fromHex fromBase64.

Definition blob (n : Z) : Raw := RBuffer (Buf.from [n]).

(** Fixtures, one for each tier: the voice of time 1000 belongs to
    identity 7 ("alice"), to an identity that is no candidate, or is stored
    three seconds late. *)
Definition tier1 : Media :=
  mkMedia [("alice", 7)] [mkVoiceRow 9 1000 (blob 1); mkVoiceRow 7 1000 (blob 2)].
Definition tier2 : Media :=
  mkMedia [("alice", 7)] [mkVoiceRow 9 1000 (blob 1)].
Definition tier3 : Media :=
  mkMedia [("alice", 7)] [mkVoiceRow 9 996 (blob 4); mkVoiceRow 9 1003 (blob 3)].


End SimMedia.

(** ** A hardlink database to run the path resolution on

    A stand-in in which the hardlink database knows one content hash and
    points it to a thumbnail, while a directory walk would find a file. *)

Module SimLinks.
Import ImagePathResolver.

Fixpoint takeUntil (sep : ascii) (l : list ascii) : list ascii :=
  match l with
  | [] => []
  | c :: l' => if Ascii.eqb c sep then [] else c :: takeUntil sep l'
  end.

(** The part after the last slash. *)
Definition basename (p : string) : string :=
  String.string_of_list_ascii
    (rev (takeUntil "/"%char (rev (String.list_ascii_of_string p)))).

(** The part from the last dot on, unless the name has no dot or starts
    with its only dot. *)
Definition extname (p : string) : string :=
  let l := String.list_ascii_of_string (basename p) in
  let tail := takeUntil "."%char (rev l) in
  if (length l <=? S (length tail))%nat then ""
  else String.string_of_list_ascii ("."%char :: rev tail).

Definition join (parts : list string) : string := String.concat "/" parts.

Definition knownMd5 : string := "0123456789abcdef0123456789abcdef".
Definition thumbPath : string :=
  "/acct/msg/attach/a/b/Img/0123456789abcdef0123456789abcdef_t.dat".
Definition walkedPath : string :=
  "/acct/msg/attach/a/b/Img/0123456789abcdef0123456789abcdef.dat".

Definition resolveHardlinkPath (accountDir md5 : string)
  (sessionId : option string) (w : unit) : option string * unit :=
  (if String.eqb md5 knownMd5 then Some thumbPath else None, w).

Definition walkForDatInWorker (root name : string) (depth : Z)
  (allowThumbnail thumbOnly : bool) (w : unit) : option string * unit :=
  (Some walkedPath, w).

Definition pathExists (p : string) (w : unit) : bool := true.

Definition start : ResolverState (World := unit) := mkResolverState ∅ tt [].

Definition resolveDatPath :=
  ImagePathResolver.resolveDatPath resolveHardlinkPath walkForDatInWorker
    pathExists basename extname join.

Definition isThumbnailPath := ImagePathResolver.isThumbnailPath basename extname.

End SimLinks.

(** ** Requests to run the shared work on

    A thumbnail of an image is in the resolved cache, a forced request for
    the same image is under way, and a plain request for it comes in. *)

Module SimFlight.
Import ImageFlight.

Definition existsSync (p : string) : bool := true.
Definition isImageFile (p : string) : bool := true.
Definition localUrl (p : string) : string := p.

Definition imageKey : string := "0123456789abcdef0123456789abcdef".
Definition thumbFile : string := "/cache/0123456789abcdef0123456789abcdef_t.jpg".

Definition plain : Payload := mkPayload (Some imageKey) None false.
Definition forced : Payload := mkPayload (Some imageKey) None true.

Definition decryptImage := ImageFlight.decryptImage existsSync isImageFile localUrl.

(** The first decryption has come and gone and left the thumbnail. *)
Definition afterFirst : ImageState :=
  finally_ 0 imageKey
    (settle 0 {[imageKey := thumbFile]} (decryptImage plain initial).2).

(** The forced request has started its task. *)
Definition whileForced : ImageState := (decryptImage forced afterFirst).2.

(** The caches are cleared while the forced request is in flight. *)
Definition afterClear : ImageState := clearCache whileForced.

Definition voiceRequest : TranscriptFlight.Request :=
  TranscriptFlight.mkRequest "room" "17" 1000.

(** The body of the first task for a transcript threw at once. *)
Definition afterThrow : TranscriptFlight.TranscriptState :=
  (TranscriptFlight.getVoiceTranscript voiceRequest true
     TranscriptFlight.initial).2.

End SimFlight.

(** ** Sample containers

    Concrete inputs on which the definitions above are evaluated. *)

Module Samples.
Import Buf.

(** A stand-in for the block cipher on which the decryptor can be run: it
    leaves the data as it is. *)
Definition plainCipher (key data : list byte) : list byte := data.

Definition key16 : list byte := from (repeat 0x41 16).

(** A V1 container whose header gives [aesSize = 16] and [xorSize = 0]; the
    body holds two blocks, the second one made of sixteen bytes 16. *)
Definition v1Dat : list byte :=
  from ([0x07; 0x08; 0x56; 0x31; 0x08; 0x07] ++ [16; 0; 0; 0] ++ [0; 0; 0; 0]
        ++ [0] ++ repeat 0x2a 16 ++ repeat 16 16).

(** The same container with the V2 signature. *)
Definition v2Dat : list byte :=
  from ([0x07; 0x08; 0x56; 0x32; 0x08; 0x07] ++ [16; 0; 0; 0] ++ [0; 0; 0; 0]
        ++ [0] ++ repeat 0x2a 16 ++ repeat 16 16).

(** A V1 container whose header gives [aesSize = -32] (bytes E0 FF FF FF)
    and [xorSize = 0] over a body of 48 bytes: a block of bytes 42, a block
    of sixteen bytes 16 and a block of bytes 43. *)
Definition negativeAesSizeDat : list byte :=
  from ([0x07; 0x08; 0x56; 0x31; 0x08; 0x07] ++ [0xE0; 0xFF; 0xFF; 0xFF]
        ++ [0; 0; 0; 0] ++ [0]
        ++ repeat 0x2a 16 ++ repeat 16 16 ++ repeat 0x2b 16).

(** A V1 container whose header gives [aesSize = 16] and [xorSize = 5]
    over a body of two blocks, which leaves nothing after the AES region. *)
Definition longXorSizeDat : list byte :=
  from ([0x07; 0x08; 0x56; 0x31; 0x08; 0x07] ++ [16; 0; 0; 0] ++ [5; 0; 0; 0]
        ++ [0] ++ repeat 0x2a 16 ++ repeat 16 16).

(** A message that carries only an ordering key. *)
Definition keyed (k : Z) : ChatService.Message :=
  ChatService.mkMessage 0 0 1 0 k "".

End Samples.

(** ** Image formats: type detection and the wxgf wrapper *)

Module ImageFormats.
Import Buf JsString.

(** [buffer[i] === v]; an index outside the buffer reads [undefined]. *)
Definition byteIs (buffer : list byte) (i : nat) (v : Z) : bool :=
  match nth_error buffer i with
  | Some b => u8 b =? v
  | None => false
  end.

(** The indices [from], [from + 1], ..., [to - 1] that a [for] loop
    visits. *)
Definition indices (from to : Z) : list nat :=
  seq (Z.to_nat from) (Z.to_nat to - Z.to_nat from).

Definition detectImageExtension (buffer : list byte) : option string :=
  if len buffer <? 12 then None
  else if byteIs buffer 0 0x47 && byteIs buffer 1 0x49 && byteIs buffer 2 0x46
  then Some ".gif"
  else if byteIs buffer 0 0x89 && byteIs buffer 1 0x50 && byteIs buffer 2 0x4e
          && byteIs buffer 3 0x47
  then Some ".png"
  else if byteIs buffer 0 0xff && byteIs buffer 1 0xd8 && byteIs buffer 2 0xff
  then Some ".jpg"
  else if byteIs buffer 0 0x52 && byteIs buffer 1 0x49 && byteIs buffer 2 0x46
          && byteIs buffer 3 0x46 && byteIs buffer 8 0x57
          && byteIs buffer 9 0x45 && byteIs buffer 10 0x42
          && byteIs buffer 11 0x50
  then Some ".webp"
  else None.

Definition mimeFromExtension (ext : string) : option string :=
  let e := toLowerCase ext in
  if String.eqb e ".gif" then Some "image/gif"
  else if String.eqb e ".png" then Some "image/png"
  else if String.eqb e ".jpg" || String.eqb e ".jpeg" then Some "image/jpeg"
  else if String.eqb e ".webp" then Some "image/webp"
  else None.

(** What [unwrapWxgf] gives back. *)
Record Unwrapped : Type := mkUnwrapped {
  data : list byte;
  isWxgf : bool
}.

(** [let ext = detectImageExtension(decrypted)], the [.hevc] fallback and
    [ext || '.jpg'] in [decryptImageInternal]. *)
Definition finalExtension (wxgfResult : Unwrapped) : string :=
  let ext := detectImageExtension (data wxgfResult) in
  let ext :=
    if isWxgf wxgfResult && negb (bool_decide (is_Some (ImagePathResolver.given ext)))
    then Some ".hevc" else ext in
  orString ext ".jpg".

Definition jpegAt (buffer : list byte) (i : nat) : bool :=
  byteIs buffer i 0xff && byteIs buffer (i + 1) 0xd8 && byteIs buffer (i + 2) 0xff.

Definition pngAt (buffer : list byte) (i : nat) : bool :=
  byteIs buffer i 0x89 && byteIs buffer (i + 1) 0x50
  && byteIs buffer (i + 2) 0x4e && byteIs buffer (i + 3) 0x47.

(** The four-byte start code 00 00 00 01 at index [i]. *)
Definition startCode4 (buffer : list byte) (i : nat) : bool :=
  byteIs buffer i 0 && byteIs buffer (i + 1) 0
  && byteIs buffer (i + 2) 0 && byteIs buffer (i + 3) 1.

(** The test of the inner loop of [extractHevcNalu]: a three- or four-byte
    start code at index [j]. *)
Definition nextStart (buffer : list byte) (j : nat) : bool :=
  byteIs buffer j 0 && byteIs buffer (j + 1) 0
  && (byteIs buffer (j + 2) 1
      || (byteIs buffer (j + 2) 0 && (Z.of_nat j + 3 <? len buffer)
          && byteIs buffer (j + 3) 1)).

(** [nalEnd] for a unit that starts at [i]: the first [j] from [i + 4] on,
    below [buffer.length - 3], at which a start code begins, else the
    length of the buffer. *)
Definition nalEndFrom (buffer : list byte) (i : nat) : nat :=
  match find (nextStart buffer) (indices (Z.of_nat i + 4) (len buffer - 3)) with
  | Some j => j
  | None => length buffer
  end.

(** [while (i < buffer.length - 4) { ... }]; the answer is [None] only if
    the bound on the number of rounds is reached. *)
Fixpoint nalLoop (fuel : nat) (buffer : list byte) (i : nat)
  (nalUnits : list (list byte)) : option (list (list byte)) :=
  if negb (Z.of_nat i <? len buffer - 4) then Some nalUnits
  else
    match fuel with
    | O => None
    | S fuel' =>
        if startCode4 buffer i then
          let nalStart := i in
          let nalEnd := nalEndFrom buffer i in
          let nalUnit := subarray buffer (Z.of_nat nalStart) (Z.of_nat nalEnd) in
          let nalUnits' :=
            if len nalUnit >? 3 then nalUnits ++ [nalUnit] else nalUnits in
          nalLoop fuel' buffer nalEnd nalUnits'
        else nalLoop fuel' buffer (S i) nalUnits
    end.

(** [extractHevcNalu]: [Some None] is the answer [null]. *)
Definition extractHevcNalu (buffer : list byte) : option (option (list byte)) :=
  match nalLoop (length buffer) buffer 4 [] with
  | None => None
  | Some nalUnits =>
      if (length nalUnits =? 0)%nat then
        match find (startCode4 buffer) (indices 4 (len buffer - 4)) with
        | Some j => Some (Some (subarray_from buffer (Z.of_nat j)))
        | None => Some None
        end
      else Some (Some (concat nalUnits))
  end.

Section Wxgf.

(** [convertHevcToJpg] runs ffmpeg; [buffer.toString('base64')]. *)
Variable convertHevcToJpg : list byte -> Outcome (option (list byte)).
Variable toBase64 : list byte -> string.

Definition bufferToDataUrl (buffer : list byte) (ext : string) : option string :=
  match mimeFromExtension ext with
  | None => None
  | Some mimeType =>
      Some ("data:" +:+ mimeType +:+ ";base64," +:+ toBase64 buffer)
  end.

Definition looksWxgf (buffer : list byte) : bool :=
  negb ((len buffer <? 20)
        || negb (byteIs buffer 0 0x77) || negb (byteIs buffer 1 0x78)
        || negb (byteIs buffer 2 0x67) || negb (byteIs buffer 3 0x66)).

(** The first loop of [unwrapWxgf]: the first index from 4 on, below
    [min(buffer.length - 12, 4096)], at which a JPEG or PNG signature
    begins. *)
Definition embeddedImageAt (buffer : list byte) : option nat :=
  find (fun i => jpegAt buffer i || pngAt buffer i)
       (indices 4 (Z.min (len buffer - 12) 4096)).

(** [unwrapWxgf]; the answer is [None] only if [extractHevcNalu] reached
    its bound. *)
Definition unwrapWxgf (buffer : list byte) : option Unwrapped :=
  if negb (looksWxgf buffer) then Some (mkUnwrapped buffer false)
  else
    match embeddedImageAt buffer with
    | Some i => Some (mkUnwrapped (subarray_from buffer (Z.of_nat i)) false)
    | None =>
        match extractHevcNalu buffer with
        | None => None
        | Some extracted =>
            match extracted with
            | None => Some (mkUnwrapped buffer true)
            | Some hevcData =>
                if len hevcData <? 100 then Some (mkUnwrapped buffer true)
                else
                  match convertHevcToJpg hevcData with
                  | Returned (Some jpgData) =>
                      if len jpgData >? 0 then Some (mkUnwrapped jpgData false)
                      else Some (mkUnwrapped hevcData true)
                  | _ => Some (mkUnwrapped hevcData true)
                  end
            end
        end
    end.

End Wxgf.

End ImageFormats.

(** ** Sample image data *)

Module SampleImages.
Import Buf.

(** The four bytes [wxgf], then a JPEG signature and twenty more bytes. *)
Definition wxgfWithJpeg : list byte :=
  from ([0x77; 0x78; 0x67; 0x66] ++ [0xFF; 0xD8; 0xFF; 0xE0] ++ repeat 0 20).

(** A JPEG header encrypted with the XOR key 0x37. *)
Definition xoredJpegHeader : list byte := from [0xC8; 0xEF; 0xC8; 0xD7].

End SampleImages.

(** ** The detection of the XOR key from a directory of containers *)

Module XorKeyDetection.
Import Buf JsString.

(** [IMAGE_SIGNATURES], in the order of [Object.entries]. *)
Definition IMAGE_SIGNATURES : list (string * list byte) :=
  [("jpg", from [0xFF; 0xD8; 0xFF]);
   ("png", from [0x89; 0x50; 0x4E; 0x47]);
   ("gif", from [0x47; 0x49; 0x46; 0x38]);
   ("bmp", from [0x42; 0x4D]);
   ("webp", from [0x52; 0x49; 0x46; 0x46])].

(** The inner loop of [detectXorKeyFromV3]: [(header[i] ^ xorKey) ===
    signature[i]] at every index below both lengths. *)
Definition signatureFits (header signature : list byte) (xorKey : Z) : bool :=
  forallb (fun i => js_xor (get header i) xorKey =? get signature i)
          (seq 0 (Nat.min (length signature) (length header))).

(** [header[0] ^ signature[0]]. *)
Definition candidateKey (header signature : list byte) : Z :=
  js_xor (get header 0) (get signature 0).

Definition detectXorKeyFromV3 (header : list byte) : option Z :=
  match find (fun entry => signatureFits header entry.2 (candidateKey header entry.2))
             IMAGE_SIGNATURES with
  | Some entry => Some (candidateKey header entry.2)
  | None => None
  end.

(** An entry of a directory as [readdirSync(dir, { withFileTypes: true })]
    and the reads that follow show it: a directory with its entries, or
    something else with its content; [None] stands for an exception of the
    file system. *)
#[local] Unset Elimination Schemes.
Inductive Dirent : Type :=
| DirentFile (name : string) (content : option (list byte))
| DirentDir (name : string) (entries : option (list Dirent)).
#[local] Set Elimination Schemes.

(** Induction on the entries of a directory tree. *)
Section DirentInduction.

Variable P : Dirent -> Prop.
Hypothesis file_case : forall name content, P (DirentFile name content).
Hypothesis unreadable_case : forall name, P (DirentDir name None).
Hypothesis dir_case :
  forall name entries, Forall P entries -> P (DirentDir name (Some entries)).

Fixpoint Dirent_induction (entry : Dirent) : P entry :=
  match entry with
  | DirentFile name content => file_case name content
  | DirentDir name None => unreadable_case name
  | DirentDir name (Some entries) =>
      dir_case name entries
        ((fix all (es : list Dirent) : Forall P es :=
            match es with
            | [] => @List.Forall_nil _ P
            | e :: es' => @List.Forall_cons _ P e es' (Dirent_induction e) (all es')
            end) entries)
  end.

End DirentInduction.

(** [Buffer.alloc(16)] after [readSync(fd, header, 0, 16, 0)]. *)
Definition readHeader (content : list byte) : list byte :=
  let got := firstn 16 content in
  got ++ repeat Byte.x00 (16 - length got).

(** [a.equals(b)] on buffers. *)
Definition equals (a b : list byte) : bool := bool_decide (a = b).

(** A [Map] from numbers to numbers with its insertion order. *)
Definition KeyCount : Type := list (Z * Z).

Fixpoint countGet (m : KeyCount) (key : Z) : option Z :=
  match m with
  | [] => None
  | (k, v) :: m' => if k =? key then Some v else countGet m' key
  end.

Fixpoint countSet (m : KeyCount) (key value : Z) : KeyCount :=
  match m with
  | [] => [(key, value)]
  | (k, v) :: m' =>
      if k =? key then (k, value) :: m' else (k, v) :: countSet m' key value
  end.

Record ScanState : Type := mkScanState {
  keyCount : KeyCount;
  filesChecked : Z
}.

(** [keyCount.set(key, (keyCount.get(key) || 0) + 1)] and
    [filesChecked++]. *)
Definition countKey (st : ScanState) (key : Z) : ScanState :=
  mkScanState
    (countSet (keyCount st) key
       (orNumber (default 0 (countGet (keyCount st) key)) 0 + 1))
    (filesChecked st + 1).

(** The body of the [else if (entry.name.endsWith('.dat'))] branch. *)
Definition checkFile (content : option (list byte)) (st : ScanState) : ScanState :=
  match content with
  | None => st
  | Some bytes =>
      let header := readHeader bytes in
      if equals (subarray header 0 6) ImageDecryptService.sigV1
         || equals (subarray header 0 6) ImageDecryptService.sigV2
      then st
      else
        match detectXorKeyFromV3 header with
        | Some key => countKey st key
        | None => st
        end
  end.

(** The body of the loop of [scanDir] for one entry; a directory is
    scanned by [scanDir] again. *)
Fixpoint scanEntry (maxFiles : Z) (entry : Dirent) (st : ScanState) : ScanState :=
  match entry with
  | DirentDir _ listing =>
      if filesChecked st >=? maxFiles then st
      else
        match listing with
        | None => st
        | Some entries =>
            (fix loop (es : list Dirent) (st : ScanState) : ScanState :=
               match es with
               | [] => st
               | e :: es' =>
                   if filesChecked st >=? maxFiles then st
                   else loop es' (scanEntry maxFiles e st)
               end) entries st
        end
  | DirentFile name content =>
      if endsWith name ".dat" then checkFile content st else st
  end.

(** What remains of the budget of files. *)
Definition budget (maxFiles : Z) (st : ScanState) : nat :=
  Z.to_nat (maxFiles - filesChecked st).

(** [for (const entry of entries) { ... }] in [scanDir]. *)
Fixpoint scanEntries (maxFiles : Z) (entries : list Dirent) (st : ScanState)
  : ScanState :=
  match entries with
  | [] => st
  | e :: es' =>
      if filesChecked st >=? maxFiles then st
      else scanEntries maxFiles es' (scanEntry maxFiles e st)
  end.

(** [scanDir] on a directory with the given listing. *)
Definition scanDir (maxFiles : Z) (listing : option (list Dirent)) (st : ScanState)
  : ScanState :=
  if filesChecked st >=? maxFiles then st
  else
    match listing with
    | None => st
    | Some entries => scanEntries maxFiles entries st
    end.

(** The [forEach] that picks the key: a later key wins only with a
    strictly larger count. *)
Fixpoint pickMostCommon (m : KeyCount) (maxCount : Z) (mostCommonKey : option Z)
  : option Z :=
  match m with
  | [] => mostCommonKey
  | (key, count) :: m' =>
      if count >? maxCount then pickMostCommon m' count (Some key)
      else pickMostCommon m' maxCount mostCommonKey
  end.

(** [batchDetectXorKey] on a directory with the given listing. *)
Definition batchDetectXorKey (root : option (list Dirent)) (maxFiles : Z)
  : option Z :=
  let st := scanDir maxFiles root (mkScanState [] 0) in
  if (length (keyCount st) =? 0)%nat then None
  else pickMostCommon (keyCount st) 0 None.

(** The keys detected in the files below a directory, in the order of the
    scan: what the scan counts when nothing stops it. *)
Definition keyOfFile (name : string) (content : option (list byte)) : list Z :=
  if endsWith name ".dat" then
    match content with
    | None => []
    | Some bytes =>
        let header := readHeader bytes in
        if equals (subarray header 0 6) ImageDecryptService.sigV1
           || equals (subarray header 0 6) ImageDecryptService.sigV2
        then []
        else
          match detectXorKeyFromV3 header with
          | Some key => [key]
          | None => []
          end
    end
  else [].

Fixpoint detectedKeys (entry : Dirent) : list Z :=
  match entry with
  | DirentFile name content => keyOfFile name content
  | DirentDir _ None => []
  | DirentDir _ (Some entries) => concat (map detectedKeys entries)
  end.

Definition detectedKeysIn (listing : option (list Dirent)) : list Z :=
  match listing with
  | None => []
  | Some entries => concat (map detectedKeys entries)
  end.

(** The keys of a list in the order in which they first occur. *)
Definition firstSeen (keys : list Z) : list Z :=
  fold_left (fun seen k => if bool_decide (k ∈ seen) then seen else seen ++ [k])
            keys [].

(** How often [key] occurs. *)
Definition occurrences (key : Z) (keys : list Z) : Z :=
  Z.of_nat (length (filter (fun k => k = key) keys)).

End XorKeyDetection.

(** ** The chat service: WAV headers and cache names *)

Module VoiceWav.
Import Buf.

(** [buf.write(...)] and [buf.writeUInt..LE(...)] store [bytes] from
    [offset] on; the offsets used lie inside the buffer. *)
Definition writeBytes (buf : list byte) (offset : nat) (bytes : list byte)
  : list byte :=
  firstn offset buf ++ bytes ++ skipn (offset + length bytes) buf.

(** [buf.write(s, offset)] for an ASCII string. *)
Definition write (buf : list byte) (s : string) (offset : nat) : list byte :=
  writeBytes buf offset (ImageDecryptService.bufferFromAscii s).

(** The [n] low bytes of [value], the lowest first. *)
Definition littleEndian (n : nat) (value : Z) : list byte :=
  map (fun i => to_u8 (Z.shiftr value (8 * Z.of_nat i))) (seq 0 n).

(** [buf.writeUInt32LE(value, offset)]: a value outside of 0 .. 2^32 - 1
    is a [RangeError]. *)
Definition writeUInt32LE (buf : list byte) (value : Z) (offset : nat)
  : option (list byte) :=
  if (value <? 0) || (value >? 2 ^ 32 - 1) then None
  else Some (writeBytes buf offset (littleEndian 4 value)).

(** [buf.writeUInt16LE(value, offset)]: a value outside of 0 .. 65535 is a
    [RangeError]. *)
Definition writeUInt16LE (buf : list byte) (value : Z) (offset : nat)
  : option (list byte) :=
  if (value <? 0) || (value >? 2 ^ 16 - 1) then None
  else Some (writeBytes buf offset (littleEndian 2 value)).

(** [createWavBuffer]; [None] is a thrown [RangeError]. *)
Definition createWavBuffer (pcmData : list byte) (sampleRate channels : Z)
  : option (list byte) :=
  let pcmLength := len pcmData in
  let header := repeat Byte.x00 44 in
  let header := write header "RIFF" 0 in
  header ← writeUInt32LE header (36 + pcmLength) 4;
  let header := write header "WAVE" 8 in
  let header := write header "fmt " 12 in
  header ← writeUInt32LE header 16 16;
  header ← writeUInt16LE header 1 20;
  header ← writeUInt16LE header channels 22;
  header ← writeUInt32LE header sampleRate 24;
  header ← writeUInt32LE header (sampleRate * channels * 2) 28;
  header ← writeUInt16LE header (channels * 2) 32;
  header ← writeUInt16LE header 16 34;
  let header := write header "data" 36 in
  header ← writeUInt32LE header pcmLength 40;
  Some (header ++ pcmData).

(** The number that bytes stand for, the lowest byte first. *)
Fixpoint unsignedLE (bytes : list byte) : Z :=
  match bytes with
  | [] => 0
  | b :: rest => u8 b + 256 * unsignedLE rest
  end.

(** The field of [n] bytes at [offset]. *)
Definition field (buf : list byte) (offset n : nat) : list byte :=
  firstn n (skipn offset buf).

End VoiceWav.

Module EmojiCacheName.
Import Buf.

(** [a & b] on numbers. *)
Definition js_and (a b : Z) : Z := Z.land (toInt32 a) (toInt32 b).

(** [str.charCodeAt(i)] for every index, on an ASCII string. *)
Definition charCodes (str : string) : list Z :=
  map (fun c => Z.of_nat (Ascii.nat_of_ascii c)) (String.list_ascii_of_string str).

(** One round of the loop of [hashString]. *)
Definition hashStep (hash char : Z) : Z :=
  let hash := (js_shl hash 5 - hash) + char in
  js_and hash hash.

Definition hexDigit (d : Z) : Ascii.ascii :=
  nth (Z.to_nat d) (String.list_ascii_of_string "0123456789abcdef") "0"%char.

(** The digits of [n] in base 16 in front of [acc]. *)
Fixpoint hexDigits (fuel : nat) (n : Z) (acc : string) : string :=
  match fuel with
  | O => acc
  | S fuel' =>
      let acc' := String (hexDigit (n mod 16)) acc in
      if n / 16 =? 0 then acc' else hexDigits fuel' (n / 16) acc'
  end.

(** [n.toString(16)] for an integer [n >= 0]. *)
Definition toString16 (n : Z) : string :=
  hexDigits (S (Z.to_nat (Z.log2 n))) n "".

Definition hashValue (str : string) : Z := fold_left hashStep (charCodes str) 0.

(** [hashString]. *)
Definition hashString (str : string) : string :=
  toString16 (Z.abs (hashValue str)).

(** The polynomial [c0 * 31^(n-1) + ... + c(n-1)] over the character
    codes. *)
Definition polynomial31 (codes : list Z) : Z :=
  fold_left (fun h c => 31 * h + c) codes 0.

(** The number that a string of digits in base 16 stands for. *)
Definition digitValue (c : Ascii.ascii) : Z :=
  let n := Z.of_nat (Ascii.nat_of_ascii c) in
  if n <? 58 then n - 48 else n - 87.

Definition hexValue (s : string) : Z :=
  fold_left (fun a c => 16 * a + digitValue c) (String.list_ascii_of_string s) 0.

Definition isLowerHexDigit (c : Ascii.ascii) : bool :=
  let n := Ascii.nat_of_ascii c in
  (((48 <=? n) && (n <=? 57)) || ((97 <=? n) && (n <=? 102)))%nat.

End EmojiCacheName.

(** ** Names of accounts and of cache directories *)

Module AccountNames.
Import JsString.

Fixpoint takeWhile {A} (p : A -> bool) (l : list A) : list A :=
  match l with
  | [] => []
  | x :: l' => if p x then x :: takeWhile p l' else []
  end.

Definition isAlnum (c : Ascii.ascii) : bool :=
  let n := Ascii.nat_of_ascii c in
  (((48 <=? n) && (n <=? 57)) || ((65 <=? n) && (n <=? 90))
   || ((97 <=? n) && (n <=? 122)))%nat.

(** The characters that [.] does not match. *)
Definition isLineTerminator (c : Ascii.ascii) : bool :=
  let n := Ascii.nat_of_ascii c in ((n =? 10) || (n =? 13))%nat.

Definition isUnderscore (c : Ascii.ascii) : bool := Ascii.eqb c "_"%char.

(** [trimmed.match(/^(wxid_[^_]+)/i)], the first group. *)
Definition matchWxid (trimmed : string) : option string :=
  let chars := String.list_ascii_of_string trimmed in
  if String.eqb (toLowerCase (String.string_of_list_ascii (firstn 5 chars))) "wxid_"
  then
    match takeWhile (fun c => negb (isUnderscore c)) (skipn 5 chars) with
    | [] => None
    | rest => Some (String.string_of_list_ascii (firstn 5 chars ++ rest))
    end
  else None.

(** [trimmed.match(/^(.+)_([a-zA-Z0-9]{4})$/)], the first group. *)
Definition matchSuffix (trimmed : string) : option string :=
  let chars := String.list_ascii_of_string trimmed in
  let n := length chars in
  let head := firstn (n - 5) chars in
  if (6 <=? n)%nat
     && forallb (fun c => negb (isLineTerminator c)) head
     && forallb isUnderscore (firstn 1 (skipn (n - 5) chars))
     && forallb isAlnum (skipn (n - 4) chars)
  then Some (String.string_of_list_ascii head)
  else None.

Section Trimmed.

(** [String.prototype.trim], which removes the white space and the line
    terminators of Unicode at both ends; it is taken as given. *)
Variable trim : string -> string.

Definition cleanAccountDirName (dirName : string) : string :=
  let trimmed := trim dirName in
  if String.eqb trimmed "" then trimmed
  else if String.prefix "wxid_" (toLowerCase trimmed) then
    match matchWxid trimmed with
    | Some m => m
    | None => trimmed
    end
  else
    match matchSuffix trimmed with
    | Some m => m
    | None => trimmed
    end.

(** The characters that [sanitizeDirName] replaces: the double quote (34)
    and [<], [>], [:], [/], [\], [|], [?] and the asterisk. *)
Definition isReserved (c : Ascii.ascii) : bool :=
  bool_decide (Ascii.nat_of_ascii c ∈ [60; 62; 58; 34; 47; 92; 124; 63; 42]%nat).

(** [s.replace(..., '_')] with the class of these characters and the
    flag [g]. *)
Fixpoint replaceReserved (s : string) : string :=
  match s with
  | EmptyString => EmptyString
  | String c s' =>
      String (if isReserved c then "_"%char else c) (replaceReserved s')
  end.

Definition sanitizeDirName (name : string) : string :=
  let trimmed := trim name in
  if String.eqb trimmed "" then "unknown"
  else replaceReserved trimmed.

End Trimmed.

End AccountNames.

(** ** The keys of the resolved-path cache *)

Module CacheKeys.
Import JsString ImagePathResolver ImageFlight.

(** [if (!keys.includes(k)) keys.push(k)]. *)
Definition pushNew (keys : list string) (k : string) : list string :=
  if bool_decide (k ∈ keys) then keys else keys ++ [k].

(** [addKey] of [getCacheKeys]. *)
Definition addKey (value : option string) (keys : list string) : list string :=
  match given value with
  | None => keys
  | Some v =>
      let lower := toLowerCase v in
      let keys := pushNew keys v in
      let keys := pushNew keys lower in
      let normalized := normalizeDatBase lower in
      if negb (String.eqb normalized "") then pushNew keys normalized else keys
  end.

Definition getCacheKeys (payload : Payload) : list string :=
  let keys := addKey (imageMd5 payload) [] in
  match given (imageDatName payload) with
  | Some _ =>
      if negb (bool_decide (imageDatName payload = imageMd5 payload))
      then addKey (imageDatName payload) keys
      else keys
  | None => keys
  end.

(** [cacheResolvedPaths] on the resolved cache. *)
Definition cacheResolvedPaths (cacheKey : string)
  (imageMd5 imageDatName : option string) (outputPath : string)
  (cache : gmap string string) : gmap string string :=
  let cache := <[cacheKey := outputPath]> cache in
  let cache :=
    match given imageMd5 with
    | Some md5 =>
        if negb (String.eqb md5 cacheKey) then <[md5 := outputPath]> cache
        else cache
    | None => cache
    end in
  match given imageDatName with
  | Some datName =>
      if negb (String.eqb datName cacheKey)
         && negb (bool_decide (imageDatName = imageMd5))
      then <[datName := outputPath]> cache
      else cache
  | None => cache
  end.

End CacheKeys.

(** ** The chat service: the latest messages of a session *)

Module LatestMessages.
Import ChatService.

Section Latest.

Context {World Row : Type}.
Variable ensureConnected : World -> Outcome ConnectResult * World.
Variable openMessageCursor :
  string -> Z -> bool -> Z -> Z -> World -> Outcome CursorResult * World.
Variable fetchMessageBatch : Z -> World -> Outcome (BatchResult Row) * World.
Variable closeMessageCursor : Z -> World -> Outcome unit * World.
Variable mapRowsToMessages : list Row -> list Message.
Variable fallbackEmoticons : list Message -> World -> list Message * World.

(** [await wcdbService.closeMessageCursor(cursor)] with its outcome. *)
Definition closeCursor (c : Z) (s : ChatState (World := World))
  : Outcome unit * ChatState (World := World) :=
  let '(r, w) := closeMessageCursor c (world s) in
  (r, logCall (CClose c) (setWorld w s)).

(** The body of the inner [try] of [getLatestMessages]: what it returns,
    or what it throws. *)
Definition fetchLatest (c : Z) (s : ChatState (World := World))
  : Outcome MessagesResult * ChatState (World := World) :=
  let '(r, s1) := doFetch fetchMessageBatch c s in
  match r with
  | Thrown e => (Thrown e, s1)
  | Returned batch =>
      if negb (br_success batch) then
        (Returned (failure (orString (br_error batch) "获取消息失败")), s1)
      else
        match br_rows batch with
        | None => (Returned (failure (orString (br_error batch) "获取消息失败")), s1)
        | Some rows =>
            let normalized := normalizeMessageOrder (mapRowsToMessages rows) in
            let '(fixed, w) := fallbackEmoticons normalized (world s1) in
            (Returned (mkMessagesResult true (Some fixed) None None),
             setWorld w s1)
        end
  end.

(** [getLatestMessages]; [limit] is absent when the caller leaves it
    out. *)
Definition getLatestMessages (sessionId : string) (limit : option Z)
  (s0 : ChatState (World := World))
  : MessagesResult * ChatState (World := World) :=
  let '(conn, w) := ensureConnected (world s0) in
  let s := setWorld w s0 in
  match conn with
  | Thrown e => (failure e, s)
  | Returned connectResult =>
      if negb (cn_success connectResult) then
        (failure (orString (cn_error connectResult) "数据库未连接"), s)
      else
        let batchSize := Z.max 1 (default messageBatchDefault limit) in
        let '(opened, s1) := doOpen openMessageCursor sessionId batchSize false 0 0 s in
        match opened with
        | Thrown e => (failure e, s1)
        | Returned cursorResult =>
            match cr_success cursorResult, cr_cursor cursorResult with
            | true, Some c =>
                if c =? 0 then
                  (failure (orString (cr_error cursorResult) "打开消息游标失败"), s1)
                else
                  let '(tried, s2) := fetchLatest c s1 in
                  (* finally *)
                  let '(closed, s3) := closeCursor c s2 in
                  match closed, tried with
                  | Thrown e, _ => (failure e, s3)
                  | Returned _, Thrown e => (failure e, s3)
                  | Returned _, Returned r => (r, s3)
                  end
            | _, _ =>
                (failure (orString (cr_error cursorResult) "打开消息游标失败"), s1)
            end
        end
  end.

End Latest.

End LatestMessages.

(** ** The bound on the transcript cache *)

Module TranscriptCache.
Import TranscriptFlight.

(** What the steps keep: the bound on the transcript cache, and that no
    key, cached or in flight, is empty. *)
Definition Bounded (s : TranscriptState) : Prop :=
  (length (voiceTranscriptCache s) <= voiceCacheMaxEntries)%nat
  /\ Forall (fun p => p.1 <> "") (voiceTranscriptCache s)
  /\ Forall (fun p => p.2 <> "") (started s).

End TranscriptCache.

(** ** The chat service: cleaning of message text *)

Module Utf16.

(** A string is the list of its UTF-16 code units. *)
Definition between (lo hi u : Z) : bool := (lo <=? u) && (u <=? hi).

(** The class [\x00-\x08\x0B-\x0C\x0E-\x1F\x7F-\x9F]. *)
Definition isControl (u : Z) : bool :=
  between 0x00 0x08 u || between 0x0B 0x0C u || between 0x0E 0x1F u
  || between 0x7F 0x9F u.

Definition isHighSurrogate (u : Z) : bool := between 0xd800 0xdbff u.
Definition isLowSurrogate (u : Z) : bool := between 0xdc00 0xdfff u.

(** The class [\u0020-\u007E\u4E00-\u9FFF\u3000-\u303F]. *)
Definition isPlain (u : Z) : bool :=
  between 0x0020 0x007E u || between 0x4E00 0x9FFF u || between 0x3000 0x303F u.

(** The loop over the code units: a high surrogate is kept with the low
    surrogate that follows it, every other surrogate is dropped. *)
Fixpoint validUnitsOf (codeUnits : list Z) : list Z :=
  match codeUnits with
  | [] => []
  | unit :: rest =>
      if isHighSurrogate unit then
        match rest with
        | nextUnit :: rest' =>
            if isLowSurrogate nextUnit then unit :: nextUnit :: validUnitsOf rest'
            else validUnitsOf rest
        | [] => []
        end
      else if isLowSurrogate unit then validUnitsOf rest
      else unit :: validUnitsOf rest
  end.

Section Clean.

(** Whether [String.fromCharCode(...validUnits)] throws, which depends on
    how many arguments the engine accepts. *)
Variable fromCharCodeThrows : list Z -> bool.

Definition cleanUtf16 (input : list Z) : list Z :=
  match input with
  | [] => input
  | _ =>
      let cleaned := List.filter (fun u => negb (isControl u)) input in
      let validUnits := validUnitsOf cleaned in
      if fromCharCodeThrows validUnits then List.filter isPlain input
      else validUnits
  end.

End Clean.

(** No surrogate stands alone. *)
Fixpoint wellFormed (units : list Z) : bool :=
  match units with
  | [] => true
  | u :: rest =>
      if isHighSurrogate u then
        match rest with
        | n :: rest' => isLowSurrogate n && wellFormed rest'
        | [] => false
        end
      else negb (isLowSurrogate u) && wellFormed rest
  end.

End Utf16.

(** ** The index of the decrypted images *)

Module CacheIndex.
Import JsString ImagePathResolver.

(** An entry of a directory as [readdirSync] and [statSync] show it;
    [Unreadable] is an entry on which [statSync] throws, and the entries of
    a directory are [None] when [readdirSync] throws on it. *)
#[local] Unset Elimination Schemes.
Inductive Entry : Type :=
| File (name : string)
| Dir (name : string) (entries : option (list Entry))
| Other (name : string)
| Unreadable (name : string).
#[local] Set Elimination Schemes.

(** Induction on the entries of a directory tree. *)
Section EntryInduction.

Variable P : Entry -> Prop.
Hypothesis entry_file_case : forall name, P (File name).
Hypothesis entry_other_case : forall name, P (Other name).
Hypothesis entry_unreadable_case : forall name, P (Unreadable name).
Hypothesis entry_closed_case : forall name, P (Dir name None).
Hypothesis entry_dir_case :
  forall name entries, Forall P entries -> P (Dir name (Some entries)).

Fixpoint Entry_induction (entry : Entry) : P entry :=
  match entry with
  | File name => entry_file_case name
  | Other name => entry_other_case name
  | Unreadable name => entry_unreadable_case name
  | Dir name None => entry_closed_case name
  | Dir name (Some entries) =>
      entry_dir_case name entries
        ((fix all (es : list Entry) : Forall P es :=
            match es with
            | [] => @List.Forall_nil _ P
            | e :: es' => @List.Forall_cons _ P e es' (Entry_induction e) (all es')
            end) entries)
  end.

End EntryInduction.

Definition extensions : list string := [".jpg"; ".jpeg"; ".png"; ".gif"; ".webp"].

Section Index.

Variable basename : string -> string.
Variable extname : string -> string.
(** [join(root, entry)]. *)
Variable join : string -> string -> string.

Definition addCacheIndex (key path : string) (cache : gmap string string)
  : gmap string string :=
  let normalizedKey := toLowerCase key in
  match given (cache !! normalizedKey) with
  | Some existing =>
      let existingIsThumb := isThumbnailPath basename extname existing in
      let candidateIsThumb := isThumbnailPath basename extname path in
      if negb existingIsThumb && candidateIsThumb then cache
      else <[normalizedKey := path]> cache
  | None => <[normalizedKey := path]> cache
  end.

(** The part of the loop body of [indexCacheDir] for a file. *)
Definition indexFile (root entry : string) (cache : gmap string string)
  : gmap string string :=
  let fullPath := join root entry in
  let lower := toLowerCase entry in
  match find (fun item => endsWith lower item) extensions with
  | None => cache
  | Some ext =>
      let base := dropLast (String.length ext) entry in
      let cache := addCacheIndex base fullPath cache in
      let normalized := normalizeDatBase base in
      if negb (String.eqb normalized "")
         && negb (String.eqb normalized (toLowerCase base))
      then addCacheIndex normalized fullPath cache
      else cache
  end.

(** The loop body of [indexCacheDir(root, maxDepth, depth)] for one
    entry. *)
Fixpoint indexEntry (maxDepth depth : Z) (root : string) (entry : Entry)
  (cache : gmap string string) : gmap string string :=
  match entry with
  | Unreadable _ => cache
  | Other _ => cache
  | File name => indexFile root name cache
  | Dir name listing =>
      if depth <? maxDepth then
        match listing with
        | None => cache
        | Some entries =>
            fold_left
              (fun c e => indexEntry maxDepth (depth + 1) (join root name) e c)
              entries cache
        end
      else cache
  end.

(** [indexCacheDir(root, maxDepth, depth)] on a directory with the given
    listing. *)
Definition indexCacheDir (root : string) (listing : option (list Entry))
  (maxDepth depth : Z) (cache : gmap string string) : gmap string string :=
  match listing with
  | None => cache
  | Some entries =>
      fold_left (fun c e => indexEntry maxDepth depth root e c) entries cache
  end.

(** The cache holds a path under [key] that is no thumbnail. *)
Definition holdsFullImage (cache : gmap string string) (key : string) : Prop :=
  exists path,
    cache !! key = Some path /\ path <> ""
    /\ isThumbnailPath basename extname path = false.

End Index.

End CacheIndex.

(** ** A cache directory to run the index on *)

Module SimCache.

(** [join(root, entry)] for a root without a trailing slash. *)
Definition join (root entry : string) : string := root +:+ "/" +:+ entry.

End SimCache.

(** ** The two decryption paths: chat service and image service *)

Module ChatImage.
Import Buf ImageDecryptService.

(** [a.equals(b)] on buffers. *)
Definition equals (a b : list byte) : bool := bool_decide (a = b).

(** [getDatVersion] of the chat service, on the bytes of the container. *)
Definition getDatVersion (data : list byte) : Z :=
  if len data <? 6 then 0
  else if equals (subarray data 0 6) sigV1 then 1
  else if equals (subarray data 0 6) sigV2 then 2
  else 0.

(** How step 5 of [getImageData] ends: with the decrypted bytes, with the
    failure that it returns for a container of version 2 without a usable
    key, or with an exception, which [getImageData] catches and returns as
    a failure with the text of the exception. *)
Inductive Decryption : Type :=
| Decrypted (bytes : list byte)
| NeedsV4Key
| Failed (e : error).

Definition ofResult (r : result (list byte)) : Decryption :=
  match r with
  | Ok bytes => Decrypted bytes
  | Err e => Failed e
  end.

Section Paths.

Variable aes128ecb : list byte -> list byte -> list byte.
Variable trim : string -> string.              (* String.prototype.trim *)

(** Step 5 of [getImageData] in the chat service: the container is
    decrypted by its version; [aesKeyRaw] is the configured key, or the key
    of the message. The chat service's [decryptDatV3] and [decryptDatV4]
    are [xorBytes] and [decryptDatV4Of]. *)
Definition decryptData (data : list byte) (xorKey : Z) (aesKeyRaw : option string)
  : Decryption :=
  let version := getDatVersion data in
  if version =? 0 then Decrypted (xorBytes data xorKey)
  else if version =? 1 then
    ofResult (let! aesKey := asciiKey16 defaultV1AesKey in
              decryptDatV4Of aes128ecb data xorKey aesKey)
  else
    let trimmed := trim (default "" aesKeyRaw) in
    if String.eqb trimmed "" || (String.length trimmed <? 16)%nat
    then NeedsV4Key
    else
      ofResult (let! aesKey := asciiKey16 trimmed in
                decryptDatV4Of aes128ecb data xorKey aesKey).

(** The image service, in [decryptImageInternal]: the configured key is
    resolved first, then the container is decrypted. *)
Definition decryptWithConfiguredKey (fs : FS) (datPath : string) (xorKey : Z)
  (aesKeyRaw : option string) : result (list byte) :=
  let! aesKey := resolveAesKey trim aesKeyRaw in
  decryptDatAuto aes128ecb fs datPath xorKey aesKey.

End Paths.

End ChatImage.

(** ** Text placed in SQL queries *)

Module SqlText.

Definition isQuote (c : Ascii.ascii) : bool := Ascii.eqb c "'"%char.

(** [value.replace(/'/g, "''")]. *)
Fixpoint escapeSqlString (value : string) : string :=
  match value with
  | EmptyString => EmptyString
  | String c rest =>
      if isQuote c then String c (String c (escapeSqlString rest))
      else String c (escapeSqlString rest)
  end.

(** The query of [resolveHardlinkPath] for a content hash. *)
Definition hardlinkQuery (imageTable md5 : string) : string :=
  "SELECT dir1, dir2, file_name FROM " +:+ imageTable
  +:+ " WHERE lower(md5) = lower('" +:+ escapeSqlString md5 +:+ "') LIMIT 1".

(** The query of [resolveChatNameId] for a sender. *)
Definition nameIdQuery (column name2IdTable senderWxid : string) : string :=
  "SELECT " +:+ column +:+ " AS id FROM " +:+ name2IdTable
  +:+ " WHERE user_name = '" +:+ escapeSqlString senderWxid +:+ "' LIMIT 1".

Definition beginsWithQuote (text : string) : bool :=
  match text with
  | String c _ => isQuote c
  | EmptyString => false
  end.

(** How SQL reads a string literal once its opening quote is consumed: two
    quotes in a row stand for one quote of the value, a single quote ends
    the literal. The answer is the value and the text after the closing
    quote, or [None] if the literal is not closed. *)
Fixpoint readLiteral (text : string) : option (string * string) :=
  match text with
  | EmptyString => None
  | String c rest =>
      if isQuote c then
        match rest with
        | String c' rest' =>
            if isQuote c' then
              match readLiteral rest' with
              | Some (value, after) => Some (String c' value, after)
              | None => None
              end
            else Some (EmptyString, rest)
        | EmptyString => Some (EmptyString, rest)
        end
      else
        match readLiteral rest with
        | Some (value, after) => Some (String c value, after)
        | None => None
        end
  end.

End SqlText.

(** ** The chat service: the search for a container *)

Module ChatDatSearch.
Import JsString CacheIndex.

Definition suffixes : list string :=
  [".b"; ".h"; ".t"; ".c"; ".w"; ".l"; "_b"; "_h"; "_t"; "_c"; "_w"; "_l"].

(** [hasImageVariantSuffix] of the chat service. *)
Definition hasImageVariantSuffix (baseLower : string) : bool :=
  existsb (fun suffix => endsWith baseLower suffix) suffixes.

(** The test that the first loop of [recursiveSearch] makes on the name of
    a file. *)
Definition wanted (pattern entry : string) : bool :=
  let lowerEntry := toLowerCase entry in
  includes lowerEntry pattern && endsWith lowerEntry ".dat"
  && hasImageVariantSuffix (dropLast 4 lowerEntry).

(** An entry that does not end the first loop. *)
Definition passedOver (pattern : string) (e : Entry) : Prop :=
  match e with
  | Unreadable _ => False
  | File name => wanted pattern name = false
  | _ => True
  end.

Section Search.

(** [join(dir, entry)]. *)
Variable join : string -> string -> string.

(** The first loop of [recursiveSearch], over the files of the directory:
    [None] is an exception of [statSync], [Some None] the end of the loop
    without a file. *)
Fixpoint filesFirst (dir pattern : string) (entries : list Entry)
  : option (option string) :=
  match entries with
  | [] => Some None
  | Unreadable _ :: _ => None
  | File name :: rest =>
      if wanted pattern name then Some (Some (join dir name))
      else filesFirst dir pattern rest
  | _ :: rest => filesFirst dir pattern rest
  end.

(** [recursiveSearch(join(dir, name), pattern, maxDepth)] for an entry
    [name] of [dir] that is a directory. *)
Fixpoint searchEntry (pattern : string) (maxDepth : Z) (dir : string)
  (entry : Entry) : option string :=
  match entry with
  | Dir name listing =>
      if maxDepth <? 0 then None
      else
        match listing with
        | None => None
        | Some entries =>
            match filesFirst (join dir name) pattern entries with
            | None => None
            | Some (Some fullPath) => Some fullPath
            | Some None =>
                (fix directories (es : list Entry) : option string :=
                   match es with
                   | [] => None
                   | e :: es' =>
                       match e with
                       | Unreadable _ => None
                       | Dir _ _ =>
                           match ImagePathResolver.given
                                   (searchEntry pattern (maxDepth - 1)
                                      (join dir name) e) with
                           | Some found => Some found
                           | None => directories es'
                           end
                       | _ => directories es'
                       end
                   end) entries
            end
        end
  | _ => None
  end.

(** The second loop of [recursiveSearch], over the directories. *)
Fixpoint directories (pattern : string) (maxDepth : Z) (dir : string)
  (entries : list Entry) : option string :=
  match entries with
  | [] => None
  | e :: es' =>
      match e with
      | Unreadable _ => None
      | Dir _ _ =>
          match ImagePathResolver.given
                  (searchEntry pattern (maxDepth - 1) dir e) with
          | Some found => Some found
          | None => directories pattern maxDepth dir es'
          end
      | _ => directories pattern maxDepth dir es'
      end
  end.

(** [recursiveSearch(dir, pattern, maxDepth)] on a directory with the
    given listing. *)
Definition recursiveSearch (dir : string) (listing : option (list Entry))
  (pattern : string) (maxDepth : Z) : option string :=
  if maxDepth <? 0 then None
  else
    match listing with
    | None => None
    | Some entries =>
        match filesFirst dir pattern entries with
        | None => None
        | Some (Some fullPath) => Some fullPath
        | Some None => directories pattern maxDepth dir entries
        end
    end.

(** The file [name] lies [depth] directories below [dir], at [path]. *)
Inductive FileBelow : string -> list Entry -> nat -> string -> string -> Prop :=
| file_here (dir : string) (entries : list Entry) (name : string) :
    File name ∈ entries -> FileBelow dir entries 0 name (join dir name)
| file_below (dir : string) (entries : list Entry) (sub : string)
    (subEntries : list Entry) (depth : nat) (name path : string) :
    Dir sub (Some subEntries) ∈ entries ->
    FileBelow (join dir sub) subEntries depth name path ->
    FileBelow dir entries (S depth) name path.

(** What a search that answers has found. *)
Definition Found (pattern : string) (maxDepth : Z) (dir : string)
  (entries : list Entry) (path : string) : Prop :=
  exists depth name,
    FileBelow dir entries depth name path
    /\ Z.of_nat depth <= maxDepth /\ wanted pattern name = true.

End Search.

End ChatDatSearch.

(** ** The names of the decrypted files *)

Module CacheOutput.
Import JsString ImagePathResolver.

(** The extensions that [decryptImageInternal] writes. *)
Definition finalExtensions : list string :=
  [".gif"; ".png"; ".jpg"; ".webp"; ".hevc"].

Section Output.

Variable basename : string -> string.
Variable extname : string -> string.

(** The file name that [getCacheOutputPathFromDat] joins to the output
    directory: the normalized base of the container, [_thumb] or [_hd],
    and the extension. *)
Definition outputName (datPath ext : string) : string :=
  let name := basename datPath in
  let lower := toLowerCase name in
  let base := if endsWith lower ".dat" then dropLast 4 name else name in
  let normalizedBase := normalizeDatBase base in
  let isThumb := isThumbnailDat lower in
  let suffix := if isThumb then "_thumb" else "_hd" in
  normalizedBase +:+ suffix +:+ ext.

(** [isHdPath]. *)
Definition isHdPath (filePath : string) : bool :=
  let lower := toLowerCase (basename filePath) in
  let ext := extname lower in
  let base :=
    if negb (String.eqb ext "") then dropLast (String.length ext) lower
    else lower in
  endsWith base "_hd" || endsWith base "_h".

End Output.

End CacheOutput.

(** * Properties *)

(** ** Bytes *)

Module BufFacts.
Import Buf.

Lemma u8_range (b : byte) : 0 <= u8 b < 256.
Proof.
  unfold u8. pose proof (Byte.to_N_bounded b) as H.
  split; [apply N2Z.is_nonneg|]. lia.
Qed.

Lemma to_u8_u8 (b : byte) : to_u8 (u8 b) = b.
Proof.
  unfold to_u8. pose proof (u8_range b) as H.
  rewrite Z.mod_small by lia. unfold u8. rewrite N2Z.id.
  now rewrite Byte.of_to_N.
Qed.

Lemma u8_to_u8 (z : Z) : u8 (to_u8 z) = z mod 256.
Proof.
  unfold to_u8, u8.
  pose proof (Z.mod_pos_bound z 256 ltac:(lia)) as H.
  destruct (Byte.of_N (Z.to_N (z mod 256))) as [b|] eqn:E.
  - apply Byte.to_of_N in E. rewrite E. rewrite Z2N.id; lia.
  - apply Byte.of_N_None_iff in E. lia.
Qed.

Lemma u8_inj (a b : byte) : u8 a = u8 b -> a = b.
Proof. intros H. rewrite <- (to_u8_u8 a), <- (to_u8_u8 b). now rewrite H. Qed.

Lemma mod256_land (z : Z) : z mod 256 = Z.land z (Z.ones 8).
Proof. rewrite Z.land_ones by lia. reflexivity. Qed.

(** Storing [x ^ k] and xoring the stored byte with [k] again gives the
    low eight bits of [x], whatever the number [k] is. *)
Lemma xor_twice_low (x k : Z) :
  (Z.lxor ((Z.lxor x k) mod 256) k) mod 256 = x mod 256.
Proof.
  rewrite !mod256_land. apply Z.bits_inj'. intros n Hn.
  rewrite !Z.land_spec, !Z.lxor_spec, !Z.land_spec, !Z.lxor_spec.
  destruct (Z.testbit (Z.ones 8) n) eqn:E.
  - rewrite !andb_true_r. now rewrite xorb_assoc, xorb_nilpotent, xorb_false_r.
  - now rewrite !andb_false_r.
Qed.

Lemma toInt32_small (z : Z) : - 2 ^ 31 <= z < 2 ^ 31 -> toInt32 z = z.
Proof. intros H. unfold toInt32. rewrite Z.mod_small; lia. Qed.

Lemma len_nonneg (buf : list byte) : 0 <= len buf.
Proof. unfold len. lia. Qed.

Lemma subarray_prefix (buf : list byte) (n : Z) :
  0 <= n <= len buf -> subarray buf 0 n = firstn (Z.to_nat n) buf.
Proof.
  intros H. unfold subarray, relIndex.
  replace (0 <? 0) with false by reflexivity.
  destruct (n <? 0) eqn:E; [lia|].
  rewrite Z.min_l by lia. rewrite Z.min_l by lia.
  now rewrite Z.sub_0_r.
Qed.

Lemma subarray_suffix (buf : list byte) (n : Z) :
  0 <= n <= len buf -> subarray_from buf n = skipn (Z.to_nat n) buf.
Proof.
  intros H. unfold subarray_from, subarray, relIndex.
  destruct (n <? 0) eqn:E; [lia|].
  destruct (len buf <? 0) eqn:E2; [lia|].
  rewrite Z.min_l by lia. rewrite Z.min_l by lia.
  apply firstn_all2. rewrite length_skipn. unfold len in *. lia.
Qed.

End BufFacts.

(** ** The image container decryptor *)

Module ImageDecryptFacts.
Import Buf BufFacts ImageDecryptService.

Lemma singleFile_same (p : string) (content : list byte) :
  singleFile p content p = Some content.
Proof. unfold singleFile. now rewrite String.eqb_refl. Qed.

Lemma to_u8_mod (z : Z) : to_u8 (z mod 256) = to_u8 z.
Proof. unfold to_u8. rewrite Z.mod_mod by lia. reflexivity. Qed.

Lemma xor_byte_twice (d : byte) (k : Z) :
  to_u8 (js_xor (u8 (to_u8 (js_xor (u8 d) k))) k) = d.
Proof.
  unfold js_xor. pose proof (u8_range d) as Hd.
  rewrite (toInt32_small (u8 d)) by lia.
  rewrite u8_to_u8.
  rewrite toInt32_small
    by (pose proof (Z.mod_pos_bound (Z.lxor (u8 d) (toInt32 k)) 256); lia).
  rewrite <- to_u8_mod, xor_twice_low, to_u8_mod.
  apply to_u8_u8.
Qed.

Lemma xorBytes_twice (x : list byte) (k : Z) : xorBytes (xorBytes x k) k = x.
Proof.
  unfold xorBytes. rewrite map_map.
  induction x as [|d x IH]; simpl; [reflexivity|].
  now rewrite xor_byte_twice, IH.
Qed.

Lemma xorBytes_length (x : list byte) (k : Z) :
  length (xorBytes x k) = length x.
Proof. unfold xorBytes. apply length_map. Qed.

(** C5. V0 decryption xors every byte of the file with the key, keeps the
    length, and applied to its own output with the same key gives the input
    back; this holds for every number used as key, a one-byte key
    included. *)
Theorem decryptDatV3_involution (x : list byte) (k : Z) (p : string) :
  exists y,
    decryptDatV3 (singleFile p x) p k = Ok y
    /\ decryptDatV3 (singleFile p y) p k = Ok x
    /\ length y = length x
    /\ y = map (fun d => to_u8 (js_xor (u8 d) k)) x.
Proof.
  exists (xorBytes x k). unfold decryptDatV3, readFileSync.
  rewrite !singleFile_same. simpl.
  rewrite xorBytes_twice, xorBytes_length. repeat split; reflexivity.
Qed.

Lemma compareBytes_from_eq (a b : list byte) :
  length a = length b -> compareBytes_from a b = true <-> a = b.
Proof.
  revert b. induction a as [|x a IH]; intros [|y b] Hlen; simpl in *;
    try discriminate; [tauto|].
  destruct (u8 x =? u8 y) eqn:E.
  - apply Z.eqb_eq, u8_inj in E. subst y. rewrite IH by lia.
    split; [now intros ->|now intros [= ->]].
  - apply Z.eqb_neq in E. split; [discriminate|]. intros [= -> _]. now elim E.
Qed.

Lemma compareBytes_eq (a b : list byte) : compareBytes a b = true <-> a = b.
Proof.
  unfold compareBytes, len. destruct (Z.of_nat (length a) =? Z.of_nat (length b)) eqn:E; simpl.
  - apply Z.eqb_eq in E. apply compareBytes_from_eq. lia.
  - apply Z.eqb_neq in E. split; [discriminate|]. intros ->. now elim E.
Qed.

Lemma sigV1_length : length sigV1 = 6%nat.
Proof. reflexivity. Qed.

Lemma sigV2_length : length sigV2 = 6%nat.
Proof. reflexivity. Qed.

Lemma getDatVersionOf_spec (bytes : list byte) :
  getDatVersionOf bytes =
    if decide (firstn 6 bytes = sigV1) then 1
    else if decide (firstn 6 bytes = sigV2) then 2 else 0.
Proof.
  unfold getDatVersionOf. destruct (len bytes <? 6) eqn:E.
  - apply Z.ltb_lt in E.
    assert (Hl : (length (firstn 6 bytes) < 6)%nat)
      by (rewrite length_firstn; unfold len in E; lia).
    destruct (decide _) as [H|_]; [rewrite H, sigV1_length in Hl; lia|].
    destruct (decide _) as [H|_]; [rewrite H, sigV2_length in Hl; lia|].
    reflexivity.
  - apply Z.ltb_ge in E. rewrite subarray_prefix by lia.
    change (Z.to_nat 6) with 6%nat.
    destruct (compareBytes (firstn 6 bytes) sigV1) eqn:E1.
    + apply compareBytes_eq in E1. destruct (decide _); [reflexivity|contradiction].
    + destruct (decide _) as [H|_];
        [apply compareBytes_eq in H; congruence|].
      destruct (compareBytes (firstn 6 bytes) sigV2) eqn:E2.
      * apply compareBytes_eq in E2. destruct (decide _); [reflexivity|contradiction].
      * destruct (decide _) as [H|_];
          [apply compareBytes_eq in H; congruence|reflexivity].
Qed.

(** C4. On every file content the version detector answers 1 exactly when
    the first six bytes are 07 08 56 31 08 07, 2 exactly when they are
    07 08 56 32 08 07, and 0 in every other case; a content of fewer than
    six bytes is such a case. *)
Theorem getDatVersion_by_signature (p : string) (bytes : list byte) :
  exists v,
    getDatVersion (singleFile p bytes) p = Ok v
    /\ (v = 1 <-> firstn 6 bytes = Buf.from [0x07; 0x08; 0x56; 0x31; 0x08; 0x07])
    /\ (v = 2 <-> firstn 6 bytes = Buf.from [0x07; 0x08; 0x56; 0x32; 0x08; 0x07])
    /\ (v = 0 <-> firstn 6 bytes <> Buf.from [0x07; 0x08; 0x56; 0x31; 0x08; 0x07]
                  /\ firstn 6 bytes <> Buf.from [0x07; 0x08; 0x56; 0x32; 0x08; 0x07])
    /\ ((length bytes < 6)%nat -> v = 0).
Proof.
  exists (getDatVersionOf bytes).
  split.
  { unfold getDatVersion, existsSync, readFileSync.
    now rewrite singleFile_same. }
  rewrite getDatVersionOf_spec.
  change (from [0x07; 0x08; 0x56; 0x31; 0x08; 0x07]) with sigV1.
  change (from [0x07; 0x08; 0x56; 0x32; 0x08; 0x07]) with sigV2.
  pose proof sigV1_length as Hs1. pose proof sigV2_length as Hs2.
  assert (Hne : sigV1 <> sigV2) by (intros H; vm_compute in H; discriminate).
  revert Hs1 Hs2 Hne. generalize sigV1 as s1, sigV2 as s2.
  intros s1 s2 Hs1 Hs2 Hne.
  assert (Hshort : forall s, length s = 6%nat -> firstn 6 bytes = s ->
                             ~ (length bytes < 6)%nat).
  { intros s Hs H Hl. apply (f_equal (@length byte)) in H.
    rewrite length_firstn, Hs in H. lia. }
  destruct (decide (firstn 6 bytes = s1)) as [H1|H1];
    [|destruct (decide (firstn 6 bytes = s2)) as [H2|H2]].
  - pose proof (Hshort _ Hs1 H1).
    repeat split; intros; try tauto; try discriminate; try congruence.
  - pose proof (Hshort _ Hs2 H2).
    repeat split; intros; try tauto; try discriminate; try congruence.
  - repeat split; intros; try tauto; try discriminate; try congruence.
Qed.

Lemma paddingOk_spec (rest : list byte) (p : Z) :
  paddingOk rest p = true <->
  forall j, (j < length rest)%nat -> get rest j = p.
Proof.
  induction rest as [|d rest IH]; simpl.
  - split; [intros _ j Hj; simpl in Hj; lia|reflexivity].
  - destruct (u8 d =? p) eqn:E; simpl.
    + apply Z.eqb_eq in E. rewrite IH. split.
      * intros H [|j] Hj; [exact E|]. apply H. lia.
      * intros H j Hj. apply (H (S j)). lia.
    + apply Z.eqb_neq in E. split; [discriminate|].
      intros H. elim E. apply (H 0%nat). lia.
Qed.

Lemma paddingOk_false (rest : list byte) (p : Z) :
  paddingOk rest p = false ->
  exists j, (j < length rest)%nat /\ get rest j <> p.
Proof.
  induction rest as [|d rest IH]; simpl; [discriminate|].
  destruct (u8 d =? p) eqn:E; simpl.
  - intros H. destruct (IH H) as (j & Hj & Hd). exists (S j). split; [lia|exact Hd].
  - intros _. apply Z.eqb_neq in E. exists 0%nat. split; [lia|exact E].
Qed.

Lemma paddingOk_suffix (data : list byte) (k : nat) (p : Z) :
  (k <= length data)%nat ->
  paddingOk (skipn k data) p = true <->
  forall i, (k <= i < length data)%nat -> get data i = p.
Proof.
  intros Hk. rewrite paddingOk_spec, length_skipn. unfold get. split.
  - intros H i Hi. specialize (H (i - k)%nat ltac:(lia)).
    rewrite nth_skipn in H. now replace (k + (i - k))%nat with i in H by lia.
  - intros H j Hj. rewrite nth_skipn. apply H. lia.
Qed.

(** C3. Padding removal fails exactly on an empty buffer, a final byte
    that is 0, above 16 or above the buffer length, or a byte among the
    last [p] that differs from the final byte [p]; otherwise it returns the
    input without its last [p] bytes, so a buffer that ends in five bytes 5
    loses exactly those five. *)
Theorem strictRemovePadding_strict (data : list byte) :
  let n := length data in
  let p := get data (n - 1) in
  (is_err (strictRemovePadding data) = true <->
     data = [] \/ p = 0 \/ p > 16 \/ p > Z.of_nat n
     \/ exists i, Z.of_nat n - p <= Z.of_nat i < Z.of_nat n /\ get data i <> p)
  /\ (is_err (strictRemovePadding data) = false <->
        strictRemovePadding data = Ok (firstn (n - Z.to_nat p) data))
  /\ (forall pre : list byte,
        strictRemovePadding (pre ++ from [5; 5; 5; 5; 5]) = Ok pre).
Proof.
  intros n p.
  assert (Hn : len data = Z.of_nat n) by reflexivity.
  assert (Hp : get data (Z.to_nat (len data - 1)) = p).
  { unfold p. f_equal. unfold len. fold n. lia. }
  assert (Hpr : 0 <= p < 256) by apply u8_range.
  split; [|split].
  - unfold strictRemovePadding. rewrite Hp, Hn.
    destruct (Z.of_nat n =? 0) eqn:E0.
    { apply Z.eqb_eq in E0. split; [intros _; left|reflexivity].
      destruct data; [reflexivity|]. subst n. simpl in E0. lia. }
    apply Z.eqb_neq in E0.
    assert (Hne : data <> []) by (intros ->; apply E0; reflexivity).
    destruct ((p =? 0) || (p >? 16) || (p >? Z.of_nat n)) eqn:E1.
    { split; [intros _|reflexivity].
      apply orb_true_iff in E1 as [E1|E1]; [apply orb_true_iff in E1 as [E1|E1]|].
      - apply Z.eqb_eq in E1. tauto.
      - apply Z.gtb_lt in E1. right; right; left. lia.
      - apply Z.gtb_lt in E1. right; right; right; left. lia. }
    apply orb_false_iff in E1 as [E1 E3]. apply orb_false_iff in E1 as [E1 E2].
    apply Z.eqb_neq in E1. rewrite Z.gtb_ltb in E2, E3.
    apply Z.ltb_ge in E2, E3.
    destruct (paddingOk (skipn (Z.to_nat (Z.of_nat n - p)) data) p) eqn:E4; simpl.
    + split; [discriminate|].
      intros [H|[H|[H|[H|(i & Hi & Hd)]]]]; try contradiction; try lia.
      assert (Hk : (Z.to_nat (Z.of_nat n - p) <= length data)%nat)
        by (fold n; lia).
      pose proof (proj1 (paddingOk_suffix data _ p Hk) E4) as E5.
      elim Hd. apply E5. fold n. lia.
    + split; [intros _|reflexivity]. right; right; right; right.
      apply paddingOk_false in E4 as (j & Hj & Hd).
      rewrite length_skipn in Hj. fold n in Hj.
      exists (Z.to_nat (Z.of_nat n - p) + j)%nat. split; [lia|].
      unfold get in *. now rewrite nth_skipn in Hd.
  - split.
    + unfold strictRemovePadding. rewrite Hp, Hn.
      destruct (Z.of_nat n =? 0); [discriminate|].
      destruct ((p =? 0) || (p >? 16) || (p >? Z.of_nat n)) eqn:E1; [discriminate|].
      apply orb_false_iff in E1 as [E1 E3]. apply orb_false_iff in E1 as [E1 E2].
      rewrite Z.gtb_ltb in E2, E3. apply Z.ltb_ge in E2, E3.
      destruct (paddingOk _ _); simpl; [intros _|discriminate].
      rewrite subarray_prefix by (rewrite Hn; lia).
      do 2 f_equal. lia.
    + intros ->. reflexivity.
  - intros pre. unfold strictRemovePadding.
    assert (Hl : len (pre ++ from [5; 5; 5; 5; 5]) = len pre + 5).
    { unfold len. rewrite length_app. simpl. lia. }
    pose proof (len_nonneg pre) as Hpre.
    rewrite Hl.
    replace (len pre + 5 =? 0) with false by (symmetry; apply Z.eqb_neq; lia).
    assert (Hlast : get (pre ++ from [5; 5; 5; 5; 5]) (Z.to_nat (len pre + 5 - 1)) = 5).
    { unfold get, len. rewrite app_nth2 by lia.
      replace (Z.to_nat (Z.of_nat (length pre) + 5 - 1) - length pre)%nat
        with 4%nat by lia. reflexivity. }
    rewrite Hlast.
    replace (len pre + 5 - 5) with (len pre) by lia.
    replace ((5 =? 0) || (5 >? 16) || (5 >? len pre + 5)) with false.
    2:{ symmetry. change ((5 =? 0) || (5 >? 16)) with false. cbn [orb].
        rewrite Z.gtb_ltb. apply Z.ltb_ge. lia. }
    unfold len at 1. rewrite Nat2Z.id, skipn_app, skipn_all, Nat.sub_diag.
    simpl paddingOk. cbn [negb].
    rewrite subarray_prefix by (rewrite Hl; lia).
    unfold len. rewrite Nat2Z.id, firstn_app, firstn_all, Nat.sub_diag.
    simpl. now rewrite app_nil_r.
Qed.

Lemma subarray_range (buf : list byte) (s e : Z) :
  0 <= s <= e -> e <= len buf ->
  subarray buf s e = firstn (Z.to_nat (e - s)) (skipn (Z.to_nat s) buf)
  /\ len (subarray buf s e) = e - s.
Proof.
  intros Hs He. unfold subarray, relIndex.
  destruct (s <? 0) eqn:E1; [lia|]. destruct (e <? 0) eqn:E2; [lia|].
  rewrite !Z.min_l by lia. split; [reflexivity|].
  unfold len in *. rewrite length_firstn, length_skipn. lia.
Qed.

Lemma alignedAesSize_mod (aesSize : Z) :
  alignedAesSize aesSize = aesSize + (16 - aesSize mod 16).
Proof.
  unfold alignedAesSize. cbv zeta. f_equal. f_equal.
  Z.to_euclidean_division_equations. lia.
Qed.

Lemma alignedAesSize_blocks (aesSize : Z) : alignedAesSize aesSize mod 16 = 0.
Proof. rewrite alignedAesSize_mod. Z.to_euclidean_division_equations. lia. Qed.

Lemma v4_header_length (bytes : list byte) :
  15 <= len bytes -> len (v4_header bytes) = 15.
Proof.
  intros H. unfold v4_header.
  destruct (subarray_range bytes 0 15) as [_ ->]; lia.
Qed.

Lemma v4_data_body (bytes : list byte) :
  15 <= len bytes -> v4_data bytes = skipn 15 bytes.
Proof. intros H. unfold v4_data. now rewrite subarray_suffix by lia. Qed.

Lemma bytesToInt32_total (bytes : list byte) :
  len bytes = 4 -> exists z, bytesToInt32 bytes = Ok z.
Proof. intros H. unfold bytesToInt32. rewrite H. simpl. eauto. Qed.

Lemma v4_sizes_total (bytes : list byte) :
  15 <= len bytes ->
  exists aesSize xorSize,
    v4_aesSize bytes = Ok aesSize /\ v4_xorSize bytes = Ok xorSize.
Proof.
  intros H. pose proof (v4_header_length bytes H) as Hh.
  unfold v4_aesSize, v4_xorSize.
  destruct (bytesToInt32_total (subarray (v4_header bytes) 6 10)) as [a Ha].
  { destruct (subarray_range (v4_header bytes) 6 10) as [_ ->]; lia. }
  destruct (bytesToInt32_total (subarray (v4_header bytes) 10 14)) as [x Hx].
  { destruct (subarray_range (v4_header bytes) 10 14) as [_ ->]; lia. }
  eauto.
Qed.

Lemma strictRemovePadding_errors (data : list byte) (e : error) :
  strictRemovePadding data = Err e -> format_error e = true.
Proof.
  unfold strictRemovePadding.
  repeat match goal with
         | |- context [if ?c then _ else _] => destruct c
         end; intros [= <-] || discriminate; reflexivity.
Qed.

Lemma bufferFromAscii_length (s : string) :
  length (bufferFromAscii s) = String.length s.
Proof.
  unfold bufferFromAscii. rewrite length_map.
  induction s as [|c s IH]; simpl; [reflexivity|now rewrite IH].
Qed.

(** A key that [asciiKey16] delivers has 16 bytes, so a configured key
    resolves to nothing, to an error or to 16 bytes. *)
Lemma asciiKey16_length (keyString : string) (key : list byte) :
  asciiKey16 keyString = Ok key -> len key = 16.
Proof.
  unfold asciiKey16.
  destruct (Z.ltb_spec (Z.of_nat (String.length keyString)) 16) as [|Hlen];
    [discriminate|].
  intros [= <-].
  destruct (subarray_range (bufferFromAscii keyString) 0 16) as [_ ->];
    [lia| |reflexivity].
  unfold len. rewrite bufferFromAscii_length. exact Hlen.
Qed.

Lemma resolveAesKey_length (trim : string -> string) (raw : option string)
  (key : list byte) :
  resolveAesKey trim raw = Ok (Some key) -> len key = 16.
Proof.
  unfold resolveAesKey. destruct (String.eqb _ ""); [discriminate|].
  destruct (asciiKey16 _) as [k|e] eqn:E; simpl; [|discriminate].
  intros [= <-]. eapply asciiKey16_length, E.
Qed.

Section CipherFacts.

Variable aes128ecb : list byte -> list byte -> list byte.

(** X24. The layout of a V1/V2 container that holds the 15-byte header, for
    every key. The aligned length is [aesSize + (16 - aesSize mod 16)]. When
    it is not negative and fits the body, the AES region is the first
    [aligned] bytes of the body and the rest starts right after it. When it
    exceeds the body length, decryption fails with the AES length error.
    When it does not exceed the body length and [xorSize] is negative or
    exceeds the rest, decryption produces no output: it fails with the XOR
    length error, unless deciphering the region or removing its padding
    failed before; with a key of 16 bytes and an aligned length that is not
    negative the failure is a format error. *)
Theorem decryptDatV4_layout (bytes : list byte) (xorKey : Z) (aesKey : list byte) :
  15 <= len bytes ->
  exists aesSize xorSize,
    v4_aesSize bytes = Ok aesSize /\ v4_xorSize bytes = Ok xorSize
    /\ let aligned := alignedAesSize aesSize in
       let body := skipn 15 bytes in
       let region := v4_aesData bytes aesSize in
       let rest := v4_remaining bytes aesSize in
       aligned = aesSize + (16 - aesSize mod 16)
       /\ (0 <= aligned <= len body ->
             region = firstn (Z.to_nat aligned) body
             /\ len region = aligned
             /\ rest = skipn (Z.to_nat aligned) body
             /\ len rest = len body - aligned)
       /\ (aligned > len body ->
             decryptDatV4Of aes128ecb bytes xorKey aesKey = Err EAesLength)
       /\ (aligned <= len body ->
             xorSize < 0 \/ xorSize > len rest ->
             exists e,
               decryptDatV4Of aes128ecb bytes xorKey aesKey = Err e
               /\ (e = EXorLength
                   \/ (0 < len region
                       /\ (let! decrypted := decipher aes128ecb aesKey region in
                           strictRemovePadding decrypted) = Err e))
               /\ (0 <= aligned -> len aesKey = 16 -> format_error e = true)).
Proof.
  intros Hlen.
  destruct (v4_sizes_total bytes Hlen) as (aesSize & xorSize & Ha & Hx).
  exists aesSize, xorSize. split; [exact Ha|]. split; [exact Hx|].
  cbv zeta. set (aligned := alignedAesSize aesSize).
  pose proof (v4_data_body bytes Hlen) as Hbody.
  assert (Hregion : 0 <= aligned <= len (skipn 15 bytes) ->
            v4_aesData bytes aesSize = firstn (Z.to_nat aligned) (skipn 15 bytes)
            /\ len (v4_aesData bytes aesSize) = aligned
            /\ v4_remaining bytes aesSize = skipn (Z.to_nat aligned) (skipn 15 bytes)
            /\ len (v4_remaining bytes aesSize) = len (skipn 15 bytes) - aligned).
  { intros Hfit. unfold v4_aesData, v4_remaining. fold aligned. rewrite Hbody.
    destruct (subarray_range (skipn 15 bytes) 0 aligned) as [-> ->]; [lia..|].
    rewrite subarray_suffix by lia. rewrite Z.sub_0_r.
    split; [reflexivity|]. split; [reflexivity|]. split; [reflexivity|].
    unfold len in *. rewrite length_skipn. lia. }
  split; [apply alignedAesSize_mod|]. split; [exact Hregion|]. split.
  - intros Hbig. unfold decryptDatV4Of.
    replace (len bytes <? 15) with false by (symmetry; apply Z.ltb_ge; lia).
    rewrite Ha, Hx. cbn [rbind]. fold aligned. rewrite Hbody.
    now replace (aligned >? len (skipn 15 bytes)) with true
      by (symmetry; apply Z.gtb_lt; lia).
  - intros Hfit Hxor. unfold decryptDatV4Of.
    replace (len bytes <? 15) with false by (symmetry; apply Z.ltb_ge; lia).
    rewrite Ha, Hx. cbn [rbind]. fold aligned. rewrite Hbody.
    replace (aligned >? len (skipn 15 bytes)) with false
      by (symmetry; rewrite Z.gtb_ltb; apply Z.ltb_ge; lia).
    assert (Hbad : (xorSize <? 0) || (xorSize >? len (v4_remaining bytes aesSize)) = true).
    { apply orb_true_iff.
      destruct Hxor; [left; apply Z.ltb_lt|right; apply Z.gtb_lt]; lia. }
    destruct (Z.gtb_spec (len (v4_aesData bytes aesSize)) 0) as [Hpos|Hempty].
    + destruct (let! decrypted := decipher aes128ecb aesKey (v4_aesData bytes aesSize) in
                strictRemovePadding decrypted) as [u|e] eqn:Estage.
      * cbn [rbind]. rewrite Hbad. exists EXorLength.
        split; [reflexivity|]. split; [now left|]. reflexivity.
      * cbn [rbind]. exists e. split; [reflexivity|].
        split; [right; split; [lia|reflexivity]|].
        intros Hnn Hkey. destruct (Hregion ltac:(lia)) as (_ & Hdl & _).
        unfold decipher in Estage. rewrite Hkey, Hdl in Estage.
        unfold aligned in Estage at 1. rewrite alignedAesSize_blocks in Estage.
        change (16 =? 16) with true in Estage.
        change (0 =? 0) with true in Estage. cbn [negb rbind] in Estage.
        eapply strictRemovePadding_errors; eauto.
    + cbn [rbind]. rewrite Hbad. exists EXorLength.
      split; [reflexivity|]. split; [now left|]. reflexivity.
Qed.

(** C8. A container detected as V2 is refused with the configuration
    error when the configured key is absent or not 16 bytes long, and is
    decrypted with the configured key when that key has 16 bytes; a
    container detected as V1 is decrypted with the built-in key
    cfcd208495d565ef whatever the configured key is. *)
Theorem decryptDatAuto_key_choice (fs : FS) (datPath : string) (xorKey : Z)
  (aesKey : option (list byte)) :
  (getDatVersion fs datPath = Ok 2 ->
     (aesKey = None \/ (exists k, aesKey = Some k /\ length k <> 16%nat) ->
        decryptDatAuto aes128ecb fs datPath xorKey aesKey = Err EKeyConfig)
     /\ (forall k, aesKey = Some k -> length k = 16%nat ->
           decryptDatAuto aes128ecb fs datPath xorKey aesKey
           = decryptDatV4 aes128ecb fs datPath xorKey k))
  /\ (getDatVersion fs datPath = Ok 1 ->
        decryptDatAuto aes128ecb fs datPath xorKey aesKey
        = decryptDatV4 aes128ecb fs datPath xorKey
            (bufferFromAscii "cfcd208495d565ef")).
Proof.
  split.
  - intros Hv. unfold decryptDatAuto. rewrite Hv. cbn [rbind].
    change (2 =? 0) with false. change (2 =? 1) with false. cbv iota.
    split.
    + intros [->|(k & -> & Hk)]; [reflexivity|].
      replace (len k =? 16) with false; [reflexivity|].
      symmetry. apply Z.eqb_neq. unfold len. lia.
    + intros k -> Hk.
      replace (len k =? 16) with true; [reflexivity|].
      symmetry. apply Z.eqb_eq. unfold len. lia.
  - intros Hv. unfold decryptDatAuto. rewrite Hv. cbn [rbind].
    change (1 =? 0) with false. change (1 =? 1) with true. cbv iota.
    reflexivity.
Qed.

End CipherFacts.

(** C10, at an input on which the code departs from it. A container with
    [aesSize = -32] is decrypted: the aligned length -16
    does not exceed the 48-byte body, the region taken is the first 32
    bytes of the body, not a region of the aligned length, and the bytes
    put out are the first block and the block after the padding. *)
Lemma decryptDatV4_negative_aesSize :
  15 <= len Samples.negativeAesSizeDat
  /\ v4_aesSize Samples.negativeAesSizeDat = Ok (-32)
  /\ -32 + (16 - (-32) mod 16) = -16
  /\ alignedAesSize (-32) = -16
  /\ len (v4_data Samples.negativeAesSizeDat) = 48
  /\ len (v4_aesData Samples.negativeAesSizeDat (-32)) = 32
  /\ len (v4_aesData Samples.negativeAesSizeDat (-32)) <> -32 + (16 - (-32) mod 16)
  /\ decryptDatV4Of Samples.plainCipher Samples.negativeAesSizeDat 0 Samples.key16
     = Ok (from (repeat 0x2a 16 ++ repeat 0x2b 16)).
Proof. vm_compute. repeat split; congruence. Qed.

(** A container whose [xorSize] exceeds what is left after the AES region
    is refused with a format error. *)
Lemma decryptDatV4_layout_witness :
  exists e,
    decryptDatV4Of Samples.plainCipher Samples.longXorSizeDat 0 Samples.key16
    = Err e
    /\ format_error e = true.
Proof.
  destruct (decryptDatV4_layout Samples.plainCipher Samples.longXorSizeDat 0
              Samples.key16)
    as (a & x & Ha & Hx & _ & _ & _ & Hxor).
  - vm_compute. discriminate.
  - vm_compute in Ha. injection Ha as <-.
    vm_compute in Hx. injection Hx as <-.
    destruct Hxor as (e & He & _ & Hformat).
    + vm_compute. discriminate.
    + right. vm_compute. reflexivity.
    + exists e. split; [exact He|]. apply Hformat.
      * vm_compute. discriminate.
      * reflexivity.
Defined.

Lemma decryptDatAuto_key_choice_witness :
  decryptDatAuto Samples.plainCipher (singleFile "a.dat" Samples.v2Dat) "a.dat" 0 None
  = Err EKeyConfig.
Proof.
  apply (decryptDatAuto_key_choice Samples.plainCipher
           (singleFile "a.dat" Samples.v2Dat) "a.dat" 0 None).
  - reflexivity.
  - left. reflexivity.
Defined.

End ImageDecryptFacts.

(** ** The chat service *)

Module ChatFacts.
Import ChatService.

Lemma last_default {A} (l : list A) (x d : A) :
  last l = Some x -> List.last l d = x.
Proof.
  induction l as [|a [|b l] IH]; intros H; [discriminate|now injection H|].
  apply IH. exact H.
Qed.

Lemma orNumber_spec (a b : Z) :
  orNumber a b = if decide (a <> 0) then a else b.
Proof.
  unfold orNumber. destruct (Z.eqb_spec a 0); destruct (decide (a <> 0));
    first [reflexivity | contradiction].
Qed.

Lemma orderKey_fallback (m : Message) :
  orderKey m =
    if decide (sortSeq m <> 0) then sortSeq m
    else if decide (createTime m <> 0) then createTime m
    else if decide (localId m <> 0) then localId m
    else 0.
Proof.
  unfold orderKey. rewrite !orNumber_spec.
  repeat case_decide; first [reflexivity | contradiction | lia].
Qed.

(** C2. On a batch of at least two records the normalizer compares the
    ordering key of the first record with that of the last one, the key of
    a record being its [sortSeq], else its [createTime], else its
    [localId], else 0 (a value 0 counting as absent): a strictly greater
    first key gives the reversed batch, anything else the batch itself;
    keys 50, 40, 30 come out as 30, 40, 50. *)
Theorem normalizeMessageOrder_first_last (batch : list Message)
  (first lst : Message) :
  (2 <= length batch)%nat ->
  head batch = Some first ->
  last batch = Some lst ->
  normalizeMessageOrder batch
    = (if decide (orderKey first > orderKey lst) then rev batch else batch)
  /\ (forall m : Message,
        orderKey m =
          if decide (sortSeq m <> 0) then sortSeq m
          else if decide (createTime m <> 0) then createTime m
          else if decide (localId m <> 0) then localId m
          else 0)
  /\ map orderKey
       (normalizeMessageOrder [Samples.keyed 50; Samples.keyed 40; Samples.keyed 30])
     = [30; 40; 50].
Proof.
  intros Hlen Hfirst Hlast. split; [|split; [apply orderKey_fallback|reflexivity]].
  unfold normalizeMessageOrder.
  replace (length batch <? 2)%nat with false
    by (symmetry; apply Nat.ltb_ge; lia).
  destruct batch as [|m batch]; [discriminate|].
  injection Hfirst as ->.
  rewrite (last_default _ lst first Hlast).
  destruct (Z.gtb_spec (orderKey first) (orderKey lst)) as [H|H];
    destruct (decide _); try reflexivity; lia.
Qed.

Lemma normalizeMessageOrder_first_last_witness :
  normalizeMessageOrder [Samples.keyed 50; Samples.keyed 40; Samples.keyed 30]
  = [Samples.keyed 30; Samples.keyed 40; Samples.keyed 50].
Proof.
  pose proof (normalizeMessageOrder_first_last
                [Samples.keyed 50; Samples.keyed 40; Samples.keyed 30]
                (Samples.keyed 50) (Samples.keyed 30)) as H.
  destruct H as [H _].
  - simpl. lia.
  - reflexivity.
  - reflexivity.
  - rewrite H. reflexivity.
Defined.

Section CursorFacts.

Context {World Row : Type}.
Variable ensureConnected : World -> Outcome ConnectResult * World.
Variable openMessageCursor :
  string -> Z -> bool -> Z -> Z -> World -> Outcome CursorResult * World.
Variable fetchMessageBatch : Z -> World -> Outcome (BatchResult Row) * World.
Variable closeMessageCursor : Z -> World -> Outcome unit * World.
Variable mapRowsToMessages : list Row -> list Message.
Variable fallbackEmoticons : list Message -> World -> list Message * World.

Abbreviation State := (ChatState (World := World)).

(** The record of a fetch on cursor [c] with the outcome [o]. *)
Abbreviation fetchCall c :=
  (fun o : Outcome (BatchResult Row) => CFetch c (rowCount o)).

Lemma doFetch_run (c : Z) (s : State) :
  doFetch fetchMessageBatch c s
  = ((fetchMessageBatch c (world s)).1,
     mkChatState (messageCursors s) (messageCache s)
       (fetchMessageBatch c (world s)).2
       (calls s ++ [CFetch c (rowCount (fetchMessageBatch c (world s)).1)])).
Proof. unfold doFetch. destruct (fetchMessageBatch c (world s)). reflexivity. Qed.

Lemma addFetched_0 (st : CursorState) : addFetched st 0 = st.
Proof. destruct st. unfold addFetched. simpl. f_equal. lia. Qed.

Lemma addFetched_add (st : CursorState) (a b : Z) :
  addFetched (addFetched st a) b = addFetched st (a + b).
Proof. unfold addFetched. simpl. f_equal. lia. Qed.

Lemma sumDelivered_app (a b : list (Outcome (BatchResult Row))) :
  sumDelivered (a ++ b) = sumDelivered a + sumDelivered b.
Proof.
  induction a as [|o a IH]; simpl; [reflexivity|].
  unfold sumDelivered in *. simpl. rewrite IH. lia.
Qed.

Lemma sumDelivered_nonneg (a : list (Outcome (BatchResult Row))) :
  0 <= sumDelivered a.
Proof.
  induction a as [|o a IH]; simpl; [reflexivity|].
  unfold sumDelivered in *. simpl. unfold delivered at 1.
  destruct (pageRows o); lia.
Qed.

Lemma fetchOutcomes_snoc (c : Z) (n : nat) :
  forall (w w1 w2 : World) outs o,
  fetchOutcomes fetchMessageBatch c n w = (outs, w1) ->
  fetchMessageBatch c w1 = (o, w2) ->
  fetchOutcomes fetchMessageBatch c (S n) w = (outs ++ [o], w2).
Proof.
  induction n as [|n IH]; intros w w1 w2 outs o Hrun Hlast.
  - simpl in Hrun. injection Hrun as <- <-. simpl. now rewrite Hlast.
  - cbn [fetchOutcomes] in Hrun.
    destruct (fetchMessageBatch c w) as [o0 w0] eqn:E0.
    destruct (fetchOutcomes fetchMessageBatch c n w0) as [os w'] eqn:En.
    injection Hrun as <- <-.
    change (fetchOutcomes fetchMessageBatch c (S (S n)) w)
      with (let '(o, w1) := fetchMessageBatch c w in
            let '(os, w2) := fetchOutcomes fetchMessageBatch c (S n) w1 in
            (o :: os, w2)).
    rewrite E0. rewrite (IH w0 w' w2 os o En Hlast). reflexivity.
Qed.

Lemma wentOn_nil (offset skipped : Z) : wentOn (Row := Row) offset skipped [].
Proof.
  split; [reflexivity|]. intros init l rest H. destruct init; discriminate.
Qed.

Lemma wentOn_cons (offset skipped : Z) (o : Outcome (BatchResult Row))
  (goods : list (Outcome (BatchResult Row))) :
  skipped < offset -> continuing o = true ->
  wentOn offset (skipped + delivered o) goods ->
  wentOn offset skipped (o :: goods).
Proof.
  intros Hlt Ho [Hall Hpre]. split; [simpl; now rewrite Ho|].
  intros init l rest Heq. destruct init as [|o' init].
  - unfold sumDelivered. simpl. lia.
  - injection Heq as <- Heq. specialize (Hpre init l rest Heq).
    change (sumDelivered (o :: init)) with (delivered o + sumDelivered init).
    lia.
Qed.

(** The skip loop fetches from the cursor it was given, one batch after the
    other, for as long as the fetches deliver rows and report more of them
    and the rows discarded are fewer than [offset]; with [offset - skipped]
    iterations allowed it always ends by itself. *)
Lemma skipLoop_outcomes (fuel : nat) (sid : string) (offset : Z) :
  forall (skipped : Z) (st : CursorState) (s : State) e st' s',
  (Z.to_nat (offset - skipped) <= fuel)%nat ->
  messageCursors s !! sid = Some st ->
  skipLoop fetchMessageBatch fuel sid offset skipped st s = (e, st', s') ->
  exists outs,
    fetchOutcomes fetchMessageBatch (cursor st) (length outs) (world s)
      = (outs, world s')
    /\ calls s' = calls s ++ map (fetchCall (cursor st)) outs
    /\ st' = addFetched st (sumDelivered outs)
    /\ messageCursors s' = <[sid := st']> (messageCursors s)
    /\ match e with
       | SkipDone k =>
           wentOn offset skipped outs
           /\ k = skipped + sumDelivered outs /\ offset <= k
       | SkipReturn r =>
           exists goods final,
             outs = goods ++ [final] /\ wentOn offset skipped goods
             /\ skipped + sumDelivered goods < offset
             /\ continuing final = false /\ r = skipAnswer final
       | SkipThrown err =>
           exists goods final,
             outs = goods ++ [final] /\ wentOn offset skipped goods
             /\ skipped + sumDelivered goods < offset
             /\ continuing final = false /\ failure err = skipAnswer final
       | SkipFuel => False
       end.
Proof.
  assert (Hstop : forall skipped (st : CursorState) (s : State) o w1 n,
    n = rowCount o ->
    skipped < offset ->
    messageCursors s !! sid = Some st ->
    fetchMessageBatch (cursor st) (world s) = (o, w1) ->
    continuing o = false ->
    forall st' cur r, st' = addFetched st (delivered o) ->
      cur = <[sid := st']> (messageCursors s) ->
      r = skipAnswer o ->
      let s' := mkChatState cur (messageCache s) w1
                  (calls s ++ [CFetch (cursor st) n]) in
      exists outs,
      fetchOutcomes fetchMessageBatch (cursor st) (length outs) (world s)
        = (outs, world s')
      /\ calls s' = calls s ++ map (fetchCall (cursor st)) outs
      /\ st' = addFetched st (sumDelivered outs)
      /\ messageCursors s' = <[sid := st']> (messageCursors s)
      /\ exists goods final,
           outs = goods ++ [final] /\ wentOn offset skipped goods
           /\ skipped + sumDelivered goods < offset
           /\ continuing final = false /\ r = skipAnswer final).
  { intros skipped st s o w1 n -> Hlt Hst Hf Ho st' cur r Hst' Hcur Hr s'.
    exists [o]. subst s'. simpl.
    split; [now rewrite Hf|].
    split; [reflexivity|].
    split; [rewrite Hst'; unfold sumDelivered; simpl; now rewrite Z.add_0_r|].
    split; [exact Hcur|].
    exists [], o. split; [reflexivity|]. split; [apply wentOn_nil|].
    split; [unfold sumDelivered; simpl; lia|]. auto. }
  induction fuel as [|fuel IH]; intros skipped st s e st' s' Hfuel Hst Hrun.
  - simpl in Hrun. destruct (Z.ltb_spec skipped offset) as [Hlt|Hge]; [lia|].
    simpl in Hrun. injection Hrun as <- <- <-. exists []. simpl.
    rewrite app_nil_r. unfold sumDelivered. simpl. rewrite addFetched_0.
    split; [reflexivity|]. split; [reflexivity|]. split; [reflexivity|].
    split; [now rewrite insert_id|].
    split; [apply wentOn_nil|]. lia.
  - simpl in Hrun. destruct (Z.ltb_spec skipped offset) as [Hlt|Hge]; simpl in Hrun.
    2:{ injection Hrun as <- <- <-. exists []. simpl.
        rewrite app_nil_r. unfold sumDelivered. simpl. rewrite addFetched_0.
        split; [reflexivity|]. split; [reflexivity|]. split; [reflexivity|].
        split; [now rewrite insert_id|].
        split; [apply wentOn_nil|]. lia. }
    rewrite doFetch_run in Hrun.
    destruct (fetchMessageBatch (cursor st) (world s)) as [r w1] eqn:Ef.
    cbn [fst snd] in Hrun.
    remember (rowCount r) as n eqn:Hn in Hrun.
    specialize (Hstop skipped st s r w1 n Hn Hlt Hst Ef).
    destruct r as [skipBatch|err].
    { destruct (br_success skipBatch) eqn:Es; simpl in Hrun.
      2:{ injection Hrun as <- <- <-. apply Hstop; try reflexivity.
          - simpl. now rewrite Es.
          - unfold delivered. simpl. rewrite Es. now rewrite addFetched_0.
          - simpl. now rewrite insert_id.
          - simpl. now rewrite Es. }
      destruct (br_rows skipBatch) as [rows|] eqn:Er.
      2:{ injection Hrun as <- <- <-. apply Hstop; try reflexivity.
          - simpl. now rewrite Es, Er.
          - unfold delivered. simpl. rewrite Es, Er. now rewrite addFetched_0.
          - simpl. now rewrite insert_id.
          - simpl. now rewrite Es. }
      destruct (Nat.eqb_spec (length rows) 0) as [Hz|Hnz].
      { injection Hrun as <- <- <-. apply Hstop; try reflexivity.
        - simpl. rewrite Es, Er. simpl.
          destruct (Nat.eqb_spec (length rows) 0); [reflexivity|contradiction].
        - unfold delivered. simpl. rewrite Es, Er, Hz. now rewrite addFetched_0.
        - simpl. now rewrite insert_id.
        - simpl. now rewrite Es. }
      assert (Hdel : delivered (Returned skipBatch) = Z.of_nat (length rows))
        by (unfold delivered; simpl; now rewrite Es, Er).
      assert (Hn' : n = length rows) by (rewrite Hn; simpl; now rewrite Er).
      destruct (br_hasMore skipBatch) eqn:Eh; simpl in Hrun.
      2:{ injection Hrun as <- <- <-. apply Hstop; try reflexivity.
          - simpl. rewrite Es, Er, Eh. now rewrite andb_false_r.
          - now rewrite Hdel.
          - simpl. now rewrite Es. }
      clear Hstop.
      apply IH in Hrun; [|lia|simpl; apply lookup_insert_eq].
      destruct Hrun as (outs & Hf & Hc & Hst' & Hm & Hend).
      simpl in Hf, Hc, Hm.
      assert (Hcont : continuing (Returned skipBatch) = true).
      { simpl. rewrite Es, Er, Eh. simpl.
        destruct (Nat.eqb_spec (length rows) 0); [contradiction|reflexivity]. }
      exists (Returned skipBatch :: outs).
      split.
      { simpl. rewrite Ef. now rewrite Hf. }
      split.
      { rewrite Hc, <- app_assoc, Hn. reflexivity. }
      split.
      { rewrite Hst', addFetched_add.
        change (sumDelivered (Returned skipBatch :: outs))
          with (delivered (Returned skipBatch) + sumDelivered outs).
        now rewrite Hdel. }
      split.
      { rewrite Hm. now rewrite insert_insert_eq. }
      rewrite <- Hdel in Hend.
      change (sumDelivered (Returned skipBatch :: outs))
        with (delivered (Returned skipBatch) + sumDelivered outs).
      destruct e as [k|r|err|]; [| | |exact Hend].
      - destruct Hend as (Hw & Hk & Hoff).
        split; [now apply wentOn_cons|]. lia.
      - destruct Hend as (goods & final & Ho & Hw & Hlt' & Hfin & Hr).
        exists (Returned skipBatch :: goods), final.
        split; [now rewrite Ho|]. split; [now apply wentOn_cons|].
        change (sumDelivered (Returned skipBatch :: goods))
          with (delivered (Returned skipBatch) + sumDelivered goods).
        split; [lia|]. auto.
      - destruct Hend as (goods & final & Ho & Hw & Hlt' & Hfin & Hr).
        exists (Returned skipBatch :: goods), final.
        split; [now rewrite Ho|]. split; [now apply wentOn_cons|].
        change (sumDelivered (Returned skipBatch :: goods))
          with (delivered (Returned skipBatch) + sumDelivered goods).
        split; [lia|]. auto. }
    injection Hrun as <- <- <-. apply Hstop; try reflexivity.
    + unfold delivered. simpl. now rewrite addFetched_0.
    + simpl. now rewrite insert_id.
Qed.

Lemma fetchCurrentBatch_run (sid : string) (st : CursorState) (s : State) :
  messageCursors s !! sid = Some st ->
  let o := fetchMessageBatch (cursor st) (world s) in
  let run := fetchCurrentBatch fetchMessageBatch mapRowsToMessages
               fallbackEmoticons sid st s in
  run.1 = pageAnswer mapRowsToMessages fallbackEmoticons o.1 o.2
  /\ calls run.2 = calls s ++ [CFetch (cursor st) (rowCount o.1)]
  /\ messageCursors run.2
     = <[sid := addFetched st (delivered o.1)]> (messageCursors s).
Proof.
  intros Hst o run. subst o run. unfold fetchCurrentBatch.
  rewrite doFetch_run.
  destruct (fetchMessageBatch (cursor st) (world s)) as [o w1].
  cbn [fst snd]. unfold delivered, pageAnswer, pageRows.
  destruct o as [batch|e]; simpl.
  2:{ rewrite addFetched_0, insert_id by assumption. auto. }
  destruct (br_success batch); simpl.
  2:{ rewrite addFetched_0, insert_id by assumption. auto. }
  destruct (br_rows batch) as [rows|]; simpl.
  2:{ rewrite addFetched_0, insert_id by assumption. auto. }
  destruct (fallbackEmoticons _ w1) as [fixed w2]. simpl. auto.
Qed.

Lemma needNewCursor_iff (state : option CursorState)
  (offset batch start end_ : Z) (asc : bool) :
  needNewCursor state offset batch start end_ asc = true <->
  state = None \/ offset = 0
  \/ exists st, state = Some st
       /\ (batchSize st <> batch \/ startTime st <> start
           \/ endTime st <> end_ \/ ascending st <> asc).
Proof.
  destruct state as [st|]; simpl; [|tauto].
  rewrite !orb_true_iff, !negb_true_iff, Z.eqb_eq, !Z.eqb_neq, eqb_false_iff.
  split.
  - intros [[[[H|H]|H]|H]|H]; [tauto|right; right; exists st; tauto..].
  - intros [H|[H|(st' & [= <-] & H)]]; [discriminate|tauto|tauto].
Qed.

(** C1, as amended. Once the connection check has passed, [getMessages]
    opens a new cursor (after closing the one the session had) exactly when
    the session has no cursor state, or [offset = 0], or the batch size,
    [startTime], [endTime] or [ascending] differ from the stored ones.
    If the open gives no usable cursor, the call fails after it and the
    stored state stays as it was. Otherwise every fetch is made on the
    cursor that the open returned, in the state the open left: the fetches
    [goods], each of which delivered rows and reported more and was made
    while the rows discarded before it were fewer than [offset], and one
    last fetch. If the rows of [goods] reach [offset], the last fetch is
    that of the batch that is returned; if not, the last fetch failed,
    delivered no rows or reported no more rows, and the call ends with its
    failure or with an empty page. The state stored for the session holds
    the new cursor and the number of rows that all these fetches delivered.
    When the stored state is reused the only call is one fetch on the stored
    cursor, whether or not [offset] equals the stored fetched count, and the
    rows it delivers are added to that count. *)
Theorem getMessages_cursor_policy (sid : string)
  (offset limit start end_ : Z) (asc : bool) (s0 : State)
  (w : World) (cerr : option string) :
  ensureConnected (world s0) = (Returned (mkConnectResult true cerr), w) ->
  let batch := Z.max 1 (orNumber limit 50) in
  let state := messageCursors s0 !! sid in
  let fresh :=
    state = None \/ offset = 0
    \/ exists st, state = Some st
         /\ (batchSize st <> batch \/ startTime st <> start
             \/ endTime st <> end_ \/ ascending st <> asc) in
  let closes :=
    match state with Some old => [CClose (cursor old)] | None => [] end in
  let opening :=
    COpen sid batch asc
      (if start >? 10000000000 then start / 1000 else start)
      (if end_ >? 10000000000 then end_ / 1000 else end_) in
  let closed :=
    match state with
    | Some old => (closeMessageCursor (cursor old) w).2
    | None => w
    end in
  let opened :=
    openMessageCursor sid batch asc
      (if start >? 10000000000 then start / 1000 else start)
      (if end_ >? 10000000000 then end_ / 1000 else end_) closed in
  exists r s' new,
    getMessages ensureConnected openMessageCursor fetchMessageBatch
      closeMessageCursor mapRowsToMessages fallbackEmoticons
      sid offset limit start end_ asc s0 = (Some r, s')
    /\ calls s' = calls s0 ++ new
    /\ (fresh <-> In opening new)
    /\ (fresh ->
        match usableCursor opened.1 with
        | None =>
            new = closes ++ [opening]
            /\ r = openFailure opened.1
            /\ messageCursors s' = messageCursors s0
        | Some c =>
            exists goods final wf,
              fetchOutcomes fetchMessageBatch c (S (length goods)) opened.2
                = (goods ++ [final], wf)
              /\ new = closes ++ opening :: map (fetchCall c) (goods ++ [final])
              /\ forallb continuing goods = true
              /\ (forall init l rest, goods = init ++ l :: rest ->
                                      sumDelivered init < offset)
              /\ (if offset <=? sumDelivered goods
                  then r = pageAnswer mapRowsToMessages fallbackEmoticons
                             final wf
                  else continuing final = false /\ r = skipAnswer final)
              /\ messageCursors s'
                 = <[sid := mkCursorState c (sumDelivered (goods ++ [final]))
                              batch start end_ asc]> (messageCursors s0)
        end)
    /\ (~ fresh ->
        exists st,
          state = Some st
          /\ new = [CFetch (cursor st)
                      (rowCount (fetchMessageBatch (cursor st) w).1)]
          /\ r = pageAnswer mapRowsToMessages fallbackEmoticons
                   (fetchMessageBatch (cursor st) w).1
                   (fetchMessageBatch (cursor st) w).2
          /\ messageCursors s'
             = <[sid := addFetched st
                          (delivered (fetchMessageBatch (cursor st) w).1)]>
                 (messageCursors s0)).
Proof.
  intros Hconn batch state fresh closes opening closed opened.
  pose proof (needNewCursor_iff state offset batch start end_ asc) as Hneed.
  fold fresh in Hneed.
  unfold getMessages. rewrite Hconn. cbn [cn_success negb].
  change (messageCursors (setWorld w s0) !! sid) with state.
  fold batch. unfold messageBatchDefault. fold batch.
  destruct (needNewCursor state offset batch start end_ asc) eqn:En.
  - assert (Hfresh : fresh) by (apply Hneed; reflexivity).
    set (s1 := match state with
               | Some old => doClose closeMessageCursor (cursor old) (setWorld w s0)
               | None => setWorld w s0
               end).
    assert (Hs1 : calls s1 = calls s0 ++ closes
                  /\ messageCursors s1 = messageCursors s0
                  /\ world s1 = closed).
    { unfold s1, closes, closed. destruct state as [old|].
      - unfold doClose. simpl.
        destruct (closeMessageCursor (cursor old) w). simpl. auto.
      - simpl. now rewrite app_nil_r. }
    destruct Hs1 as (Hc1 & Hm1 & Hw1).
    unfold doOpen. rewrite Hw1. fold opened.
    destruct opened as [o w2] eqn:Eo. cbn [fst snd].
    set (s2 := logCall _ (setWorld w2 s1)).
    assert (Hc2 : calls s2 = calls s0 ++ closes ++ [opening])
      by (unfold s2; simpl; rewrite Hc1, <- app_assoc; reflexivity).
    assert (Hm2 : messageCursors s2 = messageCursors s0)
      by (unfold s2; simpl; exact Hm1).
    assert (Hin : forall rest, fresh <-> In opening (closes ++ opening :: rest)).
    { intros rest. split; [intros _; apply in_app_iff; right; left; reflexivity|auto]. }
    destruct (usableCursor o) as [c|] eqn:Eu.
    + assert (Ho : exists cursorResult, o = Returned cursorResult
                /\ cr_success cursorResult = true
                /\ cr_cursor cursorResult = Some c /\ (c =? 0) = false).
      { unfold usableCursor in Eu. destruct o as [cursorResult|e]; [|discriminate].
        exists cursorResult. destruct (cr_success cursorResult); [|discriminate].
        destruct (cr_cursor cursorResult) as [c'|]; [|discriminate].
        destruct (c' =? 0) eqn:E0; [discriminate|]. injection Eu as <-. auto. }
      destruct Ho as (cursorResult & -> & Hs & Hc & Hz). rewrite Hs, Hc, Hz.
      set (st := mkCursorState c 0 batch start end_ asc).
      set (s3 := setCursors (<[sid := st]> (messageCursors s2)) s2).
      assert (Hc3 : calls s3 = calls s0 ++ closes ++ [opening]) by exact Hc2.
      assert (Hm3 : messageCursors s3 !! sid = Some st)
        by (unfold s3; simpl; apply lookup_insert_eq).
      assert (Hw3 : world s3 = w2) by reflexivity.
      assert (Hst0 : forall n, addFetched st n
                               = mkCursorState c n batch start end_ asc)
        by reflexivity.
      assert (Hpage : forall (goods : list (Outcome (BatchResult Row))) s4,
        fetchOutcomes fetchMessageBatch c (length goods) w2 = (goods, world s4) ->
        calls s4 = calls s3 ++ map (fetchCall c) goods ->
        messageCursors s4
          = <[sid := addFetched st (sumDelivered goods)]> (messageCursors s3) ->
        wentOn offset 0 goods ->
        offset <= sumDelivered goods ->
        let run := fetchCurrentBatch fetchMessageBatch mapRowsToMessages
                     fallbackEmoticons sid
                     (addFetched st (sumDelivered goods)) s4 in
        exists r s' new,
          (Some run.1, run.2) = (Some r, s')
          /\ calls s' = calls s0 ++ new
          /\ (fresh <-> In opening new)
          /\ (fresh ->
              exists goods final wf,
                fetchOutcomes fetchMessageBatch c (S (length goods)) w2
                  = (goods ++ [final], wf)
                /\ new = closes ++ opening :: map (fetchCall c) (goods ++ [final])
                /\ forallb continuing goods = true
                /\ (forall init l rest, goods = init ++ l :: rest ->
                                        sumDelivered init < offset)
                /\ (if offset <=? sumDelivered goods
                    then r = pageAnswer mapRowsToMessages fallbackEmoticons
                               final wf
                    else continuing final = false /\ r = skipAnswer final)
                /\ messageCursors s'
                   = <[sid := mkCursorState c (sumDelivered (goods ++ [final]))
                                batch start end_ asc]> (messageCursors s0))
          /\ (~ fresh ->
              exists st,
                state = Some st
                /\ new = [CFetch (cursor st)
                            (rowCount (fetchMessageBatch (cursor st) w).1)]
                /\ r = pageAnswer mapRowsToMessages fallbackEmoticons
                         (fetchMessageBatch (cursor st) w).1
                         (fetchMessageBatch (cursor st) w).2
                /\ messageCursors s'
                   = <[sid := addFetched st
                                (delivered (fetchMessageBatch (cursor st) w).1)]>
                       (messageCursors s0))).
      { intros goods s4 Hf Hc4 Hm4 [Hall Hpre] Hoff run.
        destruct (fetchCurrentBatch_run sid
                    (addFetched st (sumDelivered goods)) s4)
          as (Hr & Hc5 & Hm5).
        { rewrite Hm4. apply lookup_insert_eq. }
        fold run in Hr, Hc5, Hm5. simpl cursor in Hr, Hc5, Hm5.
        destruct (fetchMessageBatch c (world s4)) as [final wf] eqn:Ef.
        cbn [fst snd] in Hr, Hc5, Hm5.
        exists run.1, run.2,
          (closes ++ opening :: map (fetchCall c) (goods ++ [final])).
        split; [reflexivity|].
        split.
        { rewrite Hc5, Hc4, Hc3, map_app. simpl.
          rewrite <- !app_assoc. reflexivity. }
        split; [apply Hin|].
        split; [|intros Hn; contradiction].
        intros _. exists goods, final, wf.
        split; [eapply fetchOutcomes_snoc; eauto|].
        split; [reflexivity|]. split; [exact Hall|].
        split.
        { intros init l rest Heq. specialize (Hpre init l rest Heq). lia. }
        split.
        { destruct (Z.leb_spec offset (sumDelivered goods)); [exact Hr|lia]. }
        rewrite Hm5, Hm4, addFetched_add, Hst0. unfold s3. simpl.
        rewrite Hm1, !insert_insert_eq, sumDelivered_app.
        unfold sumDelivered at 3. simpl. now rewrite Z.add_0_r. }
      destruct (Z.gtb_spec offset 0) as [Hpos|Hnpos].
      * destruct (skipLoop fetchMessageBatch (Z.to_nat offset) sid offset 0 st s3)
          as [[e st'] s4] eqn:Eskip.
        apply skipLoop_outcomes in Eskip; [|lia|exact Hm3].
        destruct Eskip as (outs & Hf & Hc4 & Hst' & Hm4 & Hend).
        simpl cursor in Hf, Hc4. rewrite Hw3 in Hf.
        assert (Hstopped : forall r (goods : list (Outcome (BatchResult Row))) final,
          outs = goods ++ [final] -> wentOn offset 0 goods ->
          0 + sumDelivered goods < offset ->
          continuing final = false -> r = skipAnswer final ->
          exists r' s' new,
            (Some r, s4) = (Some r', s')
            /\ calls s' = calls s0 ++ new
            /\ (fresh <-> In opening new)
            /\ (fresh ->
                exists goods final wf,
                  fetchOutcomes fetchMessageBatch c (S (length goods)) w2
                    = (goods ++ [final], wf)
                  /\ new = closes ++ opening :: map (fetchCall c) (goods ++ [final])
                  /\ forallb continuing goods = true
                  /\ (forall init l rest, goods = init ++ l :: rest ->
                                          sumDelivered init < offset)
                  /\ (if offset <=? sumDelivered goods
                      then r' = pageAnswer mapRowsToMessages fallbackEmoticons
                                 final wf
                      else continuing final = false /\ r' = skipAnswer final)
                  /\ messageCursors s'
                     = <[sid := mkCursorState c (sumDelivered (goods ++ [final]))
                                  batch start end_ asc]> (messageCursors s0))
            /\ (~ fresh ->
                exists st,
                  state = Some st
                  /\ new = [CFetch (cursor st)
                              (rowCount (fetchMessageBatch (cursor st) w).1)]
                  /\ r' = pageAnswer mapRowsToMessages fallbackEmoticons
                           (fetchMessageBatch (cursor st) w).1
                           (fetchMessageBatch (cursor st) w).2
                  /\ messageCursors s'
                     = <[sid := addFetched st
                                  (delivered (fetchMessageBatch (cursor st) w).1)]>
                         (messageCursors s0))).
        { intros r goods final Ho [Hall Hpre] Hlt Hfin Hr.
          exists r, s4, (closes ++ opening :: map (fetchCall c) (goods ++ [final])).
          split; [reflexivity|].
          split.
          { rewrite Hc4, Hc3, Ho. rewrite <- !app_assoc. reflexivity. }
          split; [apply Hin|].
          split; [|intros Hn; contradiction].
          intros _. exists goods, final, (world s4).
          split.
          { rewrite <- Ho. replace (S (length goods)) with (length outs); [exact Hf|].
            rewrite Ho, length_app. simpl. lia. }
          split; [reflexivity|]. split; [exact Hall|].
          split.
          { intros init l rest Heq. specialize (Hpre init l rest Heq). lia. }
          split.
          { destruct (Z.leb_spec offset (sumDelivered goods)); [lia|auto]. }
          rewrite Hm4, Hst', Hst0, <- Ho. unfold s3. simpl.
          now rewrite Hm1, !insert_insert_eq. }
        destruct e as [k|r|e|]; [| | |contradiction].
        -- destruct Hend as (Hw & Hk & Hoff). subst st'.
           pose proof (Hpage outs s4 Hf Hc4 Hm4 Hw) as Hp.
           cbv zeta in Hp.
           destruct (fetchCurrentBatch fetchMessageBatch mapRowsToMessages
                       fallbackEmoticons sid _ s4) as [r s5].
           apply Hp. lia.
        -- destruct Hend as (goods & final & Ho & Hw & Hlt & Hfin & Hr).
           now apply (Hstopped r goods final).
        -- destruct Hend as (goods & final & Ho & Hw & Hlt & Hfin & Hr).
           now apply (Hstopped (failure e) goods final).
      * pose proof (Hpage [] s3) as Hp. cbv zeta in Hp.
        change (addFetched st (sumDelivered [])) with st in Hp.
        destruct (fetchCurrentBatch fetchMessageBatch mapRowsToMessages
                    fallbackEmoticons sid st s3) as [r s5].
        apply Hp.
        -- reflexivity.
        -- simpl. now rewrite app_nil_r.
        -- now rewrite insert_id.
        -- apply wentOn_nil.
        -- unfold sumDelivered. simpl. lia.
    + assert (Hfailed : forall r, r = openFailure o ->
        exists r' s' new,
          (Some r, s2) = (Some r', s')
          /\ calls s' = calls s0 ++ new
          /\ (fresh <-> In opening new)
          /\ (fresh ->
              new = closes ++ [opening]
              /\ r' = openFailure o
              /\ messageCursors s' = messageCursors s0)
          /\ (~ fresh ->
              exists st,
                state = Some st
                /\ new = [CFetch (cursor st)
                            (rowCount (fetchMessageBatch (cursor st) w).1)]
                /\ r' = pageAnswer mapRowsToMessages fallbackEmoticons
                         (fetchMessageBatch (cursor st) w).1
                         (fetchMessageBatch (cursor st) w).2
                /\ messageCursors s'
                   = <[sid := addFetched st
                                (delivered (fetchMessageBatch (cursor st) w).1)]>
                       (messageCursors s0))).
      { intros r ->. exists (openFailure o), s2, (closes ++ [opening]).
        split; [reflexivity|]. split; [exact Hc2|].
        split; [apply (Hin [])|].
        split; [auto|intros Hn; contradiction]. }
      unfold usableCursor in Eu.
      destruct o as [cursorResult|e]; [|now apply Hfailed].
      destruct (cr_success cursorResult); [|now apply Hfailed].
      destruct (cr_cursor cursorResult) as [c|]; [|now apply Hfailed].
      destruct (c =? 0); [now apply Hfailed|discriminate].
  - assert (Hnf : ~ fresh) by (intros H; apply Hneed in H; congruence).
    destruct state as [st|] eqn:Est; [|discriminate].
    destruct (fetchCurrentBatch_run sid st (setWorld w s0) Est)
      as (Hr & Hc5 & Hm5).
    simpl world in Hr, Hc5, Hm5.
    destruct (fetchCurrentBatch fetchMessageBatch mapRowsToMessages
                fallbackEmoticons sid st (setWorld w s0)) as [r s5].
    cbn [fst snd] in Hr, Hc5, Hm5.
    exists r, s5, [CFetch (cursor st) (rowCount (fetchMessageBatch (cursor st) w).1)].
    split; [reflexivity|]. split; [exact Hc5|].
    split.
    { split; [intros H; contradiction|].
      intros [H|[]]. discriminate. }
    split; [intros H; contradiction|].
    intros _. exists st. auto.
Qed.

End CursorFacts.

(** C1 as stated fails: a fresh cursor with batch size 50 and offset 30
    discards one whole batch of 50 rows, not 30, and the page returned
    starts at row 51. *)
Lemma getMessages_discards_whole_batches :
  calls (snd (SimDb.getMessages "s" 30 50 0 0 true SimDb.initial))
    = [COpen "s" 50 true 0 0; CFetch 1 50; CFetch 1 50]
  /\ sumRows [50%nat] <> 30
  /\ SimDb.keysOf (fst (SimDb.getMessages "s" 30 50 0 0 true SimDb.initial))
     = seqZ 51 50
  /\ fetched <$> (messageCursors
                    (snd (SimDb.getMessages "s" 30 50 0 0 true SimDb.initial))
                  !! "s") = Some 100.
Proof. vm_compute. repeat split; congruence. Qed.

(** A first call with offset 100 and batch size 50 on the stand-in database
    of 120 rows: the cursor 1 is opened, two batches of 50 rows are
    discarded and the third fetch gives the page. *)
Lemma getMessages_cursor_policy_witness :
  exists r s' new,
    SimDb.getMessages "s" 100 50 0 0 true SimDb.initial = (Some r, s')
    /\ calls s' = calls SimDb.initial ++ new
    /\ In (COpen "s" 50 true 0 0) new
    /\ exists goods final wf,
         fetchOutcomes SimDb.fetchMessageBatch 1 (S (length goods))
           (SimDb.openMessageCursor "s" 50 true 0 0 SimDb.emptyDb).2
           = (goods ++ [final], wf)
         /\ new = COpen "s" 50 true 0 0
                    :: map (fun o => CFetch 1 (rowCount o)) (goods ++ [final])
         /\ forallb continuing goods = true
         /\ (forall init l rest, goods = init ++ l :: rest ->
                                 sumDelivered init < 100)
         /\ (if 100 <=? sumDelivered goods
             then r = pageAnswer SimDb.mapRowsToMessages SimDb.fallbackEmoticons
                        final wf
             else continuing final = false /\ r = skipAnswer final)
         /\ messageCursors s'
            = <[("s" : string) := mkCursorState 1 (sumDelivered (goods ++ [final]))
                         50 0 0 true]> (messageCursors SimDb.initial).
Proof.
  destruct (getMessages_cursor_policy
              SimDb.ensureConnected SimDb.openMessageCursor
              SimDb.fetchMessageBatch SimDb.closeMessageCursor
              SimDb.mapRowsToMessages SimDb.fallbackEmoticons
              "s" 100 50 0 0 true SimDb.initial SimDb.emptyDb None)
    as (r & s' & new & Hrun & Hcalls & Hopen & Hfresh & _).
  - reflexivity.
  - exists r, s', new. split; [exact Hrun|]. split; [exact Hcalls|].
    split; [apply Hopen; left; reflexivity|].
    exact (Hfresh (or_introl eq_refl)).
Defined.

(** A second page asked for with an offset that is not the stored fetched
    count goes on with the stored cursor. *)
Lemma getMessages_reuses_cursor_on_mismatch :
  calls (snd (SimDb.getMessages "s" 80 50 0 0 true
                (snd (SimDb.getMessages "s" 30 50 0 0 true SimDb.initial))))
  = [COpen "s" 50 true 0 0; CFetch 1 50; CFetch 1 50; CFetch 1 20].
Proof. vm_compute. reflexivity. Qed.

End ChatFacts.

(** ** The voice lookup *)

Module VoiceFacts.
Import VoiceLookup.

Section LookupFacts.

Context {World : Type}.
Variable execQuery : string -> Query -> World -> Outcome QueryResult * World.
Variable listMediaDbs : World -> Outcome (bool * option (list string)) * World.
Variable findMediaDbsManually : World -> Outcome (list string) * World.
Variable toJsString : Raw -> string.
Variable trim : string -> string.
Variable fromHex : string -> list byte.
Variable fromBase64 : string -> list byte.

Abbreviation State := (VoiceState (World := World)).
Abbreviation payload := (payloadOf trim fromHex fromBase64).
Abbreviation quiet := (noPayload trim fromHex fromBase64).
Abbreviation answered := (firstPayload trim fromHex fromBase64).
Abbreviation onward := (goesOn trim fromHex fromBase64).
Abbreviation ending := (shardEnd trim fromHex fromBase64).
Abbreviation shard := (lookupShard execQuery toJsString trim fromHex fromBase64).
Abbreviation shards := (lookupShards execQuery toJsString trim fromHex fromBase64).
Abbreviation ask := (asked execQuery).
Abbreviation afterAsk := (afterQuery execQuery).
Abbreviation grown := (ranFrom execQuery).

Lemma payload_needs_strategy (e : Ran) :
  strategyOf (ran_query e) = None -> payload e = None.
Proof.
  unfold payloadOf. destruct (ran_query e); simpl; try reflexivity; discriminate.
Qed.

Lemma served_app (w w'' : World) (l1 l2 : list Ran) :
  served execQuery w (l1 ++ l2) w''
  <-> exists w', served execQuery w l1 w' /\ served execQuery w' l2 w''.
Proof.
  revert w. induction l1 as [|e l1 IH]; intros w; simpl.
  - split; [intros H; exists w; auto|intros (w' & -> & H); exact H].
  - rewrite IH. split.
    + intros (He & w' & H1 & H2). exists w'. auto.
    + intros (w' & (He & H1) & H2). split; [exact He|]. exists w'. auto.
Qed.

Lemma ending_last (l : list Ran) (e : Ran) : ending (l ++ [e]) = ending [e].
Proof. unfold shardEnd. now rewrite last_snoc. Qed.

Lemma onward_ending (e : Ran) : onward e = true <-> ending [e] = Go tt.
Proof.
  unfold goesOn, shardEnd. simpl. destruct (ran_outcome e); [|split; discriminate].
  destruct (payloadOf _ _ _ e); split; try discriminate; reflexivity.
Qed.

Lemma runQuery_run (dbPath : string) (q : Query) (s : State) :
  runQuery execQuery dbPath q s
  = (match (execQuery dbPath q (vworld s)).1 with
     | Returned r => Go r
     | Thrown _ => Leave
     end, afterAsk dbPath q s).
Proof.
  unfold runQuery, afterAsk, ask.
  destruct (execQuery dbPath q (vworld s)) as [o w]. now destruct o.
Qed.

Lemma tryPayload_run (dbPath : string) (q : Query) (s : State) :
  isPayloadQuery q = true ->
  tryPayload execQuery trim fromHex fromBase64 dbPath q s
  = (ending [ask dbPath q s], afterAsk dbPath q s).
Proof.
  intros Hq. unfold tryPayload, bindBlock. rewrite runQuery_run.
  unfold shardEnd, payloadOf, ask. simpl. rewrite Hq.
  destruct (execQuery dbPath q (vworld s)).1 as [res|err]; [|reflexivity].
  destruct (firstRow res) as [row|]; [|reflexivity].
  destruct (decodeVoiceBlob trim fromHex fromBase64 (r_data row)); reflexivity.
Qed.

Lemma ranFrom_nil (s : State) : grown s [] s.
Proof. unfold grown. simpl. now rewrite app_nil_r. Qed.

Lemma ranFrom_query (dbPath : string) (q : Query) (s : State) :
  grown s [ask dbPath q s] (afterAsk dbPath q s).
Proof. unfold grown, afterAsk, ask. simpl. auto. Qed.

Lemma ranFrom_app (s s1 s2 : State) (l1 l2 : list Ran) :
  grown s l1 s1 -> grown s1 l2 s2 -> grown s (l1 ++ l2) s2.
Proof.
  intros (H1 & H2 & H3 & H4) (G1 & G2 & G3 & G4). unfold grown.
  split; [rewrite G1, H1, app_assoc; reflexivity|].
  split; [apply served_app; eauto|]. split; congruence.
Qed.

Lemma strategy1_run (dbPath : string) (schema : Schema) (createTime : Z)
  (candidates : list string) (s : State) :
  let run := strategy1 execQuery trim fromHex fromBase64
               dbPath schema createTime candidates s in
  exists n1,
    grown s n1 run.2
    /\ identityStatements dbPath schema candidates createTime n1
    /\ run.1 = ending n1
    /\ (forallb onward n1 = true <-> run.1 = Go tt).
Proof.
  cbv zeta. unfold strategy1, identityStatements.
  assert (Hnone : exists n1 : list Ran,
            grown s n1 s /\ n1 = []
            /\ @Go unit tt = ending n1
            /\ (forallb onward n1 = true <-> @Go unit tt = Go tt)).
  { exists []. split; [apply ranFrom_nil|]. split; [reflexivity|].
    split; [reflexivity|]. split; reflexivity. }
  destruct (setColumn (chatNameIdColumn schema)) as [idCol|]; [|exact Hnone].
  destruct (setColumn (timeColumn schema)) as [timeCol|]; [|exact Hnone].
  destruct (truthy (name2IdTable schema)); [|exact Hnone].
  clear Hnone. unfold bindBlock. rewrite runQuery_run.
  set (q1 := QName2Id (name2IdTable schema) candidates).
  pose proof (ranFrom_query dbPath q1 s) as Hran.
  set (s1 := afterAsk dbPath q1 s) in *.
  set (e1 := ask dbPath q1 s) in *.
  assert (Hout : (execQuery dbPath q1 (vworld s)).1 = ran_outcome e1)
    by reflexivity.
  assert (He1 : e1 = mkRan dbPath q1 (ran_outcome e1)) by reflexivity.
  assert (Hp1 : payload e1 = None) by reflexivity.
  rewrite Hout. clearbody e1 s1.
  assert (Hon1 : onward e1 = true <-> exists r, ran_outcome e1 = Returned r).
  { unfold goesOn. rewrite Hp1. destruct (ran_outcome e1) as [r|err].
    - split; [eauto|reflexivity].
    - split; [discriminate|intros [r H]; discriminate]. }
  assert (Hend1 : ending [e1]
                  = match ran_outcome e1 with
                    | Returned _ => Go tt
                    | Thrown _ => Leave
                    end).
  { unfold shardEnd. simpl. rewrite Hp1. reflexivity. }
  assert (Hone : identitiesOf (ran_outcome e1) = None ->
            exists n1 : list Ran,
              grown s n1 s1
              /\ (exists o1,
                    match identitiesOf o1 with
                    | Some ids =>
                        exists o2,
                          n1 = [mkRan dbPath q1 o1;
                                mkRan dbPath
                                  (QVoiceByIdsAndTime (voiceTable schema)
                                     (dataColumn schema) idCol timeCol ids
                                     createTime) o2]
                    | None => n1 = [mkRan dbPath q1 o1]
                    end)
              /\ match ran_outcome e1 with
                 | Returned _ => @Go unit tt
                 | Thrown _ => Leave
                 end = ending n1
              /\ (forallb onward n1 = true
                  <-> match ran_outcome e1 with
                      | Returned _ => @Go unit tt
                      | Thrown _ => Leave
                      end = Go tt)).
  { intros Hid. exists [e1]. split; [exact Hran|].
    split; [exists (ran_outcome e1); rewrite Hid; exact (f_equal (fun x => [x]) He1)|].
    split; [now rewrite Hend1|].
    simpl. rewrite andb_true_r, Hon1.
    destruct (ran_outcome e1) as [r|err].
    - split; [reflexivity|eauto].
    - split; [intros [r H]; discriminate|discriminate]. }
  destruct (ran_outcome e1) as [res|err] eqn:Eo; [|now apply Hone].
  unfold identitiesOf in Hone.
  destruct (q_success res) eqn:Es; [|now apply Hone].
  destruct (q_rows res) as [[|row rows]|] eqn:Hrows;
    [now apply Hone| |now apply Hone].
  clear Hone.
  set (q2 := QVoiceByIdsAndTime (voiceTable schema) (dataColumn schema) idCol
               timeCol (map r_rowid (row :: rows)) createTime).
  rewrite (tryPayload_run dbPath q2 s1 eq_refl). cbn [fst snd].
  exists [e1; ask dbPath q2 s1].
  split; [apply (ranFrom_app s s1 _ [_] [_]); [exact Hran|apply ranFrom_query]|].
  split.
  { exists (Returned res). unfold identitiesOf. rewrite Es, Hrows.
    eexists. rewrite He1. reflexivity. }
  split; [symmetry; apply (ending_last [e1])|].
  simpl. rewrite andb_true_r.
  replace (onward e1) with true by (symmetry; apply Hon1; eauto).
  simpl. apply onward_ending.
Qed.

Lemma payloadStage_run (dbPath : string) (q : Query) (s : State) :
  isPayloadQuery q = true ->
  let run := tryPayload execQuery trim fromHex fromBase64 dbPath q s in
  grown s [ask dbPath q s] run.2
  /\ run.1 = ending [ask dbPath q s]
  /\ (forallb onward [ask dbPath q s] = true <-> run.1 = Go tt).
Proof.
  intros Hq run. subst run. rewrite (tryPayload_run dbPath q s Hq). cbn [fst snd].
  split; [apply ranFrom_query|]. split; [reflexivity|].
  simpl. rewrite andb_true_r. apply onward_ending.
Qed.

(** The three strategies in a shard whose layout is known. *)
Lemma strategies_run (dbPath : string) (schema : Schema) (createTime : Z)
  (candidates : list string) (s : State) :
  let run :=
    bindBlock (strategy1 execQuery trim fromHex fromBase64
                 dbPath schema createTime candidates) (fun _ =>
    bindBlock (strategy2 execQuery trim fromHex fromBase64
                 dbPath schema createTime) (fun _ =>
    strategy3 execQuery trim fromHex fromBase64 dbPath schema createTime)) s in
  exists n1 n2 n3,
    grown s (n1 ++ n2 ++ n3) run.2
    /\ identityStatements dbPath schema candidates createTime n1
    /\ exactTimeStatements trim fromHex fromBase64 dbPath schema createTime n1 n2
    /\ windowStatements trim fromHex fromBase64 dbPath schema createTime
         (n1 ++ n2) n3
    /\ run.1 = ending (n1 ++ n2 ++ n3).
Proof.
  cbv zeta. unfold bindBlock.
  destruct (strategy1_run dbPath schema createTime candidates s)
    as (n1 & Hr1 & Hs1 & He1 & Hon1).
  destruct (strategy1 _ _ _ _ _ _ _ _ s) as [r1 s1]. cbn [fst snd] in *.
  unfold exactTimeStatements, windowStatements.
  assert (Hstop1 : forallb onward n1 = false ->
    exists n1' n2 n3,
      grown s (n1' ++ n2 ++ n3) s1
      /\ identityStatements dbPath schema candidates createTime n1'
      /\ match setColumn (timeColumn schema) with
         | Some timeCol =>
             if forallb onward n1' then
               exists o,
                 n2 = [mkRan dbPath
                         (QVoiceByTime (voiceTable schema) (dataColumn schema)
                            timeCol createTime) o]
             else n2 = []
         | None => n2 = []
         end
      /\ match setColumn (timeColumn schema) with
         | Some timeCol =>
             if forallb onward (n1' ++ n2) then
               exists o,
                 n3 = [mkRan dbPath
                         (QVoiceInWindow (voiceTable schema) (dataColumn schema)
                            timeCol (createTime - 5) (createTime + 5)
                            createTime) o]
             else n3 = []
         | None => n3 = []
         end
      /\ r1 = ending (n1' ++ n2 ++ n3)).
  { intros Hoff. exists n1, [], []. rewrite !app_nil_r, Hoff.
    split; [exact Hr1|]. split; [exact Hs1|].
    split; [now destruct (setColumn (timeColumn schema))|].
    split; [now destruct (setColumn (timeColumn schema))|exact He1]. }
  destruct r1 as [[]|d|].
  2:{ apply Hstop1. destruct (forallb onward n1); [|reflexivity].
      destruct Hon1 as [H _]. specialize (H eq_refl). discriminate. }
  2:{ apply Hstop1. destruct (forallb onward n1); [|reflexivity].
      destruct Hon1 as [H _]. specialize (H eq_refl). discriminate. }
  clear Hstop1.
  assert (Hgo1 : forallb onward n1 = true) by (apply Hon1; reflexivity).
  unfold strategy2, strategy3.
  destruct (setColumn (timeColumn schema)) as [timeCol|].
  2:{ exists n1, [], []. rewrite !app_nil_r. unfold go. cbn [fst snd]. auto. }
  set (q2 := QVoiceByTime (voiceTable schema) (dataColumn schema) timeCol createTime).
  destruct (payloadStage_run dbPath q2 s1 eq_refl) as (Hr2 & He2 & Hon2).
  destruct (tryPayload _ _ _ _ dbPath q2 s1) as [r2 s2]. cbn [fst snd] in *.
  set (e2 := ask dbPath q2 s1) in *.
  assert (Hq2 : e2 = mkRan dbPath q2 (ran_outcome e2)) by reflexivity.
  clearbody e2.
  assert (Hstop2 : forallb onward [e2] = false ->
    exists n1' n2 n3,
      grown s (n1' ++ n2 ++ n3) s2
      /\ identityStatements dbPath schema candidates createTime n1'
      /\ (if forallb onward n1' then exists o, n2 = [mkRan dbPath q2 o]
          else n2 = [])
      /\ (if forallb onward (n1' ++ n2) then
            exists o,
              n3 = [mkRan dbPath
                      (QVoiceInWindow (voiceTable schema) (dataColumn schema)
                         timeCol (createTime - 5) (createTime + 5)
                         createTime) o]
          else n3 = [])
      /\ r2 = ending (n1' ++ n2 ++ n3)).
  { intros Hoff. exists n1, [e2], []. rewrite !app_nil_r.
    rewrite forallb_app, Hgo1, Hoff.
    split; [eapply ranFrom_app; eassumption|]. split; [exact Hs1|].
    split; [exists (ran_outcome e2); now rewrite <- Hq2|].
    split; [reflexivity|]. rewrite ending_last. exact He2. }
  destruct r2 as [[]|d|].
  2:{ apply Hstop2. destruct (forallb onward [e2]); [|reflexivity].
      destruct Hon2 as [H _]. specialize (H eq_refl). discriminate. }
  2:{ apply Hstop2. destruct (forallb onward [e2]); [|reflexivity].
      destruct Hon2 as [H _]. specialize (H eq_refl). discriminate. }
  clear Hstop2.
  assert (Hgo2 : forallb onward [e2] = true) by (apply Hon2; reflexivity).
  set (q3 := QVoiceInWindow (voiceTable schema) (dataColumn schema) timeCol
               (createTime - 5) (createTime + 5) createTime).
  destruct (payloadStage_run dbPath q3 s2 eq_refl) as (Hr3 & He3 & _).
  destruct (tryPayload _ _ _ _ dbPath q3 s2) as [r3 s3]. cbn [fst snd] in *.
  set (e3 := ask dbPath q3 s2) in *.
  assert (Hq3 : e3 = mkRan dbPath q3 (ran_outcome e3)) by reflexivity.
  clearbody e3.
  exists n1, [e2], [e3].
  rewrite forallb_app, Hgo1, Hgo2.
  split; [eapply ranFrom_app; [exact Hr1|]; eapply ranFrom_app; eassumption|].
  split; [exact Hs1|].
  split; [exists (ran_outcome e2); now rewrite <- Hq2|].
  split; [exists (ran_outcome e3); now rewrite <- Hq3|].
  rewrite app_assoc, ending_last. exact He3.
Qed.

Lemma quiet_app (l1 l2 : list Ran) : quiet l1 -> quiet l2 -> quiet (l1 ++ l2).
Proof. unfold noPayload. intros H1 H2. apply Forall_app. auto. Qed.

Lemma answered_app (res : option (list byte)) (l1 l2 : list Ran) :
  quiet l1 -> answered res l2 -> answered res (l1 ++ l2).
Proof.
  intros H1 H2. destruct res as [d|]; simpl in *.
  - destruct H2 as (l & e & -> & Hl & He). exists (l1 ++ l), e.
    split; [now rewrite app_assoc|]. split; [now apply quiet_app|exact He].
  - now apply quiet_app.
Qed.

Lemma onward_quiet (l : list Ran) : forallb onward l = true -> quiet l.
Proof.
  unfold noPayload. rewrite forallb_forall, Forall_forall.
  intros H e He. apply list_elem_of_In in He. specialize (H e He).
  unfold goesOn in H. destruct (ran_outcome e); [|discriminate].
  now destruct (payloadOf _ _ _ e).
Qed.

Lemma thrown_quiet (e : Ran) (err : string) :
  ran_outcome e = Thrown err -> payload e = None.
Proof.
  intros H. unfold payloadOf. rewrite H. now destruct (isPayloadQuery _).
Qed.

Lemma ending_answered (l : list Ran) (e : Ran) :
  quiet l -> answered (foundOf (ending (l ++ [e]))) (l ++ [e]).
Proof.
  intros Hl. rewrite ending_last. unfold shardEnd. simpl.
  destruct (ran_outcome e) as [r|err] eqn:Eo; simpl.
  - destruct (payloadOf _ _ _ e) as [d|] eqn:Ep; simpl.
    + exists l, e. auto.
    + apply quiet_app; [exact Hl|]. constructor; [exact Ep|constructor].
  - apply quiet_app; [exact Hl|].
    constructor; [eapply thrown_quiet; eauto|constructor].
Qed.

(** In a shard the payload that the strategies end with is the first one
    that a statement delivered. *)
Lemma statements_answered (dbPath : string) (schema : Schema) (createTime : Z)
  (candidates : list string) (n1 n2 n3 : list Ran) :
  identityStatements dbPath schema candidates createTime n1 ->
  exactTimeStatements trim fromHex fromBase64 dbPath schema createTime n1 n2 ->
  windowStatements trim fromHex fromBase64 dbPath schema createTime (n1 ++ n2) n3 ->
  answered (foundOf (ending (n1 ++ n2 ++ n3))) (n1 ++ n2 ++ n3).
Proof.
  intros H1 H2 H3.
  assert (Hn1 : answered (foundOf (ending n1)) n1).
  { unfold identityStatements in H1.
    destruct (setColumn (chatNameIdColumn schema)); [|subst; constructor].
    destruct (setColumn (timeColumn schema)); [|subst; constructor].
    destruct (truthy (name2IdTable schema)); [|subst; constructor].
    destruct H1 as [o1 H1]. destruct (identitiesOf o1).
    - destruct H1 as [o2 ->]. apply (ending_answered [_]).
      constructor; [reflexivity|constructor].
    - subst n1. apply (ending_answered []). constructor. }
  assert (Hn2 : n2 = [] \/ exists e2, n2 = [e2] /\ forallb onward n1 = true).
  { unfold exactTimeStatements in H2.
    destruct (setColumn (timeColumn schema)); [|auto].
    destruct (forallb onward n1); [|auto]. destruct H2 as [o ->]. eauto. }
  assert (Hn3 : n3 = []
                \/ exists e3, n3 = [e3] /\ forallb onward (n1 ++ n2) = true).
  { unfold windowStatements in H3.
    destruct (setColumn (timeColumn schema)); [|auto].
    destruct (forallb onward (n1 ++ n2)); [|auto]. destruct H3 as [o ->]. eauto. }
  destruct Hn3 as [->|(e3 & -> & Hon)].
  - rewrite app_nil_r. destruct Hn2 as [->|(e2 & -> & Hon)].
    + rewrite app_nil_r. exact Hn1.
    + apply ending_answered, onward_quiet, Hon.
  - rewrite app_assoc. apply ending_answered, onward_quiet, Hon.
Qed.

Lemma untagged_quiet (l : list Ran) : untagged l -> quiet l.
Proof.
  unfold untagged, noPayload. intros H.
  eapply Forall_impl; [exact H|]. intros e. apply payload_needs_strategy.
Qed.

(** The discovery of the layout of a shard asks statements of no strategy;
    it ends with the layout, which it caches, or leaves the shard. *)
Lemma discoverSchema_run (dbPath : string) (s : State) :
  let d := discoverSchema execQuery toJsString dbPath s in
  exists nd,
    ran d.2 = ran s ++ nd
    /\ served execQuery (vworld s) nd (vworld d.2)
    /\ untagged nd
    /\ mediaDbsCache d.2 = mediaDbsCache s
    /\ match d.1 with
       | Go schema =>
           mediaDbSchemaCache d.2 = <[dbPath := schema]> (mediaDbSchemaCache s)
       | Found _ => False
       | Leave => mediaDbSchemaCache d.2 = mediaDbSchemaCache s
       end.
Proof.
  cbv zeta. unfold discoverSchema, bindBlock.
  rewrite runQuery_run.
  pose proof (ranFrom_query dbPath QVoiceTables s) as Hr1.
  set (s1 := afterAsk dbPath QVoiceTables s) in *.
  set (e1 := ask dbPath QVoiceTables s) in *.
  assert (Hq1 : strategyOf (ran_query e1) = None) by reflexivity.
  assert (Ho1 : (execQuery dbPath QVoiceTables (vworld s)).1 = ran_outcome e1)
    by reflexivity.
  rewrite Ho1. clearbody s1 e1.
  assert (Hleave : forall (s' : State) nd,
            grown s nd s' -> untagged nd ->
            exists nd',
              ran s' = ran s ++ nd'
              /\ served execQuery (vworld s) nd' (vworld s')
              /\ untagged nd' /\ mediaDbsCache s' = mediaDbsCache s
              /\ mediaDbSchemaCache s' = mediaDbSchemaCache s).
  { intros s' nd (H1 & H2 & H3 & H4) Hnd. exists nd. auto. }
  assert (Hu1 : untagged [e1]) by (repeat constructor; exact Hq1).
  destruct (ran_outcome e1) as [tablesResult|err]; [|now apply (Hleave s1 [e1])].
  destruct (firstRow tablesResult) as [tableRow|]; [|now apply (Hleave s1 [e1])].
  rewrite runQuery_run.
  set (q2 := QTableInfo (r_name tableRow)).
  pose proof (ranFrom_query dbPath q2 s1) as Hr2.
  set (s2 := afterAsk dbPath q2 s1) in *.
  set (e2 := ask dbPath q2 s1) in *.
  assert (Hq2 : strategyOf (ran_query e2) = None) by reflexivity.
  assert (Ho2 : (execQuery dbPath q2 (vworld s1)).1 = ran_outcome e2)
    by reflexivity.
  rewrite Ho2. clearbody s2 e2.
  pose proof (ranFrom_app s s1 s2 [e1] [e2] Hr1 Hr2) as Hr12.
  assert (Hu2 : untagged ([e1] ++ [e2])) by (repeat constructor; assumption).
  destruct (ran_outcome e2) as [columnsResult|err];
    [|now apply (Hleave s2 ([e1] ++ [e2]))].
  destruct (q_success columnsResult); [|now apply (Hleave s2 ([e1] ++ [e2]))].
  destruct (q_rows columnsResult) as [columnRows|];
    [|now apply (Hleave s2 ([e1] ++ [e2]))].
  destruct (setColumn _) as [dataColumn|];
    [|now apply (Hleave s2 ([e1] ++ [e2]))].
  rewrite runQuery_run.
  pose proof (ranFrom_query dbPath QName2IdTables s2) as Hr3.
  set (s3 := afterAsk dbPath QName2IdTables s2) in *.
  set (e3 := ask dbPath QName2IdTables s2) in *.
  assert (Hq3 : strategyOf (ran_query e3) = None) by reflexivity.
  assert (Ho3 : (execQuery dbPath QName2IdTables (vworld s2)).1 = ran_outcome e3)
    by reflexivity.
  rewrite Ho3. clearbody s3 e3.
  pose proof (ranFrom_app s s2 s3 _ [e3] Hr12 Hr3) as Hr123.
  assert (Hu3 : untagged (([e1] ++ [e2]) ++ [e3]))
    by (repeat constructor; assumption).
  destruct (ran_outcome e3) as [name2IdTablesResult|err].
  - destruct Hr123 as (H1 & H2 & H3 & H4). cbn [fst snd cacheSchema].
    eexists. split; [exact H1|]. split; [exact H2|]. split; [exact Hu3|].
    split; [exact H4|]. simpl. now rewrite H3.
  - now apply (Hleave s3 (([e1] ++ [e2]) ++ [e3])).
Qed.

Lemma lookupShard_entry (dbPath : string) (createTime : Z)
  (candidates : list string) (s : State) :
  shard dbPath createTime candidates s
  = match (match mediaDbSchemaCache s !! dbPath with
           | Some schema => (Go schema, s)
           | None => discoverSchema execQuery toJsString dbPath s
           end) with
    | (Go schema, s') =>
        bindBlock (strategy1 execQuery trim fromHex fromBase64
                     dbPath schema createTime candidates) (fun _ =>
        bindBlock (strategy2 execQuery trim fromHex fromBase64
                     dbPath schema createTime) (fun _ =>
        strategy3 execQuery trim fromHex fromBase64 dbPath schema createTime)) s'
    | (Found d, s') => (Found d, s')
    | (Leave, s') => (Leave, s')
    end.
Proof.
  unfold lookupShard. unfold bindBlock at 1.
  destruct (mediaDbSchemaCache s !! dbPath); reflexivity.
Qed.

(** The lookup in one shard: with the layout of the shard, from the cache
    or just discovered, the statements of the three strategies in their
    order; without it, nothing more. *)
Lemma lookupShard_run (dbPath : string) (createTime : Z)
  (candidates : list string) (s : State) :
  let entry :=
    match mediaDbSchemaCache s !! dbPath with
    | Some schema => (Go schema, s)
    | None => discoverSchema execQuery toJsString dbPath s
    end in
  let run := shard dbPath createTime candidates s in
  match entry.1 with
  | Go schema =>
      exists n1 n2 n3,
        grown entry.2 (n1 ++ n2 ++ n3) run.2
        /\ identityStatements dbPath schema candidates createTime n1
        /\ exactTimeStatements trim fromHex fromBase64 dbPath schema createTime
             n1 n2
        /\ windowStatements trim fromHex fromBase64 dbPath schema createTime
             (n1 ++ n2) n3
        /\ run.1 = ending (n1 ++ n2 ++ n3)
  | Found _ => False
  | Leave => run = (Leave, entry.2)
  end.
Proof.
  cbv zeta. rewrite lookupShard_entry.
  destruct (mediaDbSchemaCache s !! dbPath) as [schema|].
  - cbn [fst snd].
    apply (strategies_run dbPath schema createTime candidates s).
  - destruct (discoverSchema_run dbPath s) as (nd & _ & _ & _ & _ & Hd).
    destruct (discoverSchema execQuery toJsString dbPath s) as [r0 s0].
    cbn [fst snd] in *. destruct r0 as [schema|d|]; [|exact Hd|reflexivity].
    apply (strategies_run dbPath schema createTime candidates s0).
Qed.

Lemma lookupShard_answered (dbPath : string) (createTime : Z)
  (candidates : list string) (s : State) :
  let run := shard dbPath createTime candidates s in
  exists new, ran run.2 = ran s ++ new /\ answered (foundOf run.1) new.
Proof.
  intros run. pose proof (lookupShard_run dbPath createTime candidates s) as H.
  cbv zeta in H. fold run in H.
  assert (Hgo : forall schema (s0 : State) nd,
            ran s0 = ran s ++ nd -> quiet nd ->
            (exists n1 n2 n3,
               grown s0 (n1 ++ n2 ++ n3) run.2
               /\ identityStatements dbPath schema candidates createTime n1
               /\ exactTimeStatements trim fromHex fromBase64 dbPath schema
                    createTime n1 n2
               /\ windowStatements trim fromHex fromBase64 dbPath schema
                    createTime (n1 ++ n2) n3
               /\ run.1 = ending (n1 ++ n2 ++ n3)) ->
            exists new, ran run.2 = ran s ++ new /\ answered (foundOf run.1) new).
  { intros schema s0 nd Hran Hnd (n1 & n2 & n3 & (Hr & _) & H1 & H2 & H3 & He).
    exists (nd ++ n1 ++ n2 ++ n3).
    split; [rewrite Hr, Hran, <- app_assoc; reflexivity|].
    apply answered_app; [exact Hnd|]. rewrite He.
    eapply statements_answered; eassumption. }
  destruct (mediaDbSchemaCache s !! dbPath) as [schema|].
  - cbn [fst snd] in H. apply (Hgo schema s []); [now rewrite app_nil_r|constructor|exact H].
  - destruct (discoverSchema_run dbPath s) as (nd & Hran & _ & Hnd & _ & Hd).
    destruct (discoverSchema execQuery toJsString dbPath s) as [r0 s0].
    cbn [fst snd] in *. destruct r0 as [schema|d|]; [|contradiction|].
    + apply (Hgo schema s0 nd Hran); [apply untagged_quiet, Hnd|exact H].
    + rewrite H. exists nd. split; [exact Hran|]. apply untagged_quiet, Hnd.
Qed.

Lemma visit_cons (dbPath : string) (files : list string) (createTime : Z)
  (candidates : list string) (s : State) :
  visit execQuery toJsString trim fromHex fromBase64 (dbPath :: files)
    createTime candidates s
  = visit execQuery toJsString trim fromHex fromBase64 files createTime candidates
      (shard dbPath createTime candidates s).2.
Proof. reflexivity. Qed.

Lemma noneFound_cons (dbPath : string) (files : list string) (createTime : Z)
  (candidates : list string) (s : State) :
  foundOf (shard dbPath createTime candidates s).1 = None ->
  noneFound execQuery toJsString trim fromHex fromBase64 files createTime
    candidates (shard dbPath createTime candidates s).2 ->
  noneFound execQuery toJsString trim fromHex fromBase64 (dbPath :: files)
    createTime candidates s.
Proof.
  intros Hhere Hrest before db after Heq.
  destruct before as [|b before]; simpl in Heq.
  - injection Heq as <- <-. exact Hhere.
  - injection Heq as <- Heq. rewrite visit_cons. eapply Hrest, Heq.
Qed.

(** The shards are looked up in the order of the list, each from the state
    that the one before left, up to the first that delivers a payload. *)
Lemma lookupShards_run (files : list string) (createTime : Z)
  (candidates : list string) :
  forall s : State,
  let run := shards files createTime candidates s in
  match run.1 with
  | Some d =>
      exists before dbPath after,
        files = before ++ dbPath :: after
        /\ noneFound execQuery toJsString trim fromHex fromBase64 before
             createTime candidates s
        /\ shard dbPath createTime candidates
             (visit execQuery toJsString trim fromHex fromBase64 before
                createTime candidates s)
           = (Found d, run.2)
  | None =>
      noneFound execQuery toJsString trim fromHex fromBase64 files createTime
        candidates s
      /\ run.2 = visit execQuery toJsString trim fromHex fromBase64 files
                   createTime candidates s
  end.
Proof.
  induction files as [|dbPath rest IH]; intros s; cbv zeta.
  - simpl. split; [|reflexivity]. intros before db after H.
    destruct before; discriminate.
  - cbn [lookupShards]. specialize (IH (shard dbPath createTime candidates s).2).
    cbv zeta in IH.
    destruct (shard dbPath createTime candidates s) as [r s1] eqn:Es.
    cbn [fst snd] in IH.
    assert (Hnext : foundOf r = None ->
      match (shards rest createTime candidates s1).1 with
      | Some d =>
          exists before db after,
            dbPath :: rest = before ++ db :: after
            /\ noneFound execQuery toJsString trim fromHex fromBase64 before
                 createTime candidates s
            /\ shard db createTime candidates
                 (visit execQuery toJsString trim fromHex fromBase64 before
                    createTime candidates s)
               = (Found d, (shards rest createTime candidates s1).2)
      | None =>
          noneFound execQuery toJsString trim fromHex fromBase64 (dbPath :: rest)
            createTime candidates s
          /\ (shards rest createTime candidates s1).2
             = visit execQuery toJsString trim fromHex fromBase64 (dbPath :: rest)
                 createTime candidates s
      end).
    { intros Hr. destruct (shards rest createTime candidates s1).1 as [d|].
      - destruct IH as (before & db & after & -> & Hnone & Hfound).
        exists (dbPath :: before), db, after. split; [reflexivity|].
        rewrite visit_cons, Es. split; [|exact Hfound].
        apply noneFound_cons; rewrite Es; assumption.
      - destruct IH as [Hnone Hvisit]. rewrite visit_cons, Es.
        split; [|exact Hvisit]. apply noneFound_cons; rewrite Es; assumption. }
    destruct r as [[]|d|]; [now apply Hnext| |now apply Hnext].
    cbn [fst snd]. exists [], dbPath, rest. split; [reflexivity|].
    split; [|exact Es]. intros before db after H. destruct before; discriminate.
Qed.

Lemma lookupShards_answered (files : list string) (createTime : Z)
  (candidates : list string) :
  forall s : State,
  let run := shards files createTime candidates s in
  exists new, ran run.2 = ran s ++ new /\ answered run.1 new.
Proof.
  induction files as [|dbPath rest IH]; intros s; cbv zeta; simpl.
  - exists []. rewrite app_nil_r. split; [reflexivity|constructor].
  - destruct (lookupShard_answered dbPath createTime candidates s)
      as (new & Hran & Ha).
    destruct (shard dbPath createTime candidates s) as [r s1].
    cbn [fst snd] in Hran, Ha.
    assert (Hnext : answered None new ->
      exists new',
        ran (shards rest createTime candidates s1).2 = ran s ++ new'
        /\ answered (shards rest createTime candidates s1).1 new').
    { intros Hq. destruct (IH s1) as (new' & Hr & Hn).
      exists (new ++ new').
      split; [rewrite Hr, Hran, <- app_assoc; reflexivity|].
      apply answered_app; assumption. }
    destruct r as [[]|d|]; [apply Hnext, Ha| |apply Hnext, Ha].
    simpl. eauto.
Qed.

(** X25. The order of the lookup. In a shard whose layout is known, from
    the cache or from the discovery just made, the statements sent are those
    of strategy 1 (the identities of the candidates and, if any was
    delivered, the payload by identity set and exact time; none if the
    identity column, the time column or the identity table is missing), then
    the payload by exact time alone, sent exactly if the time column is
    known and every statement before returned without a payload that
    decodes, then the payload within five seconds, closest first, under the
    same condition; every statement is answered by the database service in
    turn, and the lookup in the shard ends with the payload of the last
    statement, or leaves the shard if that statement threw, or goes on. A
    shard whose layout cannot be discovered is left at once. The shards are
    looked up in the order of the list, each from the state the one before
    left, up to the first that delivers a payload, and the answer is the
    first payload that any statement delivered; without a cached list of
    shards either nothing is ask and nothing answered, or a list that is
    not empty is cached and looked up. *)
Theorem getVoiceDataFromMediaDb_strategy_order (createTime : Z)
  (candidates : list string) (s : State) :
  (forall dbPath : string,
     let entry :=
       match mediaDbSchemaCache s !! dbPath with
       | Some schema => (Go schema, s)
       | None => discoverSchema execQuery toJsString dbPath s
       end in
     let run := shard dbPath createTime candidates s in
     match entry.1 with
     | Go schema =>
         exists n1 n2 n3,
           ran run.2 = ran entry.2 ++ n1 ++ n2 ++ n3
           /\ served execQuery (vworld entry.2) (n1 ++ n2 ++ n3) (vworld run.2)
           /\ mediaDbSchemaCache run.2 = mediaDbSchemaCache entry.2
           /\ identityStatements dbPath schema candidates createTime n1
           /\ exactTimeStatements trim fromHex fromBase64 dbPath schema
                createTime n1 n2
           /\ windowStatements trim fromHex fromBase64 dbPath schema createTime
                (n1 ++ n2) n3
           /\ run.1 = ending (n1 ++ n2 ++ n3)
     | Found _ => False
     | Leave => run = (Leave, entry.2)
     end)
  /\ (forall dbPath : string,
        let d := discoverSchema execQuery toJsString dbPath s in
        exists nd,
          ran d.2 = ran s ++ nd
          /\ served execQuery (vworld s) nd (vworld d.2)
          /\ untagged nd
          /\ forall schema, d.1 = Go schema ->
               mediaDbSchemaCache d.2 = <[dbPath := schema]> (mediaDbSchemaCache s))
  /\ (forall files : list string,
        let run := shards files createTime candidates s in
        match run.1 with
        | Some d =>
            exists before dbPath after,
              files = before ++ dbPath :: after
              /\ noneFound execQuery toJsString trim fromHex fromBase64 before
                   createTime candidates s
              /\ shard dbPath createTime candidates
                   (visit execQuery toJsString trim fromHex fromBase64 before
                      createTime candidates s)
                 = (Found d, run.2)
        | None =>
            noneFound execQuery toJsString trim fromHex fromBase64 files
              createTime candidates s
            /\ run.2 = visit execQuery toJsString trim fromHex fromBase64 files
                         createTime candidates s
        end)
  /\ (let run := getVoiceDataFromMediaDb execQuery listMediaDbs
                   findMediaDbsManually toJsString trim fromHex fromBase64
                   createTime candidates s in
      match mediaDbsCache s with
      | Some files => run = shards files createTime candidates s
      | None =>
          exists s1 : State,
            ran s1 = ran s
            /\ mediaDbSchemaCache s1 = mediaDbSchemaCache s
            /\ ((run = (None, s1) /\ mediaDbsCache s1 = None)
                \/ exists files,
                     files <> [] /\ mediaDbsCache s1 = Some files
                     /\ run = shards files createTime candidates s1)
      end)
  /\ (let run := getVoiceDataFromMediaDb execQuery listMediaDbs
                   findMediaDbsManually toJsString trim fromHex fromBase64
                   createTime candidates s in
      exists new, ran run.2 = ran s ++ new /\ answered run.1 new).
Proof.
  split; [|split; [|split; [|split]]].
  - intros dbPath entry run.
    pose proof (lookupShard_run dbPath createTime candidates s) as H.
    cbv zeta in H. fold entry run in H.
    destruct entry.1 as [schema|d|]; [|exact H|exact H].
    destruct H as (n1 & n2 & n3 & (H1 & H2 & H3 & _) & H4).
    exists n1, n2, n3. auto.
  - intros dbPath d.
    destruct (discoverSchema_run dbPath s) as (nd & H1 & H2 & H3 & _ & H5).
    fold d in H1, H2, H5. exists nd. split; [exact H1|]. split; [exact H2|].
    split; [exact H3|]. intros schema Hgo. now rewrite Hgo in H5.
  - intros files. apply lookupShards_run.
  - intros run.
    assert (Hrun : run = getVoiceDataFromMediaDb execQuery listMediaDbs
                           findMediaDbsManually toJsString trim fromHex fromBase64
                           createTime candidates s) by reflexivity.
    clearbody run. unfold getVoiceDataFromMediaDb in Hrun.
    destruct (mediaDbsCache s) as [files|] eqn:Ecache; [exact Hrun|].
    destruct (listMediaDbs (vworld s)) as [listed w].
    assert (Hnone : forall s1 : State,
              ran s1 = ran s -> mediaDbSchemaCache s1 = mediaDbSchemaCache s ->
              mediaDbsCache s1 = None -> run = (None, s1) ->
              exists s1' : State,
                ran s1' = ran s
                /\ mediaDbSchemaCache s1' = mediaDbSchemaCache s
                /\ ((run = (None, s1') /\ mediaDbsCache s1' = None)
                    \/ exists files,
                         files <> [] /\ mediaDbsCache s1' = Some files
                         /\ run = shards files createTime candidates s1')).
    { intros s1 H1 H2 H3 H4. exists s1. auto. }
    assert (Hsome : forall (s2 : State) f fs,
              ran s2 = ran s -> mediaDbSchemaCache s2 = mediaDbSchemaCache s ->
              run = shards (f :: fs) createTime candidates
                      (mkVoiceState (Some (f :: fs)) (mediaDbSchemaCache s2)
                         (vworld s2) (ran s2)) ->
              exists s1' : State,
                ran s1' = ran s
                /\ mediaDbSchemaCache s1' = mediaDbSchemaCache s
                /\ ((run = (None, s1') /\ mediaDbsCache s1' = None)
                    \/ exists files,
                         files <> [] /\ mediaDbsCache s1' = Some files
                         /\ run = shards files createTime candidates s1')).
    { intros s2 f fs H1 H2 H3.
      exists (mkVoiceState (Some (f :: fs)) (mediaDbSchemaCache s2)
                (vworld s2) (ran s2)).
      split; [exact H1|]. split; [exact H2|]. right. exists (f :: fs).
      split; [discriminate|]. split; [reflexivity|exact H3]. }
    destruct listed as [[ok data]|err];
      [|(eapply Hnone; [..|exact Hrun]; auto)].
    destruct (match ok, data with true, Some d => d | _, _ => [] end) as [|f fs].
    + destruct (findMediaDbsManually _) as [manual w2].
      destruct manual as [[|f fs]|err];
        [(eapply Hnone; [..|exact Hrun]; auto)|
        |(eapply Hnone; [..|exact Hrun]; auto)].
      (eapply Hsome; [..|exact Hrun]; auto).
    + (eapply Hsome; [..|exact Hrun]; auto).
  - intros run.
    assert (Hrun : run = getVoiceDataFromMediaDb execQuery listMediaDbs
                           findMediaDbsManually toJsString trim fromHex fromBase64
                           createTime candidates s) by reflexivity.
    clearbody run. unfold getVoiceDataFromMediaDb in Hrun.
    assert (Hnone : forall s' : State, ran s' = ran s -> run = (None, s') ->
              exists new, ran run.2 = ran s ++ new /\ answered run.1 new).
    { intros s' H ->. exists []. simpl. rewrite app_nil_r.
      split; [exact H|constructor]. }
    assert (Hshards : forall (files : list string) (s' : State),
              ran s' = ran s ->
              run = shards files createTime candidates s' ->
              exists new, ran run.2 = ran s ++ new /\ answered run.1 new).
    { intros files s' H ->. rewrite <- H. apply lookupShards_answered. }
    destruct (mediaDbsCache s) as [files|];
      [(eapply Hshards; [|exact Hrun]; reflexivity)|].
    destruct (listMediaDbs (vworld s)) as [listed w].
    destruct listed as [[ok data]|err];
      [|(eapply Hnone; [|exact Hrun]; reflexivity)].
    destruct (match ok, data with true, Some d => d | _, _ => [] end) as [|f fs].
    + destruct (findMediaDbsManually _) as [manual w2].
      destruct manual as [[|f fs]|err];
        [(eapply Hnone; [|exact Hrun]; reflexivity)|
        |(eapply Hnone; [|exact Hrun]; reflexivity)].
      (eapply Hshards; [|exact Hrun]; reflexivity).
    + (eapply Hshards; [|exact Hrun]; reflexivity).
Qed.

End LookupFacts.

(** The three fixtures: the answer comes from the identity tier, from the
    exact-time tier after the identity tier found no row, and from the
    window tier (the row three seconds away, not the one four seconds
    away) after both exact tiers found none. *)
Lemma voice_tiers_on_fixtures :
  let candidates := lookupCandidates "alice" "room" "me" in
  let tiers (m : SimMedia.Media) :=
    let run := SimMedia.getVoiceDataFromMediaDb 1000 candidates (SimMedia.start m) in
    (run.1, omap (fun e => strategyOf (ran_query e)) (ran run.2)) in
  candidates = ["alice"; "room"; "me"]
  /\ tiers SimMedia.tier1 = (Some (Buf.from [2]), [1; 1]%nat)
  /\ tiers SimMedia.tier2 = (Some (Buf.from [1]), [1; 1; 2]%nat)
  /\ tiers SimMedia.tier3 = (Some (Buf.from [3]), [1; 1; 2; 3]%nat).
Proof. vm_compute. repeat split; reflexivity. Qed.


End VoiceFacts.

(** ** The path resolution *)

Module ResolverFacts.
Import ImagePathResolver.

Section ResolverProofs.

Context {World : Type}.
Variable resolveHardlinkPath :
  string -> string -> option string -> World -> option string * World.
Variable walkForDatInWorker :
  string -> string -> Z -> bool -> bool -> World -> option string * World.
Variable pathExists : string -> World -> bool.
Variable basename : string -> string.
Variable extname : string -> string.
Variable join : list string -> string.

Abbreviation State := (ResolverState (World := World)).
Abbreviation thumb := (isThumbnailPath basename extname).

Lemma cacheDatPath_effects (accountDir datName datPath : string) (s : State) :
  effects (cacheDatPath accountDir datName datPath s) = effects s
  /\ rworld (cacheDatPath accountDir datName datPath s) = rworld s.
Proof.
  unfold cacheDatPath. destruct (_ && _); split; reflexivity.
Qed.

Lemma doHardlink_run (accountDir key : string) (sessionId : option string)
  (s : State) :
  let run := doHardlink resolveHardlinkPath accountDir key sessionId s in
  run.1 = given (resolveHardlinkPath accountDir key sessionId (rworld s)).1
  /\ effects run.2 = effects s ++ [EHardlink key run.1].
Proof.
  cbv zeta. unfold doHardlink.
  destruct (resolveHardlinkPath accountDir key sessionId (rworld s)) as [r w].
  split; reflexivity.
Qed.

(** With thumbnails not allowed, a hardlink answer ends the resolution: a
    thumbnail gives not-found, any other path is the answer. *)
Lemma afterHardlink_hd (accountDir key : string) (alsoCache : option string)
  (hardlinkPath : option string) (s : State) :
  let run := afterHardlink basename extname accountDir key alsoCache false
               hardlinkPath s in
  effects run.2 = effects s
  /\ run.1 = match hardlinkPath with
             | Some p => if thumb p then Return None else Return (Some p)
             | None => Next
             end.
Proof.
  cbv zeta. unfold afterHardlink. destruct hardlinkPath as [p|]; [|auto].
  destruct (isThumbnailPath basename extname p); simpl; [auto|].
  split; [|reflexivity].
  destruct alsoCache as [n|].
  - destruct (cacheDatPath_effects accountDir n p
                (cacheDatPath accountDir key p s)) as [-> _].
    apply cacheDatPath_effects.
  - apply cacheDatPath_effects.
Qed.

(** C6. With [allowThumbnail = false] the resolution only asks the
    hardlink database: it never calls the file search nor the directory
    walk; an answer it gives is a path the hardlink lookup returned and is
    no thumbnail; and when a hardlink lookup returns a thumbnail path the
    resolution answers not-found. The first lookup is made under the
    content hash when one is given. *)
Theorem resolveDatPath_hd_only (accountDir : string)
  (imageMd5 imageDatName sessionId : option string) (skipResolvedCache : bool)
  (s : State) :
  let run := resolveDatPath resolveHardlinkPath walkForDatInWorker pathExists
               basename extname join accountDir imageMd5 imageDatName sessionId
               false skipResolvedCache s in
  exists new,
    effects run.2 = effects s ++ new
    /\ Forall (fun e => isSearch e = false) new
    /\ (forall p, run.1 = Some p ->
          thumb p = false /\ exists key, In (EHardlink key (Some p)) new)
    /\ (forall key p, In (EHardlink key (Some p)) new -> thumb p = true ->
          run.1 = None)
    /\ (forall md5, given imageMd5 = Some md5 ->
          exists rest,
            new = EHardlink md5
                    (given (resolveHardlinkPath accountDir md5 sessionId
                              (rworld s)).1) :: rest).
Proof.
  intros run.
  assert (Hrun : run = resolveDatPath resolveHardlinkPath walkForDatInWorker
                         pathExists basename extname join accountDir imageMd5
                         imageDatName sessionId false skipResolvedCache s)
    by reflexivity.
  clearbody run. unfold resolveDatPath in Hrun. cbn [negb] in Hrun.
  (* one lookup, with its answer *)
  assert (Hone : forall key (hp : option string) (sa sb : State) ph md5opt,
    effects sa = effects s ++ [EHardlink key hp] ->
    (forall md5, md5opt = Some md5 ->
       key = md5 /\ hp = given (resolveHardlinkPath accountDir md5 sessionId
                                  (rworld s)).1) ->
    effects sb = effects sa ->
    ph = match hp with
         | Some p => if thumb p then Return None else Return (Some p)
         | None => Next
         end ->
    run = (match ph with Return r => r | Next => None end, sb) ->
    exists new,
      effects run.2 = effects s ++ new
      /\ Forall (fun e => isSearch e = false) new
      /\ (forall p, run.1 = Some p ->
            thumb p = false /\ exists key, In (EHardlink key (Some p)) new)
      /\ (forall key p, In (EHardlink key (Some p)) new -> thumb p = true ->
            run.1 = None)
      /\ (forall md5, md5opt = Some md5 ->
            exists rest,
              new = EHardlink md5
                      (given (resolveHardlinkPath accountDir md5 sessionId
                                (rworld s)).1) :: rest)).
  { intros key hp sa sb ph md5opt Hsa Hmd5 Hsb -> ->.
    exists [EHardlink key hp]. simpl.
    split; [now rewrite Hsb|]. split; [repeat constructor|].
    destruct hp as [p|]; [destruct (thumb p) eqn:Et|]; simpl.
    - split; [discriminate|]. split; [auto|].
      intros md5 H. destruct (Hmd5 md5 H) as [-> <-]. eauto.
    - split; [intros q [= <-]; split; [exact Et|]; exists key; auto|].
      split; [intros k q [[= _ <-]|[]] Hq; congruence|].
      intros md5 H. destruct (Hmd5 md5 H) as [-> <-]. eauto.
    - split; [discriminate|]. split; [auto|].
      intros md5 H. destruct (Hmd5 md5 H) as [-> <-]. eauto. }
  destruct (given imageMd5) as [md5|] eqn:Emd5.
  - destruct (doHardlink_run accountDir md5 sessionId s) as [Hans Heff].
    destruct (doHardlink resolveHardlinkPath accountDir md5 sessionId s)
      as [hp sa]. simpl in Hans, Heff.
    destruct (afterHardlink_hd accountDir md5 (given imageDatName) hp sa)
      as [Heff2 Hph].
    destruct (afterHardlink basename extname accountDir md5 (given imageDatName)
                false hp sa) as [ph sb]. simpl in Heff2, Hph.
    destruct hp as [p|].
    + (* the lookup under the content hash answered *)
      apply (Hone md5 (Some p) sa sb ph (Some md5)); auto.
      * intros ? [= <-]. auto.
      * rewrite Hrun, Hph. destruct (thumb p); reflexivity.
    + subst ph.
      assert (Hmiss : run = (None, sb) ->
        exists new,
          effects run.2 = effects s ++ new
          /\ Forall (fun e => isSearch e = false) new
          /\ (forall p, run.1 = Some p ->
                thumb p = false /\ exists key, In (EHardlink key (Some p)) new)
          /\ (forall key p, In (EHardlink key (Some p)) new -> thumb p = true ->
                run.1 = None)
          /\ (forall md5', Some md5 = Some md5' ->
                exists rest,
                  new = EHardlink md5'
                          (given (resolveHardlinkPath accountDir md5' sessionId
                                    (rworld s)).1) :: rest)).
      { intros ->. exists [EHardlink md5 None]. simpl.
        split; [now rewrite Heff2|]. split; [repeat constructor|].
        split; [discriminate|]. split; [auto|].
        intros ? [= <-]. rewrite <- Hans. eauto. }
      destruct (given imageDatName) as [datName|]; [|apply Hmiss, Hrun].
      destruct (looksLikeMd5 datName && negb (String.eqb datName md5));
        [|apply Hmiss, Hrun].
      clear Hmiss.
      destruct (doHardlink_run accountDir datName sessionId sb) as [Hans3 Heff3].
      destruct (doHardlink resolveHardlinkPath accountDir datName sessionId sb)
        as [hp3 sc]. simpl in Hans3, Heff3.
      destruct (afterHardlink_hd accountDir datName None hp3 sc) as [Heff4 Hph4].
      destruct (afterHardlink basename extname accountDir datName None false hp3 sc)
        as [ph4 sd]. simpl in Heff4, Hph4.
      exists [EHardlink md5 None; EHardlink datName hp3].
      assert (Hres : run = (match hp3 with
                            | Some p => if thumb p then None else Some p
                            | None => None
                            end, sd)).
      { rewrite Hrun, Hph4. destruct hp3 as [p|]; [destruct (thumb p)|]; reflexivity. }
      rewrite Hres. simpl.
      split; [rewrite Heff4, Heff3, Heff2, Heff, <- app_assoc; reflexivity|].
      split; [repeat constructor|].
      split; [|split].
      * intros p Hp. destruct hp3 as [q|]; [|discriminate].
        destruct (thumb q) eqn:Et; [discriminate|]. injection Hp as <-.
        split; [exact Et|]. exists datName. auto.
      * intros k q [[=]|[[= _ ->]|[]]] Hq. now rewrite Hq.
      * intros ? [= <-]. rewrite <- Hans. eauto.
  - destruct (given imageDatName) as [datName|].
    2:{ exists []. rewrite Hrun. simpl. rewrite app_nil_r.
        split; [reflexivity|]. split; [constructor|].
        split; [discriminate|]. split; [intros ? ? []|discriminate]. }
    destruct (looksLikeMd5 datName).
    2:{ exists []. rewrite Hrun. simpl. rewrite app_nil_r.
        split; [reflexivity|]. split; [constructor|].
        split; [discriminate|]. split; [intros ? ? []|discriminate]. }
    destruct (doHardlink_run accountDir datName sessionId s) as [Hans Heff].
    destruct (doHardlink resolveHardlinkPath accountDir datName sessionId s)
      as [hp sa]. simpl in Hans, Heff.
    destruct (afterHardlink_hd accountDir datName None hp sa) as [Heff2 Hph].
    destruct (afterHardlink basename extname accountDir datName None false hp sa)
      as [ph sb]. simpl in Heff2, Hph.
    apply (Hone datName hp sa sb ph None); auto; [discriminate|].
    rewrite Hrun. destruct ph; reflexivity.
Qed.

End ResolverProofs.

(** The resolution at a content hash whose hardlink entry is a thumbnail,
    with thumbnails not allowed: not-found, and no search although the
    walk would have found a file. *)
Lemma resolveDatPath_hd_only_witness :
  (SimLinks.resolveDatPath "/acct" (Some SimLinks.knownMd5) (Some "abc.dat")
     None false true SimLinks.start).1 = None
  /\ effects (SimLinks.resolveDatPath "/acct" (Some SimLinks.knownMd5)
                (Some "abc.dat") None false true SimLinks.start).2
     = [EHardlink SimLinks.knownMd5 (Some SimLinks.thumbPath)].
Proof.
  destruct (resolveDatPath_hd_only SimLinks.resolveHardlinkPath
              SimLinks.walkForDatInWorker SimLinks.pathExists SimLinks.basename
              SimLinks.extname SimLinks.join "/acct" (Some SimLinks.knownMd5)
              (Some "abc.dat") None true SimLinks.start)
    as (new & Heff & _ & _ & Hthumb & Hfirst).
  split.
  - destruct (Hfirst SimLinks.knownMd5 eq_refl) as [rest Hnew].
    apply (Hthumb SimLinks.knownMd5 SimLinks.thumbPath).
    + rewrite Hnew. left. reflexivity.
    + reflexivity.
  - reflexivity.
Defined.

End ResolverFacts.

(** ** Requests that share work in flight *)

Module ImageFlightFacts.
Import ImagePathResolver ImageFlight.

Lemma at_most_one {A} (l : list A) :
  NoDup l -> (forall x y, x ∈ l -> y ∈ l -> x = y) -> (length l <= 1)%nat.
Proof.
  destruct l as [|a [|b l]]; simpl; [lia|lia|]. intros Hnd Hall. exfalso.
  apply NoDup_cons in Hnd as [Hnot _]. apply Hnot.
  rewrite (Hall a b); [left|left|right; left].
Qed.

Section ImageFacts.

Variable existsSync : string -> bool.
Variable isImageFile : string -> bool.
Variable localUrl : string -> string.

Abbreviation request := (decryptImage existsSync isImageFile localUrl).
Abbreviation lookupCache := (cachedImage existsSync isImageFile).
Abbreviation canReach := (reachable existsSync isImageFile localUrl).
Abbreviation isCalm := (calm existsSync isImageFile localUrl).
Abbreviation consults := (consultsMap existsSync isImageFile).

Lemma cachedImage_keeps (cacheKey : string) (s : ImageState) :
  pending (lookupCache cacheKey s).2 = pending s
  /\ invoked (lookupCache cacheKey s).2 = invoked s
  /\ cleaned (lookupCache cacheKey s).2 = cleaned s
  /\ nextTask (lookupCache cacheKey s).2 = nextTask s.
Proof.
  unfold cachedImage. destruct (given _) as [c|]; [|auto].
  destruct (existsSync c && isImageFile c); [auto|].
  destruct (negb (isImageFile c)); auto.
Qed.

Lemma registered_same (s s' : ImageState) :
  pending s' = pending s -> invoked s' = invoked s ->
  cleaned s' = cleaned s -> nextTask s' = nextTask s ->
  Registered s -> Registered s'.
Proof.
  intros Hp Hi Hc Hn [H1 H3 H4 H5].
  split; rewrite ?Hp, ?Hi, ?Hc, ?Hn; assumption.
Qed.

Lemma registered_start (s : ImageState) (k : string) cache :
  Registered s ->
  Registered (mkImageState cache (<[k := nextTask s]> (pending s))
                (invoked s ++ [(nextTask s, k)]) (settled s) (cleaned s)
                (S (nextTask s))).
Proof.
  intros [H1 H3 H4 H5]. split; simpl.
  - intros k' t Hl. rewrite elem_of_app, list_elem_of_singleton.
    destruct (decide (k = k')) as [<-|Hne].
    + rewrite lookup_insert_eq in Hl. injection Hl as <-. split; [auto|].
      intros Hc. destruct (H5 _ Hc) as [k' Hin]. specialize (H3 _ _ Hin). lia.
    + rewrite lookup_insert_ne in Hl by exact Hne.
      destruct (H1 k' t Hl). auto.
  - intros k' t. rewrite elem_of_app, list_elem_of_singleton.
    intros [Hin|Heq]; simplify_eq; [|lia]. specialize (H3 k' t Hin). lia.
  - intros t k1 k2. rewrite !elem_of_app, !list_elem_of_singleton.
    intros [Ha|Ha] [Hb|Hb]; simplify_eq; try reflexivity.
    + eapply H4; eassumption.
    + specialize (H3 _ _ Ha). lia.
    + specialize (H3 _ _ Hb). lia.
  - intros t Ht. destruct (H5 t Ht) as [k' Hin]. exists k'.
    apply elem_of_app. auto.
Qed.

Lemma registered_finally (s : ImageState) (t : nat) (k : string) :
  Registered s -> (t, k) ∈ invoked s -> Registered (finally_ t k s).
Proof.
  intros [H1 H3 H4 H5] Hin. split; simpl.
  - intros k' t' Hl.
    destruct (decide (k = k')) as [<-|Hne];
      [rewrite lookup_delete_eq in Hl; discriminate|].
    rewrite lookup_delete_ne in Hl by exact Hne.
    destruct (H1 k' t' Hl) as [Hi Hc]. split; [exact Hi|].
    rewrite not_elem_of_app, list_elem_of_singleton. split; [exact Hc|].
    intros ->. apply Hne. eapply H4; eassumption.
  - exact H3.
  - exact H4.
  - intros t'. rewrite elem_of_app, list_elem_of_singleton.
    intros [Ht| ->]; [auto|eauto].
Qed.

Lemma registered_clear (s : ImageState) : Registered s -> Registered (clearCache s).
Proof.
  intros [H1 H3 H4 H5]. split; simpl; try assumption.
  intros k t Hl. rewrite lookup_empty in Hl. discriminate.
Qed.

Lemma request_registered (payload : Payload) (s : ImageState) :
  Registered s -> Registered (request payload s).2.
Proof.
  intros Hs. unfold decryptImage.
  destruct (cacheKeyOf payload) as [k|]; [|exact Hs].
  assert (Hs1 : forall s1 : ImageState,
            pending s1 = pending s -> invoked s1 = invoked s ->
            cleaned s1 = cleaned s -> nextTask s1 = nextTask s ->
            Registered (match pending s1 !! k with
                        | Some task => (Later task, s1)
                        | None =>
                            (Later (nextTask s1),
                             mkImageState (resolvedCache s1)
                               (<[k := nextTask s1]> (pending s1))
                               (invoked s1 ++ [(nextTask s1, k)]) (settled s1)
                               (cleaned s1) (S (nextTask s1)))
                        end : Reply DecryptResult * ImageState).2).
  { intros s1 Hp Hi Hc Hn.
    pose proof (registered_same s s1 Hp Hi Hc Hn Hs) as Hc1.
    destruct (pending s1 !! k) eqn:E; [exact Hc1|].
    apply registered_start; assumption. }
  destruct (force payload).
  - apply Hs1; reflexivity.
  - destruct (cachedImage_keeps k s) as (Hp & Hi & Hc & Hn).
    destruct (lookupCache k s) as [hit s1]. simpl in *.
    destruct hit as [c|]; [|apply Hs1; assumption].
    simpl. eapply registered_same; eassumption.
Qed.

(** In every state that the image service can reach, also after
    [clearCache], the entries of the in-flight map are tasks that were
    started and whose starter has not cleaned up. *)
Lemma reachable_registered (s : ImageState) : canReach s -> Registered s.
Proof.
  induction 1 as [|e s s' _ IH Hstep].
  - split; simpl; intros; try rewrite lookup_empty in *;
      try discriminate; exfalso; eapply elem_of_nil; eassumption.
  - destruct Hstep as [payload s|task k cache' s Hin Hns|task k s Hin Hs Hnc|s].
    + apply request_registered, IH.
    + eapply registered_same; [..|exact IH]; reflexivity.
    + apply registered_finally; assumption.
    + apply registered_clear, IH.
Qed.

Lemma calm_reachable (s : ImageState) : isCalm s -> canReach s.
Proof.
  induction 1 as [|e s s' _ IH Hstep _]; [constructor|].
  eapply reach_step; eassumption.
Qed.

Lemma consistent_same (s s' : ImageState) :
  pending s' = pending s -> invoked s' = invoked s ->
  cleaned s' = cleaned s -> nextTask s' = nextTask s ->
  Consistent s -> Consistent s'.
Proof.
  intros Hp Hi Hc Hn [H1 H2 H3 H4 H5].
  split; rewrite ?Hp, ?Hi, ?Hc, ?Hn; assumption.
Qed.

Lemma consistent_start (s : ImageState) (k : string) cache :
  Consistent s -> pending s !! k = None ->
  Consistent (mkImageState cache (<[k := nextTask s]> (pending s))
                (invoked s ++ [(nextTask s, k)]) (settled s) (cleaned s)
                (S (nextTask s))).
Proof.
  intros [H1 H2 H3 H4 H5] Hk. split; simpl.
  - intros k' t Hl. rewrite elem_of_app, list_elem_of_singleton.
    destruct (decide (k = k')) as [<-|Hne].
    + rewrite lookup_insert_eq in Hl. injection Hl as <-. split; [auto|].
      intros Hc. destruct (H5 _ Hc) as [k' Hin]. specialize (H3 _ _ Hin). lia.
    + rewrite lookup_insert_ne in Hl by exact Hne.
      destruct (H1 k' t Hl). auto.
  - intros k' t. rewrite elem_of_app, list_elem_of_singleton.
    intros [Hin|Heq] Hc; simplify_eq; [|apply lookup_insert_eq].
    pose proof (H2 k' t Hin Hc) as Hl.
    rewrite lookup_insert_ne; [exact Hl|]. intros <-. congruence.
  - intros k' t. rewrite elem_of_app, list_elem_of_singleton.
    intros [Hin|Heq]; simplify_eq; [|lia]. specialize (H3 k' t Hin). lia.
  - intros t k1 k2. rewrite !elem_of_app, !list_elem_of_singleton.
    intros [Ha|Ha] [Hb|Hb]; simplify_eq; try reflexivity.
    + eapply H4; eassumption.
    + specialize (H3 _ _ Ha). lia.
    + specialize (H3 _ _ Hb). lia.
  - intros t Ht. destruct (H5 t Ht) as [k' Hin]. exists k'.
    apply elem_of_app. auto.
Qed.

Lemma consistent_finally (s : ImageState) (t : nat) (k : string) :
  Consistent s -> (t, k) ∈ invoked s -> t ∉ cleaned s ->
  Consistent (finally_ t k s).
Proof.
  intros [H1 H2 H3 H4 H5] Hin Hnc. split; simpl.
  - intros k' t' Hl.
    destruct (decide (k = k')) as [<-|Hne];
      [rewrite lookup_delete_eq in Hl; discriminate|].
    rewrite lookup_delete_ne in Hl by exact Hne.
    destruct (H1 k' t' Hl) as [Hi Hc]. split; [exact Hi|].
    rewrite not_elem_of_app, list_elem_of_singleton. split; [exact Hc|].
    intros ->. apply Hne. eapply H4; eassumption.
  - intros k' t'. rewrite not_elem_of_app, list_elem_of_singleton.
    intros Hi [Hc Hne]. pose proof (H2 k' t' Hi Hc) as Hl.
    rewrite lookup_delete_ne; [exact Hl|].
    intros <-. pose proof (H2 k t Hin Hnc) as Hl'. congruence.
  - exact H3.
  - exact H4.
  - intros t'. rewrite elem_of_app, list_elem_of_singleton.
    intros [Ht| ->]; [auto|eauto].
Qed.

Lemma request_consistent (payload : Payload) (s : ImageState) :
  Consistent s -> Consistent (request payload s).2.
Proof.
  intros Hs. unfold decryptImage.
  destruct (cacheKeyOf payload) as [k|]; [|exact Hs].
  assert (Hs1 : forall s1 : ImageState,
            pending s1 = pending s -> invoked s1 = invoked s ->
            cleaned s1 = cleaned s -> nextTask s1 = nextTask s ->
            Consistent (match pending s1 !! k with
                        | Some task => (Later task, s1)
                        | None =>
                            (Later (nextTask s1),
                             mkImageState (resolvedCache s1)
                               (<[k := nextTask s1]> (pending s1))
                               (invoked s1 ++ [(nextTask s1, k)]) (settled s1)
                               (cleaned s1) (S (nextTask s1)))
                        end : Reply DecryptResult * ImageState).2).
  { intros s1 Hp Hi Hc Hn.
    pose proof (consistent_same s s1 Hp Hi Hc Hn Hs) as Hc1.
    destruct (pending s1 !! k) eqn:E; [exact Hc1|].
    apply consistent_start; assumption. }
  destruct (force payload).
  - apply Hs1; reflexivity.
  - destruct (cachedImage_keeps k s) as (Hp & Hi & Hc & Hn).
    destruct (lookupCache k s) as [hit s1]. simpl in *.
    destruct hit as [c|]; [|apply Hs1; assumption].
    simpl. eapply consistent_same; eassumption.
Qed.

Lemma consistent_clear (s : ImageState) :
  Consistent s -> idle s -> Consistent (clearCache s).
Proof.
  intros [H1 H2 H3 H4 H5] Hidle. split; simpl; try assumption.
  - intros k t Hl. rewrite lookup_empty in Hl. discriminate.
  - intros k t Hin Hc. elim Hc. eapply Hidle, Hin.
Qed.

(** As long as the map is not cleared while a task is in flight, the
    entries of the in-flight map are the tasks in flight. *)
Lemma calm_consistent (s : ImageState) : isCalm s -> Consistent s.
Proof.
  induction 1 as [|e s s' _ IH Hstep Hcalm].
  - split; simpl; intros; try rewrite lookup_empty in *;
      try discriminate; exfalso; eapply elem_of_nil; eassumption.
  - destruct Hstep as [payload s|task k cache' s Hin Hns|task k s Hin Hs Hnc|s].
    + apply request_consistent, IH.
    + eapply consistent_same; [..|exact IH]; reflexivity.
    + apply consistent_finally; assumption.
    + apply consistent_clear; [exact IH|]. now apply Hcalm.
Qed.

Lemma request_invoked (payload : Payload) (s : ImageState) :
  invoked (request payload s).2 = invoked s
  \/ exists k, invoked (request payload s).2 = invoked s ++ [(nextTask s, k)].
Proof.
  unfold decryptImage. destruct (cacheKeyOf payload) as [k|]; [|now left].
  assert (Hs1 : forall s1 : ImageState,
            invoked s1 = invoked s -> nextTask s1 = nextTask s ->
            invoked (match pending s1 !! k with
                     | Some task => (Later task, s1)
                     | None =>
                         (Later (nextTask s1),
                          mkImageState (resolvedCache s1)
                            (<[k := nextTask s1]> (pending s1))
                            (invoked s1 ++ [(nextTask s1, k)]) (settled s1)
                            (cleaned s1) (S (nextTask s1)))
                     end : Reply DecryptResult * ImageState).2 = invoked s
            \/ exists k', invoked (match pending s1 !! k with
                     | Some task => (Later task, s1)
                     | None =>
                         (Later (nextTask s1),
                          mkImageState (resolvedCache s1)
                            (<[k := nextTask s1]> (pending s1))
                            (invoked s1 ++ [(nextTask s1, k)]) (settled s1)
                            (cleaned s1) (S (nextTask s1)))
                     end : Reply DecryptResult * ImageState).2
                   = invoked s ++ [(nextTask s, k')]).
  { intros s1 Hi Hn. destruct (pending s1 !! k); simpl; [now left|].
    right. exists k. now rewrite Hi, Hn. }
  destruct (force payload); [apply Hs1; reflexivity|].
  destruct (cachedImage_keeps k s) as (Hp & Hi & Hc & Hn).
  destruct (lookupCache k s) as [hit s1]. simpl in *.
  destruct hit as [c|]; [now left|apply Hs1; assumption].
Qed.

(** A task is started once. *)
Lemma reachable_distinct (s : ImageState) : canReach s -> NoDup (invoked s).*1.
Proof.
  induction 1 as [|e s s' Hreach IH Hstep]; [constructor|].
  destruct Hstep as [payload s|task k cache' s Hin Hns|task k s Hin Hs Hnc|s];
    try exact IH.
  destruct (request_invoked payload s) as [->|[k ->]]; [exact IH|].
  rewrite fmap_app. apply NoDup_app. split; [exact IH|].
  split; [|apply NoDup_singleton].
  intros t Ht. simpl. rewrite list_elem_of_singleton. intros ->.
  apply list_elem_of_fmap in Ht as ([t k'] & Heq & Hin). simpl in Heq. subst t.
  pose proof (task_below s (reachable_registered s Hreach) k' _ Hin). lia.
Qed.

Lemma inFlight_pending (s : ImageState) (k : string) (t : nat) :
  Consistent s -> t ∈ inFlight k s <-> pending s !! k = Some t.
Proof.
  intros [H1 H2 H3 H4 H5]. unfold inFlight.
  rewrite list_elem_of_fmap. split.
  - intros ([t' k'] & -> & Hf). apply list_elem_of_filter in Hf.
    simpl in Hf. destruct Hf as [[-> Hc] Hi]. auto.
  - intros Hl. destruct (H1 k t Hl) as [Hi Hc]. exists (t, k).
    split; [reflexivity|]. apply list_elem_of_filter. simpl. auto.
Qed.

(** As long as the map is not cleared while a task is in flight, at most
    one task is in flight for a key. *)
Lemma inFlight_at_most_one (s : ImageState) (k : string) :
  isCalm s -> (length (inFlight k s) <= 1)%nat.
Proof.
  intros Hcalm. apply at_most_one.
  - unfold inFlight.
    eapply sublist_NoDup;
      [apply reachable_distinct, calm_reachable, Hcalm|].
    apply fmap_sublist, sublist_filter.
  - intros x y Hx Hy.
    apply (inFlight_pending s k x (calm_consistent s Hcalm)) in Hx.
    apply (inFlight_pending s k y (calm_consistent s Hcalm)) in Hy.
    congruence.
Qed.

Lemma cachedImage_cache (cacheKey k : string) (s : ImageState) :
  resolvedCache (lookupCache cacheKey s).2 !! k = resolvedCache s !! k
  \/ resolvedCache (lookupCache cacheKey s).2 !! k = None.
Proof.
  unfold cachedImage. destruct (given _) as [c|]; [|auto].
  destruct (existsSync c && isImageFile c); [auto|].
  destruct (negb (isImageFile c)); [|auto]. simpl.
  destruct (decide (cacheKey = k)) as [->|Hne].
  - right. apply lookup_delete_eq.
  - left. now apply lookup_delete_ne.
Qed.

Lemma cachedImage_miss (k : string) (s s' : ImageState) :
  resolvedCache s' !! k = resolvedCache s !! k \/ resolvedCache s' !! k = None ->
  (lookupCache k s).1 = None -> (lookupCache k s').1 = None.
Proof.
  unfold cachedImage. intros [->| ->]; [|reflexivity].
  destruct (given (resolvedCache s !! k)) as [c|]; [|auto].
  destruct (existsSync c && isImageFile c); [discriminate|].
  destruct (negb (isImageFile c)); auto.
Qed.

Lemma request_cache (payload : Payload) (k : string) (s : ImageState) :
  resolvedCache (request payload s).2 !! k = resolvedCache s !! k
  \/ resolvedCache (request payload s).2 !! k = None.
Proof.
  unfold decryptImage. destruct (cacheKeyOf payload) as [key|]; [|auto].
  assert (Hrest : forall s1 : ImageState,
    resolvedCache s1 !! k = resolvedCache s !! k \/ resolvedCache s1 !! k = None ->
    resolvedCache
      (match pending s1 !! key with
       | Some task => (Later task, s1)
       | None =>
           (Later (nextTask s1),
            mkImageState (resolvedCache s1) (<[key := nextTask s1]> (pending s1))
              (invoked s1 ++ [(nextTask s1, key)]) (settled s1) (cleaned s1)
              (S (nextTask s1)))
       end : Reply DecryptResult * ImageState).2 !! k = resolvedCache s !! k
    \/ resolvedCache
         (match pending s1 !! key with
          | Some task => (Later task, s1)
          | None =>
              (Later (nextTask s1),
               mkImageState (resolvedCache s1) (<[key := nextTask s1]> (pending s1))
                 (invoked s1 ++ [(nextTask s1, key)]) (settled s1) (cleaned s1)
                 (S (nextTask s1)))
          end : Reply DecryptResult * ImageState).2 !! k = None).
  { intros s1 H. destruct (pending s1 !! key); exact H. }
  destruct (force payload); [apply Hrest; auto|].
  pose proof (cachedImage_cache key k s) as Hc.
  destruct (lookupCache key s) as [hit s1]. simpl in Hc.
  destruct hit as [c|]; [exact Hc|apply Hrest, Hc].
Qed.

Lemma request_keeps_miss (payload : Payload) (k : string) (s : ImageState) :
  (lookupCache k s).1 = None -> (lookupCache k (request payload s).2).1 = None.
Proof. apply cachedImage_miss, request_cache. Qed.

(** A request that consults the map while a task is in flight for its key
    gets the promise of that task, and nothing is started. *)
Lemma request_attaches (payload : Payload) (k : string) (t : nat)
  (s : ImageState) :
  cacheKeyOf payload = Some k ->
  force payload = true \/ (lookupCache k s).1 = None ->
  pending s !! k = Some t ->
  (request payload s).1 = Later t
  /\ pending (request payload s).2 = pending s
  /\ invoked (request payload s).2 = invoked s.
Proof.
  intros Hk Hmap Hp. unfold decryptImage. rewrite Hk.
  destruct (force payload) eqn:Ef.
  - rewrite Hp. simpl. auto.
  - destruct Hmap as [Hf|Hmiss]; [discriminate|].
    destruct (cachedImage_keeps k s) as (Hp1 & Hi1 & Hc1 & _).
    destruct (lookupCache k s) as [hit s1]. simpl in *. subst hit.
    rewrite Hp1, Hp. simpl. auto.
Qed.

(** A request that consults the map while nothing is in flight for its key
    starts the one task and registers it. *)
Lemma request_starts (payload : Payload) (k : string) (s : ImageState) :
  cacheKeyOf payload = Some k ->
  force payload = true \/ (lookupCache k s).1 = None ->
  pending s !! k = None ->
  (request payload s).1 = Later (nextTask s)
  /\ pending (request payload s).2 !! k = Some (nextTask s)
  /\ invoked (request payload s).2 = invoked s ++ [(nextTask s, k)].
Proof.
  intros Hk Hmap Hp. unfold decryptImage. rewrite Hk.
  destruct (force payload) eqn:Ef.
  - rewrite Hp. simpl. rewrite lookup_insert_eq. auto.
  - destruct Hmap as [Hf|Hmiss]; [discriminate|].
    destruct (cachedImage_keeps k s) as (Hp1 & Hi1 & Hc1 & Hn1).
    destruct (lookupCache k s) as [hit s1]. simpl in *. subst hit.
    rewrite Hp1, Hp. simpl. rewrite lookup_insert_eq, Hn1, Hi1. auto.
Qed.

Lemma consults_later (k : string) (s : ImageState) (p q : Payload) :
  consults k s q -> consults k (request p s).2 q.
Proof.
  intros [Hk [Hf|Hm]]; split; auto. right. now apply request_keeps_miss.
Qed.

Lemma decryptImages_attach (payloads : list Payload) (k : string) (t : nat) :
  forall s : ImageState,
  Forall (consults k s) payloads ->
  pending s !! k = Some t ->
  Forall (fun r => r = Later t) (decryptImages existsSync isImageFile localUrl payloads s).1
  /\ invoked (decryptImages existsSync isImageFile localUrl payloads s).2 = invoked s.
Proof.
  induction payloads as [|p rest IH]; intros s Hall Hp; simpl.
  - split; [constructor|reflexivity].
  - inversion Hall as [|? ? [Hk Hmap] Hrest]; subst.
    destruct (request_attaches p k t s Hk Hmap Hp) as (Hr & Hp1 & Hi1).
    assert (Hrest' : Forall (consults k (request p s).2) rest).
    { eapply Forall_impl; [exact Hrest|]. intros q. apply consults_later. }
    destruct (request p s) as [reply s1]. simpl in *.
    destruct (IH s1 Hrest' ltac:(now rewrite Hp1)) as [Hall' Hi'].
    destruct (decryptImages _ _ _ rest s1) as [replies s2]. simpl in *.
    split; [constructor; assumption|congruence].
Qed.

Lemma decryptImages_start (payloads : list Payload) (k : string)
  (s : ImageState) :
  Forall (consults k s) payloads ->
  payloads <> [] ->
  pending s !! k = None ->
  Forall (fun r => r = Later (nextTask s))
    (decryptImages existsSync isImageFile localUrl payloads s).1
  /\ invoked (decryptImages existsSync isImageFile localUrl payloads s).2
     = invoked s ++ [(nextTask s, k)].
Proof.
  intros Hall Hne Hp. destruct payloads as [|p rest]; [contradiction|]. simpl.
  inversion Hall as [|? ? [Hk Hmap] Hrest]; subst.
  destruct (request_starts p k s Hk Hmap Hp) as (Hr & Hp1 & Hi1).
  assert (Hrest' : Forall (consults k (request p s).2) rest).
  { eapply Forall_impl; [exact Hrest|]. intros q. apply consults_later. }
  destruct (request p s) as [reply s1]. simpl in *.
  destruct (decryptImages_attach rest k (nextTask s) s1 Hrest' Hp1) as [Hall' Hi'].
  destruct (decryptImages _ _ _ rest s1) as [replies s2]. simpl in *.
  split; [constructor; assumption|congruence].
Qed.

Lemma finally_removes (t : nat) (k : string) (s : ImageState) :
  Consistent s -> (t, k) ∈ invoked s -> t ∉ cleaned s ->
  pending (finally_ t k s) !! k = None /\ inFlight k (finally_ t k s) = [].
Proof.
  intros Hs Hin Hnc. split; [apply lookup_delete_eq|].
  pose proof (consistent_finally s t k Hs Hin Hnc) as Hs'.
  apply elem_of_nil_inv. intros t' Ht'.
  apply (inFlight_pending _ _ _ Hs') in Ht'. simpl in Ht'.
  now rewrite lookup_delete_eq in Ht'.
Qed.

End ImageFacts.

End ImageFlightFacts.

Module TranscriptFlightFacts.
Import ImagePathResolver TranscriptFlight.

Lemma given_none (o : option string) :
  o <> Some "" -> given o = None -> o = None.
Proof.
  unfold given. destruct o as [v|]; [|reflexivity].
  destruct (String.eqb_spec v ""); [congruence|discriminate].
Qed.

Lemma mapGet_mapSet_same (m : OrderedMap) (k v : string) :
  mapGet (mapSet m k v) k = Some v.
Proof.
  induction m as [|[k' v'] m IH]; simpl.
  - now rewrite String.eqb_refl.
  - destruct (String.eqb_spec k' k) as [->|Hne]; simpl.
    + now rewrite String.eqb_refl.
    + destruct (String.eqb_spec k' k); [contradiction|exact IH].
Qed.

Lemma mapGet_mapSet_other (m : OrderedMap) (k v k' : string) :
  k <> k' -> mapGet (mapSet m k v) k' = mapGet m k'.
Proof.
  intros Hne. induction m as [|[k0 v0] m IH]; simpl.
  - destruct (String.eqb_spec k k'); [contradiction|reflexivity].
  - destruct (String.eqb_spec k0 k) as [->|Hk]; simpl.
    + destruct (String.eqb_spec k k'); [contradiction|reflexivity].
    + destruct (String.eqb_spec k0 k'); [reflexivity|exact IH].
Qed.

(** A key that is not cached stays so when another key is cached, also
    when the oldest entry is dropped. *)
Lemma cacheVoiceTranscript_other (m : OrderedMap) (k v k' : string) :
  k <> k' -> mapGet m k' = None -> mapGet (cacheVoiceTranscript m k v) k' = None.
Proof.
  intros Hne Hm. unfold cacheVoiceTranscript.
  pose proof (mapGet_mapSet_other m k v k' Hne) as Hset. rewrite Hm in Hset.
  destruct (voiceCacheMaxEntries <? length (mapSet m k v))%nat; [|exact Hset].
  destruct (mapSet m k v) as [|[k0 v0] rest]; [exact Hset|].
  destruct (String.eqb k0 ""); [exact Hset|].
  simpl in Hset. destruct (String.eqb k0 k'); [discriminate|exact Hset].
Qed.

Lemma mapGet_entry (m : OrderedMap) (k v : string) :
  mapGet m k = Some v -> (k, v) ∈ m.
Proof.
  induction m as [|[k0 v0] m IH]; simpl; [discriminate|].
  destruct (String.eqb_spec k0 k) as [->|Hne].
  - intros [= ->]. left.
  - intros H. right. apply IH, H.
Qed.

Lemma cacheVoiceTranscript_values (m : OrderedMap) (k v : string) :
  Forall (fun p => p.2 <> "") m -> v <> "" ->
  Forall (fun p => p.2 <> "") (cacheVoiceTranscript m k v).
Proof.
  intros Hm Hv.
  assert (Hset : Forall (fun p => p.2 <> "") (mapSet m k v)).
  { induction Hm as [|[k0 v0] m H0 Hm IH]; simpl.
    - repeat constructor. exact Hv.
    - destruct (String.eqb k0 k); constructor; auto. }
  unfold cacheVoiceTranscript.
  destruct (voiceCacheMaxEntries <? length (mapSet m k v))%nat; [|exact Hset].
  destruct (mapSet m k v) as [|[k0 v0] rest]; [exact Hset|].
  destruct (String.eqb k0 ""); [exact Hset|].
  now inversion Hset.
Qed.

Lemma uncached_given (s : TranscriptState) (k : string) :
  Forall (fun p => p.2 <> "") (voiceTranscriptCache s) ->
  given (mapGet (voiceTranscriptCache s) k) = None ->
  mapGet (voiceTranscriptCache s) k = None.
Proof.
  intros Hall. apply given_none. intros Hk. apply mapGet_entry in Hk.
  rewrite Forall_forall in Hall. apply (Hall _ Hk). reflexivity.
Qed.

Lemma given_value (o : option string) (v : string) : given o = Some v -> v <> "".
Proof.
  unfold given. destruct o as [w|]; [|discriminate].
  destruct (String.eqb_spec w ""); [discriminate|congruence].
Qed.

Lemma finish_cache_values (s : TranscriptState) (k : string)
  (result : TranscriptResult) :
  Forall (fun p => p.2 <> "") (voiceTranscriptCache s) ->
  Forall (fun p => p.2 <> "")
    (match t_success result, given (t_transcript result) with
     | true, Some transcript =>
         cacheVoiceTranscript (voiceTranscriptCache s) k transcript
     | _, _ => voiceTranscriptCache s
     end).
Proof.
  intros H7. destruct (t_success result); [|exact H7].
  destruct (given (t_transcript result)) as [v|] eqn:Ev; [|exact H7].
  apply cacheVoiceTranscript_values; [exact H7|]. eapply given_value, Ev.
Qed.

Lemma finish_cache_other (s : TranscriptState) (k k' : string)
  (result : TranscriptResult) :
  k <> k' -> mapGet (voiceTranscriptCache s) k' = None ->
  mapGet (match t_success result, given (t_transcript result) with
          | true, Some transcript =>
              cacheVoiceTranscript (voiceTranscriptCache s) k transcript
          | _, _ => voiceTranscriptCache s
          end) k' = None.
Proof.
  intros Hne Hc. destruct (t_success result); [|exact Hc].
  destruct (given (t_transcript result)); [|exact Hc].
  now apply cacheVoiceTranscript_other.
Qed.

Lemma transcript_start_registered (s : TranscriptState) (k : string)
  (throwsAtOnce : bool) :
  Registered s -> mapGet (voiceTranscriptCache s) k = None ->
  Registered (mkTranscriptState (voiceTranscriptCache s)
                (<[k := nextTask s]> (voiceTranscriptPending s))
                (started s ++ [(nextTask s, k)])
                (if throwsAtOnce then finished s ++ [nextTask s] else finished s)
                (S (nextTask s))).
Proof.
  intros [H1 H3 H4 H5 H6 H7] Hc. split; simpl.
  - intros k' t Hl. rewrite elem_of_app, list_elem_of_singleton.
    destruct (decide (k = k')) as [<-|Hne].
    + rewrite lookup_insert_eq in Hl. injection Hl as <-. auto.
    + rewrite lookup_insert_ne in Hl by exact Hne. auto.
  - intros k' t. rewrite elem_of_app, list_elem_of_singleton.
    intros [Hin|Heq]; simplify_eq; [|lia]. specialize (H3 k' t Hin). lia.
  - intros t k1 k2. rewrite !elem_of_app, !list_elem_of_singleton.
    intros [Ha|Ha] [Hb|Hb]; simplify_eq; try reflexivity.
    + eapply H4; eassumption.
    + specialize (H3 _ _ Ha). lia.
    + specialize (H3 _ _ Hb). lia.
  - intros t Ht.
    assert (Hcases : t ∈ finished s \/ t = nextTask s).
    { destruct throwsAtOnce; [|auto].
      apply elem_of_app in Ht as [Ht|Ht]; [auto|].
      apply list_elem_of_singleton in Ht. auto. }
    destruct Hcases as [Hf| ->].
    + destruct (H5 t Hf) as [k' Hin]. exists k'. apply elem_of_app. auto.
    + exists k. apply elem_of_app. right. apply list_elem_of_singleton.
      reflexivity.
  - intros k' t. destruct (decide (k = k')) as [<-|Hne].
    + intros _. exact Hc.
    + rewrite lookup_insert_ne by exact Hne. apply H6.
  - exact H7.
Qed.

Lemma transcript_request_registered (req : Request) (throwsAtOnce : bool)
  (s : TranscriptState) :
  Registered s -> Registered (getVoiceTranscript req throwsAtOnce s).2.
Proof.
  intros Hs. unfold getVoiceTranscript.
  destruct (msgCreateTime req =? 0); [exact Hs|].
  destruct (given _) as [cached|] eqn:Eg; [exact Hs|].
  destruct (voiceTranscriptPending s !! _) eqn:Ep; [exact Hs|].
  apply transcript_start_registered; [exact Hs|].
  apply uncached_given; [apply (cached_values s Hs)|exact Eg].
Qed.

Lemma transcript_finish_registered (s : TranscriptState) (t : nat) (k : string)
  (result : TranscriptResult) :
  Registered s -> (t, k) ∈ started s -> Registered (finish t k result s).
Proof.
  intros [H1 H3 H4 H5 H6 H7] Hin. split; simpl.
  - intros k' t' Hl.
    destruct (decide (k = k')) as [<-|Hne];
      [rewrite lookup_delete_eq in Hl; discriminate|].
    rewrite lookup_delete_ne in Hl by exact Hne. auto.
  - exact H3.
  - exact H4.
  - intros t'. rewrite elem_of_app, list_elem_of_singleton.
    intros [Ht| ->]; [auto|eauto].
  - intros k' t' Hl.
    destruct (decide (k = k')) as [<-|Hne];
      [rewrite lookup_delete_eq in Hl; discriminate|].
    rewrite lookup_delete_ne in Hl by exact Hne.
    apply finish_cache_other; [exact Hne|]. eapply H6, Hl.
  - apply finish_cache_values, H7.
Qed.

Lemma transcript_clear_registered (includeMessages : bool) (s : TranscriptState) :
  Registered s -> Registered (clearCaches includeMessages s).
Proof.
  intros Hs. unfold clearCaches. destruct includeMessages; [|exact Hs].
  destruct Hs as [H1 H3 H4 H5 H6 H7]. split; simpl; try assumption.
  - intros k t Hl. rewrite lookup_empty in Hl. discriminate.
  - intros k t Hl. rewrite lookup_empty in Hl. discriminate.
  - constructor.
Qed.

(** In every state that the chat service can reach, also after
    [clearCaches] and after a task that threw at once, the entries of the
    in-flight map are tasks that were created, and no key of the map is
    cached. *)
Lemma transcript_reachable_registered (s : TranscriptState) :
  reachable s -> Registered s.
Proof.
  induction 1 as [|e s s' _ IH Hstep].
  - split; simpl; intros; try rewrite lookup_empty in *;
      try discriminate; try constructor; try reflexivity;
      exfalso; eapply elem_of_nil; eassumption.
  - destruct Hstep as [req throwsAtOnce s|task k result s Hin Hnf|includeMessages s].
    + apply transcript_request_registered, IH.
    + apply transcript_finish_registered; assumption.
    + apply transcript_clear_registered, IH.
Qed.

Lemma transcript_calm_reachable (s : TranscriptState) : calm s -> reachable s.
Proof.
  induction 1 as [|e s s' _ IH Hstep _]; [constructor|].
  eapply reach_step; eassumption.
Qed.

Lemma transcript_start_consistent (s : TranscriptState) (k : string) :
  Consistent s -> voiceTranscriptPending s !! k = None ->
  mapGet (voiceTranscriptCache s) k = None ->
  Consistent (mkTranscriptState (voiceTranscriptCache s)
                (<[k := nextTask s]> (voiceTranscriptPending s))
                (started s ++ [(nextTask s, k)]) (finished s) (S (nextTask s))).
Proof.
  intros [H1 H2 H3 H4 H5 H6 H7] Hk Hc. split; simpl.
  - intros k' t Hl. rewrite elem_of_app, list_elem_of_singleton.
    destruct (decide (k = k')) as [<-|Hne].
    + rewrite lookup_insert_eq in Hl. injection Hl as <-. split; [auto|].
      intros Hf. destruct (H5 _ Hf) as [k' Hin]. specialize (H3 _ _ Hin). lia.
    + rewrite lookup_insert_ne in Hl by exact Hne.
      destruct (H1 k' t Hl). auto.
  - intros k' t. rewrite elem_of_app, list_elem_of_singleton.
    intros [Hin|Heq] Hf; simplify_eq; [|apply lookup_insert_eq].
    pose proof (H2 k' t Hin Hf) as Hl.
    rewrite lookup_insert_ne; [exact Hl|]. intros <-. congruence.
  - intros k' t. rewrite elem_of_app, list_elem_of_singleton.
    intros [Hin|Heq]; simplify_eq; [|lia]. specialize (H3 k' t Hin). lia.
  - intros t k1 k2. rewrite !elem_of_app, !list_elem_of_singleton.
    intros [Ha|Ha] [Hb|Hb]; simplify_eq; try reflexivity.
    + eapply H4; eassumption.
    + specialize (H3 _ _ Ha). lia.
    + specialize (H3 _ _ Hb). lia.
  - intros t Ht. destruct (H5 t Ht) as [k' Hin]. exists k'.
    apply elem_of_app. auto.
  - intros k' t. destruct (decide (k = k')) as [<-|Hne].
    + intros _. exact Hc.
    + rewrite lookup_insert_ne by exact Hne. apply H6.
  - exact H7.
Qed.

Lemma transcript_request_consistent (req : Request) (s : TranscriptState) :
  Consistent s -> Consistent (getVoiceTranscript req false s).2.
Proof.
  intros Hs. unfold getVoiceTranscript.
  destruct (msgCreateTime req =? 0); [exact Hs|].
  destruct (given _) as [cached|] eqn:Eg; [exact Hs|].
  destruct (voiceTranscriptPending s !! _) eqn:Ep; [exact Hs|].
  apply transcript_start_consistent; [exact Hs|exact Ep|].
  apply uncached_given; [apply (cached_nonempty s Hs)|exact Eg].
Qed.

Lemma transcript_finish_consistent (s : TranscriptState) (t : nat) (k : string)
  (result : TranscriptResult) :
  Consistent s -> (t, k) ∈ started s -> t ∉ finished s ->
  Consistent (finish t k result s).
Proof.
  intros [H1 H2 H3 H4 H5 H6 H7] Hin Hnf. split; simpl.
  - intros k' t' Hl.
    destruct (decide (k = k')) as [<-|Hne];
      [rewrite lookup_delete_eq in Hl; discriminate|].
    rewrite lookup_delete_ne in Hl by exact Hne.
    destruct (H1 k' t' Hl) as [Hi Hf]. split; [exact Hi|].
    rewrite not_elem_of_app, list_elem_of_singleton. split; [exact Hf|].
    intros ->. apply Hne. eapply H4; eassumption.
  - intros k' t'. rewrite not_elem_of_app, list_elem_of_singleton.
    intros Hi [Hf Hne]. pose proof (H2 k' t' Hi Hf) as Hl.
    rewrite lookup_delete_ne; [exact Hl|].
    intros <-. pose proof (H2 k t Hin Hnf) as Hl'. congruence.
  - exact H3.
  - exact H4.
  - intros t'. rewrite elem_of_app, list_elem_of_singleton.
    intros [Ht| ->]; [auto|eauto].
  - intros k' t' Hl.
    destruct (decide (k = k')) as [<-|Hne];
      [rewrite lookup_delete_eq in Hl; discriminate|].
    rewrite lookup_delete_ne in Hl by exact Hne.
    apply finish_cache_other; [exact Hne|]. eapply H6, Hl.
  - apply finish_cache_values, H7.
Qed.

Lemma transcript_clear_consistent (includeMessages : bool) (s : TranscriptState) :
  Consistent s -> (includeMessages = true -> idle s) ->
  Consistent (clearCaches includeMessages s).
Proof.
  intros Hs Hidle. unfold clearCaches. destruct includeMessages; [|exact Hs].
  specialize (Hidle eq_refl).
  destruct Hs as [H1 H2 H3 H4 H5 H6 H7]. split; simpl; try assumption.
  - intros k t Hl. rewrite lookup_empty in Hl. discriminate.
  - intros k t Hin Hf. elim Hf. eapply Hidle, Hin.
  - intros k t Hl. rewrite lookup_empty in Hl. discriminate.
  - constructor.
Qed.

(** In the orderly runs the entries of the in-flight map are the tasks in
    flight. *)
Lemma transcript_calm_consistent (s : TranscriptState) : calm s -> Consistent s.
Proof.
  induction 1 as [|e s s' _ IH Hstep Horderly].
  - split; simpl; intros; try rewrite lookup_empty in *;
      try discriminate; try constructor; try reflexivity;
      exfalso; eapply elem_of_nil; eassumption.
  - destruct Hstep as [req throwsAtOnce s|task k result s Hin Hnf|includeMessages s].
    + simpl in Horderly. subst throwsAtOnce.
      apply transcript_request_consistent, IH.
    + apply transcript_finish_consistent; assumption.
    + apply transcript_clear_consistent; assumption.
Qed.

Lemma transcript_request_started (req : Request) (throwsAtOnce : bool)
  (s : TranscriptState) :
  started (getVoiceTranscript req throwsAtOnce s).2 = started s
  \/ exists k, started (getVoiceTranscript req throwsAtOnce s).2
               = started s ++ [(nextTask s, k)].
Proof.
  unfold getVoiceTranscript.
  destruct (msgCreateTime req =? 0); [now left|].
  destruct (given _); [now left|].
  destruct (voiceTranscriptPending s !! _); [now left|].
  right. eexists. reflexivity.
Qed.

(** A task is created once. *)
Lemma transcript_reachable_distinct (s : TranscriptState) :
  reachable s -> NoDup (started s).*1.
Proof.
  induction 1 as [|e s s' Hreach IH Hstep]; [constructor|].
  destruct Hstep as [req throwsAtOnce s|task k result s Hin Hnf|includeMessages s].
  - destruct (transcript_request_started req throwsAtOnce s) as [->|[k ->]];
      [exact IH|].
    rewrite fmap_app. apply NoDup_app. split; [exact IH|].
    split; [|apply NoDup_singleton].
    intros t Ht. simpl. rewrite list_elem_of_singleton. intros ->.
    apply list_elem_of_fmap in Ht as ([t k'] & Heq & Hin). simpl in Heq. subst t.
    pose proof (task_below s (transcript_reachable_registered s Hreach) k' _ Hin).
    lia.
  - exact IH.
  - unfold clearCaches. destruct includeMessages; exact IH.
Qed.

Lemma transcript_inFlight_pending (s : TranscriptState) (k : string) (t : nat) :
  Consistent s -> t ∈ inFlight k s <-> voiceTranscriptPending s !! k = Some t.
Proof.
  intros [H1 H2 H3 H4 H5 H6 H7]. unfold inFlight.
  rewrite list_elem_of_fmap. split.
  - intros ([t' k'] & -> & Hf). apply list_elem_of_filter in Hf.
    simpl in Hf. destruct Hf as [[-> Hc] Hi]. auto.
  - intros Hl. destruct (H1 k t Hl) as [Hi Hc]. exists (t, k).
    split; [reflexivity|]. apply list_elem_of_filter. simpl. auto.
Qed.

(** In the orderly runs at most one task is in flight for a key. *)
Lemma transcript_at_most_one (s : TranscriptState) (k : string) :
  calm s -> (length (inFlight k s) <= 1)%nat.
Proof.
  intros Hcalm. apply ImageFlightFacts.at_most_one.
  - unfold inFlight.
    eapply sublist_NoDup;
      [apply transcript_reachable_distinct, transcript_calm_reachable, Hcalm|].
    apply fmap_sublist, sublist_filter.
  - intros x y Hx Hy.
    apply (transcript_inFlight_pending s k x (transcript_calm_consistent s Hcalm))
      in Hx.
    apply (transcript_inFlight_pending s k y (transcript_calm_consistent s Hcalm))
      in Hy.
    congruence.
Qed.

(** A request whose key is in the in-flight map gets the promise of the
    task of the entry, and no task is created. *)
Lemma transcript_attaches (req : Request) (throwsAtOnce : bool) (k : string)
  (t : nat) (s : TranscriptState) :
  Registered s -> asksFor k req ->
  voiceTranscriptPending s !! k = Some t ->
  getVoiceTranscript req throwsAtOnce s = (Later t, s).
Proof.
  intros Hs [Htime Hk] Hp. unfold getVoiceTranscript.
  destruct (Z.eqb_spec (msgCreateTime req) 0); [contradiction|].
  unfold keyOf in Hk. rewrite Hk.
  rewrite (entry_uncached s Hs k t Hp). simpl. now rewrite Hp.
Qed.

Lemma transcript_starts (req : Request) (throwsAtOnce : bool) (k : string)
  (s : TranscriptState) :
  asksFor k req ->
  given (mapGet (voiceTranscriptCache s) k) = None ->
  voiceTranscriptPending s !! k = None ->
  (getVoiceTranscript req throwsAtOnce s).1 = Later (nextTask s)
  /\ voiceTranscriptPending (getVoiceTranscript req throwsAtOnce s).2 !! k
     = Some (nextTask s)
  /\ started (getVoiceTranscript req throwsAtOnce s).2
     = started s ++ [(nextTask s, k)].
Proof.
  intros [Htime Hk] Hc Hp. unfold getVoiceTranscript.
  destruct (Z.eqb_spec (msgCreateTime req) 0); [contradiction|].
  unfold keyOf in Hk. rewrite Hk, Hc, Hp. simpl.
  rewrite lookup_insert_eq. auto.
Qed.

Lemma getVoiceTranscripts_attach (reqs : list (Request * bool)) (k : string)
  (t : nat) (s : TranscriptState) :
  Registered s -> Forall (fun r => asksFor k r.1) reqs ->
  voiceTranscriptPending s !! k = Some t ->
  (getVoiceTranscripts reqs s).1 = map (fun _ => Later t) reqs
  /\ (getVoiceTranscripts reqs s).2 = s.
Proof.
  intros Hs Hall Hp. induction Hall as [|[req b] reqs Hreq _ IH]; simpl; [auto|].
  rewrite (transcript_attaches req b k t s Hs Hreq Hp).
  destruct (getVoiceTranscripts reqs s) as [replies s2]. simpl in *.
  destruct IH as [-> ->]. auto.
Qed.

Lemma getVoiceTranscripts_start (reqs : list (Request * bool)) (k : string)
  (s : TranscriptState) :
  Registered s -> Forall (fun r => asksFor k r.1) reqs -> reqs <> [] ->
  given (mapGet (voiceTranscriptCache s) k) = None ->
  voiceTranscriptPending s !! k = None ->
  (getVoiceTranscripts reqs s).1 = map (fun _ => Later (nextTask s)) reqs
  /\ started (getVoiceTranscripts reqs s).2 = started s ++ [(nextTask s, k)].
Proof.
  intros Hs Hall Hne Hc Hp. destruct reqs as [|[req b] rest]; [contradiction|].
  inversion Hall as [|? ? Hreq Hrest]; subst. simpl.
  destruct (transcript_starts req b k s Hreq Hc Hp) as (Hr & Hp1 & Hs1).
  pose proof (transcript_request_registered req b s Hs) as Hreg.
  destruct (getVoiceTranscript req b s) as [reply s1]. simpl in *.
  destruct (getVoiceTranscripts_attach rest k (nextTask s) s1 Hreg Hrest Hp1)
    as [Hreplies Hsame].
  destruct (getVoiceTranscripts rest s1) as [replies s2]. simpl in *.
  subst. auto.
Qed.

Lemma finish_removes (t : nat) (k : string) (result : TranscriptResult)
  (s : TranscriptState) :
  Consistent s -> (t, k) ∈ started s -> t ∉ finished s ->
  voiceTranscriptPending (finish t k result s) !! k = None
  /\ inFlight k (finish t k result s) = [].
Proof.
  intros Hs Hin Hnf. split; [apply lookup_delete_eq|].
  pose proof (transcript_finish_consistent s t k result Hs Hin Hnf) as Hs'.
  apply elem_of_nil_inv. intros t' Ht'.
  apply (transcript_inFlight_pending _ _ _ Hs') in Ht'. simpl in Ht'.
  now rewrite lookup_delete_eq in Ht'.
Qed.

End TranscriptFlightFacts.

Module FlightFacts.
Import ImagePathResolver.

(** C9, as amended. In every state the two services can reach, whatever
    was cleared in between: an entry of the in-flight map is a task that
    was started for its key; any number of requests for a key that consult
    the map (for an image: forced requests and requests that find no usable
    cached file; for a transcript: every request for a key that is not
    cached, and a key of the map never is) get the promise of one task, the
    task of the entry if there is one, otherwise the single task that the
    first of them starts; and the step that ends a task takes the entry of
    its key out of the map. In the states of the runs in which the map is
    not cleared while a task is in flight (and, for transcripts, the body of
    a task reaches its first [await]), the tasks started for a key and not
    yet ended are the entry of the map, so there is at most one, and none is
    left when that task has ended. *)
Theorem in_flight_work_is_shared
  (existsSync isImageFile : string -> bool) (localUrl : string -> string) :
  (forall (s : ImageFlight.ImageState) (k : string),
     ImageFlight.reachable existsSync isImageFile localUrl s ->
     (forall t, ImageFlight.pending s !! k = Some t ->
                (t, k) ∈ ImageFlight.invoked s /\ t ∉ ImageFlight.cleaned s)
     /\ (forall payloads t,
           Forall (ImageFlight.consultsMap existsSync isImageFile k s) payloads ->
           ImageFlight.pending s !! k = Some t ->
           Forall (fun r => r = Later t)
             (ImageFlight.decryptImages existsSync isImageFile localUrl payloads s).1
           /\ ImageFlight.invoked
                (ImageFlight.decryptImages existsSync isImageFile localUrl payloads s).2
              = ImageFlight.invoked s)
     /\ (forall payloads,
           Forall (ImageFlight.consultsMap existsSync isImageFile k s) payloads ->
           payloads <> [] ->
           ImageFlight.pending s !! k = None ->
           Forall (fun r => r = Later (ImageFlight.nextTask s))
             (ImageFlight.decryptImages existsSync isImageFile localUrl payloads s).1
           /\ ImageFlight.invoked
                (ImageFlight.decryptImages existsSync isImageFile localUrl payloads s).2
              = ImageFlight.invoked s ++ [(ImageFlight.nextTask s, k)]
           /\ (forall k' t, (t, k') ∈ ImageFlight.invoked s ->
                            t <> ImageFlight.nextTask s))
     /\ (forall t, ImageFlight.pending (ImageFlight.finally_ t k s) !! k = None))
  /\ (forall (s : ImageFlight.ImageState) (k : string),
        ImageFlight.calm existsSync isImageFile localUrl s ->
        (forall t, t ∈ ImageFlight.inFlight k s
                   <-> ImageFlight.pending s !! k = Some t)
        /\ (length (ImageFlight.inFlight k s) <= 1)%nat
        /\ (forall t,
              (t, k) ∈ ImageFlight.invoked s -> t ∉ ImageFlight.cleaned s ->
              ImageFlight.inFlight k (ImageFlight.finally_ t k s) = []))
  /\ (forall (s : TranscriptFlight.TranscriptState) (k : string),
        TranscriptFlight.reachable s ->
        (forall t, TranscriptFlight.voiceTranscriptPending s !! k = Some t ->
                   (t, k) ∈ TranscriptFlight.started s
                   /\ TranscriptFlight.mapGet
                        (TranscriptFlight.voiceTranscriptCache s) k = None)
        /\ (forall reqs t,
              Forall (fun r => TranscriptFlight.asksFor k r.1) reqs ->
              TranscriptFlight.voiceTranscriptPending s !! k = Some t ->
              (TranscriptFlight.getVoiceTranscripts reqs s).1
                = map (fun _ => Later t) reqs
              /\ (TranscriptFlight.getVoiceTranscripts reqs s).2 = s)
        /\ (forall reqs,
              Forall (fun r => TranscriptFlight.asksFor k r.1) reqs ->
              reqs <> [] ->
              given (TranscriptFlight.mapGet
                       (TranscriptFlight.voiceTranscriptCache s) k) = None ->
              TranscriptFlight.voiceTranscriptPending s !! k = None ->
              (TranscriptFlight.getVoiceTranscripts reqs s).1
                = map (fun _ => Later (TranscriptFlight.nextTask s)) reqs
              /\ TranscriptFlight.started
                   (TranscriptFlight.getVoiceTranscripts reqs s).2
                 = TranscriptFlight.started s ++ [(TranscriptFlight.nextTask s, k)]
              /\ (forall k' t, (t, k') ∈ TranscriptFlight.started s ->
                               t <> TranscriptFlight.nextTask s))
        /\ (forall t result,
              TranscriptFlight.voiceTranscriptPending
                (TranscriptFlight.finish t k result s) !! k = None))
  /\ (forall (s : TranscriptFlight.TranscriptState) (k : string),
        TranscriptFlight.calm s ->
        (forall t, t ∈ TranscriptFlight.inFlight k s
                   <-> TranscriptFlight.voiceTranscriptPending s !! k = Some t)
        /\ (length (TranscriptFlight.inFlight k s) <= 1)%nat
        /\ (forall t result,
              (t, k) ∈ TranscriptFlight.started s ->
              t ∉ TranscriptFlight.finished s ->
              TranscriptFlight.inFlight k
                (TranscriptFlight.finish t k result s) = [])).
Proof.
  split; [|split; [|split]].
  - intros s k Hreach.
    pose proof (ImageFlightFacts.reachable_registered _ _ _ s Hreach) as Hs.
    split; [intros t; apply (ImageFlight.entry_invoked s Hs)|].
    split; [intros payloads t; apply ImageFlightFacts.decryptImages_attach|].
    split.
    + intros payloads Hall Hne Hp.
      destruct (ImageFlightFacts.decryptImages_start existsSync isImageFile
                  localUrl payloads k s Hall Hne Hp) as [H1 H2].
      split; [exact H1|]. split; [exact H2|].
      intros k' t Hin. pose proof (ImageFlight.task_below s Hs k' t Hin). lia.
    + intros t. apply lookup_delete_eq.
  - intros s k Hcalm.
    pose proof (ImageFlightFacts.calm_consistent _ _ _ s Hcalm) as Hs.
    split; [intros t; now apply ImageFlightFacts.inFlight_pending|].
    split; [apply (ImageFlightFacts.inFlight_at_most_one existsSync isImageFile
                     localUrl s k Hcalm)|].
    intros t Hin Hnc.
    apply (ImageFlightFacts.finally_removes t k s Hs Hin Hnc).
  - intros s k Hreach.
    pose proof (TranscriptFlightFacts.transcript_reachable_registered s Hreach)
      as Hs.
    split.
    { intros t Hp. split; [apply (TranscriptFlight.entry_started s Hs _ _ Hp)|].
      apply (TranscriptFlight.entry_uncached s Hs _ _ Hp). }
    split; [intros reqs t;
            now apply TranscriptFlightFacts.getVoiceTranscripts_attach|].
    split.
    + intros reqs Hall Hne Hc Hp.
      destruct (TranscriptFlightFacts.getVoiceTranscripts_start reqs k s Hs Hall
                  Hne Hc Hp) as [H1 H2].
      split; [exact H1|]. split; [exact H2|].
      intros k' t Hin. pose proof (TranscriptFlight.task_below s Hs k' t Hin). lia.
    + intros t result. apply lookup_delete_eq.
  - intros s k Hcalm.
    pose proof (TranscriptFlightFacts.transcript_calm_consistent s Hcalm) as Hs.
    split; [intros t; now apply TranscriptFlightFacts.transcript_inFlight_pending|].
    split; [now apply TranscriptFlightFacts.transcript_at_most_one|].
    intros t result Hin Hnf.
    apply (TranscriptFlightFacts.finish_removes t k result s Hs Hin Hnf).
Qed.

(** The run of the stand-in: a plain request, its task and its [finally],
    then a forced request. *)
Lemma whileForced_calm :
  ImageFlight.calm SimFlight.existsSync SimFlight.isImageFile
    SimFlight.localUrl SimFlight.whileForced.
Proof.
  unfold SimFlight.whileForced. eapply ImageFlight.calm_step;
    [|apply ImageFlight.step_request|discriminate].
  unfold SimFlight.afterFirst.
  eapply ImageFlight.calm_step;
    [|apply ImageFlight.step_finally; vm_compute; set_solver|discriminate].
  eapply ImageFlight.calm_step;
    [|eapply (ImageFlight.step_settle _ _ _ 0%nat SimFlight.imageKey);
      vm_compute; set_solver|discriminate].
  eapply ImageFlight.calm_step;
    [apply ImageFlight.calm_initial|apply ImageFlight.step_request|discriminate].
Qed.

(** C9 as stated fails for images: while the forced request is in flight
    (task 1 is in the map under the key), a plain request for the same key
    is answered from the resolved cache with the thumbnail and not with the
    promise in the map. No second decryption is started. *)
Lemma decryptImage_prefers_cache :
  ImageFlight.calm SimFlight.existsSync SimFlight.isImageFile
    SimFlight.localUrl SimFlight.whileForced
  /\ ImageFlight.pending SimFlight.whileForced !! SimFlight.imageKey = Some 1%nat
  /\ ImageFlight.cacheKeyOf SimFlight.plain = Some SimFlight.imageKey
  /\ (SimFlight.decryptImage SimFlight.plain SimFlight.whileForced).1
     = Now (ImageFlight.mkDecryptResult true (Some SimFlight.thumbFile) None None)
  /\ (SimFlight.decryptImage SimFlight.plain SimFlight.whileForced).1
     <> Later 1%nat
  /\ ImageFlight.invoked
       (SimFlight.decryptImage SimFlight.plain SimFlight.whileForced).2
     = ImageFlight.invoked SimFlight.whileForced.
Proof.
  split.
  - exact whileForced_calm.
  - repeat split; try reflexivity. discriminate.
Qed.

(** Why the tasks in flight are the entry of the map only while the map is
    not cleared under them: after [clearCache] with task 1 in flight, a
    plain request for the same key starts task 2, and both are in flight. *)
Lemma clearCache_starts_again :
  ImageFlight.inFlight SimFlight.imageKey SimFlight.afterClear = [1%nat]
  /\ ImageFlight.pending SimFlight.afterClear !! SimFlight.imageKey = None
  /\ (SimFlight.decryptImage SimFlight.plain SimFlight.afterClear).1
     = Later 2%nat
  /\ ImageFlight.inFlight SimFlight.imageKey
       (SimFlight.decryptImage SimFlight.plain SimFlight.afterClear).2
     = [1%nat; 2%nat].
Proof. vm_compute. repeat split; reflexivity. Qed.

(** And why the body of a transcription task has to reach its first
    [await]: a task that threw at once has ended, yet it is put into the
    map, and the next request for the key gets its promise. *)
Lemma thrown_task_stays :
  TranscriptFlight.finished SimFlight.afterThrow = [0%nat]
  /\ TranscriptFlight.voiceTranscriptPending SimFlight.afterThrow
       !! TranscriptFlight.keyOf SimFlight.voiceRequest = Some 0%nat
  /\ TranscriptFlight.getVoiceTranscript SimFlight.voiceRequest false
       SimFlight.afterThrow
     = (Later 0%nat, SimFlight.afterThrow).
Proof. vm_compute. repeat split; reflexivity. Qed.

Lemma in_flight_work_is_shared_witness :
  Forall (fun r => r = Later 0%nat)
    (ImageFlight.decryptImages SimFlight.existsSync SimFlight.isImageFile
       SimFlight.localUrl [SimFlight.plain; SimFlight.forced; SimFlight.plain]
       ImageFlight.initial).1
  /\ ImageFlight.invoked
       (ImageFlight.decryptImages SimFlight.existsSync SimFlight.isImageFile
          SimFlight.localUrl [SimFlight.plain; SimFlight.forced; SimFlight.plain]
          ImageFlight.initial).2
     = [(0%nat, SimFlight.imageKey)]
  /\ (TranscriptFlight.getVoiceTranscripts
        [(SimFlight.voiceRequest, false); (SimFlight.voiceRequest, false)]
        TranscriptFlight.initial).1
     = [Later 0%nat; Later 0%nat]
  /\ (length (ImageFlight.inFlight SimFlight.imageKey SimFlight.whileForced)
      <= 1)%nat.
Proof.
  destruct (in_flight_work_is_shared SimFlight.existsSync SimFlight.isImageFile
              SimFlight.localUrl) as (Himage & Hcalm & Hvoice & _).
  destruct (Himage ImageFlight.initial SimFlight.imageKey
              (ImageFlight.reach_initial _ _ _)) as (_ & _ & Hstart & _).
  destruct (Hvoice TranscriptFlight.initial
              (TranscriptFlight.keyOf SimFlight.voiceRequest)
              TranscriptFlight.reach_initial) as (_ & _ & Hvstart & _).
  assert (Hall : Forall (ImageFlight.consultsMap SimFlight.existsSync
                           SimFlight.isImageFile SimFlight.imageKey
                           ImageFlight.initial)
                   [SimFlight.plain; SimFlight.forced; SimFlight.plain]).
  { repeat (apply List.Forall_cons;
            [split; [reflexivity|first [left; reflexivity|right; reflexivity]]|]).
    apply List.Forall_nil. }
  assert (Hvall : Forall (fun r => TranscriptFlight.asksFor
                                     (TranscriptFlight.keyOf SimFlight.voiceRequest)
                                     r.1)
                    [(SimFlight.voiceRequest, false); (SimFlight.voiceRequest, false)]).
  { repeat (apply List.Forall_cons; [split; [discriminate|reflexivity]|]).
    apply List.Forall_nil. }
  split; [|split; [|split]].
  - apply (Hstart _ Hall); [discriminate|reflexivity].
  - apply (Hstart _ Hall); [discriminate|reflexivity].
  - apply (Hvstart _ Hvall); [discriminate|reflexivity|reflexivity].
  - apply (Hcalm SimFlight.whileForced SimFlight.imageKey), whileForced_calm.
Defined.

End FlightFacts.

(** ** Strings and optional values *)

Module TextFacts.
Import ImagePathResolver.

Lemma chars_length (s : string) :
  length (String.list_ascii_of_string s) = String.length s.
Proof. induction s as [|c s IH]; simpl; [reflexivity|]. now rewrite IH. Qed.

Lemma given_Some (o : option string) (v : string) :
  given o = Some v <-> o = Some v /\ v <> "".
Proof.
  unfold given. destruct o as [w|]; [|split; [discriminate|intros [[=] _]]].
  destruct (String.eqb_spec w "") as [->|Hne].
  - split; [discriminate|]. intros [[= <-] H]. contradiction.
  - split; [intros [= <-]; auto|]. intros [[= <-] _]. reflexivity.
Qed.

End TextFacts.

Module ImageFormatFacts.
Import Buf BufFacts JsString ImageFormats.

Lemma byteIs_skipn (buffer : list byte) (i k : nat) (v : Z) :
  byteIs (skipn i buffer) k v = byteIs buffer (i + k) v.
Proof. unfold byteIs. now rewrite nth_error_skipn. Qed.

Lemma byteIs_inj (buffer : list byte) (i : nat) (v w : Z) :
  byteIs buffer i v = true -> byteIs buffer i w = true -> v = w.
Proof.
  unfold byteIs. destruct (nth_error buffer i); [|discriminate].
  intros H1 H2. lia.
Qed.

Lemma byteIs_other (buffer : list byte) (i : nat) (v w : Z) :
  byteIs buffer i v = true -> v <> w -> byteIs buffer i w = false.
Proof.
  intros H Hne. destruct (byteIs buffer i w) eqn:E; [|reflexivity].
  exfalso. apply Hne. eapply byteIs_inj; eauto.
Qed.

Lemma in_indices (from to : Z) (i : nat) :
  0 <= from -> In i (indices from to) <-> from <= Z.of_nat i < to.
Proof.
  intros Hf. unfold indices. rewrite in_seq. lia.
Qed.


Lemma find_seq_first {P : nat -> bool} (a n i : nat) :
  find P (seq a n) = Some i <->
  (a <= i < a + n)%nat /\ P i = true /\ forall j, (a <= j < i)%nat -> P j = false.
Proof.
  revert a. induction n as [|n IH]; intros a; simpl.
  - split; [discriminate|]. intros [H _]. lia.
  - destruct (P a) eqn:E.
    + split.
      * intros [= <-]. split; [lia|]. split; [assumption|]. intros j Hj. lia.
      * intros (Hr & Hi & Hleast). f_equal.
        destruct (Nat.eq_dec a i) as [->|Hne]; [reflexivity|].
        rewrite (Hleast a) in E by lia. discriminate.
    + rewrite IH. split.
      * intros (Hr & Hi & Hleast). split; [lia|]. split; [assumption|].
        intros j Hj. destruct (Nat.eq_dec j a) as [->|Hne]; [assumption|].
        apply Hleast. lia.
      * intros (Hr & Hi & Hleast).
        assert (a <> i) by (intros ->; congruence).
        split; [lia|]. split; [assumption|]. intros j Hj. apply Hleast. lia.
Qed.

Lemma find_seq_none {P : nat -> bool} (a n : nat) :
  find P (seq a n) = None <-> forall j, (a <= j < a + n)%nat -> P j = false.
Proof.
  split.
  - intros H j Hj. eapply find_none in H; [exact H|]. apply in_seq. lia.
  - intros H. destruct (find P (seq a n)) as [i|] eqn:E; [|reflexivity].
    apply find_seq_first in E as (Hr & Hi & _). rewrite H in Hi by lia.
    discriminate.
Qed.

Lemma detectImageExtension_cases (buffer : list byte) :
  detectImageExtension buffer = None
  \/ detectImageExtension buffer = Some ".gif"
  \/ detectImageExtension buffer = Some ".png"
  \/ detectImageExtension buffer = Some ".jpg"
  \/ detectImageExtension buffer = Some ".webp".
Proof.
  unfold detectImageExtension.
  repeat match goal with
         | |- context [if ?c then _ else _] => destruct c
         end; auto.
Qed.

Section WxgfFacts.

Variable convertHevcToJpg : list byte -> Outcome (option (list byte)).
Variable toBase64 : list byte -> string.

(** X1. The extension under which a decrypted image is written is one of
    [.gif], [.png], [.jpg], [.webp] and [.hevc]; it is [.hevc] exactly when
    the data is an unconverted wxgf stream in which no image type is
    recognised, and that is the only case in which no data URL can be built
    for the decrypted bytes. *)
Theorem finalExtension_data_url (wxgfResult : Unwrapped) :
  finalExtension wxgfResult ∈ [".gif"; ".png"; ".jpg"; ".webp"; ".hevc"]
  /\ (finalExtension wxgfResult = ".hevc" <->
      isWxgf wxgfResult = true
      /\ detectImageExtension (data wxgfResult) = None)
  /\ (bufferToDataUrl toBase64 (data wxgfResult) (finalExtension wxgfResult) = None
      <-> finalExtension wxgfResult = ".hevc").
Proof.
  unfold finalExtension, bufferToDataUrl.
  destruct (detectImageExtension_cases (data wxgfResult))
    as [E|[E|[E|[E|E]]]]; rewrite E; destruct (isWxgf wxgfResult); cbn;
    (split; [set_solver|]); split; split; try discriminate;
    try (intros [? ?]; discriminate); auto.
Qed.


Lemma len_skipn (buffer : list byte) (i : nat) :
  (i <= length buffer)%nat -> len (skipn i buffer) = len buffer - Z.of_nat i.
Proof. intros H. unfold len. rewrite length_skipn. lia. Qed.

Lemma jpegAt_detected (buffer : list byte) (i : nat) :
  12 <= len (skipn i buffer) -> jpegAt buffer i = true ->
  detectImageExtension (skipn i buffer) = Some ".jpg".
Proof.
  intros Hlen H. unfold jpegAt in H.
  apply andb_prop in H as [H H2]. apply andb_prop in H as [H0 H1].
  unfold detectImageExtension.
  destruct (len (skipn i buffer) <? 12) eqn:E; [lia|].
  rewrite !byteIs_skipn, Nat.add_0_r.
  rewrite (byteIs_other buffer i 0xff 0x47 H0) by lia.
  rewrite (byteIs_other buffer i 0xff 0x89 H0) by lia.
  now rewrite H0, H1, H2.
Qed.

Lemma pngAt_detected (buffer : list byte) (i : nat) :
  12 <= len (skipn i buffer) -> pngAt buffer i = true ->
  detectImageExtension (skipn i buffer) = Some ".png".
Proof.
  intros Hlen H. unfold pngAt in H.
  apply andb_prop in H as [H H3]. apply andb_prop in H as [H H2].
  apply andb_prop in H as [H0 H1].
  unfold detectImageExtension.
  destruct (len (skipn i buffer) <? 12) eqn:E; [lia|].
  rewrite !byteIs_skipn, Nat.add_0_r.
  rewrite (byteIs_other buffer i 0x89 0x47 H0) by lia.
  now rewrite H0, H1, H2, H3.
Qed.

(** X2. In a wxgf buffer, a JPEG or PNG signature that begins at an index
    from 4 on, below [min(length - 12, 4096)], is unwrapped at the first
    such index: the data returned is the buffer from that index on, it is
    not reported as wxgf, and the type detection recognises it as [.jpg] or
    [.png]. *)
Theorem unwrapWxgf_embedded_image (buffer : list byte) (i : nat) :
  looksWxgf buffer = true ->
  4 <= Z.of_nat i < Z.min (len buffer - 12) 4096 ->
  jpegAt buffer i || pngAt buffer i = true ->
  (forall j, (4 <= j < i)%nat -> jpegAt buffer j || pngAt buffer j = false) ->
  unwrapWxgf convertHevcToJpg buffer = Some (mkUnwrapped (skipn i buffer) false)
  /\ detectImageExtension (skipn i buffer)
     = Some (if jpegAt buffer i then ".jpg" else ".png").
Proof.
  intros Hw Hi Hsig Hleast.
  assert (Hlen : (i <= length buffer)%nat) by (unfold len in Hi; lia).
  assert (E : embeddedImageAt buffer = Some i).
  { unfold embeddedImageAt, indices. apply find_seq_first.
    split; [lia|]. split; [assumption|]. intros j Hj. apply Hleast.
    change (Z.to_nat 4) with 4%nat in Hj. lia. }
  split.
  - unfold unwrapWxgf. rewrite Hw, E. cbn.
    rewrite subarray_suffix by (unfold len in *; lia).
    now rewrite Nat2Z.id.
  - assert (12 <= len (skipn i buffer)) by (rewrite len_skipn; lia).
    destruct (jpegAt buffer i) eqn:Ej.
    + now apply jpegAt_detected.
    + apply pngAt_detected; assumption.
Qed.

Lemma nalEndFrom_range (buffer : list byte) (i : nat) :
  Z.of_nat i < len buffer - 4 ->
  (i + 4 <= nalEndFrom buffer i <= length buffer)%nat.
Proof.
  intros Hi. unfold nalEndFrom, indices.
  destruct (find _ _) as [j|] eqn:E.
  - apply find_seq_first in E as (Hr & _). unfold len in *. lia.
  - unfold len in *. lia.
Qed.

Lemma subarray_slice (buffer : list byte) (a b : nat) :
  (a <= b <= length buffer)%nat ->
  subarray buffer (Z.of_nat a) (Z.of_nat b) = firstn (b - a) (skipn a buffer).
Proof.
  intros H. unfold subarray, relIndex, len.
  destruct (Z.of_nat a <? 0) eqn:Ea; [lia|].
  destruct (Z.of_nat b <? 0) eqn:Eb; [lia|].
  rewrite !Z.min_l by lia. rewrite Nat2Z.id. f_equal. lia.
Qed.

Lemma byteIs_firstn (l : list byte) (n k : nat) (v : Z) :
  (k < n)%nat -> byteIs (firstn n l) k v = byteIs l k v.
Proof. intros H. unfold byteIs. now rewrite nth_error_firstn, (proj2 (Nat.ltb_lt k n) H). Qed.

Lemma byteIs_app_l (u r : list byte) (k : nat) (v : Z) :
  byteIs u k v = true -> byteIs (u ++ r) k v = true.
Proof.
  unfold byteIs. destruct (nth_error u k) as [b|] eqn:E; [|discriminate].
  intros H. rewrite nth_error_app1 by (apply nth_error_Some; congruence).
  now rewrite E.
Qed.

Lemma startCode4_app_l (u r : list byte) :
  startCode4 u 0 = true -> startCode4 (u ++ r) 0 = true.
Proof.
  unfold startCode4. intros H.
  apply andb_prop in H as [H H3]. apply andb_prop in H as [H H2].
  apply andb_prop in H as [H0 H1].
  now rewrite !byteIs_app_l.
Qed.

Lemma startCode4_slice (buffer : list byte) (i n : nat) :
  (4 <= n)%nat -> startCode4 buffer i = true ->
  startCode4 (firstn n (skipn i buffer)) 0 = true.
Proof.
  intros Hn H. unfold startCode4 in *.
  rewrite !byteIs_firstn, !byteIs_skipn by (simpl; lia).
  now rewrite Nat.add_0_r.
Qed.

Lemma nalLoop_spec (fuel : nat) (buffer : list byte) :
  forall (i : nat) (units : list (list byte)),
  (length buffer - i <= fuel)%nat ->
  Forall (fun u => startCode4 u 0 = true) units ->
  concat units ++ skipn i buffer `sublist_of` buffer ->
  exists units',
    nalLoop fuel buffer i units = Some units'
    /\ Forall (fun u => startCode4 u 0 = true) units'
    /\ concat units' `sublist_of` buffer
    /\ (units' = [] <->
        units = []
        /\ forall j, Z.of_nat i <= Z.of_nat j < len buffer - 4 ->
                     startCode4 buffer j = false).
Proof.
  induction fuel as [|fuel IH]; intros i units Hfuel Hunits Hsub.
  - exists units. simpl.
    destruct (Z.of_nat i <? len buffer - 4) eqn:E; [unfold len in *; lia|].
    simpl. split; [reflexivity|]. split; [assumption|]. split.
    + etrans; [|exact Hsub]. apply sublist_inserts_r. reflexivity.
    + split; [|tauto]. intros ->. split; [reflexivity|]. intros j Hj. lia.
  - simpl. destruct (Z.of_nat i <? len buffer - 4) eqn:E; simpl.
    2:{ exists units. split; [reflexivity|]. split; [assumption|]. split.
        + etrans; [|exact Hsub]. apply sublist_inserts_r. reflexivity.
        + split; [|tauto]. intros ->. split; [reflexivity|]. intros j Hj. lia. }
    destruct (startCode4 buffer i) eqn:Es.
    + pose proof (nalEndFrom_range buffer i ltac:(lia)) as Hend.
      set (nalEnd := nalEndFrom buffer i) in *.
      rewrite subarray_slice by lia.
      set (unit := firstn (nalEnd - i) (skipn i buffer)).
      assert (Hlen : len unit = Z.of_nat (nalEnd - i)).
      { unfold len, unit. rewrite length_firstn, length_skipn. lia. }
      destruct (len unit >? 3) eqn:E3; [|lia].
      destruct (IH nalEnd (units ++ [unit])) as (units' & Hrun & Hall & Hs & Hiff).
      * lia.
      * apply Forall_app. split; [assumption|].
        apply List.Forall_cons; [|apply List.Forall_nil].
        apply startCode4_slice; [lia|assumption].
      * rewrite concat_app. simpl. rewrite app_nil_r, <- app_assoc.
        replace (unit ++ skipn nalEnd buffer) with (skipn i buffer); [assumption|].
        unfold unit. replace nalEnd with ((nalEnd - i) + i)%nat at 2 by lia.
        rewrite <- skipn_skipn. now rewrite firstn_skipn.
      * exists units'. split; [assumption|]. split; [assumption|].
        split; [assumption|]. split.
        -- intros H. apply Hiff in H as [H _]. now destruct units.
        -- intros [_ H]. rewrite H in Es by lia. discriminate.
    + destruct (IH (S i) units) as (units' & Hrun & Hall & Hs & Hiff).
      * lia.
      * assumption.
      * etrans; [|exact Hsub]. apply sublist_app; [reflexivity|].
        change (S i) with (1 + i)%nat. rewrite <- skipn_skipn.
        apply sublist_drop.
      * exists units'. split; [assumption|]. split; [assumption|].
        split; [assumption|]. rewrite Hiff. split.
        -- intros [-> H]. split; [reflexivity|]. intros j Hj.
           destruct (Nat.eq_dec j i) as [->|Hne]; [assumption|]. apply H. lia.
        -- intros [-> H]. split; [reflexivity|]. intros j Hj. apply H. lia.
Qed.

(** X3. [extractHevcNalu] always answers. It answers [null] exactly when
    no four-byte start code 00 00 00 01 begins at an index from 4 on, below
    [length - 4] (so the second scan, made when no unit was collected,
    never finds one). A stream it returns begins with a start code and is
    made of bytes of the buffer in their order. *)
Theorem extractHevcNalu_start_codes (buffer : list byte) :
  exists r,
    extractHevcNalu buffer = Some r
    /\ (r = None <->
        forall j, 4 <= Z.of_nat j < len buffer - 4 -> startCode4 buffer j = false)
    /\ (forall d, r = Some d -> startCode4 d 0 = true /\ d `sublist_of` buffer).
Proof.
  destruct (nalLoop_spec (length buffer) buffer 4 [])
    as (units & Hrun & Hall & Hs & Hiff).
  - lia.
  - apply List.Forall_nil.
  - simpl. apply sublist_drop.
  - unfold extractHevcNalu. rewrite Hrun.
    destruct units as [|u units]; simpl.
    + destruct Hiff as [Hiff _]. destruct (Hiff eq_refl) as [_ Hnone].
      assert (Ef : find (startCode4 buffer) (indices 4 (len buffer - 4)) = None).
      { unfold indices. apply find_seq_none. intros j Hj. apply Hnone.
        change (Z.to_nat 4) with 4%nat in Hj. unfold len in *. lia. }
      rewrite Ef. exists None. split; [reflexivity|]. split.
      * split; [intros _; exact Hnone|reflexivity].
      * intros d [=].
    + exists (Some (u ++ concat units)). split; [reflexivity|]. split.
      * split; [discriminate|]. intros H.
        destruct Hiff as [_ Hiff]. discriminate Hiff. split; [reflexivity|].
        intros j Hj. apply H. lia.
      * intros d [= <-]. split; [|exact Hs].
        apply startCode4_app_l. now inversion Hall.
Qed.

End WxgfFacts.

(** A wxgf buffer that holds a JPEG from index 4 on. *)
Lemma unwrapWxgf_embedded_image_witness :
  unwrapWxgf (fun _ => Returned None) SampleImages.wxgfWithJpeg
  = Some (mkUnwrapped (skipn 4 SampleImages.wxgfWithJpeg) false)
  /\ detectImageExtension (skipn 4 SampleImages.wxgfWithJpeg) = Some ".jpg".
Proof.
  apply (unwrapWxgf_embedded_image (fun _ => Returned None)
           SampleImages.wxgfWithJpeg 4).
  - reflexivity.
  - vm_compute. split; [discriminate|reflexivity].
  - reflexivity.
  - intros j Hj. lia.
Defined.

End ImageFormatFacts.

Module XorKeyFacts.
Import Buf BufFacts JsString XorKeyDetection.


Lemma byte_lxor (a b : Z) :
  0 <= a < 256 -> 0 <= b < 256 -> Z.lxor a b = (Z.lxor a b) mod 256.
Proof.
  intros Ha Hb.
  rewrite <- (Z.mod_small a 256) at 1 by lia.
  rewrite <- (Z.mod_small b 256) at 1 by lia.
  rewrite !mod256_land. apply Z.bits_inj'. intros n Hn.
  rewrite !Z.land_spec, !Z.lxor_spec, !Z.land_spec.
  now destruct (Z.testbit a n), (Z.testbit b n), (Z.testbit (Z.ones 8) n).
Qed.

Lemma byte_lxor_range (a b : Z) :
  0 <= a < 256 -> 0 <= b < 256 -> 0 <= Z.lxor a b < 256.
Proof.
  intros Ha Hb. rewrite byte_lxor by assumption. apply Z.mod_pos_bound. lia.
Qed.

Lemma js_xor_bytes (a b : Z) :
  0 <= a < 256 -> 0 <= b < 256 -> js_xor a b = Z.lxor a b.
Proof. intros Ha Hb. unfold js_xor. now rewrite !toInt32_small by lia. Qed.

Lemma get_range (buf : list byte) (i : nat) : 0 <= get buf i < 256.
Proof. apply u8_range. Qed.

Lemma candidateKey_range (header signature : list byte) :
  0 <= candidateKey header signature < 256.
Proof.
  unfold candidateKey. rewrite js_xor_bytes by apply get_range.
  apply byte_lxor_range; apply get_range.
Qed.

Lemma signatureFits_iff (header signature : list byte) (xorKey : Z) :
  signatureFits header signature xorKey = true <->
  forall i, (i < Nat.min (length signature) (length header))%nat ->
            js_xor (get header i) xorKey = get signature i.
Proof.
  unfold signatureFits. rewrite forallb_forall. split.
  - intros H i Hi. apply Z.eqb_eq, H, in_seq. lia.
  - intros H i Hi. apply Z.eqb_eq, H. apply in_seq in Hi. lia.
Qed.

Lemma get_nth (buf : list byte) (i : nat) :
  (i < length buf)%nat -> nth_error buf i = Some (to_u8 (get buf i)).
Proof.
  intros H. unfold get. rewrite to_u8_u8.
  now apply nth_error_nth'.
Qed.

Lemma get_xorBytes (data : list byte) (key : Z) (i : nat) :
  (i < length data)%nat ->
  get (ImageDecryptService.xorBytes data key) i = (js_xor (get data i) key) mod 256.
Proof.
  intros H. unfold get, ImageDecryptService.xorBytes.
  rewrite (nth_indep _ Byte.x00 (to_u8 (js_xor (u8 Byte.x00) key)))
    by (rewrite length_map; lia).
  rewrite (map_nth (fun d => to_u8 (js_xor (u8 d) key))).
  now rewrite u8_to_u8.
Qed.

(** X4. A key that [detectXorKeyFromV3] finds in a header of at least four
    bytes is a byte, and the header decrypted with it, as [decryptDatV3]
    decrypts, begins with one of the known image signatures. *)
Theorem detectXorKeyFromV3_sound (header : list byte) (key : Z) :
  (4 <= length header)%nat ->
  detectXorKeyFromV3 header = Some key ->
  0 <= key < 256
  /\ exists name signature,
       In (name, signature) IMAGE_SIGNATURES
       /\ firstn (length signature) (ImageDecryptService.xorBytes header key)
          = signature.
Proof.
  intros Hlen H. unfold detectXorKeyFromV3 in H.
  destruct (find _ _) as [[name signature]|] eqn:E; [|discriminate].
  injection H as <-. apply find_some in E as [Hin Hfit]. simpl in *.
  split; [apply candidateKey_range|].
  exists name, signature. split; [assumption|].
  assert (Hsig : (length signature <= 4)%nat).
  { unfold IMAGE_SIGNATURES in Hin. simpl in Hin.
    repeat (destruct Hin as [[= <- <-]|Hin]; [simpl; lia|]). destruct Hin. }
  rewrite signatureFits_iff in Hfit.
  apply nth_error_ext. intros i.
  destruct (Nat.lt_ge_cases i (length signature)) as [Hi|Hi].
  - rewrite nth_error_firstn, (proj2 (Nat.ltb_lt _ _) Hi).
    rewrite (get_nth signature i Hi).
    rewrite get_nth by (rewrite ImageDecryptFacts.xorBytes_length; lia).
    rewrite get_xorBytes by lia. rewrite Hfit by lia.
    now rewrite ImageDecryptFacts.to_u8_mod.
  - rewrite nth_error_firstn, (proj2 (Nat.ltb_ge _ _) Hi).
    symmetry. now apply nth_error_None.
Qed.

(** The key 0x37 is found in a JPEG header encrypted with it. *)
Lemma detectXorKeyFromV3_sound_witness :
  0 <= 0x37 < 256
  /\ exists name signature,
       In (name, signature) IMAGE_SIGNATURES
       /\ firstn (length signature)
            (ImageDecryptService.xorBytes SampleImages.xoredJpegHeader 0x37)
          = signature.
Proof.
  apply (detectXorKeyFromV3_sound SampleImages.xoredJpegHeader 0x37).
  - simpl. lia.
  - reflexivity.
Defined.


Lemma lxor_cancel_key (a b k : Z) : Z.lxor (Z.lxor a k) (Z.lxor b k) = Z.lxor a b.
Proof.
  apply Z.bits_inj'. intros n Hn. rewrite !Z.lxor_spec.
  now destruct (Z.testbit a n), (Z.testbit b n), (Z.testbit k n).
Qed.

Lemma get_xorBytes_byte (plain : list byte) (key : Z) (i : nat) :
  0 <= key < 256 -> (i < length plain)%nat ->
  get (ImageDecryptService.xorBytes plain key) i = Z.lxor (get plain i) key.
Proof.
  intros Hk Hi. rewrite get_xorBytes by assumption.
  rewrite js_xor_bytes by (try apply get_range; assumption).
  symmetry. apply byte_lxor; [apply get_range|assumption].
Qed.

Lemma candidateKey_xorBytes (plain signature : list byte) (key : Z) :
  0 <= key < 256 -> (0 < length plain)%nat ->
  candidateKey (ImageDecryptService.xorBytes plain key) signature
  = Z.lxor (Z.lxor (get plain 0) key) (get signature 0).
Proof.
  intros Hk Hlen. unfold candidateKey. rewrite get_xorBytes_byte by assumption.
  apply js_xor_bytes; [|apply get_range].
  apply byte_lxor_range; [apply get_range|assumption].
Qed.

(** A signature that fits an encrypted header has the difference of the
    first two bytes of the plain data. *)
Lemma fits_difference (plain signature : list byte) (key : Z) :
  0 <= key < 256 -> (2 <= length plain)%nat -> (2 <= length signature)%nat ->
  signatureFits (ImageDecryptService.xorBytes plain key) signature
    (candidateKey (ImageDecryptService.xorBytes plain key) signature) = true ->
  Z.lxor (Z.lxor (get plain 1) (get plain 0)) (get signature 0) = get signature 1.
Proof.
  intros Hk Hp Hs H. rewrite signatureFits_iff in H.
  specialize (H 1%nat). rewrite ImageDecryptFacts.xorBytes_length in H.
  specialize (H ltac:(lia)).
  rewrite candidateKey_xorBytes, get_xorBytes_byte in H by (assumption || lia).
  rewrite js_xor_bytes in H.
  - rewrite <- H. rewrite <- (lxor_cancel_key (get plain 1) (get plain 0) key).
    now rewrite Z.lxor_assoc.
  - apply byte_lxor_range; [apply get_range|assumption].
  - apply byte_lxor_range; [|apply get_range].
    apply byte_lxor_range; [apply get_range|assumption].
Qed.

Lemma fits_self (signature rest : list byte) (key : Z) :
  0 <= key < 256 -> (0 < length signature)%nat ->
  candidateKey (ImageDecryptService.xorBytes (signature ++ rest) key) signature = key
  /\ signatureFits (ImageDecryptService.xorBytes (signature ++ rest) key) signature key
     = true.
Proof.
  intros Hk Hs.
  assert (Hget : forall i, (i < length signature)%nat ->
                           get (signature ++ rest) i = get signature i).
  { intros i Hi. unfold get. now rewrite app_nth1. }
  split.
  - rewrite candidateKey_xorBytes by (rewrite ?length_app; (assumption || lia)).
    rewrite Hget by assumption.
    rewrite (Z.lxor_comm (get signature 0) key), Z.lxor_assoc.
    now rewrite Z.lxor_nilpotent, Z.lxor_0_r.
  - apply signatureFits_iff. intros i Hi.
    rewrite get_xorBytes_byte by (rewrite ?length_app; (assumption || lia)).
    rewrite Hget by lia.
    rewrite js_xor_bytes
      by first [assumption|apply byte_lxor_range; [apply get_range|assumption]].
    now rewrite Z.lxor_assoc, Z.lxor_nilpotent, Z.lxor_0_r.
Qed.

(** X5. Data that begins with one of the known image signatures and is
    encrypted with a one-byte XOR key, as [decryptDatV3] undoes it, gives
    that key back in [detectXorKeyFromV3], whatever follows the
    signature. *)
Theorem detectXorKeyFromV3_complete (name : string) (signature rest : list byte)
  (key : Z) :
  In (name, signature) IMAGE_SIGNATURES ->
  0 <= key < 256 ->
  detectXorKeyFromV3 (ImageDecryptService.xorBytes (signature ++ rest) key)
  = Some key.
Proof.
  intros Hin Hk.
  assert (Hs : (2 <= length signature)%nat).
  { unfold IMAGE_SIGNATURES in Hin. simpl in Hin.
    repeat (destruct Hin as [[= <- <-]|Hin]; [simpl; lia|]). destruct Hin. }
  destruct (fits_self signature rest key Hk ltac:(lia)) as [Hkey Hfit].
  set (header := ImageDecryptService.xorBytes (signature ++ rest) key) in *.
  assert (Hother : forall signature',
    (2 <= length signature')%nat ->
    Z.lxor (Z.lxor (get signature 1) (get signature 0)) (get signature' 0)
      <> get signature' 1 ->
    signatureFits header signature' (candidateKey header signature') = false).
  { intros s' Hs' Hne. apply not_true_is_false. intros Hf.
    apply fits_difference in Hf; [|assumption|rewrite length_app; lia|assumption].
    apply Hne. rewrite <- Hf. unfold get.
    now rewrite !app_nth1 by lia. }
  unfold detectXorKeyFromV3, IMAGE_SIGNATURES in *.
  cbn [find snd].
  destruct Hin as [H|[H|[H|[H|[H|[]]]]]];
    apply (f_equal snd) in H; cbn [snd] in H; subst signature;
    repeat first
      [rewrite Hkey, Hfit; cbn [snd]; rewrite Hkey; reflexivity
      |rewrite Hother by (simpl; first [lia|vm_compute; discriminate])].
Qed.

(** A PNG signature followed by three bytes, encrypted with the key 0x5A. *)
Lemma detectXorKeyFromV3_complete_witness :
  detectXorKeyFromV3
    (ImageDecryptService.xorBytes
       (from [0x89; 0x50; 0x4E; 0x47] ++ from [1; 2; 3]) 0x5A)
  = Some 0x5A.
Proof.
  apply (detectXorKeyFromV3_complete "png" (from [0x89; 0x50; 0x4E; 0x47])
           (from [1; 2; 3]) 0x5A).
  - right. left. reflexivity.
  - lia.
Defined.


(** *** The scan of a directory *)


Lemma scanEntry_dir (maxFiles : Z) (name : string) (entries : list Dirent)
  (st : ScanState) :
  scanEntry maxFiles (DirentDir name (Some entries)) st
  = if filesChecked st >=? maxFiles then st else scanEntries maxFiles entries st.
Proof.
  simpl. destruct (filesChecked st >=? maxFiles); [reflexivity|].
  revert st. induction entries as [|e es IH]; intros st; simpl; [reflexivity|].
  destruct (filesChecked st >=? maxFiles); [reflexivity|]. apply IH.
Qed.

Lemma countAll_filesChecked (keys : list Z) (st : ScanState) :
  filesChecked (fold_left countKey keys st)
  = filesChecked st + Z.of_nat (length keys).
Proof.
  revert st. induction keys as [|k keys IH]; intros st; simpl; [lia|].
  rewrite IH. simpl. lia.
Qed.

Lemma keyOfFile_short (name : string) (content : option (list byte)) :
  (length (keyOfFile name content) <= 1)%nat.
Proof.
  unfold keyOfFile.
  repeat match goal with
         | |- context [if ?c then _ else _] => destruct c
         | |- context [match ?c with _ => _ end] => destruct c
         end; simpl; lia.
Qed.

Lemma scanFile_keys (name : string) (content : option (list byte))
  (st : ScanState) :
  forall maxFiles,
  scanEntry maxFiles (DirentFile name content) st
  = fold_left countKey (keyOfFile name content) st.
Proof.
  intros maxFiles. simpl. unfold keyOfFile, checkFile.
  repeat match goal with
         | |- context [if ?c then _ else _] => destruct c
         | |- context [match ?c with _ => _ end] => destruct c
         end; reflexivity.
Qed.

Lemma scanEntries_keys (maxFiles : Z) (entries : list Dirent) :
  Forall (fun e => forall st, filesChecked st < maxFiles ->
            scanEntry maxFiles e st
            = fold_left countKey (firstn (budget maxFiles st) (detectedKeys e)) st)
         entries ->
  forall st,
    scanEntries maxFiles entries st
    = fold_left countKey
        (firstn (budget maxFiles st) (concat (map detectedKeys entries))) st.
Proof.
  induction 1 as [|e es He _ IH]; intros st; simpl.
  - now rewrite firstn_nil.
  - destruct (filesChecked st >=? maxFiles) eqn:E.
    + unfold budget. replace (Z.to_nat (maxFiles - filesChecked st)) with 0%nat by lia.
      reflexivity.
    + rewrite He by lia. rewrite IH. rewrite firstn_app, fold_left_app.
      f_equal. f_equal. unfold budget. rewrite countAll_filesChecked.
      rewrite length_firstn. lia.
Qed.

Lemma scanEntry_keys (maxFiles : Z) (entry : Dirent) :
  forall st, filesChecked st < maxFiles ->
    scanEntry maxFiles entry st
    = fold_left countKey (firstn (budget maxFiles st) (detectedKeys entry)) st.
Proof.
  induction entry as [name content|name|name entries IH] using Dirent_induction;
    intros st Hst.
  - rewrite scanFile_keys. simpl detectedKeys.
    rewrite firstn_all2; [reflexivity|].
    pose proof (keyOfFile_short name content). unfold budget. lia.
  - simpl. rewrite firstn_nil. now destruct (filesChecked st >=? maxFiles).
  - rewrite scanEntry_dir. destruct (filesChecked st >=? maxFiles) eqn:E; [lia|].
    now apply scanEntries_keys.
Qed.

Lemma scanDir_keys (maxFiles : Z) (root : option (list Dirent)) :
  scanDir maxFiles root (mkScanState [] 0)
  = fold_left countKey (firstn (Z.to_nat maxFiles) (detectedKeysIn root))
      (mkScanState [] 0).
Proof.
  unfold scanDir. simpl filesChecked.
  destruct (0 >=? maxFiles) eqn:E.
  - replace (Z.to_nat maxFiles) with 0%nat by lia. reflexivity.
  - destruct root as [entries|]; simpl; [|now rewrite firstn_nil].
    rewrite scanEntries_keys.
    + unfold budget. simpl. now rewrite Z.sub_0_r.
    + apply Forall_forall. intros e _. apply scanEntry_keys.
Qed.


(** *** The count of the keys *)

Lemma occurrences_snoc (k key : Z) (keys : list Z) :
  occurrences k (keys ++ [key])
  = occurrences k keys + (if decide (key = k) then 1 else 0).
Proof.
  unfold occurrences. rewrite filter_app, length_app.
  rewrite filter_cons, filter_nil. destruct (decide (key = k)); simpl; lia.
Qed.

Lemma occurrences_nonneg (k : Z) (keys : list Z) : 0 <= occurrences k keys.
Proof. unfold occurrences. lia. Qed.

Lemma occurrences_pos (k : Z) (keys : list Z) :
  0 < occurrences k keys <-> k ∈ keys.
Proof.
  unfold occurrences. split.
  - intros H. destruct (filter _ keys) as [|x l] eqn:E; [simpl in H; lia|].
    assert (Hx : x ∈ filter (fun k' => k' = k) keys) by (rewrite E; left).
    apply list_elem_of_filter in Hx as [-> Hx]. exact Hx.
  - intros H.
    assert (Hx : k ∈ filter (fun k' => k' = k) keys)
      by (apply list_elem_of_filter; auto).
    destruct (filter _ keys); [inversion Hx|simpl; lia].
Qed.

Lemma firstSeen_snoc (keys : list Z) (key : Z) :
  firstSeen (keys ++ [key])
  = if bool_decide (key ∈ firstSeen keys) then firstSeen keys
    else firstSeen keys ++ [key].
Proof. unfold firstSeen. now rewrite fold_left_app. Qed.

Lemma firstSeen_elem (keys : list Z) (k : Z) : k ∈ firstSeen keys <-> k ∈ keys.
Proof.
  induction keys as [|key keys IH] using rev_ind.
  - reflexivity.
  - rewrite firstSeen_snoc, elem_of_app, list_elem_of_singleton.
    case_bool_decide as E.
    + rewrite IH. split; [auto|]. intros [H| ->]; [assumption|]. now apply IH.
    + now rewrite elem_of_app, list_elem_of_singleton, IH.
Qed.

Lemma firstSeen_NoDup (keys : list Z) : NoDup (firstSeen keys).
Proof.
  induction keys as [|key keys IH] using rev_ind.
  - constructor.
  - rewrite firstSeen_snoc. case_bool_decide as E; [assumption|].
    apply NoDup_app. split; [assumption|]. split.
    + intros x Hx Hx'. apply list_elem_of_singleton in Hx' as ->. contradiction.
    + apply NoDup_singleton.
Qed.

(** The first occurrence of a key: the keys before it were seen before. *)
Lemma firstSeen_split (keys : list Z) :
  forall f1 key f2, firstSeen keys = f1 ++ key :: f2 ->
  exists pre post,
    keys = pre ++ key :: post /\ (key ∉ pre) /\ forall k, k ∈ pre -> k ∈ f1.
Proof.
  induction keys as [|k keys IH] using rev_ind; intros f1 key f2 H.
  - now destruct f1.
  - rewrite firstSeen_snoc in H. case_bool_decide as E.
    + destruct (IH _ _ _ H) as (pre & post & -> & Hpre & Hin).
      exists pre, (post ++ [k]). split; [now rewrite <- app_assoc|]. auto.
    + destruct f2 as [|x f2 _] using rev_ind.
      * apply app_inj_tail in H as [<- <-].
        exists keys, []. split; [reflexivity|]. split.
        -- now rewrite <- firstSeen_elem.
        -- intros k' Hk'. now apply firstSeen_elem.
      * rewrite app_comm_cons, app_assoc in H. apply app_inj_tail in H as [H <-].
        destruct (IH _ _ _ H) as (pre & post & -> & Hpre & Hin).
        exists pre, (post ++ [k]). split; [now rewrite <- app_assoc|]. auto.
Qed.

Lemma countGet_map (count : Z -> Z) (seen : list Z) (k : Z) :
  countGet (map (fun k' => (k', count k')) seen) k
  = if bool_decide (k ∈ seen) then Some (count k) else None.
Proof.
  induction seen as [|x seen IH]; simpl; [reflexivity|].
  destruct (x =? k) eqn:E.
  - apply Z.eqb_eq in E as ->. rewrite bool_decide_true by left. reflexivity.
  - apply Z.eqb_neq in E. rewrite IH.
    case_bool_decide as E1; case_bool_decide as E2; try reflexivity.
    + exfalso. apply E2. now right.
    + exfalso. apply elem_of_cons in E2 as [->|E2]; [now apply E|contradiction].
Qed.

Lemma countSet_map (count count' : Z -> Z) (seen : list Z) (k : Z) :
  NoDup seen ->
  (forall k', k' <> k -> count' k' = count k') ->
  countSet (map (fun k' => (k', count k')) seen) k (count' k)
  = map (fun k' => (k', count' k'))
        (if bool_decide (k ∈ seen) then seen else seen ++ [k]).
Proof.
  intros Hnd Hc. induction seen as [|x seen IH]; simpl; [reflexivity|].
  apply NoDup_cons in Hnd as [Hx Hnd].
  destruct (x =? k) eqn:E.
  - apply Z.eqb_eq in E as ->. rewrite bool_decide_true by left.
    simpl. f_equal. apply map_ext_in. intros k' Hk'.
    rewrite Hc; [reflexivity|]. intros ->. apply Hx. now apply list_elem_of_In.
  - apply Z.eqb_neq in E. rewrite (IH Hnd).
    rewrite (bool_decide_ext (k ∈ x :: seen) (k ∈ seen)).
    + case_bool_decide; simpl; now rewrite Hc by auto.
    + rewrite elem_of_cons. split; [intros [->|H]; [contradiction|assumption]|auto].
Qed.

(** The counts kept by the scan: every key seen so far, in the order of
    the first occurrences, with the number of its occurrences. *)
Lemma countAll_keyCount (keys : list Z) :
  keyCount (fold_left countKey keys (mkScanState [] 0))
  = map (fun k => (k, occurrences k keys)) (firstSeen keys).
Proof.
  induction keys as [|key keys IH] using rev_ind; [reflexivity|].
  rewrite fold_left_app. simpl. rewrite IH.
  rewrite (countGet_map (fun k => occurrences k keys)).
  assert (Hget : default 0 (if bool_decide (key ∈ firstSeen keys)
                            then Some (occurrences key keys) else None)
                 = occurrences key keys).
  { case_bool_decide as E; [reflexivity|]. simpl.
    rewrite firstSeen_elem, <- occurrences_pos in E.
    pose proof (occurrences_nonneg key keys). lia. }
  rewrite Hget.
  assert (Hor : orNumber (occurrences key keys) 0 = occurrences key keys).
  { unfold orNumber. destruct (occurrences key keys =? 0) eqn:E; lia. }
  rewrite Hor, firstSeen_snoc.
  replace (occurrences key keys + 1) with (occurrences key (keys ++ [key]))
    by (rewrite occurrences_snoc, decide_True by reflexivity; reflexivity).
  apply (countSet_map (fun k => occurrences k keys)
           (fun k => occurrences k (keys ++ [key])));
    [apply firstSeen_NoDup|].
  intros k' Hk'. rewrite occurrences_snoc, decide_False by auto. lia.
Qed.

Lemma pickMostCommon_spec (m : KeyCount) :
  forall maxCount mostCommonKey,
    (pickMostCommon m maxCount mostCommonKey = mostCommonKey
     /\ Forall (fun e => e.2 <= maxCount) m)
    \/ exists m1 key count m2,
         m = m1 ++ (key, count) :: m2
         /\ pickMostCommon m maxCount mostCommonKey = Some key
         /\ maxCount < count
         /\ Forall (fun e => e.2 < count) m1
         /\ Forall (fun e => e.2 <= count) m2.
Proof.
  induction m as [|[key count] m IH]; intros maxCount mostCommonKey; simpl.
  - left. split; [reflexivity|apply List.Forall_nil].
  - destruct (count >? maxCount) eqn:E.
    + right. destruct (IH count (Some key))
        as [[Hr Hall]|(m1 & k & c & m2 & -> & Hr & Hc & H1 & H2)].
      * exists [], key, count, m. simpl.
        split; [reflexivity|]. split; [assumption|]. split; [lia|].
        split; [apply List.Forall_nil|assumption].
      * exists ((key, count) :: m1), k, c, m2. simpl.
        split; [reflexivity|]. split; [assumption|]. split; [lia|].
        split; [|assumption].
        apply List.Forall_cons; [simpl; lia|assumption].
    + destruct (IH maxCount mostCommonKey)
        as [[Hr Hall]|(m1 & k & c & m2 & -> & Hr & Hc & H1 & H2)].
      * left. split; [assumption|].
        apply List.Forall_cons; [simpl; lia|assumption].
      * right. exists ((key, count) :: m1), k, c, m2. simpl.
        split; [reflexivity|]. split; [assumption|]. split; [lia|].
        split; [|assumption].
        apply List.Forall_cons; [simpl; lia|assumption].
Qed.

(** X6. [batchDetectXorKey] counts the keys detected in the first
    [maxFiles] files in which a key is detected, in the order of a
    depth-first scan of the directory. It answers [null] exactly when there
    is no such file; otherwise it answers a key that occurs most often among
    them, and every key that was seen before the first occurrence of the
    answer occurs strictly less often. *)
Theorem batchDetectXorKey_most_common (root : option (list Dirent))
  (maxFiles : Z) :
  let counted := firstn (Z.to_nat maxFiles) (detectedKeysIn root) in
  match batchDetectXorKey root maxFiles with
  | None => counted = []
  | Some key =>
      (forall k, occurrences k counted <= occurrences key counted)
      /\ exists pre post,
           counted = pre ++ key :: post /\ (key ∉ pre)
           /\ forall k, k ∈ pre -> occurrences k counted < occurrences key counted
  end.
Proof.
  intros counted. unfold batchDetectXorKey.
  rewrite scanDir_keys, countAll_keyCount. fold counted.
  rewrite length_map.
  destruct (firstSeen counted) as [|k0 seen] eqn:Eseen.
  - simpl. destruct counted as [|k l]; [reflexivity|].
    assert (H : k ∈ firstSeen (k :: l)) by (apply firstSeen_elem; left).
    rewrite Eseen in H. inversion H.
  - rewrite <- Eseen.
    replace (length (firstSeen counted) =? 0)%nat with false
      by (rewrite Eseen; reflexivity).
    set (m := map (fun k => (k, occurrences k counted)) (firstSeen counted)).
    destruct (pickMostCommon_spec m 0 None)
      as [[_ Hall]|(m1 & key & count & m2 & Hm & -> & Hc & H1 & H2)].
    + exfalso. rewrite Forall_forall in Hall.
      specialize (Hall (k0, occurrences k0 counted)). simpl in Hall.
      assert (k0 ∈ counted) by (apply firstSeen_elem; rewrite Eseen; left).
      apply occurrences_pos in H. apply (proj1 (Z.lt_nge _ _) H), Hall.
      unfold m. rewrite Eseen. left.
    + unfold m in Hm. apply map_eq_app in Hm as (f1 & f2' & Hf & Hm1 & Hm2).
      destruct f2' as [|key' f2]; [discriminate|].
      simpl in Hm2. injection Hm2 as -> <- Hm2. subst m1 m2.
      rewrite List.Forall_map in H1, H2.
      rewrite Forall_forall in H1, H2. simpl in H1, H2.
      split.
      * intros k. destruct (decide (k ∈ counted)) as [Hk|Hk].
        -- apply firstSeen_elem in Hk. rewrite Hf in Hk.
           apply elem_of_app in Hk as [Hk|Hk]; [specialize (H1 k Hk); lia|].
           apply elem_of_cons in Hk as [->|Hk]; [lia|]. now apply H2.
        -- rewrite <- occurrences_pos in Hk.
           pose proof (occurrences_nonneg k counted). lia.
      * destruct (firstSeen_split counted _ _ _ Hf)
          as (pre & post & Hsplit & Hpre & Hin).
        exists pre, post. split; [assumption|]. split; [assumption|].
        intros k Hk. apply H1, Hin, Hk.
Qed.

End XorKeyFacts.

Module VoiceWavFacts.
Import Buf BufFacts VoiceWav.

Lemma unsignedLE_4 (v : Z) :
  0 <= v < 2 ^ 32 -> unsignedLE (littleEndian 4 v) = v.
Proof.
  intros H. unfold littleEndian. simpl. rewrite !u8_to_u8.
  rewrite !Z.shiftr_div_pow2 by lia.
  change (2 ^ 0) with 1. change (2 ^ 8) with 256.
  change (2 ^ 16) with 65536. change (2 ^ 24) with 16777216.
  change (2 ^ 32) with 4294967296 in H.
  rewrite Z.div_1_r. Z.to_euclidean_division_equations. lia.
Qed.

Lemma unsignedLE_2 (v : Z) :
  0 <= v < 2 ^ 16 -> unsignedLE (littleEndian 2 v) = v.
Proof.
  intros H. unfold littleEndian. simpl. rewrite !u8_to_u8.
  rewrite !Z.shiftr_div_pow2 by lia.
  change (2 ^ 0) with 1. change (2 ^ 8) with 256.
  change (2 ^ 16) with 65536 in H.
  rewrite Z.div_1_r. Z.to_euclidean_division_equations. lia.
Qed.


Lemma writeUInt32LE_spec (buf : list byte) (value : Z) (offset : nat) :
  writeUInt32LE buf value offset
  = if decide (0 <= value <= 2 ^ 32 - 1)
    then Some (writeBytes buf offset (littleEndian 4 value)) else None.
Proof.
  unfold writeUInt32LE.
  destruct (value <? 0) eqn:E1, (value >? 2 ^ 32 - 1) eqn:E2;
    destruct (decide _); simpl; try reflexivity; lia.
Qed.

Lemma writeUInt16LE_spec (buf : list byte) (value : Z) (offset : nat) :
  writeUInt16LE buf value offset
  = if decide (0 <= value <= 2 ^ 16 - 1)
    then Some (writeBytes buf offset (littleEndian 2 value)) else None.
Proof.
  unfold writeUInt16LE.
  destruct (value <? 0) eqn:E1, (value >? 2 ^ 16 - 1) eqn:E2;
    destruct (decide _); simpl; try reflexivity; lia.
Qed.

(** X7. [createWavBuffer] throws exactly when a header field does not fit
    its width (more than 2^32 - 37 bytes of samples, a byte rate above
    2^32 - 1, a block size above 65535, a negative rate or channel count).
    Otherwise it returns a 44-byte header followed by the samples
    unchanged, in which the RIFF size is the total length minus 8, the data
    size is the number of sample bytes, and the format fields hold PCM (1),
    the channels, the sample rate, the byte rate [rate * channels * 2], the
    block size [channels * 2] and 16 bits per sample. *)
Theorem createWavBuffer_layout (pcmData : list byte) (sampleRate channels : Z) :
  let fits :=
    36 + len pcmData <= 2 ^ 32 - 1
    /\ 0 <= channels /\ channels * 2 <= 2 ^ 16 - 1
    /\ 0 <= sampleRate <= 2 ^ 32 - 1
    /\ 0 <= sampleRate * channels * 2 <= 2 ^ 32 - 1 in
  match createWavBuffer pcmData sampleRate channels with
  | None => ~ fits
  | Some wav =>
      fits
      /\ exists header,
           wav = header ++ pcmData /\ length header = 44%nat
           /\ field header 0 4 = ImageDecryptService.bufferFromAscii "RIFF"
           /\ unsignedLE (field header 4 4) = len wav - 8
           /\ field header 8 8 = ImageDecryptService.bufferFromAscii "WAVEfmt "
           /\ unsignedLE (field header 16 4) = 16
           /\ unsignedLE (field header 20 2) = 1
           /\ unsignedLE (field header 22 2) = channels
           /\ unsignedLE (field header 24 4) = sampleRate
           /\ unsignedLE (field header 28 4) = sampleRate * channels * 2
           /\ unsignedLE (field header 32 2) = channels * 2
           /\ unsignedLE (field header 34 2) = 16
           /\ field header 36 4 = ImageDecryptService.bufferFromAscii "data"
           /\ unsignedLE (field header 40 4) = len pcmData
  end.
Proof.
  intros fits. unfold createWavBuffer.
  rewrite ?writeUInt32LE_spec, ?writeUInt16LE_spec.
  pose proof (len_nonneg pcmData) as Hlen.
  destruct (decide (0 <= 36 + len pcmData <= 2 ^ 32 - 1)) as [H1|H1];
    [|simpl; unfold fits; lia].
  cbn [mbind option_bind].
  rewrite ?writeUInt32LE_spec, ?writeUInt16LE_spec.
  destruct (decide (0 <= 16 <= 2 ^ 32 - 1)) as [_|H]; [|exfalso; lia].
  cbn [mbind option_bind].
  rewrite ?writeUInt32LE_spec, ?writeUInt16LE_spec.
  destruct (decide (0 <= 1 <= 2 ^ 16 - 1)) as [_|H]; [|exfalso; lia].
  cbn [mbind option_bind].
  rewrite ?writeUInt32LE_spec, ?writeUInt16LE_spec.
  destruct (decide (0 <= channels <= 2 ^ 16 - 1)) as [H2|H2];
    [|simpl; unfold fits; lia].
  cbn [mbind option_bind].
  rewrite ?writeUInt32LE_spec, ?writeUInt16LE_spec.
  destruct (decide (0 <= sampleRate <= 2 ^ 32 - 1)) as [H3|H3];
    [|simpl; unfold fits; lia].
  cbn [mbind option_bind].
  rewrite ?writeUInt32LE_spec, ?writeUInt16LE_spec.
  destruct (decide (0 <= sampleRate * channels * 2 <= 2 ^ 32 - 1)) as [H4|H4];
    [|simpl; unfold fits; lia].
  cbn [mbind option_bind].
  rewrite ?writeUInt32LE_spec, ?writeUInt16LE_spec.
  destruct (decide (0 <= channels * 2 <= 2 ^ 16 - 1)) as [H5|H5];
    [|simpl; unfold fits; lia].
  cbn [mbind option_bind].
  rewrite ?writeUInt32LE_spec, ?writeUInt16LE_spec.
  destruct (decide (0 <= 16 <= 2 ^ 16 - 1)) as [_|H]; [|exfalso; lia].
  cbn [mbind option_bind].
  rewrite ?writeUInt32LE_spec, ?writeUInt16LE_spec.
  destruct (decide (0 <= len pcmData <= 2 ^ 32 - 1)) as [H6|H6]; [|exfalso; lia].
  cbn [mbind option_bind].
  split; [unfold fits; lia|].
  eexists. split; [reflexivity|].
  unfold write, writeBytes, field. cbn [repeat firstn skipn app length Nat.add
    ImageDecryptService.bufferFromAscii String.list_ascii_of_string map
    littleEndian seq].
  split; [reflexivity|]. split; [reflexivity|].
  split.
  { pose proof (unsignedLE_4 (36 + len pcmData)) as E. unfold littleEndian in E.
    cbn [map seq] in E. rewrite E by lia. unfold len. cbn [length]. lia. }
  split; [reflexivity|].
  repeat split;
    first [reflexivity
          |apply (unsignedLE_4 _); lia
          |apply (unsignedLE_2 _); lia].
Qed.

End VoiceWavFacts.

Module EmojiCacheNameFacts.
Import Buf BufFacts EmojiCacheName.

Lemma toInt32_shift (z : Z) : exists k, toInt32 z = z + k * 2 ^ 32.
Proof.
  unfold toInt32. exists (- ((z + 2 ^ 31) / 2 ^ 32)).
  pose proof (Z.div_mod (z + 2 ^ 31) (2 ^ 32) ltac:(lia)). lia.
Qed.

Lemma toInt32_eqm (a b k : Z) : a = b + k * 2 ^ 32 -> toInt32 a = toInt32 b.
Proof.
  intros ->. unfold toInt32.
  replace (b + k * 2 ^ 32 + 2 ^ 31) with (b + 2 ^ 31 + k * 2 ^ 32) by lia.
  now rewrite Z_mod_plus_full.
Qed.

Lemma toInt32_range (z : Z) : - 2 ^ 31 <= toInt32 z < 2 ^ 31.
Proof.
  unfold toInt32. pose proof (Z.mod_pos_bound (z + 2 ^ 31) (2 ^ 32) ltac:(lia)).
  lia.
Qed.

Lemma hashStep_polynomial (hash char : Z) :
  hashStep hash char = toInt32 (31 * hash + char).
Proof.
  unfold hashStep, js_and, js_shl. rewrite Z.land_diag.
  rewrite Z.shiftl_mul_pow2 by lia.
  destruct (toInt32_shift hash) as [k1 E1]. rewrite E1.
  destruct (toInt32_shift ((hash + k1 * 2 ^ 32) * 2 ^ 5)) as [k2 E2]. rewrite E2.
  apply (toInt32_eqm _ _ (32 * k1 + k2)). lia.
Qed.

Lemma hashValue_polynomial (str : string) :
  hashValue str = toInt32 (polynomial31 (charCodes str)).
Proof.
  unfold hashValue, polynomial31.
  induction (charCodes str) as [|c cs IH] using rev_ind; [reflexivity|].
  rewrite !fold_left_app. simpl. rewrite hashStep_polynomial, IH.
  destruct (toInt32_shift (fold_left (fun h c0 => 31 * h + c0) cs 0)) as [k E].
  rewrite E. apply (toInt32_eqm _ _ (31 * k)). lia.
Qed.

Lemma hexDigit_lower (d : Z) : 0 <= d < 16 -> isLowerHexDigit (hexDigit d) = true.
Proof.
  intros H.
  assert (E : d = 0 \/ d = 1 \/ d = 2 \/ d = 3 \/ d = 4 \/ d = 5 \/ d = 6 \/ d = 7
              \/ d = 8 \/ d = 9 \/ d = 10 \/ d = 11 \/ d = 12 \/ d = 13
              \/ d = 14 \/ d = 15) by lia.
  repeat destruct E as [->|E]; try reflexivity. now subst.
Qed.

Lemma digitValue_hexDigit (d : Z) : 0 <= d < 16 -> digitValue (hexDigit d) = d.
Proof.
  intros H.
  assert (E : d = 0 \/ d = 1 \/ d = 2 \/ d = 3 \/ d = 4 \/ d = 5 \/ d = 6 \/ d = 7
              \/ d = 8 \/ d = 9 \/ d = 10 \/ d = 11 \/ d = 12 \/ d = 13
              \/ d = 14 \/ d = 15) by lia.
  repeat destruct E as [->|E]; try reflexivity. now subst.
Qed.

Lemma hexValue_cons (c : Ascii.ascii) (s : string) :
  hexValue (String c s)
  = digitValue c * 16 ^ Z.of_nat (String.length s) + hexValue s.
Proof.
  unfold hexValue. simpl.
  assert (G : forall l a,
    fold_left (fun a c => 16 * a + digitValue c) l a
    = a * 16 ^ Z.of_nat (length l)
      + fold_left (fun a c => 16 * a + digitValue c) l 0).
  { induction l as [|x l IH]; intros a; simpl; [lia|].
    rewrite IH, (IH (16 * 0 + digitValue x)).
    rewrite Nat2Z.inj_succ, Z.pow_succ_r by lia. lia. }
  assert (L : length (String.list_ascii_of_string s) = String.length s).
  { clear. induction s as [|x s IH]; simpl; [reflexivity|]. now rewrite IH. }
  rewrite G, L. lia.
Qed.

Lemma hexDigits_spec (fuel : nat) :
  forall (n : Z) (acc : string),
    0 <= n < 16 ^ Z.of_nat fuel -> (0 < fuel)%nat ->
    let digits := hexDigits fuel n acc in
    hexValue digits = n * 16 ^ Z.of_nat (String.length acc) + hexValue acc
    /\ (String.length acc < String.length digits <= fuel + String.length acc)%nat
    /\ (forallb isLowerHexDigit (String.list_ascii_of_string acc) = true ->
        forallb isLowerHexDigit (String.list_ascii_of_string digits) = true)
    /\ (forall k, n < 16 ^ Z.of_nat k -> (0 < k)%nat ->
        (String.length digits <= k + String.length acc)%nat).
Proof.
  induction fuel as [|fuel IH]; intros n acc Hn Hfuel; [lia|].
  simpl. rewrite Nat2Z.inj_succ, Z.pow_succ_r in Hn by lia.
  pose proof (Z.mod_pos_bound n 16 ltac:(lia)) as Hmod.
  pose proof (Z.div_mod n 16 ltac:(lia)) as Hdiv.
  destruct (n / 16 =? 0) eqn:E.
  - apply Z.eqb_eq in E. rewrite hexValue_cons, digitValue_hexDigit by lia.
    simpl. split; [lia|]. split; [lia|]. split.
    + intros ->. now rewrite hexDigit_lower.
    + intros k _ Hk. lia.
  - apply Z.eqb_neq in E.
    assert (Hq : 0 <= n / 16 < 16 ^ Z.of_nat fuel).
    { split; [apply Z.div_pos; lia|]. apply Z.div_lt_upper_bound; lia. }
    assert (Hf : (0 < fuel)%nat).
    { destruct fuel; [|lia]. simpl in Hq. lia. }
    destruct (IH (n / 16) (String (hexDigit (n mod 16)) acc) Hq Hf)
      as (Hv & Hl & Hh & Hk).
    simpl in *. split.
    + rewrite Hv, hexValue_cons, digitValue_hexDigit by lia.
      rewrite Nat2Z.inj_succ, Z.pow_succ_r by lia. lia.
    + split; [lia|]. split.
      * intros Hacc. apply Hh. now rewrite hexDigit_lower, Hacc.
      * intros k Hnk Hk0. destruct k as [|k]; [lia|].
        rewrite Nat2Z.inj_succ, Z.pow_succ_r in Hnk by lia.
        destruct k as [|k]; [simpl in Hnk; lia|].
        specialize (Hk (S k)). 
        assert (n / 16 < 16 ^ Z.of_nat (S k))
          by (apply Z.div_lt_upper_bound; lia).
        specialize (Hk H ltac:(lia)). lia.
Qed.

Lemma toString16_spec (n : Z) :
  0 <= n ->
  hexValue (toString16 n) = n
  /\ (0 < String.length (toString16 n))%nat
  /\ forallb isLowerHexDigit (String.list_ascii_of_string (toString16 n)) = true
  /\ (forall k, n < 16 ^ Z.of_nat k -> (0 < k)%nat ->
      (String.length (toString16 n) <= k)%nat).
Proof.
  intros Hn. unfold toString16.
  assert (Hfuel : 0 <= n < 16 ^ Z.of_nat (S (Z.to_nat (Z.log2 n)))).
  { split; [assumption|].
    pose proof (Z.log2_nonneg n).
    destruct (Z.eq_dec n 0) as [->|Hne]; [simpl; lia|].
    pose proof (Z.log2_spec n ltac:(lia)) as [_ Hlt].
    eapply Z.lt_le_trans; [exact Hlt|].
    rewrite Nat2Z.inj_succ, Z2Nat.id by lia.
    change 16 with (2 ^ 4). rewrite <- Z.pow_mul_r by lia.
    apply Z.pow_le_mono_r; lia. }
  destruct (hexDigits_spec _ n "" Hfuel ltac:(lia)) as (Hv & Hl & Hh & Hk).
  cbn [String.length] in Hv, Hl, Hk. change (hexValue "") with 0 in Hv.
  change (16 ^ Z.of_nat 0) with 1 in Hv.
  split; [lia|]. split; [lia|]. split; [now apply Hh|].
  intros k H1 H2. specialize (Hk k H1 H2). lia.
Qed.

(** X8. [hashString] is the 32-bit polynomial hash over the character
    codes, [c0 * 31^(n-1) + ... + c(n-1)] wrapped to a signed 32-bit
    integer, written without sign in base 16: a name of one to eight digits
    out of [0-9a-f], which reads back as the absolute value of the hash. *)
Theorem hashString_hex_name (str : string) :
  let hash := toInt32 (polynomial31 (charCodes str)) in
  hexValue (hashString str) = Z.abs hash
  /\ (1 <= String.length (hashString str) <= 8)%nat
  /\ forallb isLowerHexDigit (String.list_ascii_of_string (hashString str)) = true.
Proof.
  intros hash. unfold hashString. rewrite hashValue_polynomial. fold hash.
  pose proof (toInt32_range (polynomial31 (charCodes str))) as Hr. fold hash in Hr.
  destruct (toString16_spec (Z.abs hash) ltac:(lia)) as (Hv & Hl & Hh & Hk).
  split; [assumption|]. split; [|assumption]. split; [lia|].
  apply Hk; [|lia]. change (16 ^ Z.of_nat 8) with (2 ^ 32). lia.
Qed.

End EmojiCacheNameFacts.

Module AccountNameFacts.
Import JsString AccountNames TextFacts.

Abbreviation chars := String.list_ascii_of_string.
Abbreviation text := String.string_of_list_ascii.

Lemma chars_app (a b : string) : chars (a +:+ b) = chars a ++ chars b.
Proof. induction a as [|c a IH]; simpl; [reflexivity|]. now rewrite IH. Qed.

Lemma text_app (a b : list Ascii.ascii) : text (a ++ b) = text a +:+ text b.
Proof. induction a as [|c a IH]; simpl; [reflexivity|]. now rewrite IH. Qed.

Lemma chars_inj (a b : string) : chars a = chars b -> a = b.
Proof.
  intros H. rewrite <- (String.string_of_list_ascii_of_string a),
    <- (String.string_of_list_ascii_of_string b). now rewrite H.
Qed.

Lemma toLowerCase_app (a b : string) :
  toLowerCase (a +:+ b) = toLowerCase a +:+ toLowerCase b.
Proof. induction a as [|c a IH]; simpl; [reflexivity|]. now rewrite IH. Qed.

Lemma toLowerCase_length (s : string) :
  String.length (toLowerCase s) = String.length s.
Proof. induction s as [|c s IH]; simpl; [reflexivity|]. now rewrite IH. Qed.

Lemma prefix_app (a b : string) : String.prefix a (a +:+ b) = true.
Proof.
  induction a as [|c a IH]; simpl; [now destruct b|].
  destruct (Ascii.ascii_dec c c); [assumption|contradiction].
Qed.

Lemma prefix_chars (a b : string) :
  String.prefix a b = true <-> exists rest, chars b = chars a ++ rest.
Proof.
  revert b. induction a as [|c a IH]; intros b; simpl.
  - split; [intros _; now exists (chars b)|intros _; now destruct b].
  - destruct b as [|d b]; simpl.
    + split; [discriminate|]. intros [rest H]. discriminate.
    + destruct (Ascii.ascii_dec c d) as [->|Hne].
      * rewrite IH. split; intros [rest H]; exists rest; congruence.
      * split; [discriminate|]. intros [rest H]. congruence.
Qed.

Lemma takeWhile_app {A} (p : A -> bool) (l rest : list A) :
  forallb p l = true -> forallb (fun c => negb (p c)) (firstn 1 rest) = true ->
  takeWhile p (l ++ rest) = l.
Proof.
  intros Hl Hrest. induction l as [|x l IH]; simpl in *.
  - destruct rest as [|y rest]; [reflexivity|]. simpl in *.
    destruct (p y); [discriminate|reflexivity].
  - apply andb_prop in Hl as [-> Hl]. now rewrite IH.
Qed.

Lemma takeWhile_prefix {A} (p : A -> bool) (l : list A) :
  exists rest, l = takeWhile p l ++ rest.
Proof.
  induction l as [|x l [rest IH]]; simpl; [now exists []|].
  destruct (p x); [exists rest; simpl; now f_equal|now exists (x :: l)].
Qed.

Section TrimmedNames.

Variable trim : string -> string.              (* String.prototype.trim *)

(** X9. A name that, once trimmed, has the form [wxid_<id>] followed by
    nothing or by an underscore and anything, with a non-empty [<id>]
    without underscore, is cleaned to [wxid_<id>]; the prefix [wxid_] may be
    in any case. *)
Theorem cleanAccountDirName_wxid (dirName pre id rest : string) :
  trim dirName = pre +:+ id +:+ rest ->
  toLowerCase pre = "wxid_" ->
  id <> "" ->
  forallb (fun c => negb (isUnderscore c)) (chars id) = true ->
  forallb isUnderscore (firstn 1 (chars rest)) = true ->
  cleanAccountDirName trim dirName = pre +:+ id.
Proof.
  intros Htrim Hpre Hid Hclean Hrest. unfold cleanAccountDirName.
  rewrite Htrim.
  assert (Hlen : length (chars pre) = 5%nat).
  { rewrite chars_length, <- toLowerCase_length, Hpre. reflexivity. }
  destruct (String.eqb_spec (pre +:+ id +:+ rest) "") as [E|_].
  { apply (f_equal String.length) in E. rewrite <- !chars_length, !chars_app in E.
    rewrite !length_app, Hlen in E. discriminate. }
  rewrite toLowerCase_app, Hpre, prefix_app.
  unfold matchWxid. rewrite !chars_app.
  assert (Hpre' : text (chars pre) = pre)
    by apply String.string_of_list_ascii_of_string.
  destruct (chars pre) as [|a [|b [|c [|d [|e [|f l]]]]]];
    simpl in Hlen; try discriminate.
  cbn [firstn skipn app]. rewrite !firstn_O, !skipn_O.
  rewrite Hpre', Hpre, String.eqb_refl.
  rewrite takeWhile_app.
  - destruct (chars id) as [|x l] eqn:E.
    + exfalso. apply Hid, chars_inj. now rewrite E.
    + rewrite <- E.
      change (text (([a; b; c; d; e] ++ []) ++ chars id) = pre +:+ id).
      rewrite app_nil_r.
      now rewrite text_app, Hpre', String.string_of_list_ascii_of_string.
  - assumption.
  - destruct (chars rest) as [|x l]; [reflexivity|]. simpl in *.
    now rewrite negb_involutive.
Qed.

(** X10. What [cleanAccountDirName] returns is a prefix of the trimmed
    name, and it is empty only if the trimmed name is. *)
Theorem cleanAccountDirName_prefix (dirName : string) :
  String.prefix (cleanAccountDirName trim dirName) (trim dirName) = true
  /\ (cleanAccountDirName trim dirName = "" -> trim dirName = "").
Proof.
  unfold cleanAccountDirName.
  set (trimmed := trim dirName).
  assert (Hself : String.prefix trimmed trimmed = true)
    by (apply prefix_chars; exists []; now rewrite app_nil_r).
  destruct (String.eqb_spec trimmed "") as [E|Hne]; [now rewrite E|].
  destruct (String.prefix "wxid_" (toLowerCase trimmed)).
  - unfold matchWxid.
    destruct (String.eqb _ "wxid_"); [|auto].
    destruct (takeWhile _ _) as [|c l] eqn:E; [auto|].
    destruct (takeWhile_prefix (fun c => negb (isUnderscore c))
                (skipn 5 (chars trimmed))) as [rest Hrest].
    rewrite E in Hrest. split.
    + apply prefix_chars. exists rest.
      rewrite String.list_ascii_of_string_of_list_ascii.
      rewrite <- (firstn_skipn 5 (chars trimmed)) at 1.
      now rewrite Hrest, app_assoc.
    + intros H. apply (f_equal chars) in H.
      rewrite String.list_ascii_of_string_of_list_ascii in H.
      now destruct (firstn 5 (chars trimmed)).
  - unfold matchSuffix.
    destruct ((6 <=? length (chars trimmed))%nat) eqn:E6; [|auto].
    apply Nat.leb_le in E6. cbn [andb].
    destruct (forallb _ _ && forallb _ _ && forallb _ _); [|auto].
    split.
    + apply prefix_chars. exists (skipn (length (chars trimmed) - 5) (chars trimmed)).
      rewrite String.list_ascii_of_string_of_list_ascii.
      now rewrite firstn_skipn.
    + intros H. apply (f_equal chars) in H.
      rewrite String.list_ascii_of_string_of_list_ascii in H.
      apply (f_equal (@length _)) in H. rewrite length_firstn in H.
      simpl in H. lia.
Qed.

Lemma replaceReserved_safe (s : string) :
  forallb (fun c => negb (isReserved c)) (chars (replaceReserved s)) = true
  /\ String.length (replaceReserved s) = String.length s.
Proof.
  induction s as [|c s [IH1 IH2]]; simpl; [auto|].
  rewrite IH1, IH2. split; [|reflexivity].
  destruct (isReserved c) eqn:E; [reflexivity|]. now rewrite E.
Qed.

(** X11. The directory name that [sanitizeDirName] gives is never empty
    and holds none of the characters [<], [>], [:], the double quote, [/],
    [\], [|], [?] and the asterisk; unless the trimmed name is empty, it has
    the length of the trimmed name. *)
Theorem sanitizeDirName_safe (name : string) :
  sanitizeDirName trim name <> ""
  /\ forallb (fun c => negb (isReserved c))
       (chars (sanitizeDirName trim name)) = true
  /\ (trim name <> "" ->
      String.length (sanitizeDirName trim name) = String.length (trim name)).
Proof.
  unfold sanitizeDirName.
  destruct (String.eqb_spec (trim name) "") as [E|Hne].
  - split; [discriminate|]. split; [reflexivity|]. intros H. contradiction.
  - destruct (replaceReserved_safe (trim name)) as [H1 H2].
    split; [|auto]. intros H. apply Hne.
    apply (f_equal String.length) in H. rewrite H2 in H.
    destruct (trim name); [reflexivity|discriminate].
Qed.

End TrimmedNames.

(** An account directory with a four-character suffix; the name has no
    white space at its ends, so that trimming leaves it as it is. *)
Lemma cleanAccountDirName_wxid_witness :
  cleanAccountDirName SimMedia.trim "wxid_abc123_7f3a" = "wxid_abc123".
Proof.
  apply (cleanAccountDirName_wxid SimMedia.trim "wxid_abc123_7f3a"
           "wxid_" "abc123" "_7f3a").
  - reflexivity.
  - reflexivity.
  - discriminate.
  - reflexivity.
  - reflexivity.
Defined.

End AccountNameFacts.

Module CacheKeyFacts.
Import JsString ImagePathResolver ImageFlight CacheKeys TextFacts.

Lemma pushNew_NoDup (keys : list string) (k : string) :
  NoDup keys -> NoDup (pushNew keys k).
Proof.
  intros H. unfold pushNew. case_bool_decide as E; [assumption|].
  apply NoDup_app. split; [assumption|]. split; [|apply NoDup_singleton].
  intros x Hx Hx'. apply list_elem_of_singleton in Hx' as ->. contradiction.
Qed.

Lemma pushNew_head (keys : list string) (k : string) :
  head (pushNew keys k) = match keys with [] => Some k | x :: _ => Some x end.
Proof.
  unfold pushNew. case_bool_decide as E; destruct keys; try reflexivity.
  inversion E.
Qed.

Lemma pushNew_nonempty (keys : list string) (k : string) :
  k <> "" -> Forall (fun x => x <> "") keys ->
  Forall (fun x => x <> "") (pushNew keys k).
Proof.
  intros Hk H. unfold pushNew. case_bool_decide; [assumption|].
  apply Forall_app. split; [assumption|].
  apply List.Forall_cons; [assumption|apply List.Forall_nil].
Qed.

Lemma toLowerCase_nonempty (v : string) : v <> "" -> toLowerCase v <> "".
Proof. now destruct v. Qed.

Lemma addKey_spec (value : option string) (keys : list string) :
  NoDup keys -> Forall (fun x => x <> "") keys ->
  NoDup (addKey value keys)
  /\ Forall (fun x => x <> "") (addKey value keys)
  /\ head (addKey value keys)
     = match keys with [] => given value | x :: _ => Some x end.
Proof.
  intros Hnd Hne. unfold addKey.
  destruct (given value) as [v|] eqn:E; [|now destruct keys].
  apply given_Some in E as [_ Hv].
  assert (H1 := pushNew_NoDup keys v Hnd).
  assert (H2 := pushNew_NoDup _ (toLowerCase v) H1).
  assert (N1 := pushNew_nonempty keys v Hv Hne).
  assert (N2 := pushNew_nonempty _ (toLowerCase v) (toLowerCase_nonempty v Hv) N1).
  assert (Hhead : head (pushNew (pushNew keys v) (toLowerCase v))
                  = match keys with [] => Some v | x :: _ => Some x end).
  { rewrite pushNew_head. destruct (pushNew keys v) as [|x l] eqn:Ep.
    - unfold pushNew in Ep. case_bool_decide as Eb.
      + subst keys. inversion Eb.
      + now destruct keys.
    - pose proof (pushNew_head keys v) as Hh. rewrite Ep in Hh. simpl in Hh.
      now rewrite Hh. }
  destruct (String.eqb_spec (normalizeDatBase (toLowerCase v)) "") as [_|Hn];
    simpl.
  - auto.
  - split; [now apply pushNew_NoDup|]. split; [now apply pushNew_nonempty|].
    rewrite pushNew_head.
    destruct (pushNew (pushNew keys v) (toLowerCase v)) as [|x l] eqn:Ep.
    + simpl in Hhead. destruct keys; discriminate.
    + simpl in Hhead. exact Hhead.
Qed.

(** X12. [getCacheKeys] lists every key once and no empty key, and its
    first key is the cache key of [decryptImage],
    [imageMd5 || imageDatName]: the list is empty exactly when
    [decryptImage] misses the image identifier. *)
Theorem getCacheKeys_primary (payload : Payload) :
  NoDup (getCacheKeys payload)
  /\ Forall (fun k => k <> "") (getCacheKeys payload)
  /\ head (getCacheKeys payload) = cacheKeyOf payload.
Proof.
  unfold getCacheKeys, cacheKeyOf.
  destruct (addKey_spec (imageMd5 payload) [])
    as (Hnd & Hne & Hhead); [constructor|apply List.Forall_nil|].
  destruct (given (imageDatName payload)) as [d|] eqn:Ed.
  - destruct (negb _) eqn:En.
    + destruct (addKey_spec (imageDatName payload) (addKey (imageMd5 payload) []))
        as (Hnd' & Hne' & Hhead'); [assumption|assumption|].
      split; [assumption|]. split; [assumption|]. rewrite Hhead'.
      destruct (addKey (imageMd5 payload) []) as [|x l] eqn:Ea.
      * simpl in Hhead. rewrite <- Hhead. exact Ed.
      * simpl in Hhead. now rewrite <- Hhead.
    + split; [assumption|]. split; [assumption|]. rewrite Hhead.
      apply negb_false_iff, bool_decide_eq_true in En. rewrite <- En, Ed.
      reflexivity.
  - split; [assumption|]. split; [assumption|]. rewrite Hhead.
    now destruct (given (imageMd5 payload)).
Qed.

Lemma cacheResolvedPaths_lookup (cacheKey : string)
  (imageMd5 imageDatName : option string) (outputPath : string)
  (cache : gmap string string) (k : string) :
  k = cacheKey \/ given imageMd5 = Some k \/ given imageDatName = Some k ->
  cacheResolvedPaths cacheKey imageMd5 imageDatName outputPath cache !! k
  = Some outputPath.
Proof.
  intros Hk. unfold cacheResolvedPaths.
  assert (Hins : forall (c : gmap string string) (k' : string),
            c !! k = Some outputPath ->
            <[k' := outputPath]> c !! k = Some outputPath).
  { intros c k' H. destruct (decide (k' = k)) as [->|Hne].
    - apply lookup_insert_eq.
    - now rewrite lookup_insert_ne. }
  set (c1 := <[cacheKey := outputPath]> cache).
  set (c2 := match given imageMd5 with
             | Some md5 =>
                 if negb (String.eqb md5 cacheKey)
                 then <[md5 := outputPath]> c1 else c1
             | None => c1
             end).
  assert (H2 : k = cacheKey \/ given imageMd5 = Some k ->
               c2 !! k = Some outputPath).
  { intros [->|Hm]; unfold c2.
    - assert (c1 !! cacheKey = Some outputPath) by apply lookup_insert_eq.
      destruct (given imageMd5); [|assumption].
      destruct (negb _); [now apply Hins|assumption].
    - rewrite Hm. destruct (String.eqb_spec k cacheKey) as [->|Hne]; simpl.
      + apply lookup_insert_eq.
      + apply lookup_insert_eq. }
  destruct (given imageDatName) as [d|] eqn:Ed.
  - destruct (String.eqb_spec d cacheKey) as [->|Hne]; simpl.
    + destruct Hk as [->|[Hm|[= <-]]]; [apply H2; auto|apply H2; auto|].
      apply H2. now left.
    + case_bool_decide as Eeq; simpl.
      * destruct Hk as [->|[Hm|[= <-]]]; [apply H2; auto|apply H2; auto|].
        apply H2. right. rewrite <- Eeq. exact Ed.
      * destruct Hk as [->|[Hm|[= <-]]];
          [apply Hins, H2; auto|apply Hins, H2; auto|apply lookup_insert_eq].
  - destruct Hk as [->|[Hm|[=]]]; apply H2; auto.
Qed.

Section CacheReuse.

Variable existsSync : string -> bool.
Variable isImageFile : string -> bool.
Variable localUrl : string -> string.

(** X13. Once a decryption has recorded its output with
    [cacheResolvedPaths] under the cache key, the content hash and the file
    name of its payload, a later request that is not forced and whose cache
    key is one of these three is answered from the resolved cache with that
    output, as long as the output file exists and is an image file: it
    starts no decryption and leaves the state as it is. *)
Theorem decryptImage_reuses_output (payload later : Payload)
  (cacheKey laterKey outputPath : string) (task : nat) (s : ImageState) :
  cacheKeyOf later = Some laterKey ->
  laterKey = cacheKey \/ given (imageMd5 payload) = Some laterKey
  \/ given (imageDatName payload) = Some laterKey ->
  force later = false ->
  outputPath <> "" ->
  existsSync outputPath = true ->
  isImageFile outputPath = true ->
  let s' :=
    settle task
      (cacheResolvedPaths cacheKey (imageMd5 payload) (imageDatName payload)
         outputPath (resolvedCache s)) s in
  decryptImage existsSync isImageFile localUrl later s'
  = (Now (mkDecryptResult true (Some (localUrl outputPath)) None None), s').
Proof.
  intros Hlater Hkey Hforce Hout Hex Himg s'.
  unfold decryptImage. rewrite Hlater, Hforce. unfold cachedImage.
  assert (E : resolvedCache s' !! laterKey = Some outputPath)
    by now apply cacheResolvedPaths_lookup.
  rewrite E.
  assert (G : given (Some outputPath) = Some outputPath)
    by (apply given_Some; auto).
  rewrite G, Hex, Himg. reflexivity.
Qed.

End CacheReuse.

(** An image decrypted under its content hash is served from the resolved
    cache when it is asked for under its file name. *)
Lemma decryptImage_reuses_output_witness :
  let recorded :=
    settle 0
      (cacheResolvedPaths SimFlight.imageKey (Some SimFlight.imageKey)
         (Some "abc.dat") "/cache/abc.jpg" (resolvedCache initial)) initial in
  SimFlight.decryptImage (mkPayload None (Some "abc.dat") false) recorded
  = (Now (mkDecryptResult true (Some "/cache/abc.jpg") None None), recorded).
Proof.
  apply (decryptImage_reuses_output SimFlight.existsSync SimFlight.isImageFile
           SimFlight.localUrl (mkPayload (Some SimFlight.imageKey) (Some "abc.dat") false)
           (mkPayload None (Some "abc.dat") false) SimFlight.imageKey "abc.dat"
           "/cache/abc.jpg" 0 initial).
  - reflexivity.
  - right. right. reflexivity.
  - reflexivity.
  - discriminate.
  - reflexivity.
  - reflexivity.
Defined.

End CacheKeyFacts.

Module LatestMessagesFacts.
Import ChatService LatestMessages.

Section LatestFacts.

Context {World Row : Type}.
Variable ensureConnected : World -> Outcome ConnectResult * World.
Variable openMessageCursor :
  string -> Z -> bool -> Z -> Z -> World -> Outcome CursorResult * World.
Variable fetchMessageBatch : Z -> World -> Outcome (BatchResult Row) * World.
Variable closeMessageCursor : Z -> World -> Outcome unit * World.
Variable mapRowsToMessages : list Row -> list Message.
Variable fallbackEmoticons : list Message -> World -> list Message * World.

Abbreviation State := (ChatState (World := World)).

(** The inner [try] of [getLatestMessages] makes one fetch on the cursor it
    is given; it returns the messages of a fetch that succeeded, after the
    repair of emoticon addresses. *)
Lemma fetchLatest_run (c : Z) (s : State) :
  let o := fetchMessageBatch c (world s) in
  let run := fetchLatest fetchMessageBatch mapRowsToMessages fallbackEmoticons
               c s in
  calls run.2 = calls s ++ [CFetch c (rowCount o.1)]
  /\ messageCursors run.2 = messageCursors s
  /\ messageCache run.2 = messageCache s
  /\ world run.2 = worldAfterPage mapRowsToMessages fallbackEmoticons o.1 o.2
  /\ match pageRows o.1 with
     | Some rows =>
         run.1 = Returned
                   (mkMessagesResult true
                      (Some (fallbackEmoticons
                               (normalizeMessageOrder (mapRowsToMessages rows))
                               o.2).1) None None)
     | None =>
         match run.1 with
         | Returned r => success r = false
         | Thrown _ => True
         end
     end.
Proof.
  intros o run. subst o run. unfold fetchLatest, doFetch, worldAfterPage, pageRows.
  destruct (fetchMessageBatch c (world s)) as [r0 w]. cbn [fst snd].
  destruct r0 as [batch|e]; [|simpl; auto].
  destruct (br_success batch); simpl; [|auto].
  destruct (br_rows batch) as [rows|]; [|simpl; auto].
  destruct (fallbackEmoticons _ w) as [fixed w']. simpl. auto.
Qed.

(** X14. [getLatestMessages] leaves the cursors and the message cache of
    the sessions as they are. If the connection check fails it makes no call
    to the cursor primitive. If the open gives no usable cursor, the open is
    its only call and it fails. Otherwise it makes, on the cursor that the
    open returned and in the state the open left, exactly one fetch and then
    the close of that cursor: a cursor that was opened is closed, also when
    the fetch fails or throws. It succeeds exactly when the fetch delivered
    rows and the close returned, and then it answers the messages of those
    rows. *)
Theorem getLatestMessages_closes_cursor (sessionId : string) (limit : option Z)
  (s0 : State) :
  let run := getLatestMessages ensureConnected openMessageCursor
               fetchMessageBatch closeMessageCursor mapRowsToMessages
               fallbackEmoticons sessionId limit s0 in
  let opening :=
    COpen sessionId (Z.max 1 (default messageBatchDefault limit)) false 0 0 in
  let connected := ensureConnected (world s0) in
  let opened :=
    openMessageCursor sessionId (Z.max 1 (default messageBatchDefault limit))
      false 0 0 connected.2 in
  messageCursors run.2 = messageCursors s0
  /\ messageCache run.2 = messageCache s0
  /\ if connectedOk connected.1 then
       match usableCursor opened.1 with
       | None =>
           calls run.2 = calls s0 ++ [opening]
           /\ run.1 = openFailure opened.1
       | Some c =>
           let fetched_ := fetchMessageBatch c opened.2 in
           let closed :=
             closeMessageCursor c
               (worldAfterPage mapRowsToMessages fallbackEmoticons
                  fetched_.1 fetched_.2) in
           calls run.2
           = calls s0 ++ [opening; CFetch c (rowCount fetched_.1); CClose c]
           /\ world run.2 = closed.2
           /\ match pageRows fetched_.1, closed.1 with
              | Some rows, Returned _ =>
                  run.1 = mkMessagesResult true
                            (Some (fallbackEmoticons
                                     (normalizeMessageOrder
                                        (mapRowsToMessages rows))
                                     fetched_.2).1) None None
              | _, _ => success run.1 = false
              end
       end
     else calls run.2 = calls s0 /\ success run.1 = false.
Proof.
  intros run opening connected opened. subst run opened connected.
  unfold getLatestMessages.
  destruct (ensureConnected (world s0)) as [conn w]. cbn [fst snd].
  destruct conn as [connectResult|e]; simpl connectedOk.
  2:{ simpl. auto. }
  destruct (cn_success connectResult); simpl negb; cbv iota.
  2:{ simpl. auto. }
  unfold doOpen. simpl world.
  destruct (openMessageCursor _ _ _ _ _ w) as [o w1]. cbn [fst snd].
  fold opening.
  destruct (usableCursor o) as [c|] eqn:Eu.
  - assert (Ho : exists cursorResult, o = Returned cursorResult
              /\ cr_success cursorResult = true
              /\ cr_cursor cursorResult = Some c /\ (c =? 0) = false).
    { unfold usableCursor in Eu. destruct o as [cursorResult|e]; [|discriminate].
      exists cursorResult. destruct (cr_success cursorResult); [|discriminate].
      destruct (cr_cursor cursorResult) as [c'|]; [|discriminate].
      destruct (c' =? 0) eqn:E0; [discriminate|]. injection Eu as <-. auto. }
    destruct Ho as (cursorResult & -> & Hs & Hc & Hz). rewrite Hs, Hc, Hz.
    set (s1 := logCall opening (setWorld w1 (setWorld w s0))).
    destruct (fetchLatest_run c s1) as (Hcalls & Hcur & Hcache & Hw & Hr).
    simpl world in Hcalls, Hw, Hr.
    destruct (fetchLatest fetchMessageBatch mapRowsToMessages fallbackEmoticons
                c s1) as [tried s2].
    cbn [fst snd] in Hcalls, Hcur, Hcache, Hw, Hr.
    unfold closeCursor. rewrite Hw.
    destruct (closeMessageCursor c _) as [closed w3]. cbn [fst snd].
    assert (Hcalls' : calls (logCall (CClose c) (setWorld w3 s2))
                      = calls s0 ++ [opening;
                                     CFetch c (rowCount (fetchMessageBatch c w1).1);
                                     CClose c]).
    { simpl. rewrite Hcalls. simpl. now rewrite <- !app_assoc. }
    destruct closed as [[]|e].
    + destruct (pageRows (fetchMessageBatch c w1).1) as [rows|].
      * rewrite Hr. cbn [fst snd]. rewrite Hcalls'. simpl. auto.
      * destruct tried as [r|e]; cbn [fst snd]; rewrite Hcalls'; simpl; auto.
    + cbn [fst snd]. rewrite Hcalls'. simpl.
      destruct (pageRows (fetchMessageBatch c w1).1); auto.
  - assert (Hfailed : forall r, r = openFailure o ->
      let s1 := logCall opening (setWorld w1 (setWorld w s0)) in
      messageCursors (r, s1).2 = messageCursors s0
      /\ messageCache (r, s1).2 = messageCache s0
      /\ calls (r, s1).2 = calls s0 ++ [opening]
      /\ (r, s1).1 = openFailure o).
    { intros r ->. simpl. auto. }
    unfold usableCursor in Eu.
    destruct o as [cursorResult|e]; [|now apply Hfailed].
    destruct (cr_success cursorResult); [|now apply Hfailed].
    destruct (cr_cursor cursorResult) as [c|]; [|now apply Hfailed].
    destruct (c =? 0); [now apply Hfailed|discriminate].
Qed.

End LatestFacts.

End LatestMessagesFacts.

Module SearchCacheFacts.
Import ImagePathResolver.

Section SearchCache.

Context {World : Type}.
Variable walkForDatInWorker :
  string -> string -> Z -> bool -> bool -> World -> option string * World.
Variable pathExists : string -> World -> bool.
Variable basename : string -> string.
Variable extname : string -> string.
Variable join : list string -> string.

Abbreviation State := (ResolverState (World := World)).
Abbreviation search :=
  (searchDatFile walkForDatInWorker pathExists basename extname join).

Lemma given_idem (o : option string) (v : string) :
  given o = Some v -> given (Some v) = Some v.
Proof.
  unfold given. destruct o as [w|]; [|discriminate].
  destruct (String.eqb_spec w ""); [discriminate|]. intros [= <-].
  destruct (String.eqb_spec w ""); [contradiction|reflexivity].
Qed.

(** X15. A file that [searchDatFile] found is found again without a walk
    of the directory tree: a second search for the same name, in the state
    the first one left, answers with the same path from the cache as long
    as the file still exists and, if thumbnails are not allowed, is no
    thumbnail. *)
Theorem searchDatFile_cached_again (accountDir datName : string)
  (allowThumbnail again : bool) (s0 s1 : State) (found : string) :
  search accountDir datName allowThumbnail s0 = (Some found, s1) ->
  pathExists found (rworld s1) = true ->
  again = true \/ isThumbnailPath basename extname found = false ->
  search accountDir datName again s1 = (Some found, note (ESearch datName) s1).
Proof.
  intros Hfirst Hex Hthumb.
  assert (Hcached : given (resolvedCache s1 !! (accountDir +:+ "|" +:+ datName))
                    = Some found).
  { unfold searchDatFile in Hfirst. simpl in Hfirst.
    assert (Hwalk :
      (if negb (pathExists (join [accountDir; "msg"; "attach"]) (rworld s0))
       then (None, note (ESearch datName) s0)
       else
         let '(r, w) :=
           walkForDatInWorker (join [accountDir; "msg"; "attach"])
             (JsString.toLowerCase datName) 8 allowThumbnail false (rworld s0) in
         match given r with
         | Some f =>
             (Some f,
              cacheSet (accountDir +:+ "|" +:+ datName) f
                (mkResolverState (resolvedCache s0) w
                   (effects s0 ++ [ESearch datName]
                    ++ [EWalk (join [accountDir; "msg"; "attach"])
                          (JsString.toLowerCase datName)])))
         | None =>
             (None,
              mkResolverState (resolvedCache s0) w
                (effects s0 ++ [ESearch datName]
                 ++ [EWalk (join [accountDir; "msg"; "attach"])
                       (JsString.toLowerCase datName)]))
         end) = (Some found, s1) ->
      given (resolvedCache s1 !! (accountDir +:+ "|" +:+ datName)) = Some found).
    { destruct (negb _); [discriminate|].
      destruct (walkForDatInWorker _ _ _ _ _ _) as [r w].
      destruct (given r) as [f|] eqn:Ef; [|discriminate].
      intros [= <- <-]. simpl. rewrite lookup_insert_eq.
      eapply given_idem, Ef. }
    destruct (given (resolvedCache s0 !! _)) as [c|] eqn:Ec.
    - destruct (pathExists c (rworld s0) && _) eqn:Eh.
      + injection Hfirst as <- <-. exact Ec.
      + apply Hwalk. rewrite <- Hfirst. now rewrite <- !app_assoc.
    - apply Hwalk. rewrite <- Hfirst. now rewrite <- !app_assoc. }
  unfold searchDatFile. simpl. rewrite Hcached, Hex.
  destruct Hthumb as [-> | ->]; [reflexivity|].
  now rewrite orb_true_r.
Qed.

End SearchCache.

(** A search that walks the tree and finds a file, then the same search
    again. *)
Lemma searchDatFile_cached_again_witness :
  let search :=
    searchDatFile SimLinks.walkForDatInWorker SimLinks.pathExists
      SimLinks.basename SimLinks.extname SimLinks.join in
  let s1 := (search "/acct" "abc.dat" false SimLinks.start).2 in
  search "/acct" "abc.dat" false s1
  = (Some SimLinks.walkedPath, note (ESearch "abc.dat") s1).
Proof.
  apply (searchDatFile_cached_again SimLinks.walkForDatInWorker
           SimLinks.pathExists SimLinks.basename SimLinks.extname SimLinks.join
           "/acct" "abc.dat" false false SimLinks.start).
  - reflexivity.
  - reflexivity.
  - right. reflexivity.
Defined.

End SearchCacheFacts.

Module TranscriptCacheFacts.
Import ImagePathResolver TranscriptFlight TranscriptCache.

Lemma mapSet_length (m : OrderedMap) (k v : string) :
  (length (mapSet m k v) <= S (length m))%nat
  /\ (length m <= length (mapSet m k v))%nat.
Proof.
  induction m as [|[k' v'] m [IH1 IH2]]; simpl; [lia|].
  destruct (String.eqb k' k); simpl; lia.
Qed.

Lemma mapSet_keys (m : OrderedMap) (k v : string) :
  k <> "" -> Forall (fun p => p.1 <> "") m ->
  Forall (fun p => p.1 <> "") (mapSet m k v).
Proof.
  intros Hk Hm. induction Hm as [|[k' v'] m H0 Hm IH]; simpl.
  - apply List.Forall_cons; [exact Hk|apply List.Forall_nil].
  - destruct (String.eqb k' k); apply List.Forall_cons; auto.
Qed.

Lemma mapSet_head (m : OrderedMap) (k v k0 v0 : string) (rest : OrderedMap) :
  mapSet m k v = (k0, v0) :: rest -> k0 = k -> (length rest < length m)%nat
  \/ m = [].
Proof.
  destruct m as [|[k' v'] m]; simpl; [auto|].
  destruct (String.eqb_spec k' k) as [->|Hne].
  - intros [= <- <- <-] _. left. simpl. lia.
  - intros [= <- <- <-] ->. contradiction.
Qed.

Lemma cacheVoiceTranscript_bounded (m : OrderedMap) (k v : string) :
  k <> "" -> Forall (fun p => p.1 <> "") m ->
  (length m <= voiceCacheMaxEntries)%nat ->
  (length (cacheVoiceTranscript m k v) <= voiceCacheMaxEntries)%nat
  /\ Forall (fun p => p.1 <> "") (cacheVoiceTranscript m k v)
  /\ mapGet (cacheVoiceTranscript m k v) k = Some v.
Proof.
  intros Hk Hm Hlen. unfold cacheVoiceTranscript.
  pose proof (mapSet_length m k v) as [Hl1 Hl2].
  pose proof (mapSet_keys m k v Hk Hm) as Hkeys.
  pose proof (TranscriptFlightFacts.mapGet_mapSet_same m k v) as Hget.
  destruct (voiceCacheMaxEntries <? length (mapSet m k v))%nat eqn:E.
  - apply Nat.ltb_lt in E.
    destruct (mapSet m k v) as [|[k0 v0] rest] eqn:Es; [simpl in E; lia|].
    inversion Hkeys as [|? ? Hk0 Hrest]; subst. simpl in Hk0.
    destruct (String.eqb_spec k0 ""); [contradiction|].
    simpl in *. split; [lia|]. split; [assumption|].
    destruct (String.eqb_spec k0 k) as [->|Hne]; [|assumption].
    exfalso. destruct (mapSet_head m k v k v0 rest Es eq_refl) as [H| ->].
    + lia.
    + simpl in Es. injection Es as <- <-. simpl in E.
      unfold voiceCacheMaxEntries in E. lia.
  - apply Nat.ltb_ge in E. auto.
Qed.

Lemma getVoiceCacheKey_nonempty (sessionId msgId : string) (createTime : Z) :
  getVoiceCacheKey sessionId msgId createTime <> "".
Proof.
  unfold getVoiceCacheKey. intros H.
  assert (L : forall a b, String.length (a +:+ b)
                          = (String.length a + String.length b)%nat).
  { intros a b. induction a as [|c a IH]; simpl; [reflexivity|]. now rewrite IH. }
  apply (f_equal String.length) in H.
  destruct (createTime =? 0); rewrite !L in H; simpl in H; lia.
Qed.

Lemma step_bounded (e : Event) (s s' : TranscriptState) :
  step e s s' -> Bounded s -> Bounded s'.
Proof.
  intros Hstep (Hlen & Hkeys & Hstarted).
  destruct Hstep as [req throwsAtOnce s|task k result s Hin Hnot|includeMessages s].
  - unfold getVoiceTranscript.
    destruct (msgCreateTime req =? 0); [repeat split; assumption|].
    destruct (given (mapGet _ _)); [repeat split; assumption|].
    destruct (voiceTranscriptPending s !! _); [repeat split; assumption|].
    simpl. split; [assumption|]. split; [assumption|].
    apply Forall_app. split; [assumption|].
    apply List.Forall_cons; [apply getVoiceCacheKey_nonempty|apply List.Forall_nil].
  - unfold finish. simpl.
    assert (Hk : k <> "").
    { rewrite Forall_forall in Hstarted. apply (Hstarted (task, k)), Hin. }
    destruct (t_success result); [|repeat split; assumption].
    destruct (given (t_transcript result)) as [transcript|];
      [|repeat split; assumption].
    destruct (cacheVoiceTranscript_bounded (voiceTranscriptCache s) k transcript
                Hk Hkeys Hlen) as (H1 & H2 & _).
    repeat split; assumption.
  - unfold clearCaches. destruct includeMessages; [|repeat split; assumption].
    unfold Bounded. simpl. split; [unfold voiceCacheMaxEntries; lia|].
    split; [apply List.Forall_nil|assumption].
Qed.

(** X16. The transcript cache never holds more than 50 entries, whatever
    requests, task completions and clearings have happened; and a
    transcript that is cached under a key is found under that key right
    after, in a cache that again holds no more than 50 entries. *)
Theorem transcript_cache_bounded (s : TranscriptState) :
  reachable s ->
  (length (voiceTranscriptCache s) <= 50)%nat
  /\ forall sessionId msgId createTime transcript,
       let key := getVoiceCacheKey sessionId msgId createTime in
       let cache := cacheVoiceTranscript (voiceTranscriptCache s) key transcript in
       mapGet cache key = Some transcript /\ (length cache <= 50)%nat.
Proof.
  intros Hs.
  assert (Hb : Bounded s).
  { induction Hs as [|e s s' _ IH Hstep].
    - split; [simpl; unfold voiceCacheMaxEntries; lia|].
      split; apply List.Forall_nil.
    - eapply step_bounded; eauto. }
  destruct Hb as (Hlen & Hkeys & _). split; [exact Hlen|].
  intros sessionId msgId createTime transcript key cache.
  destruct (cacheVoiceTranscript_bounded (voiceTranscriptCache s) key transcript
              (getVoiceCacheKey_nonempty _ _ _) Hkeys Hlen) as (H1 & _ & H3).
  split; assumption.
Qed.

(** The state after a first request for a transcript. *)
Lemma transcript_cache_bounded_witness :
  (length (voiceTranscriptCache
             (getVoiceTranscript SimFlight.voiceRequest false initial).2) <= 50)%nat.
Proof.
  apply (transcript_cache_bounded
           (getVoiceTranscript SimFlight.voiceRequest false initial).2).
  apply (reach_step (Requested SimFlight.voiceRequest false) initial);
    [apply reach_initial|apply step_request].
Defined.

End TranscriptCacheFacts.

Module DatNameFacts.
Import JsString ImagePathResolver TextFacts.

Lemma substring_length (n : nat) (s : string) :
  (n <= String.length s)%nat -> String.length (String.substring 0 n s) = n.
Proof.
  revert s. induction n as [|n IH]; intros s H.
  - now destruct s.
  - destruct s as [|c s]; simpl in *; [lia|]. rewrite IH; lia.
Qed.

Lemma substring_prefix (n : nat) (s : string) :
  String.prefix (String.substring 0 n s) s = true.
Proof.
  revert s. induction n as [|n IH]; intros s.
  - now destruct s.
  - destruct s as [|c s]; simpl; [reflexivity|].
    destruct (Ascii.ascii_dec c c); [apply IH|contradiction].
Qed.

Lemma prefix_trans (a b c : string) :
  String.prefix a b = true -> String.prefix b c = true ->
  String.prefix a c = true.
Proof.
  revert b c. induction a as [|x a IH]; intros b c Hab Hbc.
  - now destruct c.
  - destruct b as [|y b]; [discriminate|]. destruct c as [|z c]; [discriminate|].
    simpl in *. destruct (Ascii.ascii_dec x y) as [->|]; [|discriminate].
    destruct (Ascii.ascii_dec y z) as [->|]; [|discriminate].
    eapply IH; eauto.
Qed.

Lemma prefix_refl (a : string) : String.prefix a a = true.
Proof.
  induction a as [|x a IH]; simpl; [reflexivity|].
  destruct (Ascii.ascii_dec x x); [assumption|contradiction].
Qed.

Lemma dropLast_prefix (k : nat) (s : string) :
  String.prefix (dropLast k s) s = true.
Proof. apply substring_prefix. Qed.

Lemma dropLast_length (k : nat) (s : string) :
  String.length (dropLast k s) = (String.length s - k)%nat.
Proof. unfold dropLast. apply substring_length. lia. Qed.

Lemma hasVariantSuffix_length (base : string) :
  hasVariantSuffix base = true -> (2 <= String.length base)%nat.
Proof.
  unfold hasVariantSuffix. rewrite <- chars_length, <- length_rev.
  destruct (rev _) as [|c [|sep l]]; simpl; try discriminate. lia.
Qed.

Lemma stripVariants_spec (rounds : nat) :
  forall base,
    String.prefix (stripVariants rounds base) base = true
    /\ ((String.length base <= 2 * rounds)%nat ->
        hasVariantSuffix (stripVariants rounds base) = false).
Proof.
  induction rounds as [|rounds IH]; intros base; simpl.
  - split; [apply prefix_refl|]. intros H. destruct base; [reflexivity|].
    simpl in H. lia.
  - destruct (hasVariantSuffix base) eqn:E.
    + destruct (IH (dropLast 2 base)) as [Hp Hs]. split.
      * eapply prefix_trans; [exact Hp|apply dropLast_prefix].
      * intros H. apply Hs. rewrite dropLast_length.
        apply hasVariantSuffix_length in E. lia.
    + split; [apply prefix_refl|auto].
Qed.

(** X17. [normalizeDatBase] ends only when no variant suffix is left: its
    result never ends in [.] or [_] followed by a lower-case letter, and it
    is a prefix of the lower-cased name. *)
Theorem normalizeDatBase_normal (name : string) :
  hasVariantSuffix (normalizeDatBase name) = false
  /\ String.prefix (normalizeDatBase name) (toLowerCase name) = true.
Proof.
  unfold normalizeDatBase.
  set (lower := toLowerCase name).
  set (base := if endsWith lower ".dat" || endsWith lower ".jpg"
               then dropLast 4 lower else lower).
  destruct (stripVariants_spec (String.length base) base) as [Hp Hs].
  split; [apply Hs; lia|].
  eapply prefix_trans; [exact Hp|]. unfold base.
  destruct (_ || _); [apply dropLast_prefix|apply prefix_refl].
Qed.

End DatNameFacts.

Module Utf16Facts.
Import Utf16.

Lemma plain_no_surrogate (u : Z) :
  isPlain u = true ->
  isHighSurrogate u = false /\ isLowSurrogate u = false /\ isControl u = false.
Proof.
  unfold isPlain, isHighSurrogate, isLowSurrogate, isControl, between. lia.
Qed.

Lemma filter_plain_wellFormed (input : list Z) :
  wellFormed (List.filter isPlain input) = true.
Proof.
  induction input as [|u input IH]; simpl; [reflexivity|].
  destruct (isPlain u) eqn:E; [|assumption]. simpl.
  destruct (plain_no_surrogate u E) as (-> & -> & _). exact IH.
Qed.

(** Induction that takes one or two code units off the front. *)
Lemma two_step_induction (P : list Z -> Prop) :
  P [] ->
  (forall u, P [u]) ->
  (forall u n rest, P rest -> P (n :: rest) -> P (u :: n :: rest)) ->
  forall l, P l.
Proof.
  intros H0 H1 H2 l.
  assert (G : P l /\ forall u, P (u :: l)).
  { induction l as [|n rest [IH1 IH2]]; [auto|]. split; [apply IH2|].
    intros u. apply H2; auto. }
  apply G.
Qed.

Lemma validUnitsOf_spec (codeUnits : list Z) :
  wellFormed (validUnitsOf codeUnits) = true
  /\ validUnitsOf codeUnits `sublist_of` codeUnits.
Proof.
  induction codeUnits as [|u|u n rest [IH1 IH2] [IH3 IH4]]
    using two_step_induction.
  - split; [reflexivity|constructor].
  - simpl. destruct (isHighSurrogate u) eqn:Eh.
    + split; [reflexivity|]. apply sublist_nil_l.
    + destruct (isLowSurrogate u) eqn:El; simpl.
      * split; [reflexivity|]. apply sublist_nil_l.
      * rewrite Eh, El. split; reflexivity.
  - assert (E : validUnitsOf (u :: n :: rest)
               = if isHighSurrogate u then
                   if isLowSurrogate n then u :: n :: validUnitsOf rest
                   else validUnitsOf (n :: rest)
                 else if isLowSurrogate u then validUnitsOf (n :: rest)
                 else u :: validUnitsOf (n :: rest)) by reflexivity.
    rewrite E. clear E. destruct (isHighSurrogate u) eqn:Eh.
    + destruct (isLowSurrogate n) eqn:El.
      * split.
        -- cbn [wellFormed]. now rewrite Eh, El.
        -- now apply sublist_skip, sublist_skip.
      * split; [assumption|]. now apply sublist_cons.
    + destruct (isLowSurrogate u) eqn:El.
      * split; [assumption|]. now apply sublist_cons.
      * split.
        -- cbn [wellFormed]. now rewrite Eh, El.
        -- now apply sublist_skip.
Qed.

Lemma filter_sublist (p : Z -> bool) (l : list Z) :
  List.filter p l `sublist_of` l.
Proof.
  induction l as [|x l IH]; simpl; [constructor|].
  destruct (p x); [now apply sublist_skip|now apply sublist_cons].
Qed.

Section CleanFacts.

Variable fromCharCodeThrows : list Z -> bool.

(** X18. The text that [cleanUtf16] returns is made of code units of its
    input in their order; every surrogate in it belongs to a pair of a high
    and a low surrogate; and it holds no control character of the class
    [\x00-\x08\x0B-\x0C\x0E-\x1F\x7F-\x9F]. This holds on both ways out of
    the function, with and without the exception of
    [String.fromCharCode]. *)
Theorem cleanUtf16_well_formed (input : list Z) :
  let output := cleanUtf16 fromCharCodeThrows input in
  output `sublist_of` input
  /\ wellFormed output = true
  /\ Forall (fun u => isControl u = false) output.
Proof.
  intros output. subst output. unfold cleanUtf16.
  destruct input as [|u0 input0]; [repeat split; constructor|].
  set (input := u0 :: input0).
  set (cleaned := List.filter (fun u => negb (isControl u)) input).
  destruct (validUnitsOf_spec cleaned) as [Hwf Hsub].
  destruct (fromCharCodeThrows (validUnitsOf cleaned)).
  - split; [apply filter_sublist|]. split; [apply filter_plain_wellFormed|].
    apply Forall_forall. intros u Hu. apply list_elem_of_In, filter_In in Hu.
    now apply plain_no_surrogate.
  - split; [etrans; [exact Hsub|apply filter_sublist]|]. split; [assumption|].
    apply Forall_forall. intros u Hu.
    assert (Hin : u ∈ cleaned) by (eapply elem_of_sublist; eauto).
    apply list_elem_of_In, filter_In in Hin as [_ Hc].
    now apply negb_true_iff.
Qed.

End CleanFacts.

End Utf16Facts.

Module CacheIndexFacts.
Import JsString ImagePathResolver CacheIndex TextFacts.

Section IndexFacts.

Variable basename : string -> string.
Variable extname : string -> string.
Variable join : string -> string -> string.
Hypothesis join_nonempty : forall root entry, join root entry <> "".

Abbreviation full := (holdsFullImage basename extname).
Abbreviation add := (addCacheIndex basename extname).

Lemma addCacheIndex_keeps (key path k : string) (cache : gmap string string) :
  path <> "" -> full cache k -> full (add key path cache) k.
Proof.
  intros Hpath (p & Hp & Hne & Hthumb). unfold addCacheIndex.
  destruct (decide (toLowerCase key = k)) as [<-|Hk].
  - assert (G : given (cache !! toLowerCase key) = Some p)
      by (apply given_Some; auto).
    rewrite G, Hthumb. simpl.
    destruct (isThumbnailPath basename extname path) eqn:E.
    + exists p. auto.
    + exists path. rewrite lookup_insert_eq. auto.
  - assert (Hins : full (<[toLowerCase key := path]> cache) k).
    { exists p. rewrite lookup_insert_ne by assumption. auto. }
    destruct (given _); [|exact Hins].
    destruct (_ && _); [exists p; auto|exact Hins].
Qed.

Lemma addCacheIndex_full (key path : string) (cache : gmap string string) :
  path <> "" -> isThumbnailPath basename extname path = false ->
  full (add key path cache) (toLowerCase key).
Proof.
  intros Hpath Hthumb. unfold addCacheIndex.
  exists path. destruct (given _); rewrite ?Hthumb, ?andb_false_r;
    rewrite lookup_insert_eq; auto.
Qed.

Lemma indexFile_keeps (root entry k : string) (cache : gmap string string) :
  full cache k -> full (indexFile basename extname join root entry cache) k.
Proof.
  intros H. unfold indexFile. destruct (find _ _); [|assumption].
  destruct (_ && _); repeat apply addCacheIndex_keeps; auto.
Qed.

Lemma fold_keeps (f : gmap string string -> Entry -> gmap string string)
  (entries : list Entry) (k : string) :
  Forall (fun e => forall c, full c k -> full (f c e) k) entries ->
  forall cache, full cache k -> full (fold_left f entries cache) k.
Proof.
  induction 1 as [|e es He _ IH]; intros cache H; simpl; [assumption|].
  apply IH, He, H.
Qed.

Lemma indexEntry_keeps (entry : Entry) (k : string) :
  forall maxDepth depth root cache,
    full cache k ->
    full (indexEntry basename extname join maxDepth depth root entry cache) k.
Proof.
  induction entry as [name|name|name|name|name entries IH]
    using Entry_induction; intros maxDepth depth root cache H; simpl;
    try assumption.
  - now apply indexFile_keeps.
  - now destruct (depth <? maxDepth).
  - destruct (depth <? maxDepth); [|assumption].
    apply fold_keeps; [|assumption].
    eapply Forall_impl; [exact IH|]. intros e He c Hc. now apply He.
Qed.

(** X19. The index of the decrypted images never trades a full image for
    a thumbnail: a key under which the resolved cache holds a path that is
    no thumbnail still holds such a path after [indexCacheDir] has gone
    through a directory tree, whatever the tree holds; and an image file in
    the directory itself whose path is no thumbnail leaves a full image
    under its lower-cased base name. *)
Theorem indexCacheDir_keeps_full_images (root : string)
  (listing : option (list Entry)) (maxDepth depth : Z)
  (cache : gmap string string) :
  let indexed :=
    indexCacheDir basename extname join root listing maxDepth depth cache in
  (forall key, full cache key -> full indexed key)
  /\ (forall entries name ext,
        listing = Some entries -> File name ∈ entries ->
        find (fun item => endsWith (toLowerCase name) item) extensions = Some ext ->
        isThumbnailPath basename extname (join root name) = false ->
        full indexed (toLowerCase (dropLast (String.length ext) name))).
Proof.
  intros indexed. subst indexed.
  assert (Hkeep : forall entries c key, full c key ->
            full (fold_left
                    (fun c e => indexEntry basename extname join maxDepth depth
                                  root e c) entries c) key).
  { intros entries c key H. apply fold_keeps; [|assumption].
    apply Forall_forall. intros e _ c' Hc'. now apply indexEntry_keeps. }
  split.
  - intros key H. destruct listing as [entries|]; simpl; [|assumption].
    now apply Hkeep.
  - intros entries name ext -> Hin Hext Hthumb. simpl.
    apply list_elem_of_split in Hin as (before & after & ->).
    rewrite fold_left_app. simpl. apply Hkeep.
    unfold indexFile. rewrite Hext.
    destruct (_ && _).
    + apply addCacheIndex_keeps; [apply join_nonempty|].
      apply addCacheIndex_full; [apply join_nonempty|assumption].
    + apply addCacheIndex_full; [apply join_nonempty|assumption].
Qed.

End IndexFacts.

(** A cache directory that holds one full image. *)
Lemma indexCacheDir_keeps_full_images_witness :
  holdsFullImage SimLinks.basename SimLinks.extname
    (indexCacheDir SimLinks.basename SimLinks.extname SimCache.join "/cache"
       (Some [File "ABC.jpg"]) 2 0 ∅)
    "abc".
Proof.
  assert (Hjoin : forall root entry, SimCache.join root entry <> "").
  { intros root entry. unfold SimCache.join. destruct root; discriminate. }
  destruct (indexCacheDir_keeps_full_images SimLinks.basename SimLinks.extname
              SimCache.join Hjoin "/cache" (Some [File "ABC.jpg"]) 2 0 ∅)
    as [_ Hfile].
  apply (Hfile [File "ABC.jpg"] "ABC.jpg" ".jpg").
  - reflexivity.
  - apply list_elem_of_here.
  - reflexivity.
  - reflexivity.
Defined.

End CacheIndexFacts.

Module ChatImageFacts.
Import Buf BufFacts ImageDecryptService ImageDecryptFacts ChatImage.

Lemma getDatVersion_same (data : list byte) :
  getDatVersion data = getDatVersionOf data.
Proof.
  unfold getDatVersion, getDatVersionOf, equals.
  destruct (len data <? 6) eqn:E; [reflexivity|].
  assert (Hlen : length (subarray data 0 6) = 6%nat).
  { rewrite subarray_prefix by lia. rewrite length_firstn.
    unfold len in E. lia. }
  assert (Heq : forall sig, length sig = 6%nat ->
            bool_decide (subarray data 0 6 = sig)
            = compareBytes (subarray data 0 6) sig).
  { intros sig Hs. destruct (compareBytes _ sig) eqn:Ec.
    - apply bool_decide_eq_true. apply compareBytes_eq in Ec. exact Ec.
    - apply bool_decide_eq_false. intros Hsame.
      assert (compareBytes (subarray data 0 6) sig = true)
        by (apply compareBytes_eq; exact Hsame).
      congruence. }
  rewrite !Heq by reflexivity. reflexivity.
Qed.

Section PathFacts.

Variable aes128ecb : list byte -> list byte -> list byte.
Variable trim : string -> string.              (* String.prototype.trim *)

Lemma decryptDatAuto_on (fs : FS) (datPath : string) (data : list byte)
  (xorKey : Z) (aesKey : option (list byte)) :
  fs datPath = Some data ->
  decryptDatAuto aes128ecb fs datPath xorKey aesKey
  = (if getDatVersionOf data =? 0 then Ok (xorBytes data xorKey)
     else if getDatVersionOf data =? 1 then
       let! key := asciiKey16 defaultV1AesKey in
       decryptDatV4Of aes128ecb data xorKey key
     else
       match aesKey with
       | None => Err EKeyConfig
       | Some key =>
           if negb (len key =? 16) then Err EKeyConfig
           else decryptDatV4Of aes128ecb data xorKey key
       end).
Proof.
  intros Hfile.
  unfold decryptDatAuto, ImageDecryptService.getDatVersion, decryptDatV3,
    decryptDatV4, existsSync, readFileSync. rewrite Hfile. reflexivity.
Qed.

(** X20. Given the same keys, the chat service and the image service
    decrypt a container to the same bytes or fail with the same exception
    whenever the AES key has at least 16 characters after trimming, and
    also without a key unless the container is of version 2; a container
    of version 2 without a key is refused by both, each with its own
    message. With a key of 1 to 15 characters after trimming the image
    service fails on every container, because it resolves the key before it
    looks at the container, while the chat service still decrypts a
    container without signature by XOR. The trimming is that of
    [String.prototype.trim], of which only that it leaves the empty string
    empty is used. *)
Theorem decryption_paths_agree (fs : FS) (datPath : string) (data : list byte)
  (xorKey : Z) (aesKeyRaw : option string) :
  trim "" = "" ->
  fs datPath = Some data ->
  let trimmed := trim (default "" aesKeyRaw) in
  let chat := decryptData aes128ecb trim data xorKey aesKeyRaw in
  let image :=
    decryptWithConfiguredKey aes128ecb trim fs datPath xorKey aesKeyRaw in
  ((16 <= String.length trimmed)%nat -> chat = ofResult image)
  /\ (trimmed = "" ->
      if getDatVersionOf data =? 2
      then chat = NeedsV4Key /\ image = Err EKeyConfig
      else chat = ofResult image)
  /\ (trimmed <> "" -> (String.length trimmed < 16)%nat ->
      image = Err EKeyTooShort
      /\ (getDatVersionOf data = 0 -> chat = Decrypted (xorBytes data xorKey))).
Proof.
  intros Hempty Hfile trimmed chat image. subst chat image.
  assert (Hresolve : (match aesKeyRaw with
                      | Some raw => trim raw
                      | None => ""
                      end) = trimmed).
  { unfold trimmed. destruct aesKeyRaw; simpl; [reflexivity|now rewrite Hempty]. }
  assert (Hversion : getDatVersionOf data = 0 \/ getDatVersionOf data = 1
                     \/ getDatVersionOf data = 2).
  { unfold getDatVersionOf. repeat destruct (_ : bool); auto. }
  split; [|split].
  - intros Hlen. unfold decryptData, decryptWithConfiguredKey, resolveAesKey.
    rewrite getDatVersion_same, Hresolve. fold trimmed.
    destruct (String.eqb_spec trimmed "") as [E|Hne].
    { rewrite E in Hlen. simpl in Hlen. lia. }
    replace (String.length trimmed <? 16)%nat with false
      by (symmetry; apply Nat.ltb_ge; lia).
    simpl. destruct (asciiKey16 trimmed) as [key|e] eqn:Ek.
    + simpl. rewrite (decryptDatAuto_on fs datPath data) by assumption.
      assert (Hk : len key = 16) by (eapply asciiKey16_length; eauto).
      rewrite Hk. simpl.
      destruct (getDatVersionOf data =? 0); [reflexivity|].
      destruct (getDatVersionOf data =? 1); reflexivity.
    + unfold asciiKey16 in Ek.
      destruct (Z.of_nat (String.length trimmed) <? 16) eqn:El; [lia|].
      discriminate.
  - intros E. unfold decryptData, decryptWithConfiguredKey, resolveAesKey.
    rewrite getDatVersion_same, Hresolve. fold trimmed. rewrite E. simpl.
    rewrite (decryptDatAuto_on fs datPath data) by assumption.
    destruct Hversion as [-> | [-> | ->]]; simpl; auto.
  - intros Hne Hlen. split.
    + unfold decryptWithConfiguredKey, resolveAesKey. rewrite Hresolve.
      destruct (String.eqb_spec trimmed ""); [contradiction|].
      unfold asciiKey16.
      destruct (Z.of_nat (String.length trimmed) <? 16) eqn:El; [reflexivity|lia].
    + intros Hv. unfold decryptData. now rewrite getDatVersion_same, Hv.
Qed.

End PathFacts.

(** A V2 container with a configured key of sixteen characters, on which
    the two services agree, and with one of five characters, which the image
    service refuses; the keys have no white space at their ends, so that
    trimming leaves them as they are. *)
Lemma decryption_paths_agree_witness :
  decryptData Samples.plainCipher SimMedia.trim Samples.v2Dat 0
    (Some "0123456789abcdef")
  = ofResult (decryptWithConfiguredKey Samples.plainCipher SimMedia.trim
                (singleFile "a.dat" Samples.v2Dat) "a.dat" 0
                (Some "0123456789abcdef"))
  /\ decryptWithConfiguredKey Samples.plainCipher SimMedia.trim
       (singleFile "a.dat" Samples.v2Dat) "a.dat" 0 (Some "short")
     = Err EKeyTooShort.
Proof.
  split.
  - destruct (decryption_paths_agree Samples.plainCipher SimMedia.trim
                (singleFile "a.dat" Samples.v2Dat) "a.dat" Samples.v2Dat 0
                (Some "0123456789abcdef") eq_refl eq_refl) as (Hlong & _ & _).
    apply Hlong. simpl. lia.
  - destruct (decryption_paths_agree Samples.plainCipher SimMedia.trim
                (singleFile "a.dat" Samples.v2Dat) "a.dat" Samples.v2Dat 0
                (Some "short") eq_refl eq_refl) as (_ & _ & Hshort).
    apply Hshort.
    + discriminate.
    + simpl. lia.
Defined.

End ChatImageFacts.

(** ** Text placed in SQL queries *)

Module SqlTextFacts.
Import SqlText.

Lemma text_app_assoc (a b c : string) : (a +:+ b) +:+ c = a +:+ (b +:+ c).
Proof.
  induction a as [|x a IH]; [reflexivity|].
  change (String x ((a +:+ b) +:+ c) = String x (a +:+ b +:+ c)).
  now rewrite IH.
Qed.

(** X21. A text escaped with [escapeSqlString] and closed by a quote is
    read back by SQL as one string literal with the text as its value,
    whatever quotes the text holds: the literal ends at the closing quote
    that the query adds, and what follows it is still outside the literal.
    This holds for the queries of [resolveHardlinkPath] and
    [resolveChatNameId], which place the content hash and the sender in
    such a literal. *)
Theorem escapeSqlString_literal (value after : string) :
  beginsWithQuote after = false ->
  readLiteral (escapeSqlString value +:+ "'" +:+ after) = Some (value, after)
  /\ (forall imageTable, exists before,
        hardlinkQuery imageTable value
        = before +:+ "'" +:+ escapeSqlString value +:+ "'" +:+ ") LIMIT 1")
  /\ (forall column name2IdTable, exists before,
        nameIdQuery column name2IdTable value
        = before +:+ "'" +:+ escapeSqlString value +:+ "'" +:+ " LIMIT 1").
Proof.
  intros Hafter. split; [|split].
  - induction value as [|c value IH].
    + destruct after as [|c' after']; [reflexivity|].
      simpl in Hafter. cbn [escapeSqlString].
      change (readLiteral (String "'"%char (String c' after'))
              = Some (EmptyString, String c' after')).
      cbn [readLiteral]. rewrite Hafter. reflexivity.
    + cbn [escapeSqlString]. destruct (isQuote c) eqn:Ec.
      * change (readLiteral
                  (String c (String c (escapeSqlString value +:+ "'" +:+ after)))
                = Some (String c value, after)).
        cbn [readLiteral]. rewrite Ec, IH. reflexivity.
      * change (readLiteral (String c (escapeSqlString value +:+ "'" +:+ after))
                = Some (String c value, after)).
        cbn [readLiteral]. rewrite Ec, IH. reflexivity.
  - intros imageTable.
    exists ("SELECT dir1, dir2, file_name FROM " +:+ imageTable
            +:+ " WHERE lower(md5) = lower(").
    unfold hardlinkQuery. rewrite !text_app_assoc. reflexivity.
  - intros column name2IdTable.
    exists ("SELECT " +:+ column +:+ " AS id FROM " +:+ name2IdTable
            +:+ " WHERE user_name = ").
    unfold nameIdQuery. rewrite !text_app_assoc. reflexivity.
Qed.

(** A content hash that holds a quote. *)
Lemma escapeSqlString_literal_witness :
  readLiteral (escapeSqlString "a'b" +:+ "'" +:+ ") LIMIT 1")
  = Some ("a'b", ") LIMIT 1").
Proof.
  apply (escapeSqlString_literal "a'b" ") LIMIT 1"). reflexivity.
Defined.

End SqlTextFacts.

(** ** The chat service: the search for a container *)

Module ChatDatSearchFacts.
Import JsString CacheIndex ChatDatSearch.

Section SearchFacts.

Variable join : string -> string -> string.

Lemma filesFirst_sound (dir pattern : string) (entries : list Entry)
  (path : string) :
  filesFirst join dir pattern entries = Some (Some path) ->
  exists name,
    File name ∈ entries /\ wanted pattern name = true /\ path = join dir name.
Proof.
  induction entries as [|e entries IH]; simpl; [discriminate|].
  destruct e as [name|name listing|name|name].
  - destruct (wanted pattern name) eqn:Ew.
    + intros [= <-]. exists name. split; [apply list_elem_of_here|auto].
    + intros H. destruct (IH H) as (n & Hin & Hw & Hp).
      exists n. split; [now apply list_elem_of_further|auto].
  - intros H. destruct (IH H) as (n & Hin & Hw & Hp).
    exists n. split; [now apply list_elem_of_further|auto].
  - intros H. destruct (IH H) as (n & Hin & Hw & Hp).
    exists n. split; [now apply list_elem_of_further|auto].
  - discriminate.
Qed.

Lemma filesFirst_first (dir pattern : string) (before after : list Entry)
  (name : string) :
  Forall (passedOver pattern) before ->
  wanted pattern name = true ->
  filesFirst join dir pattern (before ++ File name :: after)
  = Some (Some (join dir name)).
Proof.
  intros Hbefore Hw. induction Hbefore as [|e before He _ IH]; simpl.
  - now rewrite Hw.
  - destruct e as [n|n l|n|n]; simpl in He; try assumption.
    + now rewrite He.
    + destruct He.
Qed.

Lemma searchEntry_unfold (pattern : string) (maxDepth : Z) (dir name : string)
  (listing : option (list Entry)) :
  searchEntry join pattern maxDepth dir (Dir name listing)
  = recursiveSearch join (join dir name) listing pattern maxDepth.
Proof.
  unfold recursiveSearch. cbn [searchEntry].
  destruct (maxDepth <? 0); [reflexivity|].
  destruct listing as [entries|]; [|reflexivity].
  destruct (filesFirst join (join dir name) pattern entries) as [[p|]|];
    try reflexivity.
  induction entries as [|e entries IH]; [reflexivity|].
  cbn [directories]. destruct e; try exact IH; try reflexivity.
  now rewrite IH.
Qed.

Lemma directories_sound (pattern : string) (maxDepth : Z) (dir : string)
  (entries : list Entry) (path : string) :
  Forall (fun e => forall maxDepth dir name listing path,
            e = Dir name listing ->
            recursiveSearch join (join dir name) listing pattern maxDepth
            = Some path ->
            exists es, listing = Some es
                       /\ Found join pattern maxDepth (join dir name) es path)
    entries ->
  directories join pattern maxDepth dir entries = Some path ->
  exists sub es,
    Dir sub (Some es) ∈ entries
    /\ Found join pattern (maxDepth - 1) (join dir sub) es path.
Proof.
  intros Hall. induction Hall as [|e entries He _ IH]; simpl; [discriminate|].
  assert (Hrest : directories join pattern maxDepth dir entries = Some path ->
            exists sub es,
              Dir sub (Some es) ∈ e :: entries
              /\ Found join pattern (maxDepth - 1) (join dir sub) es path).
  { intros H. destruct (IH H) as (sub & es & Hin & Hf).
    exists sub, es. split; [now apply list_elem_of_further|exact Hf]. }
  destruct e as [n|n l|n|n]; try exact Hrest; [|discriminate].
  rewrite searchEntry_unfold.
  destruct (ImagePathResolver.given _) as [found|] eqn:Eg; [|exact Hrest].
  intros [= ->].
  assert (Hs : recursiveSearch join (join dir n) l pattern (maxDepth - 1)
               = Some path).
  { unfold ImagePathResolver.given in Eg.
    destruct (recursiveSearch _ _ _ _ _) as [p|]; [|discriminate].
    destruct (String.eqb p ""); [discriminate|]. exact Eg. }
  destruct (He (maxDepth - 1) dir n l path eq_refl Hs) as (es & -> & Hf).
  exists n, es. split; [apply list_elem_of_here|exact Hf].
Qed.

Lemma recursiveSearch_found (pattern : string) (e : Entry) :
  forall maxDepth dir name listing path,
    e = Dir name listing ->
    recursiveSearch join (join dir name) listing pattern maxDepth = Some path ->
    exists es, listing = Some es
               /\ Found join pattern maxDepth (join dir name) es path.
Proof.
  induction e as [n|n|n|n|n entries IH] using Entry_induction;
    intros maxDepth dir name listing path; try discriminate.
  - intros [= <- <-]. unfold recursiveSearch.
    destruct (maxDepth <? 0); discriminate.
  - intros [= <- <-]. unfold recursiveSearch.
    destruct (maxDepth <? 0) eqn:Ed; [discriminate|].
    destruct (filesFirst join (join dir n) pattern entries) as [[p|]|] eqn:Ef;
      [| |discriminate].
    + intros [= ->]. exists entries. split; [reflexivity|].
      destruct (filesFirst_sound _ _ _ _ Ef) as (fname & Hin & Hw & ->).
      exists 0%nat, fname. split; [now apply file_here|]. split; [lia|exact Hw].
    + intros Hd. exists entries. split; [reflexivity|].
      destruct (directories_sound pattern maxDepth (join dir n) entries path
                  IH Hd) as (sub & es & Hin & depth & fname & Hb & Hle & Hw).
      exists (S depth), fname. split; [eapply file_below; eauto|].
      split; [lia|exact Hw].
Qed.

(** X22. What [recursiveSearch] of the chat service answers is the path
    of a file that lies at most [maxDepth] directories below the directory
    searched and whose lower-cased name holds the pattern, ends in [.dat]
    and carries a variant suffix in front of [.dat]: a container without
    variant suffix is never found. A file of the directory itself that
    passes this test is preferred to the files of the directories below
    it. *)
Theorem recursiveSearch_sound (dir : string) (listing : option (list Entry))
  (pattern : string) (maxDepth : Z) :
  match recursiveSearch join dir listing pattern maxDepth with
  | Some path =>
      exists entries depth name,
        listing = Some entries
        /\ FileBelow join dir entries depth name path
        /\ Z.of_nat depth <= maxDepth
        /\ includes (toLowerCase name) pattern = true
        /\ endsWith (toLowerCase name) ".dat" = true
        /\ hasImageVariantSuffix (dropLast 4 (toLowerCase name)) = true
  | None => True
  end
  /\ (forall before name after,
        listing = Some (before ++ File name :: after) ->
        0 <= maxDepth ->
        wanted pattern name = true ->
        Forall (passedOver pattern) before ->
        recursiveSearch join dir listing pattern maxDepth
        = Some (join dir name)).
Proof.
  split.
  - destruct (recursiveSearch join dir listing pattern maxDepth) as [path|] eqn:E;
      [|exact I].
    unfold recursiveSearch in E.
    destruct (maxDepth <? 0) eqn:Ed; [discriminate|].
    destruct listing as [entries|]; [|discriminate].
    assert (Hfound : Found join pattern maxDepth dir entries path).
    { destruct (filesFirst join dir pattern entries) as [[p|]|] eqn:Ef;
        [| |discriminate].
      - injection E as ->.
        destruct (filesFirst_sound _ _ _ _ Ef) as (fname & Hin & Hw & ->).
        exists 0%nat, fname. split; [now apply file_here|].
        split; [lia|exact Hw].
      - destruct (directories_sound pattern maxDepth dir entries path) as
          (sub & es & Hin & depth & fname & Hb & Hle & Hw); [|exact E|].
        + apply Forall_forall. intros e _. apply recursiveSearch_found.
        + exists (S depth), fname. split; [eapply file_below; eauto|].
          split; [lia|exact Hw]. }
    destruct Hfound as (depth & name & Hb & Hle & Hw).
    exists entries, depth, name. unfold wanted in Hw.
    apply andb_prop in Hw as [Hw H3]. apply andb_prop in Hw as [H1 H2].
    auto 10.
  - intros before name after -> Hdepth Hw Hbefore. unfold recursiveSearch.
    replace (maxDepth <? 0) with false by (symmetry; apply Z.ltb_ge; lia).
    now rewrite filesFirst_first.
Qed.

End SearchFacts.

End ChatDatSearchFacts.

(** ** The names of the decrypted files *)

Module CacheOutputFacts.
Import JsString ImagePathResolver CacheOutput TextFacts AccountNameFacts
  DatNameFacts.

Lemma text_length_app (a b : string) :
  String.length (a +:+ b) = (String.length a + String.length b)%nat.
Proof. induction a as [|c a IH]; simpl; [reflexivity|]. now rewrite IH. Qed.

Lemma substring_all (s : string) :
  String.substring 0 (String.length s) s = s.
Proof. induction s as [|c s IH]; simpl; [reflexivity|]. now rewrite IH. Qed.

Lemma substring_app_l (a b : string) :
  String.substring 0 (String.length a) (a +:+ b) = a.
Proof.
  induction a as [|c a IH]; simpl; [now destruct b|]. now rewrite IH.
Qed.

Lemma substring_app_r (a b : string) (n : nat) :
  String.substring (String.length a) n (a +:+ b) = String.substring 0 n b.
Proof. induction a as [|c a IH]; simpl; [reflexivity|]. exact IH. Qed.

Lemma substring_skip (k n : nat) (a b : string) :
  String.substring (String.length a + k) n (a +:+ b) = String.substring k n b.
Proof. induction a as [|c a IH]; simpl; [reflexivity|]. exact IH. Qed.

Lemma dropLast_app (a b : string) : dropLast (String.length b) (a +:+ b) = a.
Proof.
  unfold dropLast. rewrite text_length_app.
  replace (String.length a + String.length b - String.length b)%nat
    with (String.length a) by lia.
  apply substring_app_l.
Qed.

Lemma endsWith_app (a b : string) : endsWith (a +:+ b) b = true.
Proof.
  unfold endsWith. rewrite text_length_app.
  replace (String.length a + String.length b - String.length b)%nat
    with (String.length a) by lia.
  rewrite substring_app_r, substring_all, String.eqb_refl.
  replace (String.length b <=? String.length a + String.length b)%nat with true
    by (symmetry; apply Nat.leb_le; lia).
  reflexivity.
Qed.

Lemma endsWith_app_short (a b s : string) :
  (String.length s <= String.length b)%nat ->
  endsWith (a +:+ b) s = endsWith b s.
Proof.
  intros H. unfold endsWith. rewrite text_length_app.
  replace (String.length s <=? String.length a + String.length b)%nat with true
    by (symmetry; apply Nat.leb_le; lia).
  replace (String.length s <=? String.length b)%nat with true
    by (symmetry; apply Nat.leb_le; lia).
  replace (String.length a + String.length b - String.length s)%nat
    with (String.length a + (String.length b - String.length s))%nat by lia.
  now rewrite substring_skip.
Qed.

Lemma substring_split (n : nat) (x : string) :
  (n <= String.length x)%nat ->
  x = String.substring 0 n x +:+ String.substring n (String.length x - n) x.
Proof.
  revert n. induction x as [|c x IH]; intros n Hn; simpl in *.
  - destruct n; [reflexivity|lia].
  - destruct n as [|n]; simpl.
    + now rewrite substring_all.
    + change (String c x
              = String c (String.substring 0 n x
                          +:+ String.substring n (String.length x - n) x)).
      f_equal. apply IH. lia.
Qed.

Lemma endsWith_split (x s : string) :
  endsWith x s = true -> exists pre, x = pre +:+ s.
Proof.
  unfold endsWith. intros H. apply andb_prop in H as [Hlen Heq].
  apply Nat.leb_le in Hlen. apply String.eqb_eq in Heq.
  exists (String.substring 0 (String.length x - String.length s) x).
  pose proof (substring_split (String.length x - String.length s) x) as Hsp.
  replace (String.length x - (String.length x - String.length s))%nat
    with (String.length s) in Hsp by lia.
  rewrite Heq in Hsp. apply Hsp. lia.
Qed.

(** A string that ends [a] followed by [b] and is no shorter than [b]
    ends in [b]. *)
Lemma endsWith_app_long (a b s : string) :
  (String.length b <= String.length s)%nat ->
  endsWith (a +:+ b) s = true -> endsWith s b = true.
Proof.
  intros Hlen H. apply endsWith_split in H as [pre Hpre].
  apply (f_equal chars) in Hpre. rewrite !chars_app in Hpre.
  apply app_eq_inv in Hpre as [(k & Hk1 & Hk2)|(k & Hk1 & Hk2)].
  - assert (Hs : s = String.string_of_list_ascii k +:+ b).
    { apply chars_inj. rewrite chars_app, Hk2.
      now rewrite String.list_ascii_of_string_of_list_ascii. }
    rewrite Hs. apply endsWith_app.
  - assert (Hk : k = []).
    { apply (f_equal (@length _)) in Hk2. rewrite List.length_app in Hk2.
      rewrite !chars_length in Hk2. destruct k; [reflexivity|simpl in Hk2; lia]. }
    subst k. simpl in Hk2. apply chars_inj in Hk2. subst s.
    apply (endsWith_app "" b).
Qed.

Lemma lowerAscii_idem (c : Ascii.ascii) : lowerAscii (lowerAscii c) = lowerAscii c.
Proof.
  destruct c as [[] [] [] [] [] [] [] []]; reflexivity.
Qed.

Lemma toLowerCase_idem (s : string) : toLowerCase (toLowerCase s) = toLowerCase s.
Proof.
  induction s as [|c s IH]; simpl; [reflexivity|].
  now rewrite lowerAscii_idem, IH.
Qed.

Lemma toLowerCase_substring (k n : nat) (s : string) :
  toLowerCase (String.substring k n s) = String.substring k n (toLowerCase s).
Proof.
  revert k n. induction s as [|c s IH]; intros k n; simpl.
  - destruct k, n; reflexivity.
  - destruct k as [|k]; [destruct n as [|n]|]; simpl; try reflexivity.
    + now rewrite IH.
    + apply IH.
Qed.

Lemma toLowerCase_dropLast (k : nat) (s : string) :
  toLowerCase (dropLast k s) = dropLast k (toLowerCase s).
Proof.
  unfold dropLast. now rewrite toLowerCase_substring, toLowerCase_length.
Qed.

(** A string that is its own lower case. *)
Lemma stripVariants_lower (rounds : nat) (base : string) :
  toLowerCase base = base ->
  toLowerCase (stripVariants rounds base) = stripVariants rounds base.
Proof.
  revert base. induction rounds as [|rounds IH]; intros base H; simpl; [exact H|].
  destruct (hasVariantSuffix base); [|exact H].
  apply IH. now rewrite toLowerCase_dropLast, H.
Qed.

Lemma normalizeDatBase_lower (name : string) :
  toLowerCase (normalizeDatBase name) = normalizeDatBase name.
Proof.
  unfold normalizeDatBase. apply stripVariants_lower.
  destruct (_ || _).
  - now rewrite toLowerCase_dropLast, toLowerCase_idem.
  - apply toLowerCase_idem.
Qed.

Lemma normalizeDatBase_prefix (name : string) :
  String.prefix (normalizeDatBase name) (toLowerCase name) = true.
Proof.
  unfold normalizeDatBase.
  eapply prefix_trans; [apply (stripVariants_spec _ _)|].
  destruct (_ || _); [apply dropLast_prefix|apply prefix_refl].
Qed.

Lemma includes_prefix (a b needle : string) :
  includes a needle = true -> includes (a +:+ b) needle = true.
Proof.
  induction a as [|c a IH]; simpl.
  - destruct needle as [|x needle]; [intros _; now destruct b|].
    simpl. discriminate.
  - destruct needle as [|x needle]; [reflexivity|].
    simpl. destruct (Ascii.ascii_dec x c) as [->|Hne].
    + destruct (String.prefix needle a) eqn:Ep.
      * intros _.
        assert (Hp : String.prefix needle (a +:+ b) = true).
        { eapply prefix_trans; [exact Ep|apply prefix_app]. }
        now rewrite Hp.
      * intros H. destruct (String.prefix needle (a +:+ b)); [reflexivity|].
        apply IH in H. exact H.
    + intros H. apply IH in H. exact H.
Qed.

Lemma includes_mono (a b needle : string) :
  String.prefix a b = true -> includes a needle = true ->
  includes b needle = true.
Proof.
  intros Hp H. apply prefix_chars in Hp as [rest Hrest].
  assert (Hb : b = a +:+ String.string_of_list_ascii rest).
  { apply chars_inj. rewrite chars_app, Hrest.
    now rewrite String.list_ascii_of_string_of_list_ascii. }
  rewrite Hb. now apply includes_prefix.
Qed.

(** A needle that is a prefix of [a] followed by [c] and more is a prefix
    of [a], or runs over [a] and [c]. *)
Lemma prefix_split (needle a : string) (c : Ascii.ascii) (b : string) :
  String.prefix needle (a +:+ String c b) = true ->
  String.prefix needle a = true
  \/ exists post, needle = a +:+ String c post.
Proof.
  revert needle. induction a as [|x a IH]; intros needle; simpl.
  - destruct needle as [|y needle]; [now left|].
    destruct (Ascii.ascii_dec y c) as [->|]; [|discriminate].
    intros _. right. now exists needle.
  - destruct needle as [|y needle]; [now left|].
    destruct (Ascii.ascii_dec y x) as [->|]; [|discriminate].
    intros H. destruct (IH needle H) as [Hl|(post & ->)].
    + now left.
    + right. now exists post.
Qed.

(** A needle in which [c] occurs at its start only is found in [a]
    followed by [c] and more either in [a] or from [c] on. *)
Lemma includes_boundary (a : string) (c : Ascii.ascii) (b needle : string) :
  (forall pre post, needle = pre +:+ String c post -> pre = "") ->
  includes (a +:+ String c b) needle = true ->
  includes a needle = true \/ includes (String c b) needle = true.
Proof.
  intros Hc. induction a as [|x a IH].
  - intros H. right. exact H.
  - change (String x a +:+ String c b) with (String x (a +:+ String c b)).
    cbn [includes].
    destruct (String.prefix needle (String x (a +:+ String c b))) eqn:Ep.
    + intros _.
      destruct (prefix_split needle (String x a) c b Ep) as [Hl|(post & Hn)].
      * left. now rewrite Hl.
      * specialize (Hc _ _ Hn). discriminate.
    + intros H. destruct (IH H) as [Hl|Hr]; [|now right].
      left. destruct (String.prefix needle (String x a)); [reflexivity|exact Hl].
Qed.

Section OutputFacts.

Variable basename : string -> string.
Variable extname : string -> string.

(** X23. The name under which a decrypted image is stored keeps the kind
    of the container it came from: with one of the extensions that
    [decryptImageInternal] writes, the output of a thumbnail container
    ([.t.dat] or [_t.dat]) is a thumbnail for [isThumbnailPath] and not a
    full image for [isHdPath], and the output of any other container is a
    full image for [isHdPath] and no thumbnail. Node's [basename] and
    [extname] are assumed to give the file name of the output path and its
    extension. *)
Theorem outputName_keeps_kind (datPath ext outputPath : string) :
  ext ∈ finalExtensions ->
  basename outputPath = outputName basename datPath ext ->
  extname (toLowerCase (outputName basename datPath ext)) = ext ->
  let isThumb := isThumbnailDat (toLowerCase (basename datPath)) in
  isThumbnailPath basename extname outputPath = isThumb
  /\ isHdPath basename extname outputPath = negb isThumb.
Proof.
  intros Hext Hbase Hextname isThumb.
  set (name := basename datPath) in *.
  set (lower := toLowerCase name) in *.
  assert (Ethumb : isThumbnailDat lower = isThumb) by reflexivity.
  set (base := if endsWith lower ".dat" then dropLast 4 name else name).
  set (nb := normalizeDatBase base).
  assert (Hname : outputName basename datPath ext
                  = nb +:+ (if isThumb then "_thumb" else "_hd") +:+ ext)
    by reflexivity.
  clearbody isThumb.
  assert (Hlowext : toLowerCase ext = ext).
  { unfold finalExtensions in Hext.
    repeat (apply elem_of_cons in Hext as [->|Hext]; [reflexivity|]).
    now apply elem_of_nil in Hext. }
  assert (Hne : String.eqb ext "" = false).
  { unfold finalExtensions in Hext.
    repeat (apply elem_of_cons in Hext as [->|Hext]; [reflexivity|]).
    now apply elem_of_nil in Hext. }
  assert (Hnb : toLowerCase nb = nb) by apply normalizeDatBase_lower.
  assert (Hlow : toLowerCase (outputName basename datPath ext)
                 = (nb +:+ (if isThumb then "_thumb" else "_hd")) +:+ ext).
  { rewrite Hname, !toLowerCase_app, Hlowext, Hnb.
    rewrite SqlTextFacts.text_app_assoc. now destruct isThumb. }
  assert (Hstrip : dropLast (String.length ext)
                     (toLowerCase (outputName basename datPath ext))
                   = nb +:+ (if isThumb then "_thumb" else "_hd")).
  { rewrite Hlow. apply dropLast_app. }
  unfold isThumbnailPath, isHdPath. rewrite Hbase, Hextname, Hne. simpl negb.
  cbv iota. rewrite Hstrip.
  destruct isThumb.
  - split.
    + destruct (isThumbnailDat (toLowerCase (outputName basename datPath ext)));
        [reflexivity|].
      rewrite (endsWith_app nb "_thumb"). apply orb_true_r.
    + rewrite !endsWith_app_short by (simpl; lia). reflexivity.
  - assert (Hprefix : String.prefix nb lower = true).
    { unfold nb. eapply prefix_trans; [apply normalizeDatBase_prefix|].
      unfold base, lower. destruct (endsWith _ _).
      - rewrite toLowerCase_dropLast. apply dropLast_prefix.
      - apply prefix_refl. }
    assert (Hnone : forall needle,
              needle = ".t.dat" \/ needle = "_t.dat" ->
              includes (toLowerCase (outputName basename datPath ext)) needle
              = false).
    { intros needle Hneedle.
      assert (Hin : includes lower needle = false).
      { unfold isThumbnailDat in Ethumb.
        apply orb_false_elim in Ethumb as [H1 H2].
        destruct Hneedle as [-> | ->]; assumption. }
      destruct (includes (toLowerCase _) needle) eqn:E; [|reflexivity].
      rewrite Hlow in E.
      rewrite SqlTextFacts.text_app_assoc in E.
      change ("_hd" +:+ ext) with (String "_" ("hd" +:+ ext)) in E.
      apply includes_boundary in E as [E|E].
      - rewrite (includes_mono nb lower needle Hprefix E) in Hin. discriminate.
      - exfalso. unfold finalExtensions in Hext.
        repeat (apply elem_of_cons in Hext as [->|Hext];
                [destruct Hneedle as [-> | ->]; vm_compute in E; discriminate|]).
        now apply elem_of_nil in Hext.
      - intros pre post Hn.
        destruct Hneedle as [-> | ->].
        + destruct pre as [|p0 [|p1 [|p2 [|p3 [|p4 [|p5 pre]]]]]];
            simpl in Hn; try discriminate; try reflexivity.
          destruct pre; discriminate.
        + destruct pre as [|p0 [|p1 [|p2 [|p3 [|p4 [|p5 pre]]]]]];
            simpl in Hn; try discriminate; try reflexivity.
          destruct pre; discriminate. }
    unfold isThumbnailDat.
    rewrite (Hnone ".t.dat") by now left.
    rewrite (Hnone "_t.dat") by now right.
    split.
    + rewrite (endsWith_app_short nb "_hd" "_t") by (simpl; lia).
      destruct (endsWith (nb +:+ "_hd") "_thumb") eqn:E; [|reflexivity].
      apply endsWith_app_long in E; [discriminate|simpl; lia].
    + rewrite (endsWith_app nb "_hd"). reflexivity.
Qed.

End OutputFacts.

(** A thumbnail container and the path of its decrypted image. *)
Lemma outputName_keeps_kind_witness :
  SimLinks.isThumbnailPath "/cache/room/2024-05/0123456789abcdef_thumb.jpg"
  = true
  /\ isHdPath SimLinks.basename SimLinks.extname
       "/cache/room/2024-05/0123456789abcdef_thumb.jpg" = false.
Proof.
  apply (outputName_keeps_kind SimLinks.basename SimLinks.extname
           "/acct/msg/attach/a/2024-05/Img/0123456789abcdef_t.dat" ".jpg"
           "/cache/room/2024-05/0123456789abcdef_thumb.jpg").
  - unfold finalExtensions. repeat constructor.
  - reflexivity.
  - reflexivity.
Defined.

End CacheOutputFacts.
